(** * KHashTable: an insertion-ordered, open-addressed blob-to-blob dictionary

    A shallow embedding of [hashtable.h] and the proofs of its main
    properties.  Machine integers are [Z] with the wrap-around written out
    ([u32] for [uint32_t], [usize] for a 64-bit [size_t]); C arrays are
    lists read and written through bounds-checked accessors; every way a
    C run can go wrong (an out-of-bounds access, a NULL dereference, a
    [while (1)] that never breaks) is a [Fault] of the [outcome] monad.

    A [KH_Blob *] is the blob it points to, or [None] for NULL where the
    source tests for it (the two pointers of a pair).  The calls to [free]
    and the ownership rules of the header are not part of the model, apart
    from the two calls on the failure path of [KH_ResizeDict].  [malloc]
    is an oracle: each function that allocates takes the allocator's
    answers as boolean arguments.

    The file has three parts: the functions of the source, in the order of
    the header; the vocabulary of the specifications; the proofs, ending
    with the claims and with runs of the demonstration program. *)

From Stdlib Require Import ZArith Lia Bool List.
From Stdlib.Strings Require Import Byte String Ascii.
From stdpp Require Import base tactics option list numbers.

Local Open Scope Z_scope.

(** ** Outcomes of running C code *)

Inductive fault : Type :=
  | OutOfBounds   (* array access outside the allocation *)
  | NullDeref     (* access through a NULL pointer *)
  | Diverges.     (* a loop that never terminates *)

Inductive outcome (A : Type) : Type :=
  | Ok (a : A)
  | Fault (f : fault).

Arguments Ok {A} a.
Arguments Fault {A} f.

Definition obind {A B : Type} (m : outcome A) (k : A -> outcome B) : outcome B :=
  match m with
  | Ok a => k a
  | Fault f => Fault f
  end.

Notation "'do' x <- m ; k" := (obind m (fun x => k))
  (at level 20, x name, m at level 100, k at level 200,
   format "'[v' 'do'  x  <-  m ; '/' k ']'").

(** ** Machine integers *)

Definition u32 (x : Z) : Z := x mod 2 ^ 32.
Definition usize (x : Z) : Z := x mod 2 ^ 64.

Definition KH_HASH_EMPTY : Z := 0xffffffff.
Definition KH_HASH_DELETED : Z := 0xfffffffe.
Definition KH_NOT_FOUND : Z := usize (-1).

(** ** Arrays *)

Definition rd {A : Type} (a : list A) (i : Z) : outcome A :=
  if (0 <=? i) then
    match a !! Z.to_nat i with
    | Some x => Ok x
    | None => Fault OutOfBounds
    end
  else Fault OutOfBounds.

Definition wr {A : Type} (a : list A) (i : Z) (x : A) : outcome (list A) :=
  if (0 <=? i) && (i <? Z.of_nat (length a))
  then Ok (<[Z.to_nat i := x]> a)
  else Fault OutOfBounds.

(** ** Blobs *)

(** [struct KH_Blob]; the fields carry a [blob_] prefix because [length]
    is the list function. *)
Record KH_Blob : Type := {
  blob_length : Z;
  blob_hash : Z;
  blob_data : list byte;
}.

Definition byte_val (b : byte) : Z := Z.of_N (Byte.to_N b).

#[global] Instance byte_eq_decision : EqDecision byte := Byte.byte_eq_dec.

(** One round of the loop body: [hash = ((hash << 5) + hash) ^ buffer[i]]. *)
Definition KH_Hash_round (hash : Z) (b : byte) : Z :=
  u32 (Z.lxor (u32 (u32 (Z.shiftl hash 5) + hash)) (byte_val b)).

Definition KH_Hash (buffer : list byte) (length : Z) : Z :=
  fold_left KH_Hash_round (take (Z.to_nat length) buffer) 5381.

(** [malloc_ok] is the allocator's answer; [None] is the NULL return. *)
Definition KH_CreateBlob (malloc_ok : bool) (buffer : list byte) (length : Z)
  : option KH_Blob :=
  if malloc_ok then
    Some {| blob_length := length;
            blob_hash := KH_Hash buffer length;
            blob_data := take (Z.to_nat length) buffer |}
  else None.

Definition bytes_of_string (s : string) : list byte :=
  map byte_of_ascii (list_ascii_of_string s).

(** [strlen]: the number of bytes before the first NUL. *)
Fixpoint strlen (buffer : list byte) : Z :=
  match buffer with
  | [] => 0
  | b :: rest => if Byte.eqb b x00 then 0 else usize (1 + strlen rest)
  end.

(** The C string [str] is the bytes of [str] and a terminating NUL;
    [strlen(str) + 1] makes the NUL part of the blob. *)
Definition KH_BlobForString (malloc_ok : bool) (str : string) : option KH_Blob :=
  let buffer := (bytes_of_string str ++ [x00])%list in
  KH_CreateBlob malloc_ok buffer (usize (strlen buffer + 1)).

(** [memcmp(p, q, n) == 0]. *)
Definition memcmp_eq (p q : list byte) (n : Z) : bool :=
  bool_decide (take (Z.to_nat n) p = take (Z.to_nat n) q).

(** Blobs are values here, so the pointer test [blob1 == blob2] of the
    source has no counterpart; it answers [true] only for one and the same
    blob, where the comparison below answers [true] as well
    ([KH_BlobEqual_refl]). *)
Definition KH_BlobEqual (blob1 blob2 : KH_Blob) : bool :=
  if negb (blob_hash blob1 =? blob_hash blob2)
     || negb (blob_length blob1 =? blob_length blob2)
  then false
  else memcmp_eq (blob_data blob1) (blob_data blob2) (blob_length blob1).

(** ** The dictionary *)

Record KH_DictPair : Type := {
  key : option KH_Blob;     (* [None] is NULL *)
  value : option KH_Blob;
}.

Record KH_Dict : Type := {
  slots : list Z;
  pairs : list KH_DictPair;
  data_count : Z;
  data_alloced : Z;
}.

Definition null_pair : KH_DictPair := {| key := None; value := None |}.

Definition KH_BlobStartingIndexForSize (hash size : Z) : Z :=
  u32 (Z.land hash (usize (size - 1))).

Definition slot_free (s : Z) : bool :=
  (s =? KH_HASH_EMPTY) || (s =? KH_HASH_DELETED).

(** The [while (1)] loop of [KH_InsertSlot].  [slot_index + 1] is 32-bit
    arithmetic, the mask is applied at [size_t] width and the result is
    stored back into a [uint32_t]. *)
Fixpoint KH_InsertSlot_loop (fuel : nat) (slots : list Z) (nslots : Z)
    (slot_index index : Z) : outcome (list Z) :=
  match fuel with
  | O => Fault Diverges
  | S fuel' =>
      do s <- rd slots slot_index;
      if slot_free s then wr slots slot_index index
      else KH_InsertSlot_loop fuel' slots nslots
             (u32 (Z.land (u32 (slot_index + 1)) (usize (nslots - 1)))) index
  end.

(** After the first step the loop variable stays below [nslots], and the
    loop does not write before it stops: a run that has made [nslots + 1]
    probes without stopping has seen some index twice and goes on for ever
    ([KH_InsertSlot_diverges] proves it for the table sizes in use). *)
Definition KH_InsertSlot (slots : list Z) (nslots hash index : Z)
  : outcome (list Z) :=
  KH_InsertSlot_loop (S (Z.to_nat nslots)) slots nslots
    (KH_BlobStartingIndexForSize hash nslots) index.

(** What [KH_ResizeDict] hands back: [self] with its arrays replaced, or
    NULL after calling [free] on the two new buffers (the flags record that
    [free] was called on each). *)
Inductive resize_result : Type :=
  | Resized (self : KH_Dict)
  | ResizeNull (freed_new_slots freed_new_pairs : bool).

(** The copy loop of [KH_ResizeDict]: [n] iterations are left, [i] walks
    the old pairs and [j] the new ones. *)
Fixpoint KH_ResizeDict_copy (n : nat) (self : KH_Dict) (new_size : Z)
    (i j : Z) (new_slots : list Z) (new_pairs : list KH_DictPair)
  : outcome (list Z * list KH_DictPair * Z) :=
  match n with
  | O => Ok (new_slots, new_pairs, j)
  | S n' =>
      do p <- rd (pairs self) i;
      match key p, value p with
      | Some k, Some v =>
          do new_pairs' <- wr new_pairs j {| key := Some k; value := Some v |};
          do new_slots' <- KH_InsertSlot new_slots new_size (blob_hash k) (u32 j);
          KH_ResizeDict_copy n' self new_size (usize (i + 1)) (usize (j + 1))
            new_slots' new_pairs'
      | _, _ => Ok (new_slots, new_pairs, j)   (* break *)
      end
  end.

(** [slots_ok] and [pairs_ok] are the allocator's answers to the two
    [malloc] calls. *)
Definition KH_ResizeDict (slots_ok pairs_ok : bool) (self : KH_Dict)
  : outcome resize_result :=
  let new_size :=
    if data_alloced self =? 0 then 8 else usize (2 * data_alloced self) in
  if negb slots_ok || negb pairs_ok then Ok (ResizeNull true true)
  else
    let new_slots := replicate (Z.to_nat new_size) KH_HASH_EMPTY in
    let new_pairs := replicate (Z.to_nat new_size) null_pair in
    do r <- KH_ResizeDict_copy (Z.to_nat (data_alloced self)) self new_size
              0 0 new_slots new_pairs;
    let '(new_slots, new_pairs, j) := r in
    Ok (Resized {| slots := new_slots; pairs := new_pairs;
                   data_count := j; data_alloced := new_size |}).

(** The resize threshold [(data_alloced >> 1) + (data_alloced >> 3)]. *)
Definition KH_threshold (alloced : Z) : Z :=
  usize (Z.shiftr alloced 1 + Z.shiftr alloced 3).

Definition KH_DictInsert (slots_ok pairs_ok : bool) (self : KH_Dict)
    (k v : KH_Blob) : outcome (KH_Dict * bool) :=
  do resized <-
     (if data_count self >=? KH_threshold (data_alloced self) then
        do r <- KH_ResizeDict slots_ok pairs_ok self;
        match r with
        | Resized self' => Ok (Some self')
        | ResizeNull _ _ => Ok None
        end
      else Ok (Some self));
  match resized with
  | None => Ok (self, false)
  | Some self =>
      do pairs' <- wr (pairs self) (data_count self)
                      {| key := Some k; value := Some v |};
      do slots' <- KH_InsertSlot (slots self) (data_alloced self)
                      (blob_hash k) (u32 (data_count self));
      Ok ({| slots := slots'; pairs := pairs';
             data_count := usize (data_count self + 1);
             data_alloced := data_alloced self |}, true)
  end.

Definition KH_DictChange (self : KH_Dict) (index : Z) (v : KH_Blob)
  : outcome KH_Dict :=
  do p <- rd (pairs self) index;
  do pairs' <- wr (pairs self) index {| key := key p; value := Some v |};
  Ok {| slots := slots self; pairs := pairs';
        data_count := data_count self; data_alloced := data_alloced self |}.

(** The [for] loop of [KH_DictLookupIndex], with [n] iterations left. *)
Fixpoint KH_DictLookupIndex_loop (n : nat) (self : KH_Dict) (k : KH_Blob)
    (slot_index i : Z) : outcome Z :=
  match n with
  | O => Ok KH_NOT_FOUND
  | S n' =>
      do slot <- rd (slots self)
                    (Z.land (usize (slot_index + i)) (usize (data_alloced self - 1)));
      if slot =? KH_HASH_EMPTY then Ok KH_NOT_FOUND
      else if slot =? KH_HASH_DELETED then
        KH_DictLookupIndex_loop n' self k slot_index (usize (i + 1))
      else
        do p <- rd (pairs self) slot;
        match key p with
        | None => Fault NullDeref
        | Some k' =>
            if KH_BlobEqual k k' then Ok slot
            else KH_DictLookupIndex_loop n' self k slot_index (usize (i + 1))
        end
  end.

Definition KH_DictLookupIndex (self : KH_Dict) (k : KH_Blob) : outcome Z :=
  KH_DictLookupIndex_loop (Z.to_nat (data_alloced self)) self k
    (KH_BlobStartingIndexForSize (blob_hash k) (data_alloced self)) 0.

(** First loop of [KH_DictRemove]: [pairs[i - 1] = pairs[i]] for
    [i = index + 1 .. data_count - 1]. *)
Fixpoint KH_DictRemove_shift (n : nat) (pairs : list KH_DictPair) (i : Z)
  : outcome (list KH_DictPair) :=
  match n with
  | O => Ok pairs
  | S n' =>
      do p <- rd pairs i;
      do pairs' <- wr pairs (usize (i - 1)) p;
      KH_DictRemove_shift n' pairs' (usize (i + 1))
  end.

(** Second loop of [KH_DictRemove]: the slot fix-up. *)
Fixpoint KH_DictRemove_fixup (n : nat) (slots : list Z) (index i : Z)
  : outcome (list Z) :=
  match n with
  | O => Ok slots
  | S n' =>
      do s <- rd slots i;
      do slots' <-
         (if (s =? KH_HASH_DELETED) || (s =? KH_HASH_EMPTY) then Ok slots
          else if s >? index then wr slots i (u32 (s - 1))
          else if s =? index then wr slots i KH_HASH_DELETED
          else Ok slots);
      KH_DictRemove_fixup n' slots' index (usize (i + 1))
  end.

Definition KH_DictRemove (self : KH_Dict) (index : Z) : outcome KH_Dict :=
  do freed <- rd (pairs self) index;   (* the two [free] calls read it *)
  do pairs' <- KH_DictRemove_shift
                 (Z.to_nat (data_count self - usize (index + 1)))
                 (pairs self) (usize (index + 1));
  let count' := usize (data_count self - 1) in
  do slots' <- KH_DictRemove_fixup (Z.to_nat (data_alloced self))
                 (slots self) index 0;
  Ok {| slots := slots'; pairs := pairs';
        data_count := count'; data_alloced := data_alloced self |}.

(** [memset(dict, 0, sizeof *dict)]: no arrays, no entries. *)
Definition KH_Dict_zero : KH_Dict :=
  {| slots := []; pairs := []; data_count := 0; data_alloced := 0 |}.

(** The result of [malloc] goes to [memset] unchecked. *)
Definition KH_CreateDict (malloc_ok : bool) : outcome (option KH_Dict) :=
  if malloc_ok then Ok (Some KH_Dict_zero) else Fault NullDeref.

(** The public operations are given blobs: a NULL key would be dereferenced
    by the lookup at once. *)
Definition KH_DictSet (slots_ok pairs_ok : bool) (self : KH_Dict)
    (k v : KH_Blob) : outcome (KH_Dict * bool) :=
  do index <- KH_DictLookupIndex self k;
  if index =? KH_NOT_FOUND then KH_DictInsert slots_ok pairs_ok self k v
  else
    do self' <- KH_DictChange self index v;
    Ok (self', true).

Definition KH_DictGet (self : KH_Dict) (k : KH_Blob) : outcome (option KH_Blob) :=
  do index <- KH_DictLookupIndex self k;
  if index =? KH_NOT_FOUND then Ok None
  else
    do p <- rd (pairs self) index;
    Ok (value p).

Definition KH_DictHas (self : KH_Dict) (k : KH_Blob) : outcome bool :=
  do index <- KH_DictLookupIndex self k;
  Ok (negb (index =? KH_NOT_FOUND)).

Definition KH_DictDelete (self : KH_Dict) (k : KH_Blob) : outcome (KH_Dict * bool) :=
  do index <- KH_DictLookupIndex self k;
  if index =? KH_NOT_FOUND then Ok (self, false)
  else
    do self' <- KH_DictRemove self index;
    Ok (self', true).

Definition KH_DictKeyIter (self : KH_Dict) (index : Z) : outcome (option KH_Blob) :=
  if index <? data_count self then
    do p <- rd (pairs self) index;
    Ok (key p)
  else Ok None.

Definition KH_DictValueIter (self : KH_Dict) (index : Z) : outcome (option KH_Blob) :=
  if index <? data_count self then
    do p <- rd (pairs self) index;
    Ok (value p)
  else Ok None.

Definition KH_DictLen (self : KH_Dict) : Z := data_count self.

(** * Specifications *)

(** ** The probe table *)

(** Table sizes in use: powers of two from the seed 8 up to [2 ^ 32], the
    largest size whose positions fit the 32-bit probe variable. *)
Definition cap_ok (cap : Z) : Prop := exists k, 3 <= k <= 32 /\ cap = 2 ^ k.

(** [table_ok cap sl ks]: the slot array [sl] of size [cap] indexes the keys
    [ks].  Every slot is a marker or the position of a key; no position
    occurs twice; and each key is found on its probe path, from its home
    bucket onwards, before any EMPTY slot. *)
Record table_ok (cap : Z) (sl : list Z) (ks : list KH_Blob) : Prop := {
  tok_cap : cap_ok cap;
  tok_len : Z.of_nat (length sl) = cap;
  tok_small : Z.of_nat (length ks) <= KH_HASH_DELETED;
  tok_val : forall p s,
    rd sl p = Ok s -> slot_free s = false -> 0 <= s < Z.of_nat (length ks);
  tok_inj : forall p q s,
    rd sl p = Ok s -> rd sl q = Ok s -> slot_free s = false -> p = q;
  tok_chain : forall (j : nat) kj,
    ks !! j = Some kj ->
    exists d, 0 <= d < cap
      /\ rd sl ((blob_hash kj mod cap + d) mod cap) = Ok (Z.of_nat j)
      /\ forall i, 0 <= i < d ->
           rd sl ((blob_hash kj mod cap + i) mod cap) <> Ok KH_HASH_EMPTY;
}.

(** [first_free cap sl h dk]: on the probe path from [h], the first free
    slot comes after [dk] occupied ones. *)
Definition first_free (cap : Z) (sl : list Z) (h dk : Z) : Prop :=
  0 <= dk < cap
  /\ (exists s, rd sl ((h + dk) mod cap) = Ok s /\ slot_free s = true)
  /\ forall i, 0 <= i < dk ->
       exists s, rd sl ((h + i) mod cap) = Ok s /\ slot_free s = false.

(** [probes_to cap sl h idx dk]: on the probe path from [h], the slot after
    [dk] occupied ones holds [idx]. *)
Definition probes_to (cap : Z) (sl : list Z) (h idx dk : Z) : Prop :=
  0 <= dk < cap
  /\ rd sl ((h + dk) mod cap) = Ok idx
  /\ forall i, 0 <= i < dk ->
       exists s, rd sl ((h + i) mod cap) = Ok s /\ slot_free s = false.

(** The key indexed last sits at the first slot that was free for it. *)
Definition last_probed (cap : Z) (sl : list Z) (ks : list KH_Blob) : Prop :=
  forall k, ks !! (length ks - 1)%nat = Some k ->
    exists dk, probes_to cap sl (blob_hash k mod cap) (Z.of_nat (length ks) - 1) dk.

(** ** The dictionary as an association list *)

(** The live prefix of the pair array holds the entries [es], in order. *)
Definition pairs_hold (ps : list KH_DictPair) (es : list (KH_Blob * KH_Blob)) : Prop :=
  forall (j : nat) e, es !! j = Some e ->
    ps !! j = Some {| key := Some e.1; value := Some e.2 |}.

Definition keys_distinct (ks : list KH_Blob) : Prop :=
  forall (i j : nat) ki kj,
    ks !! i = Some ki -> ks !! j = Some kj -> KH_BlobEqual ki kj = true -> i = j.

(** [Rep d es]: the dictionary [d] holds exactly the entries [es], in
    insertion order.  A dictionary is either untouched since
    [KH_CreateDict], or has a table of a size in use, filled up to the
    resize threshold at most, and a pair array whose entry at the threshold
    is still the NULL pair that [KH_ResizeDict] wrote there. *)
Record Rep (d : KH_Dict) (es : list (KH_Blob * KH_Blob)) : Prop := {
  rep_count : data_count d = Z.of_nat (length es);
  rep_pairs_len : Z.of_nat (length (pairs d)) = data_alloced d;
  rep_pairs : pairs_hold (pairs d) es;
  rep_distinct : keys_distinct (es.*1);
  rep_shape :
    (data_alloced d = 0 /\ slots d = [] /\ es = [])
    \/ (table_ok (data_alloced d) (slots d) (es.*1)
        /\ Z.of_nat (length es) <= KH_threshold (data_alloced d)
        /\ rd (pairs d) (KH_threshold (data_alloced d)) = Ok null_pair);
}.

(** The number of entries up to which the capacity stays within [2 ^ 32]:
    five eighths of [2 ^ 32]. *)
Definition KH_MAX_COUNT : Z := 5 * 2 ^ 29.

(** What [KH_DictInsert] finds when it has to resize: the dictionary is
    filled exactly to its threshold. *)
Definition at_threshold (d : KH_Dict) : Prop :=
  data_count d >= KH_threshold (data_alloced d).

Definition absent (k : KH_Blob) (es : list (KH_Blob * KH_Blob)) : Prop :=
  forall (j : nat) e, es !! j = Some e -> KH_BlobEqual k e.1 = false.

(** [placed d1 d' k]: the slots of [d'] are those of [d1] with the first
    free slot on the probe path of [k] set to the position of the new pair. *)
Definition placed (d1 d' : KH_Dict) (k : KH_Blob) : Prop :=
  data_alloced d' = data_alloced d1
  /\ exists dk,
       first_free (data_alloced d1) (slots d1)
         (blob_hash k mod data_alloced d1) dk
       /\ slots d' =
            <[Z.to_nat ((blob_hash k mod data_alloced d1 + dk) mod data_alloced d1)
              := data_count d1]> (slots d1).

(** What the second loop of [KH_DictRemove] does to one slot. *)
Definition fix_slot (index s : Z) : Z :=
  if (s =? KH_HASH_DELETED) || (s =? KH_HASH_EMPTY) then s
  else if s >? index then u32 (s - 1)
  else if s =? index then KH_HASH_DELETED
  else s.

(** Position of the entry whose key equals [k]. *)
Fixpoint assoc_index (k : KH_Blob) (es : list (KH_Blob * KH_Blob)) : option nat :=
  match es with
  | [] => None
  | e :: es' => if KH_BlobEqual k e.1 then Some 0%nat else S <$> assoc_index k es'
  end.

(** ** Reachable dictionaries *)

(** One mutating call of the public interface.  [KH_DictGet], [KH_DictHas],
    [KH_DictLen] and the two iterators leave the dictionary as it is.  A set
    is issued on a dictionary of fewer than [KH_MAX_COUNT] entries, so that
    the capacity stays within the [2 ^ 32] slots that the 32-bit slot and
    probe variables can tell apart. *)
Inductive step (d : KH_Dict) : KH_Dict -> Prop :=
  | step_set (slots_ok pairs_ok : bool) (k v : KH_Blob) (d' : KH_Dict) (r : bool) :
      data_count d < KH_MAX_COUNT ->
      KH_DictSet slots_ok pairs_ok d k v = Ok (d', r) ->
      step d d'
  | step_delete (k : KH_Blob) (d' : KH_Dict) (r : bool) :
      KH_DictDelete d k = Ok (d', r) ->
      step d d'.

Inductive reachable : KH_Dict -> Prop :=
  | reachable_create (d : KH_Dict) :
      KH_CreateDict true = Ok (Some d) -> reachable d
  | reachable_step (d d' : KH_Dict) :
      reachable d -> step d d' -> reachable d'.

(** One [KH_DictSet] call: the allocator's answers, should the call
    allocate, and the two blobs. *)
Record set_call : Type := {
  sc_slots_ok : bool;
  sc_pairs_ok : bool;
  sc_key : KH_Blob;
  sc_value : KH_Blob;
}.

(** A caller issuing the [KH_DictSet] calls in order; the list holds what
    each call returned. *)
Fixpoint set_each (self : KH_Dict) (cs : list set_call)
  : outcome (KH_Dict * list bool) :=
  match cs with
  | [] => Ok (self, [])
  | c :: rest =>
      do r <- KH_DictSet (sc_slots_ok c) (sc_pairs_ok c) self (sc_key c) (sc_value c);
      do r' <- set_each r.1 rest;
      Ok (r'.1, r.2 :: r'.2)
  end.

(** Pairwise distinct keys, as a test. *)
Fixpoint distinct_keys (ks : list KH_Blob) : bool :=
  match ks with
  | [] => true
  | k :: ks' => forallb (fun k' => negb (KH_BlobEqual k k')) ks' && distinct_keys ks'
  end.

(** The slot that [KH_DictLookupIndex] reads in iteration [i] of its loop. *)
Definition lookup_probe (self : KH_Dict) (k : KH_Blob) (i : Z) : Z :=
  Z.land
    (usize (KH_BlobStartingIndexForSize (blob_hash k) (data_alloced self) + i))
    (usize (data_alloced self - 1)).

(** Every slot is a marker or a position below the count; every position
    below the count is in exactly one slot; and the pair array is dense up
    to the count. *)
Definition slot_invariant (d : KH_Dict) : Prop :=
  (forall p s, rd (slots d) p = Ok s ->
     s = KH_HASH_EMPTY \/ s = KH_HASH_DELETED \/ 0 <= s < data_count d)
  /\ (forall j, 0 <= j < data_count d ->
        exists p, rd (slots d) p = Ok j
          /\ forall q, rd (slots d) q = Ok j -> q = p)
  /\ (forall j, 0 <= j < data_count d ->
        exists k v, rd (pairs d) j = Ok {| key := Some k; value := Some v |}).

(** ** Runs and sample inputs *)

(** A mutating call of the public interface. *)
Inductive call : Type :=
  | SetCall (slots_ok pairs_ok : bool) (k v : KH_Blob)
  | DeleteCall (k : KH_Blob).

(** Runs the calls in order; [None] when a call faults or a set is issued
    on a dictionary of [KH_MAX_COUNT] entries. *)
Fixpoint run (d : KH_Dict) (cs : list call) : option KH_Dict :=
  match cs with
  | [] => Some d
  | SetCall a b k v :: cs' =>
      if data_count d <? KH_MAX_COUNT then
        match KH_DictSet a b d k v with
        | Ok (d', _) => run d' cs'
        | Fault _ => None
        end
      else None
  | DeleteCall k :: cs' =>
      match KH_DictDelete d k with
      | Ok (d', _) => run d' cs'
      | Fault _ => None
      end
  end.

Definition state_after (cs : list call) : KH_Dict :=
  default KH_Dict_zero (run KH_Dict_zero cs).

(** The blob that [KH_BlobForString] makes of a string. *)
Definition text_blob (str : string) : KH_Blob :=
  default {| blob_length := 0; blob_hash := 5381; blob_data := [] |}
          (KH_BlobForString true str).

Definition set_text (k v : string) : call :=
  SetCall true true (text_blob k) (text_blob v).

(** The first five sets of the demonstration program: the seed table of 8
    slots filled to its threshold. *)
Definition five_sets : list call :=
  [set_text "hello" "world!"; set_text "balls" "I have 69 balls!";
   set_text "iscute" "no :<"; set_text "urmom" "hehehe";
   set_text "coffee" "stain"].

Definition set_text_call (slots_ok : bool) (k v : string) : set_call :=
  {| sc_slots_ok := slots_ok; sc_pairs_ok := true;
     sc_key := text_blob k; sc_value := text_blob v |}.

(** Twelve sets.  The sixth needs a resize and is refused the memory; the
    seventh gets it (16 slots) and so does the twelfth (32 slots). *)
Definition twelve_calls : list set_call :=
  [set_text_call true "hello" "world!";
   set_text_call true "balls" "I have 69 balls!";
   set_text_call true "iscute" "no :<";
   set_text_call true "urmom" "hehehe";
   set_text_call true "coffee" "stain";
   set_text_call false "shitstain" "coffeestain";
   set_text_call true "knot" "one two six";
   set_text_call true ":3" "UwU";
   set_text_call true "poop" "name of my cat!";
   set_text_call true "skibidi" "L rizz";
   set_text_call true "roughness" "13";
   set_text_call true "shine" "0.6"].

(** The ten sets of the demonstration program. *)
Definition ten_sets : list call :=
  five_sets ++
  [set_text "shitstain" "coffeestain"; set_text "knot" "one two six";
   set_text ":3" "UwU"; set_text "poop" "name of my cat!";
   set_text "skibidi" "L rizz"].

Definition three_sets : list call :=
  [set_text "k1" "v1"; set_text "k2" "v2"; set_text "k3" "v3"].

(** ** The demonstration program's printer *)

(** What [printf] reads for a [%s] argument: the bytes before the first
    NUL; a buffer without one is read past its end. *)
Fixpoint c_string (data : list byte) : outcome (list byte) :=
  match data with
  | [] => Fault OutOfBounds
  | b :: rest =>
      if Byte.eqb b x00 then Ok []
      else do s <- c_string rest; Ok (b :: s)
  end.

(** [p->data] for a blob pointer [p]. *)
Definition blob_text (p : option KH_Blob) : outcome (list byte) :=
  match p with
  | None => Fault NullDeref
  | Some b => c_string (blob_data b)
  end.

(** What a [printf] call of [print_dict] writes: the header with the
    number of items, or one line with the texts of a key and its value. *)
Inductive printed : Type :=
  | PrintedHeader (size : Z)
  | PrintedPair (k v : list byte).

(** The [for] loop of [print_dict] in [main.c], with [n] iterations left. *)
Fixpoint print_dict_loop (n : nat) (dict : KH_Dict) (i : Z) : outcome (list printed) :=
  match n with
  | O => Ok []
  | S n' =>
      do kp <- KH_DictKeyIter dict i;
      do k <- blob_text kp;
      do vp <- KH_DictValueIter dict i;
      do v <- blob_text vp;
      do rest <- print_dict_loop n' dict (usize (i + 1));
      Ok (PrintedPair k v :: rest)
  end.

Definition print_dict (dict : KH_Dict) : outcome (list printed) :=
  let size := KH_DictLen dict in
  do lines <- print_dict_loop (Z.to_nat size) dict 0;
  Ok (PrintedHeader size :: lines).

(** The iterator result is a blob whose data holds a NUL. *)
Definition has_text (r : outcome (option KH_Blob)) : bool :=
  match r with
  | Ok (Some b) =>
      match c_string (blob_data b) with
      | Ok _ => true
      | Fault _ => false
      end
  | _ => false
  end.

(** Every key and every value that the iterators show is a C string. *)
Definition all_text (d : KH_Dict) : bool :=
  forallb (fun i => has_text (KH_DictKeyIter d i) && has_text (KH_DictValueIter d i))
          (seqZ 0 (KH_DictLen d)).

(** ** The dictionary as an ordered association list *)

(** What a set does to the entries: the value of the first entry with an
    equal key is replaced, or the pair is added at the end. *)
Fixpoint model_set (k v : KH_Blob) (es : list (KH_Blob * KH_Blob))
  : list (KH_Blob * KH_Blob) :=
  match es with
  | [] => [(k, v)]
  | e :: es' =>
      if KH_BlobEqual k e.1 then (e.1, v) :: es' else e :: model_set k v es'
  end.

(** What a delete does to the entries: the first entry with an equal key is
    taken out. *)
Fixpoint model_delete (k : KH_Blob) (es : list (KH_Blob * KH_Blob))
  : list (KH_Blob * KH_Blob) :=
  match es with
  | [] => []
  | e :: es' => if KH_BlobEqual k e.1 then es' else e :: model_delete k es'
  end.

Fixpoint model_get (k : KH_Blob) (es : list (KH_Blob * KH_Blob)) : option KH_Blob :=
  match es with
  | [] => None
  | e :: es' => if KH_BlobEqual k e.1 then Some e.2 else model_get k es'
  end.

Definition model_call (es : list (KH_Blob * KH_Blob)) (c : call)
  : list (KH_Blob * KH_Blob) :=
  match c with
  | SetCall _ _ k v => model_set k v es
  | DeleteCall k => model_delete k es
  end.

Definition model_run (cs : list call) : list (KH_Blob * KH_Blob) :=
  fold_left model_call cs [].

(** Every set of the run gets the memory it asks for. *)
Definition with_memory (cs : list call) : bool :=
  forallb (fun c => match c with
                    | SetCall a b _ _ => a && b
                    | DeleteCall _ => true
                    end) cs.

(** Five sets, a delete and a set: a table of 8 slots filled to its
    threshold, with a TOMBSTONE in it. *)
Definition sets_with_tombstone : list call :=
  five_sets ++ [DeleteCall (text_blob "hello"); set_text "knot" "one two six"].

(** No slot is a TOMBSTONE. *)
Definition no_tombstone (sl : list Z) : Prop :=
  Forall (fun s => s <> KH_HASH_DELETED) sl.

(** ** The capacity *)

(** The capacity after a resize. *)
Definition grown (alloced : Z) : Z :=
  if alloced =? 0 then 8 else 2 * alloced.

(** ** Strings *)

(** No NUL among the characters of the string. *)
Definition nul_free (str : string) : bool :=
  forallb (fun b => negb (Byte.eqb b x00)) (bytes_of_string str).

(** Two keys whose cached hashes are the two slot markers. *)
Definition key_hashed_EMPTY : KH_Blob := text_blob "xzxci3y".
Definition key_hashed_DELETED : KH_Blob := text_blob "pyncbql".

(** * Blobs as heap allocations *)

(** The definitions above take blobs as values and leave out the [free]
    calls.  The module below follows the same functions with blob pointers:
    a blob is an address, the heap says what is allocated there, and
    [free] and every read through a blob pointer go through the heap.  The
    slot array, the pair array and the dictionary record stay values as
    above: only [KH_ResizeDict] and [KH_ReleaseDict] allocate and free
    them, and nothing else holds a pointer to them.  An address is not
    given out twice, so that a pointer to a freed blob is never taken for a
    pointer to a new one. *)
Module Mem.

Inductive cell : Type :=
  | Unused                 (* never given out by [malloc] *)
  | Live (b : KH_Blob)     (* an allocated blob *)
  | Freed (b : KH_Blob).   (* a blob that [free] has been called on *)

Definition heap : Type := Z -> cell.

Inductive mem_fault : Type :=
  | ArrayFault (f : fault)   (* the faults of the code above *)
  | UseAfterFree             (* a read through a pointer to a freed blob *)
  | DoubleFree               (* [free] of a freed blob *)
  | WildPointer.             (* a pointer that [malloc] never returned *)

Inductive result (A : Type) : Type :=
  | Done (a : A) (h : heap)
  | Stuck (f : mem_fault).

Arguments Done {A} a h.
Arguments Stuck {A} f.

(** Code that runs on a heap. *)
Definition mem (A : Type) : Type := heap -> result A.

Definition ret {A : Type} (a : A) : mem A := fun h => Done a h.

Definition bind {A B : Type} (m : mem A) (k : A -> mem B) : mem B :=
  fun h =>
    match m h with
    | Done a h' => k a h'
    | Stuck f => Stuck f
    end.

(** Code that does not touch the heap. *)
Definition lift {A : Type} (o : outcome A) : mem A :=
  fun h =>
    match o with
    | Ok a => Done a h
    | Fault f => Stuck (ArrayFault f)
    end.

Notation "'mdo' x <- m ; k" := (bind m (fun x => k))
  (at level 20, x name, m at level 100, k at level 200,
   format "'[v' 'mdo'  x  <-  m ; '/' k ']'").

Definition set_cell (p : Z) (c : cell) (h : heap) : heap :=
  fun q => if q =? p then c else h q.

(** A read through the blob pointer [blob]. *)
Definition deref (blob : Z) : mem KH_Blob :=
  fun h =>
    if blob =? 0 then Stuck (ArrayFault NullDeref)
    else match h blob with
         | Live b => Done b h
         | Freed _ => Stuck UseAfterFree
         | Unused => Stuck WildPointer
         end.

(** [free(p)]; [free(NULL)] does nothing. *)
Definition free (p : Z) : mem unit :=
  fun h =>
    if p =? 0 then Done tt h
    else match h p with
         | Live b => Done tt (set_cell p (Freed b) h)
         | Freed _ => Stuck DoubleFree
         | Unused => Stuck WildPointer
         end.

(** [malloc] answers NULL or an address. *)
Definition KH_CreateBlob (answer : Z) (buffer : list byte) (length : Z) : mem Z :=
  fun h =>
    if answer =? 0 then Done 0 h
    else Done answer
           (set_cell answer
              (Live {| blob_length := length;
                       blob_hash := KH_Hash buffer length;
                       blob_data := take (Z.to_nat length) buffer |}) h).

Definition KH_BlobForString (answer : Z) (str : string) : mem Z :=
  let buffer := (bytes_of_string str ++ [x00])%list in
  KH_CreateBlob answer buffer (usize (strlen buffer + 1)).

Definition KH_ReleaseBlob (blob : Z) : mem unit := free blob.

(** The pointer test comes first; the fields are read after it. *)
Definition KH_BlobEqual (blob1 blob2 : Z) : mem bool :=
  if blob1 =? blob2 then ret true
  else
    mdo b1 <- deref blob1;
    mdo b2 <- deref blob2;
    ret (KH_BlobEqual b1 b2).

Record KH_DictPair : Type := {
  key : Z;      (* blob pointers, 0 for NULL *)
  value : Z;
}.

Record KH_Dict : Type := {
  slots : list Z;
  pairs : list KH_DictPair;
  data_count : Z;
  data_alloced : Z;
}.

Definition null_pair : KH_DictPair := {| key := 0; value := 0 |}.

Inductive resize_result : Type :=
  | Resized (self : KH_Dict)
  | ResizeNull (freed_new_slots freed_new_pairs : bool).

(** [new_pairs[j].key->hash] is a read through the key pointer. *)
Fixpoint KH_ResizeDict_copy (n : nat) (self : KH_Dict) (new_size : Z)
    (i j : Z) (new_slots : list Z) (new_pairs : list KH_DictPair)
  : mem (list Z * list KH_DictPair * Z) :=
  match n with
  | O => ret (new_slots, new_pairs, j)
  | S n' =>
      mdo p <- lift (rd (pairs self) i);
      if (key p =? 0) || (value p =? 0) then ret (new_slots, new_pairs, j)
      else
        mdo new_pairs' <- lift (wr new_pairs j {| key := key p; value := value p |});
        mdo k <- deref (key p);
        mdo new_slots' <- lift (KH_InsertSlot new_slots new_size (blob_hash k) (u32 j));
        KH_ResizeDict_copy n' self new_size (usize (i + 1)) (usize (j + 1))
          new_slots' new_pairs'
  end.

Definition KH_ResizeDict (slots_ok pairs_ok : bool) (self : KH_Dict)
  : mem resize_result :=
  let new_size :=
    if data_alloced self =? 0 then 8 else usize (2 * data_alloced self) in
  if negb slots_ok || negb pairs_ok then ret (ResizeNull true true)
  else
    let new_slots := replicate (Z.to_nat new_size) KH_HASH_EMPTY in
    let new_pairs := replicate (Z.to_nat new_size) null_pair in
    mdo r <- KH_ResizeDict_copy (Z.to_nat (data_alloced self)) self new_size
               0 0 new_slots new_pairs;
    let '(new_slots, new_pairs, j) := r in
    ret (Resized {| slots := new_slots; pairs := new_pairs;
                    data_count := j; data_alloced := new_size |}).

Definition KH_DictInsert (slots_ok pairs_ok : bool) (self : KH_Dict)
    (k v : Z) : mem (KH_Dict * bool) :=
  mdo resized <-
     (if data_count self >=? KH_threshold (data_alloced self) then
        mdo r <- KH_ResizeDict slots_ok pairs_ok self;
        match r with
        | Resized self' => ret (Some self')
        | ResizeNull _ _ => ret None
        end
      else ret (Some self));
  match resized with
  | None => ret (self, false)
  | Some self =>
      mdo pairs' <- lift (wr (pairs self) (data_count self) {| key := k; value := v |});
      mdo kb <- deref k;
      mdo slots' <- lift (KH_InsertSlot (slots self) (data_alloced self)
                            (blob_hash kb) (u32 (data_count self)));
      ret ({| slots := slots'; pairs := pairs';
              data_count := usize (data_count self + 1);
              data_alloced := data_alloced self |}, true)
  end.

(** [free(self->pairs[index].value)], then the new pointer is stored. *)
Definition KH_DictChange (self : KH_Dict) (index : Z) (v : Z) : mem KH_Dict :=
  mdo p <- lift (rd (pairs self) index);
  mdo _ <- free (value p);
  mdo pairs' <- lift (wr (pairs self) index {| key := key p; value := v |});
  ret {| slots := slots self; pairs := pairs';
         data_count := data_count self; data_alloced := data_alloced self |}.

Fixpoint KH_DictLookupIndex_loop (n : nat) (self : KH_Dict) (k : Z)
    (slot_index i : Z) : mem Z :=
  match n with
  | O => ret KH_NOT_FOUND
  | S n' =>
      mdo slot <- lift (rd (slots self)
                          (Z.land (usize (slot_index + i))
                                  (usize (data_alloced self - 1))));
      if slot =? KH_HASH_EMPTY then ret KH_NOT_FOUND
      else if slot =? KH_HASH_DELETED then
        KH_DictLookupIndex_loop n' self k slot_index (usize (i + 1))
      else
        mdo p <- lift (rd (pairs self) slot);
        mdo eq <- KH_BlobEqual k (key p);
        if eq then ret slot
        else KH_DictLookupIndex_loop n' self k slot_index (usize (i + 1))
  end.

(** [key->hash] is read before the loop. *)
Definition KH_DictLookupIndex (self : KH_Dict) (k : Z) : mem Z :=
  mdo kb <- deref k;
  KH_DictLookupIndex_loop (Z.to_nat (data_alloced self)) self k
    (KH_BlobStartingIndexForSize (blob_hash kb) (data_alloced self)) 0.

Fixpoint KH_DictRemove_shift (n : nat) (pairs : list KH_DictPair) (i : Z)
  : outcome (list KH_DictPair) :=
  match n with
  | O => Ok pairs
  | S n' =>
      do p <- rd pairs i;
      do pairs' <- wr pairs (usize (i - 1)) p;
      KH_DictRemove_shift n' pairs' (usize (i + 1))
  end.

(** The key and the value of the pair are freed, then the pairs above it
    move down and the slots are fixed up. *)
Definition KH_DictRemove (self : KH_Dict) (index : Z) : mem KH_Dict :=
  mdo p <- lift (rd (pairs self) index);
  mdo _ <- free (key p);
  mdo _ <- free (value p);
  mdo pairs' <- lift (KH_DictRemove_shift
                        (Z.to_nat (data_count self - usize (index + 1)))
                        (pairs self) (usize (index + 1)));
  let count' := usize (data_count self - 1) in
  mdo slots' <- lift (KH_DictRemove_fixup (Z.to_nat (data_alloced self))
                        (slots self) index 0);
  ret {| slots := slots'; pairs := pairs';
         data_count := count'; data_alloced := data_alloced self |}.

Definition KH_Dict_zero : KH_Dict :=
  {| slots := []; pairs := []; data_count := 0; data_alloced := 0 |}.

Definition KH_CreateDict (malloc_ok : bool) : mem KH_Dict :=
  if malloc_ok then ret KH_Dict_zero
  else fun _ => Stuck (ArrayFault NullDeref).

(** The loop of [KH_ReleaseDict], with [n] pairs left. *)
Fixpoint KH_ReleaseDict_loop (n : nat) (dict : KH_Dict) (i : Z) : mem unit :=
  match n with
  | O => ret tt
  | S n' =>
      mdo p <- lift (rd (pairs dict) i);
      mdo _ <- free (key p);
      mdo _ <- free (value p);
      KH_ReleaseDict_loop n' dict (usize (i + 1))
  end.

(** The blobs of the pairs below the count are freed; the two arrays and
    the record go with the dictionary value. *)
Definition KH_ReleaseDict (dict : KH_Dict) : mem unit :=
  KH_ReleaseDict_loop (Z.to_nat (data_count dict)) dict 0.

(** On the path that finds the key, the value moves in and the key blob
    given is freed; on the other path both pointers are stored. *)
Definition KH_DictSet (slots_ok pairs_ok : bool) (self : KH_Dict)
    (k v : Z) : mem (KH_Dict * bool) :=
  mdo index <- KH_DictLookupIndex self k;
  if index =? KH_NOT_FOUND then KH_DictInsert slots_ok pairs_ok self k v
  else
    mdo self' <- KH_DictChange self index v;
    mdo _ <- free k;
    ret (self', true).

(** The key blob given is freed before the result is read. *)
Definition KH_DictGet (self : KH_Dict) (k : Z) : mem Z :=
  mdo index <- KH_DictLookupIndex self k;
  mdo _ <- free k;
  if index =? KH_NOT_FOUND then ret 0
  else
    mdo p <- lift (rd (pairs self) index);
    ret (value p).

Definition KH_DictHas (self : KH_Dict) (k : Z) : mem bool :=
  mdo index <- KH_DictLookupIndex self k;
  mdo _ <- free k;
  ret (negb (index =? KH_NOT_FOUND)).

Definition KH_DictDelete (self : KH_Dict) (k : Z) : mem (KH_Dict * bool) :=
  mdo index <- KH_DictLookupIndex self k;
  if index =? KH_NOT_FOUND then
    mdo _ <- free k;
    ret (self, false)
  else
    mdo self' <- KH_DictRemove self index;
    mdo _ <- free k;
    ret (self', true).

Definition KH_DictKeyIter (self : KH_Dict) (index : Z) : mem Z :=
  lift (if index <? data_count self then
          do p <- rd (pairs self) index;
          Ok (key p)
        else Ok 0).

Definition KH_DictValueIter (self : KH_Dict) (index : Z) : mem Z :=
  lift (if index <? data_count self then
          do p <- rd (pairs self) index;
          Ok (value p)
        else Ok 0).

Definition KH_DictLen (self : KH_Dict) : Z := data_count self.

End Mem.

(** ** What the dictionary owns *)

(** The blob at an address, allocated or freed. *)
Definition contents (h : Mem.heap) (p : Z) : option KH_Blob :=
  if p =? 0 then None
  else match h p with
       | Mem.Unused => None
       | Mem.Live b | Mem.Freed b => Some b
       end.

Definition live (h : Mem.heap) (p : Z) : Prop :=
  p <> 0 /\ exists b, h p = Mem.Live b.

(** The dictionary of blob pointers, seen as the dictionary of blobs. *)
Definition view_pair (h : Mem.heap) (pp : Mem.KH_DictPair) : KH_DictPair :=
  {| key := contents h (Mem.key pp); value := contents h (Mem.value pp) |}.

Definition view (h : Mem.heap) (pd : Mem.KH_Dict) : KH_Dict :=
  {| slots := Mem.slots pd;
     pairs := view_pair h <$> Mem.pairs pd;
     data_count := Mem.data_count pd;
     data_alloced := Mem.data_alloced pd |}.

Definition pointers_of (ps : list Mem.KH_DictPair) : list Z :=
  flat_map (fun pp => [Mem.key pp; Mem.value pp]) ps.

(** The blob pointers of the entries, keys and values, in order. *)
Definition owned (pd : Mem.KH_Dict) : list Z :=
  pointers_of (take (Z.to_nat (Mem.data_count pd)) (Mem.pairs pd)).

(** A pointer in the pair array is NULL or was allocated at some time. *)
Definition stored_ok (h : Mem.heap) (pp : Mem.KH_DictPair) : Prop :=
  (Mem.key pp = 0 \/ contents h (Mem.key pp) <> None)
  /\ (Mem.value pp = 0 \/ contents h (Mem.value pp) <> None).

(** [Owns h pd es]: in the heap [h], the dictionary [pd] holds the entries
    [es], and the blobs of its entries are allocated, each under one
    pointer of the dictionary only. *)
Record Owns (h : Mem.heap) (pd : Mem.KH_Dict) (es : list (KH_Blob * KH_Blob))
  : Prop := {
  owns_rep : Rep (view h pd) es;
  owns_live : forall p, p ∈ owned pd -> live h p;
  owns_distinct : NoDup (owned pd);
  owns_stored : Forall (stored_ok h) (Mem.pairs pd);
}.

(** ** Proper use *)

(** What a caller does between two states of a dictionary [pd] and the
    heap: it makes a blob, releases a blob that the dictionary does not
    hold, or calls a function of the dictionary, giving it allocated blobs
    that the dictionary does not hold. *)
Inductive mem_step (h : Mem.heap) (pd : Mem.KH_Dict)
  : Mem.heap -> Mem.KH_Dict -> Prop :=
  | mem_step_create (answer : Z) (buffer : list byte) (len : Z)
      (p : Z) (h' : Mem.heap) :
      answer = 0 \/ h answer = Mem.Unused ->
      Mem.KH_CreateBlob answer buffer len h = Mem.Done p h' ->
      mem_step h pd h' pd
  | mem_step_release (p : Z) (h' : Mem.heap) :
      p ∉ owned pd ->
      Mem.KH_ReleaseBlob p h = Mem.Done tt h' ->
      mem_step h pd h' pd
  | mem_step_set (slots_ok pairs_ok : bool) (kp vp : Z)
      (pd' : Mem.KH_Dict) (r : bool) (h' : Mem.heap) :
      live h kp -> live h vp -> kp <> vp ->
      kp ∉ owned pd -> vp ∉ owned pd ->
      Mem.data_count pd < KH_MAX_COUNT ->
      Mem.KH_DictSet slots_ok pairs_ok pd kp vp h = Mem.Done (pd', r) h' ->
      mem_step h pd h' pd'
  | mem_step_delete (kp : Z) (pd' : Mem.KH_Dict) (r : bool) (h' : Mem.heap) :
      live h kp -> kp ∉ owned pd ->
      Mem.KH_DictDelete pd kp h = Mem.Done (pd', r) h' ->
      mem_step h pd h' pd'
  | mem_step_get (kp vp : Z) (h' : Mem.heap) :
      live h kp -> kp ∉ owned pd ->
      Mem.KH_DictGet pd kp h = Mem.Done vp h' ->
      mem_step h pd h' pd
  | mem_step_has (kp : Z) (r : bool) (h' : Mem.heap) :
      live h kp -> kp ∉ owned pd ->
      Mem.KH_DictHas pd kp h = Mem.Done r h' ->
      mem_step h pd h' pd.

(** A dictionary and a heap that such a caller gets to. *)
Inductive well_used : Mem.heap -> Mem.KH_Dict -> Prop :=
  | well_used_create (h : Mem.heap) (pd : Mem.KH_Dict) :
      Mem.KH_CreateDict true h = Mem.Done pd h -> well_used h pd
  | well_used_step (h : Mem.heap) (pd : Mem.KH_Dict)
      (h' : Mem.heap) (pd' : Mem.KH_Dict) :
      well_used h pd -> mem_step h pd h' pd' -> well_used h' pd'.

(** ** Programs in the style of the demonstration program *)

(** A call whose blob arguments are made by [KH_BlobForString] in the
    argument list, as in [main.c].  The addresses are the allocator's
    answers. *)
Inductive use : Type :=
  | UseSet (slots_ok pairs_ok : bool) (kp vp : Z) (k v : string)
  | UseDelete (kp : Z) (k : string)
  | UseGet (kp : Z) (k : string)
  | UseHas (kp : Z) (k : string).

(** The two blobs of a set are at different addresses, so that the order
    in which C evaluates the two arguments does not show. *)
Definition use_call (u : use) (pd : Mem.KH_Dict) : Mem.mem Mem.KH_Dict :=
  match u with
  | UseSet a b kp vp k v =>
      Mem.bind (Mem.KH_BlobForString kp k) (fun key =>
      Mem.bind (Mem.KH_BlobForString vp v) (fun value =>
      Mem.bind (Mem.KH_DictSet a b pd key value) (fun r => Mem.ret r.1)))
  | UseDelete kp k =>
      Mem.bind (Mem.KH_BlobForString kp k) (fun key =>
      Mem.bind (Mem.KH_DictDelete pd key) (fun r => Mem.ret r.1))
  | UseGet kp k =>
      Mem.bind (Mem.KH_BlobForString kp k) (fun key =>
      Mem.bind (Mem.KH_DictGet pd key) (fun _ => Mem.ret pd))
  | UseHas kp k =>
      Mem.bind (Mem.KH_BlobForString kp k) (fun key =>
      Mem.bind (Mem.KH_DictHas pd key) (fun _ => Mem.ret pd))
  end.

Fixpoint play (us : list use) (pd : Mem.KH_Dict) : Mem.mem Mem.KH_Dict :=
  match us with
  | [] => Mem.ret pd
  | u :: us' => Mem.bind (use_call u pd) (fun pd' => play us' pd')
  end.

(** [KH_CreateDict], the calls, [KH_ReleaseDict]. *)
Definition program (us : list use) : Mem.mem unit :=
  Mem.bind (Mem.KH_CreateDict true) (fun pd =>
  Mem.bind (play us pd) (fun pd' => Mem.KH_ReleaseDict pd')).

Definition use_addresses (u : use) : list Z :=
  match u with
  | UseSet _ _ kp vp _ _ => [kp; vp]
  | UseDelete kp _ | UseGet kp _ | UseHas kp _ => [kp]
  end.

Definition addresses (us : list use) : list Z :=
  flat_map use_addresses us.

Definition unused (h : Mem.heap) (p : Z) : bool :=
  negb (p =? 0)
  && match h p with
     | Mem.Unused => true
     | _ => false
     end.

(** The allocator's answers are addresses, each one new. *)
Definition fresh_addresses (h : Mem.heap) (us : list use) : bool :=
  bool_decide (NoDup (addresses us)) && forallb (unused h) (addresses us).

(** Every set gets the memory for its resize. *)
Definition uses_with_memory (us : list use) : bool :=
  forallb (fun u => match u with
                    | UseSet a b _ _ _ _ => a && b
                    | _ => true
                    end) us.

Definition empty_heap : Mem.heap := fun _ => Mem.Unused.

(** The dictionary and the heap after the calls [us] on a new dictionary
    in the empty heap. *)
Definition played (us : list use) : Mem.heap * Mem.KH_Dict :=
  match play us Mem.KH_Dict_zero empty_heap with
  | Mem.Done pd h => (h, pd)
  | Mem.Stuck _ => (empty_heap, Mem.KH_Dict_zero)
  end.

(** The sets of the demonstration program, with addresses 1 to 20. *)
Definition demo_uses : list use :=
  [UseSet true true 1 2 "hello" "world!";
   UseSet true true 3 4 "balls" "I have 69 balls!";
   UseSet true true 5 6 "iscute" "no :<";
   UseSet true true 7 8 "urmom" "hehehe";
   UseSet true true 9 10 "coffee" "stain";
   UseSet true true 11 12 "shitstain" "coffeestain";
   UseSet true true 13 14 "knot" "one two six";
   UseSet true true 15 16 ":3" "UwU";
   UseSet true true 17 18 "poop" "name of my cat!";
   UseSet true true 19 20 "skibidi" "L rizz"].

(** The demonstration program: the ten sets, the delete and the get. *)
Definition main_uses : list use :=
  demo_uses ++ [UseDelete 21 "skibidi"; UseGet 22 ":3"].

(** The heap and the dictionary after the ten sets. *)
Definition demo_heap : Mem.heap := (played demo_uses).1.

Definition demo_dict : Mem.KH_Dict := (played demo_uses).2.

(** * Proofs *)

(** ** The outcome monad and the array accessors *)

Lemma rd_Ok {A : Type} (a : list A) (i : Z) (x : A) :
  rd a i = Ok x <-> 0 <= i /\ a !! Z.to_nat i = Some x.
Proof.
  unfold rd. destruct (Z.leb_spec 0 i) as [Hi|Hi].
  - destruct (a !! Z.to_nat i) eqn:E; split; intros H.
    + injection H as ->. auto.
    + destruct H as [_ H]. congruence.
    + discriminate.
    + destruct H as [_ H]. discriminate.
  - split; [discriminate | lia].
Qed.

Lemma rd_bound {A : Type} (a : list A) (i : Z) (x : A) :
  rd a i = Ok x -> 0 <= i < Z.of_nat (length a).
Proof.
  intros [Hi H]%rd_Ok. apply lookup_lt_Some in H. lia.
Qed.

Lemma rd_in_range {A : Type} (a : list A) (i : Z) :
  0 <= i < Z.of_nat (length a) -> exists x, rd a i = Ok x.
Proof.
  intros Hi. destruct (lookup_lt_is_Some_2 a (Z.to_nat i)) as [x Hx]; [lia|].
  exists x. apply rd_Ok. split; [lia | exact Hx].
Qed.

Lemma wr_in_range {A : Type} (a : list A) (i : Z) (x : A) :
  0 <= i < Z.of_nat (length a) -> wr a i x = Ok (<[Z.to_nat i := x]> a).
Proof.
  intros Hi. unfold wr.
  destruct (Z.leb_spec 0 i); [|lia].
  destruct (Z.ltb_spec i (Z.of_nat (length a))); [reflexivity | lia].
Qed.

Lemma rd_insert_eq {A : Type} (a : list A) (i : Z) (x : A) :
  0 <= i < Z.of_nat (length a) -> rd (<[Z.to_nat i := x]> a) i = Ok x.
Proof.
  intros Hi. apply rd_Ok. split; [lia|].
  apply list_lookup_insert_eq. lia.
Qed.

Lemma rd_insert_ne {A : Type} (a : list A) (i j : Z) (x : A) :
  0 <= i -> 0 <= j -> i <> j -> rd (<[Z.to_nat i := x]> a) j = rd a j.
Proof.
  intros Hi Hj Hne. unfold rd.
  rewrite list_lookup_insert_ne; [reflexivity | lia].
Qed.

Lemma rd_insert_ne_nat {A : Type} (a : list A) (i : nat) (j : Z) (x : A) :
  0 <= j -> Z.of_nat i <> j -> rd (<[i := x]> a) j = rd a j.
Proof.
  intros Hj Hne. unfold rd.
  rewrite list_lookup_insert_ne; [reflexivity | lia].
Qed.

(** ** Integer facts *)

Lemma u32_id (x : Z) : 0 <= x < 2 ^ 32 -> u32 x = x.
Proof. intros H. unfold u32. apply Z.mod_small. exact H. Qed.

Lemma usize_id (x : Z) : 0 <= x < 2 ^ 64 -> usize x = x.
Proof. intros H. unfold usize. apply Z.mod_small. exact H. Qed.

Lemma mask_mod (k x : Z) : 0 <= k -> Z.land x (2 ^ k - 1) = x mod 2 ^ k.
Proof.
  intros Hk. rewrite <- Z.land_ones by exact Hk.
  rewrite Z.ones_equiv. reflexivity.
Qed.

Lemma cap_ok_range (cap : Z) : cap_ok cap -> 8 <= cap <= 2 ^ 32.
Proof.
  intros (k & Hk & ->). split.
  - change 8 with (2 ^ 3). apply Z.pow_le_mono_r; lia.
  - apply Z.pow_le_mono_r; lia.
Qed.

Lemma cap_ok_eighth (cap : Z) :
  cap_ok cap -> exists c, 1 <= c <= 2 ^ 29 /\ cap = 8 * c.
Proof.
  intros (k & Hk & ->). exists (2 ^ (k - 3)). split.
  - split.
    + change 1 with (2 ^ 0). apply Z.pow_le_mono_r; lia.
    + apply Z.pow_le_mono_r; lia.
  - change 8 with (2 ^ 3). rewrite <- Z.pow_add_r by lia. f_equal. lia.
Qed.

Lemma cap_ok_double (cap : Z) : cap_ok cap -> cap < 2 ^ 32 -> cap_ok (2 * cap).
Proof.
  intros (k & Hk & ->) Hlt. exists (k + 1). split.
  - assert (k <> 32) by (intros ->; lia). lia.
  - rewrite Z.pow_add_r by lia. lia.
Qed.

Lemma cap_ok_8 : cap_ok 8.
Proof. exists 3. split; [lia | reflexivity]. Qed.

Lemma KH_threshold_eighth (c : Z) :
  0 <= c <= 2 ^ 32 -> KH_threshold (8 * c) = 5 * c.
Proof.
  intros Hc. unfold KH_threshold.
  rewrite !Z.shiftr_div_pow2 by lia.
  replace (8 * c / 2 ^ 1) with (4 * c) by (apply Z.div_unique_exact; lia).
  replace (8 * c / 2 ^ 3) with c by (apply Z.div_unique_exact; lia).
  rewrite usize_id; lia.
Qed.

Lemma mask_cap (cap x : Z) :
  cap_ok cap -> Z.land x (usize (cap - 1)) = x mod cap.
Proof.
  intros Hc. pose proof (cap_ok_range _ Hc) as Hr.
  destruct Hc as (k & Hk & ->).
  rewrite usize_id by lia. apply mask_mod. lia.
Qed.

Lemma home_mod (cap hash : Z) :
  cap_ok cap -> KH_BlobStartingIndexForSize hash cap = hash mod cap.
Proof.
  intros Hc. pose proof (cap_ok_range _ Hc) as Hr.
  unfold KH_BlobStartingIndexForSize. rewrite mask_cap by exact Hc.
  apply u32_id. pose proof (Z.mod_pos_bound hash cap). lia.
Qed.

(** The probe step of [KH_InsertSlot]. *)
Lemma probe_next (cap p : Z) :
  cap_ok cap -> 0 <= p < cap ->
  u32 (Z.land (u32 (p + 1)) (usize (cap - 1))) = (p + 1) mod cap.
Proof.
  intros Hc Hp. pose proof (cap_ok_range _ Hc) as Hr.
  rewrite mask_cap by exact Hc.
  assert (Hm : u32 (p + 1) mod cap = (p + 1) mod cap).
  { destruct (Z.eq_dec (p + 1) (2 ^ 32)) as [E|E].
    - assert (cap = 2 ^ 32) as -> by lia. rewrite E. reflexivity.
    - rewrite u32_id by lia. reflexivity. }
  rewrite Hm. apply u32_id.
  pose proof (Z.mod_pos_bound (p + 1) cap). lia.
Qed.

(** The probe position of [KH_DictLookupIndex]. *)
Lemma probe_at (cap h i : Z) :
  cap_ok cap -> 0 <= h < cap -> 0 <= i < cap ->
  Z.land (usize (h + i)) (usize (cap - 1)) = (h + i) mod cap.
Proof.
  intros Hc Hh Hi. pose proof (cap_ok_range _ Hc) as Hr.
  rewrite mask_cap by exact Hc. rewrite usize_id by lia. reflexivity.
Qed.

Lemma probe_inj (cap h i j : Z) :
  0 <= i < cap -> 0 <= j < cap ->
  (h + i) mod cap = (h + j) mod cap -> i = j.
Proof.
  intros Hi Hj E.
  assert (H : (i - j) mod cap = 0).
  { replace (i - j) with ((h + i) - (h + j)) by lia.
    rewrite Zminus_mod, E, Z.sub_diag. apply Z.mod_0_l. lia. }
  destruct (Z.le_gt_cases j i).
  - rewrite Z.mod_small in H by lia. lia.
  - assert (H' : (j - i) mod cap = 0).
    { replace (j - i) with ((h + j) - (h + i)) by lia.
      rewrite Zminus_mod, E, Z.sub_diag. apply Z.mod_0_l. lia. }
    rewrite Z.mod_small in H' by lia. lia.
Qed.

(** ** Blob equality is an equivalence *)

Lemma KH_BlobEqual_true (b1 b2 : KH_Blob) :
  KH_BlobEqual b1 b2 = true <->
  blob_hash b1 = blob_hash b2 /\ blob_length b1 = blob_length b2 /\
  take (Z.to_nat (blob_length b1)) (blob_data b1)
  = take (Z.to_nat (blob_length b1)) (blob_data b2).
Proof.
  unfold KH_BlobEqual, memcmp_eq.
  destruct (Z.eqb_spec (blob_hash b1) (blob_hash b2)) as [Hh|Hh];
    destruct (Z.eqb_spec (blob_length b1) (blob_length b2)) as [Hl|Hl]; simpl;
    try (split; [discriminate | intros (? & ? & ?); contradiction]).
  rewrite bool_decide_eq_true. tauto.
Qed.

Lemma KH_BlobEqual_refl (b : KH_Blob) : KH_BlobEqual b b = true.
Proof. apply KH_BlobEqual_true. auto. Qed.

Lemma KH_BlobEqual_sym (b1 b2 : KH_Blob) :
  KH_BlobEqual b1 b2 = true -> KH_BlobEqual b2 b1 = true.
Proof.
  rewrite !KH_BlobEqual_true. intros (Hh & Hl & Hd).
  rewrite <- Hl. auto.
Qed.

Lemma KH_BlobEqual_trans (b1 b2 b3 : KH_Blob) :
  KH_BlobEqual b1 b2 = true -> KH_BlobEqual b2 b3 = true ->
  KH_BlobEqual b1 b3 = true.
Proof.
  rewrite !KH_BlobEqual_true. intros (Hh & Hl & Hd) (Hh' & Hl' & Hd').
  rewrite <- Hl in Hd'. repeat split; congruence.
Qed.

(** For blobs made by [KH_CreateBlob], equal means the same bytes: the
    cached hash decides nothing that the bytes do not. *)
Lemma KH_BlobEqual_created (buf1 buf2 : list byte) (len1 len2 : Z) (b1 b2 : KH_Blob) :
  KH_CreateBlob true buf1 len1 = Some b1 ->
  KH_CreateBlob true buf2 len2 = Some b2 ->
  KH_BlobEqual b1 b2 = true
  <-> len1 = len2 /\ take (Z.to_nat len1) buf1 = take (Z.to_nat len2) buf2.
Proof.
  intros H1 H2. injection H1 as <-. injection H2 as <-.
  rewrite KH_BlobEqual_true. simpl. unfold KH_Hash. split.
  - intros (_ & -> & Hd). split; [reflexivity|].
    rewrite !take_take, !Nat.min_id in Hd. exact Hd.
  - intros (-> & Hd). rewrite Hd. auto.
Qed.

Lemma KH_BlobEqual_hash (b1 b2 : KH_Blob) :
  KH_BlobEqual b1 b2 = true -> blob_hash b1 = blob_hash b2.
Proof. rewrite KH_BlobEqual_true. tauto. Qed.

(** ** The probe table *)

Lemma slot_free_index (s : Z) : 0 <= s < KH_HASH_DELETED -> slot_free s = false.
Proof.
  intros H. unfold slot_free, KH_HASH_EMPTY, KH_HASH_DELETED in *.
  destruct (Z.eqb_spec s 4294967295); [lia|].
  destruct (Z.eqb_spec s 4294967294); [lia|]. reflexivity.
Qed.

Lemma slot_free_true (s : Z) :
  slot_free s = true <-> s = KH_HASH_EMPTY \/ s = KH_HASH_DELETED.
Proof.
  unfold slot_free.
  destruct (Z.eqb_spec s KH_HASH_EMPTY); destruct (Z.eqb_spec s KH_HASH_DELETED);
    simpl; intuition congruence.
Qed.

Lemma slot_free_false (s : Z) :
  slot_free s = false <-> s <> KH_HASH_EMPTY /\ s <> KH_HASH_DELETED.
Proof.
  unfold slot_free.
  destruct (Z.eqb_spec s KH_HASH_EMPTY); destruct (Z.eqb_spec s KH_HASH_DELETED);
    simpl; intuition congruence.
Qed.

(** Bounded search for the least index with a decidable property. *)
Lemma least_below (P : Z -> Prop) (dec : forall z, {P z} + {~ P z}) (n : nat) :
  (forall i, 0 <= i < Z.of_nat n -> ~ P i)
  \/ exists m, 0 <= m < Z.of_nat n /\ P m /\ forall i, 0 <= i < m -> ~ P i.
Proof.
  induction n as [|n [IH|IH]].
  - left. intros i Hi. lia.
  - destruct (dec (Z.of_nat n)) as [Hn|Hn].
    + right. exists (Z.of_nat n). split; [lia|]. split; [exact Hn|].
      intros i Hi. apply IH. lia.
    + left. intros i Hi.
      destruct (Z.eq_dec i (Z.of_nat n)) as [->|Hne]; [exact Hn|].
      apply IH. lia.
  - right. destruct IH as (m & Hm & HP & Hmin).
    exists m. split; [lia|]. auto.
Qed.

(** A table with fewer keys than slots has a free slot. *)
Lemma table_has_free (cap : Z) (sl : list Z) (ks : list KH_Blob) :
  table_ok cap sl ks -> Z.of_nat (length ks) < cap ->
  exists p s, rd sl p = Ok s /\ slot_free s = true.
Proof.
  intros T Hlt.
  destruct (decide (Exists (fun s => slot_free s = true) sl)) as [E|E].
  - apply Exists_exists in E as (s & Hin & Hs).
    apply list_elem_of_In, list_elem_of_lookup in Hin as [i Hi].
    exists (Z.of_nat i), s. split; [|exact Hs].
    apply rd_Ok. split; [lia|]. rewrite Nat2Z.id. exact Hi.
  - exfalso. apply not_Exists_Forall in E; [|intros s; apply _].
    rewrite Forall_forall in E.
    assert (Hnf : forall i s, sl !! i = Some s -> slot_free s = false).
    { intros i s Hi. destruct (slot_free s) eqn:F; [|reflexivity].
      exfalso. apply (E s); [|exact F].
      apply list_elem_of_In, list_elem_of_lookup. eauto. }
    assert (Hrd : forall i s, sl !! i = Some s -> rd sl (Z.of_nat i) = Ok s).
    { intros i s Hi. apply rd_Ok. split; [lia|]. rewrite Nat2Z.id. exact Hi. }
    assert (Hnd : NoDup sl).
    { apply NoDup_alt. intros i j s Hi Hj.
      apply Nat2Z.inj. eapply (tok_inj _ _ _ T); eauto. }
    assert (Hsub : sl ⊆+ seqZ 0 (Z.of_nat (length ks))).
    { apply NoDup_submseteq; [exact Hnd|].
      intros s Hs. apply list_elem_of_lookup in Hs as [i Hi].
      apply elem_of_seqZ.
      pose proof (tok_val _ _ _ T _ _ (Hrd _ _ Hi) (Hnf _ _ Hi)). lia. }
    apply submseteq_length in Hsub. rewrite length_seqZ in Hsub.
    pose proof (tok_len _ _ _ T). lia.
Qed.

(** From any start, the probe path meets a free slot if there is one. *)
Lemma first_free_exists (cap : Z) (sl : list Z) (start : Z) :
  0 < cap -> Z.of_nat (length sl) = cap -> 0 <= start < cap ->
  (exists p s, rd sl p = Ok s /\ slot_free s = true) ->
  exists d, first_free cap sl start d.
Proof.
  unfold first_free. intros Hr Hlen Hstart (p & s & Hp & Hs).
  pose proof (rd_bound _ _ _ Hp) as Hpb.
  set (P := fun i : Z =>
    exists s, rd sl ((start + i) mod cap) = Ok s /\ slot_free s = true).
  assert (dec : forall z, {P z} + {~ P z}).
  { intros z. unfold P.
    destruct (rd sl ((start + z) mod cap)) as [s'|f] eqn:E.
    - destruct (slot_free s') eqn:F.
      + left. eauto.
      + right. intros (s'' & H1 & H2). congruence.
    - right. intros (s'' & H1 & H2). discriminate. }
  destruct (least_below P dec (Z.to_nat cap)) as [Hno|(m & Hm & HP & Hmin)].
  - exfalso. apply (Hno ((p - start) mod cap)).
    + pose proof (Z.mod_pos_bound (p - start) cap). lia.
    + exists s. split; [|exact Hs].
      rewrite Z.add_mod_idemp_r by lia.
      replace (start + (p - start)) with p by lia.
      rewrite Z.mod_small by lia. exact Hp.
  - exists m. split; [lia|]. split; [exact HP|].
    intros i Hi.
    destruct (rd_in_range sl ((start + i) mod cap)) as [s' Hs'].
    { pose proof (Z.mod_pos_bound (start + i) cap). lia. }
    exists s'. split; [exact Hs'|].
    destruct (slot_free s') eqn:F; [|reflexivity].
    exfalso. apply (Hmin i Hi). exists s'. auto.
Qed.

Lemma table_first_free (cap : Z) (sl : list Z) (ks : list KH_Blob) (start : Z) :
  table_ok cap sl ks -> Z.of_nat (length ks) < cap -> 0 <= start < cap ->
  exists d, first_free cap sl start d.
Proof.
  intros T Hlt Hstart.
  pose proof (cap_ok_range _ (tok_cap _ _ _ T)) as Hr.
  apply first_free_exists; [lia | exact (tok_len _ _ _ T) | exact Hstart |].
  exact (table_has_free _ _ _ T Hlt).
Qed.

(** The probe loop of [KH_InsertSlot] writes at the first free slot. *)
Lemma KH_InsertSlot_loop_spec (cap : Z) (sl : list Z) (index : Z) :
  cap_ok cap -> Z.of_nat (length sl) = cap ->
  forall (d fuel : nat) (start : Z),
    0 <= start < cap -> (d < fuel)%nat ->
    (forall i, 0 <= i < Z.of_nat d ->
       exists s, rd sl ((start + i) mod cap) = Ok s /\ slot_free s = false) ->
    (exists s, rd sl ((start + Z.of_nat d) mod cap) = Ok s /\ slot_free s = true) ->
    KH_InsertSlot_loop fuel sl cap start index
    = Ok (<[Z.to_nat ((start + Z.of_nat d) mod cap) := index]> sl).
Proof.
  intros Hc Hlen. pose proof (cap_ok_range _ Hc) as Hr.
  induction d as [|d IH]; intros fuel start Hs Hf Hocc Hfree.
  - destruct fuel as [|fuel]; [lia|]. simpl.
    destruct Hfree as (s & Hrd & Hfr).
    rewrite Z.add_0_r, Z.mod_small in Hrd |- * by lia.
    rewrite Hrd. simpl. rewrite Hfr.
    apply wr_in_range. lia.
  - destruct fuel as [|fuel]; [lia|]. simpl.
    destruct (Hocc 0) as (s & Hrd & Hnf); [lia|].
    rewrite Z.add_0_r, Z.mod_small in Hrd by lia.
    rewrite Hrd. simpl. rewrite Hnf.
    rewrite probe_next by auto.
    assert (Hshift : forall i,
      ((start + 1) mod cap + i) mod cap = (start + (i + 1)) mod cap).
    { intros i. rewrite Z.add_mod_idemp_l by lia. f_equal. lia. }
    rewrite (IH fuel ((start + 1) mod cap)).
    + rewrite Hshift. do 3 f_equal. lia.
    + apply Z.mod_pos_bound. lia.
    + lia.
    + intros i Hi. rewrite Hshift. apply Hocc. lia.
    + rewrite Hshift. replace (Z.of_nat d + 1) with (Z.of_nat (S d)) by lia.
      exact Hfree.
Qed.

Lemma first_free_probes (cap : Z) (sl : list Z) (h dk n : Z) :
  Z.of_nat (length sl) = cap -> first_free cap sl h dk ->
  probes_to cap (<[Z.to_nat ((h + dk) mod cap) := n]> sl) h n dk.
Proof.
  intros Hlen (Hdk & (s & Hs & Hfree) & Hocc).
  pose proof (rd_bound _ _ _ Hs) as Hpos.
  split; [exact Hdk|]. split.
  - apply rd_insert_eq. exact Hpos.
  - intros i Hi. destruct (Hocc i Hi) as (s' & Hs' & Hnf).
    exists s'. split; [|exact Hnf].
    pose proof (rd_bound _ _ _ Hs') as Hpos'.
    rewrite rd_insert_ne; [exact Hs' | lia | lia |].
    intros E. apply probe_inj in E; lia.
Qed.

Lemma table_insert_last (cap : Z) (sl : list Z) (ks : list KH_Blob)
    (k : KH_Blob) (dk : Z) :
  Z.of_nat (length sl) = cap -> first_free cap sl (blob_hash k mod cap) dk ->
  last_probed cap
    (<[Z.to_nat ((blob_hash k mod cap + dk) mod cap) := Z.of_nat (length ks)]> sl)
    (ks ++ [k]).
Proof.
  intros Hlen Hff k' Hlast. rewrite length_app in Hlast. simpl in Hlast.
  rewrite lookup_app_r in Hlast by lia.
  replace (length ks + 1 - 1 - length ks)%nat with 0%nat in Hlast by lia.
  injection Hlast as <-.
  exists dk. rewrite length_app. simpl.
  replace (Z.of_nat (length ks + 1) - 1) with (Z.of_nat (length ks)) by lia.
  apply first_free_probes; assumption.
Qed.

Lemma KH_InsertSlot_first_free (cap : Z) (sl : list Z) (hash index dk : Z) :
  cap_ok cap -> Z.of_nat (length sl) = cap ->
  first_free cap sl (hash mod cap) dk ->
  KH_InsertSlot sl cap hash index
  = Ok (<[Z.to_nat ((hash mod cap + dk) mod cap) := index]> sl).
Proof.
  intros Hc Hlen (Hdk & Hfree & Hocc).
  pose proof (cap_ok_range _ Hc) as Hr.
  unfold KH_InsertSlot. rewrite home_mod by exact Hc.
  rewrite <- (Z2Nat.id dk) by lia.
  apply (KH_InsertSlot_loop_spec cap sl index Hc Hlen).
  - apply Z.mod_pos_bound. lia.
  - lia.
  - intros i Hi. apply Hocc. lia.
  - rewrite Z2Nat.id by lia. exact Hfree.
Qed.

(** In a full table the probe loop never stops. *)
Lemma KH_InsertSlot_loop_full (cap : Z) (sl : list Z) (index : Z) :
  cap_ok cap -> Z.of_nat (length sl) = cap ->
  (forall p s, rd sl p = Ok s -> slot_free s = false) ->
  forall (fuel : nat) (start : Z), 0 <= start < cap ->
    KH_InsertSlot_loop fuel sl cap start index = Fault Diverges.
Proof.
  intros Hc Hlen Hfull. pose proof (cap_ok_range _ Hc) as Hr.
  induction fuel as [|fuel IH]; intros start Hs; [reflexivity|]. simpl.
  destruct (rd_in_range sl start) as [s Hrd]; [lia|].
  rewrite Hrd. simpl. rewrite (Hfull _ _ Hrd).
  rewrite probe_next by auto. apply IH. apply Z.mod_pos_bound. lia.
Qed.

(** The fuel of [KH_InsertSlot] is enough: when it runs out, the loop of
    the source does not stop, however long it runs. *)
Lemma KH_InsertSlot_diverges (cap : Z) (sl : list Z) (hash index : Z) :
  cap_ok cap -> Z.of_nat (length sl) = cap ->
  KH_InsertSlot sl cap hash index = Fault Diverges ->
  forall fuel : nat,
    KH_InsertSlot_loop fuel sl cap (KH_BlobStartingIndexForSize hash cap) index
    = Fault Diverges.
Proof.
  intros Hc Hlen Hdiv fuel. pose proof (cap_ok_range _ Hc) as Hr.
  assert (Hh : 0 <= hash mod cap < cap) by (apply Z.mod_pos_bound; lia).
  destruct (decide (Exists (fun s => slot_free s = true) sl)) as [E|E].
  - exfalso. apply Exists_exists in E as (s & Hin & Hs).
    apply list_elem_of_In, list_elem_of_lookup in Hin as [i Hi].
    destruct (first_free_exists cap sl (hash mod cap)) as (dk & Hff);
      [lia | exact Hlen | exact Hh | |].
    + exists (Z.of_nat i), s. split; [|exact Hs].
      apply rd_Ok. split; [lia|]. rewrite Nat2Z.id. exact Hi.
    + rewrite (KH_InsertSlot_first_free cap sl hash index dk Hc Hlen Hff) in Hdiv.
      discriminate.
  - apply not_Exists_Forall in E; [|intros s; apply _].
    rewrite Forall_forall in E.
    rewrite home_mod by exact Hc.
    apply (KH_InsertSlot_loop_full cap sl index Hc Hlen); [|exact Hh].
    intros p s [_ Hp]%rd_Ok. destruct (slot_free s) eqn:F; [|reflexivity].
    exfalso. apply (E s); [|exact F].
    apply list_elem_of_In, list_elem_of_lookup. eauto.
Qed.

Lemma table_ok_empty (cap : Z) :
  cap_ok cap -> table_ok cap (replicate (Z.to_nat cap) KH_HASH_EMPTY) [].
Proof.
  intros Hc. pose proof (cap_ok_range _ Hc) as Hr.
  assert (Hall : forall p s,
    rd (replicate (Z.to_nat cap) KH_HASH_EMPTY) p = Ok s -> s = KH_HASH_EMPTY).
  { intros p s [_ H]%rd_Ok. apply lookup_replicate in H. tauto. }
  split.
  - exact Hc.
  - rewrite length_replicate. lia.
  - simpl. unfold KH_HASH_DELETED. lia.
  - intros p s H F. apply Hall in H. subst s. discriminate.
  - intros p q s H _ F. apply Hall in H. subst s. discriminate.
  - intros j kj H. discriminate.
Qed.

(** Indexing one more key keeps the table well formed. *)
Lemma table_insert (cap : Z) (sl : list Z) (ks : list KH_Blob) (k : KH_Blob) :
  table_ok cap sl ks ->
  Z.of_nat (length ks) < cap ->
  Z.of_nat (length ks) < KH_HASH_DELETED ->
  exists sl' dk,
    KH_InsertSlot sl cap (blob_hash k) (u32 (Z.of_nat (length ks))) = Ok sl'
    /\ table_ok cap sl' (ks ++ [k])
    /\ first_free cap sl (blob_hash k mod cap) dk
    /\ sl' = <[Z.to_nat ((blob_hash k mod cap + dk) mod cap)
               := Z.of_nat (length ks)]> sl.
Proof.
  intros T Hlt Hsmall.
  pose proof (tok_cap _ _ _ T) as Hc.
  pose proof (cap_ok_range _ Hc) as Hr.
  pose proof (tok_len _ _ _ T) as Hlen.
  set (n := Z.of_nat (length ks)) in *.
  set (h := blob_hash k mod cap).
  assert (Hh : 0 <= h < cap) by (apply Z.mod_pos_bound; lia).
  destruct (table_first_free _ _ _ h T Hlt Hh) as (d & Hff).
  pose proof Hff as (Hd & Hfree & Hocc).
  set (pos := (h + d) mod cap) in *.
  assert (Hpos : 0 <= pos < cap) by (apply Z.mod_pos_bound; lia).
  assert (Hn32 : u32 n = n).
  { apply u32_id. unfold KH_HASH_DELETED in Hsmall. lia. }
  assert (Hnidx : slot_free n = false) by (apply slot_free_index; lia).
  exists (<[Z.to_nat pos := n]> sl), d.
  split; [|split; [|split; [exact Hff | reflexivity]]].
  - unfold KH_InsertSlot. rewrite home_mod by exact Hc. rewrite Hn32.
    fold h. unfold pos.
    rewrite <- (Z2Nat.id d) by lia.
    apply (KH_InsertSlot_loop_spec cap sl n Hc Hlen); try lia.
    + intros i Hi. apply Hocc. lia.
    + rewrite Z2Nat.id by lia. exact Hfree.
  - assert (Hrd' : forall p s,
      rd (<[Z.to_nat pos := n]> sl) p = Ok s ->
      (p = pos /\ s = n) \/ (p <> pos /\ rd sl p = Ok s)).
    { intros p s H. destruct (Z.eq_dec p pos) as [->|Hne].
      - rewrite rd_insert_eq in H by lia. left. split; congruence.
      - right. split; [exact Hne|].
        pose proof (rd_bound _ _ _ H).
        rewrite rd_insert_ne in H by lia. exact H. }
    assert (Hkeep : forall p, p <> pos -> 0 <= p ->
      rd (<[Z.to_nat pos := n]> sl) p = rd sl p).
    { intros p Hne Hp. apply rd_insert_ne; lia. }
    split.
    + exact Hc.
    + rewrite length_insert. exact Hlen.
    + rewrite length_app. simpl. fold n. lia.
    + intros p s H F. rewrite length_app. simpl.
      apply Hrd' in H as [[_ ->]|[_ H]]; [fold n; lia|].
      pose proof (tok_val _ _ _ T _ _ H F). fold n in H0. lia.
    + intros p q s Hp Hq F.
      apply Hrd' in Hp as [[-> ->]|[Hp1 Hp]];
        apply Hrd' in Hq as [[Hq0 Hq1]|[Hq1 Hq]].
      * congruence.
      * pose proof (tok_val _ _ _ T _ _ Hq F). fold n in H. lia.
      * subst s. pose proof (tok_val _ _ _ T _ _ Hp F). fold n in H. lia.
      * eapply (tok_inj _ _ _ T); eauto.
    + intros j kj Hj.
      destruct (lookup_app_Some ks [k] j kj) as [Hcase _].
      destruct (Hcase Hj) as [Hold|[Hge Hnew]].
      * destruct (tok_chain _ _ _ T j kj Hold) as (dj & Hdj & Hat & Hbefore).
        exists dj. split; [exact Hdj|].
        assert (Hjn : 0 <= Z.of_nat j < n).
        { apply lookup_lt_Some in Hold. unfold n. lia. }
        assert (Hne : (blob_hash kj mod cap + dj) mod cap <> pos).
        { intros E. rewrite E in Hat.
          destruct Hfree as (s & Hs & Hsf). fold pos in Hs.
          rewrite Hat in Hs. injection Hs as <-.
          rewrite slot_free_index in Hsf by lia. discriminate. }
        split.
        -- rewrite Hkeep; [exact Hat | exact Hne |].
           apply Z.mod_pos_bound. lia.
        -- intros i Hi H.
           apply Hrd' in H as [[_ H]|[_ H]].
           ++ unfold KH_HASH_EMPTY, KH_HASH_DELETED in *. lia.
           ++ exact (Hbefore i Hi H).
      * destruct (j - length ks)%nat as [|m] eqn:Ej; [|destruct m; discriminate].
        simpl in Hnew. injection Hnew as <-.
        assert (j = length ks) as -> by lia.
        exists d. split; [exact Hd|]. fold h pos n. split.
        -- apply rd_insert_eq. lia.
        -- intros i Hi H.
           destruct (Hocc i Hi) as (s & Hs & Hsf).
           apply Hrd' in H as [[E _]|[_ H]].
           ++ apply probe_inj in E; lia.
           ++ rewrite Hs in H. injection H as ->. discriminate.
Qed.

(** ** The dictionary as an association list *)

Lemma KH_NOT_FOUND_val : KH_NOT_FOUND = 2 ^ 64 - 1.
Proof. reflexivity. Qed.

Section Lookup.
Variables (d : KH_Dict) (es : list (KH_Blob * KH_Blob)) (k : KH_Blob).
Hypothesis T : table_ok (data_alloced d) (slots d) (es.*1).
Hypothesis PH : pairs_hold (pairs d) es.

Let cap := data_alloced d.
Let h := blob_hash k mod cap.

Lemma lookup_read_pair (s : Z) :
  0 <= s < Z.of_nat (length es) ->
  exists ks vs, es !! Z.to_nat s = Some (ks, vs)
    /\ rd (pairs d) s = Ok {| key := Some ks; value := Some vs |}.
Proof.
  intros Hs.
  destruct (lookup_lt_is_Some_2 es (Z.to_nat s)) as [[ks vs] He]; [lia|].
  exists ks, vs. split; [exact He|].
  apply rd_Ok. split; [lia|]. exact (PH _ _ He).
Qed.

(** A key that equals no stored key is reported missing. *)
Lemma lookup_loop_absent :
  (forall (j : nat) e, es !! j = Some e -> KH_BlobEqual k e.1 = false) ->
  forall (n : nat) (i : Z), 0 <= i -> i + Z.of_nat n <= cap ->
    KH_DictLookupIndex_loop n d k h i = Ok KH_NOT_FOUND.
Proof.
  intros Habs.
  pose proof (tok_cap _ _ _ T) as Hc. fold cap in Hc.
  pose proof (cap_ok_range _ Hc) as Hr.
  pose proof (tok_len _ _ _ T) as Hlen. fold cap in Hlen.
  assert (Hh : 0 <= h < cap) by (apply Z.mod_pos_bound; lia).
  induction n as [|n IH]; intros i Hi Hn; [reflexivity|].
  simpl. fold cap. rewrite probe_at by (auto; lia).
  destruct (rd_in_range (slots d) ((h + i) mod cap)) as [s Hs].
  { pose proof (Z.mod_pos_bound (h + i) cap). lia. }
  rewrite Hs. simpl.
  destruct (Z.eqb_spec s KH_HASH_EMPTY) as [He|He]; [reflexivity|].
  assert (Hnext : usize (i + 1) = i + 1) by (apply usize_id; lia).
  destruct (Z.eqb_spec s KH_HASH_DELETED) as [Hd|Hd].
  - rewrite Hnext. apply IH; lia.
  - assert (F : slot_free s = false) by (apply slot_free_false; auto).
    pose proof (tok_val _ _ _ T _ _ Hs F) as Hsr.
    rewrite length_fmap in Hsr.
    destruct (lookup_read_pair s Hsr) as (ks & vs & He' & Hp).
    rewrite Hp. simpl.
    pose proof (Habs _ _ He') as Hne. simpl in Hne.
    rewrite Hne, Hnext. apply IH; lia.
Qed.

(** A stored key is found at its position in the pair array. *)
Lemma lookup_loop_found (j : nat) (kj vj : KH_Blob) :
  keys_distinct (es.*1) ->
  es !! j = Some (kj, vj) -> KH_BlobEqual k kj = true ->
  KH_DictLookupIndex_loop (Z.to_nat cap) d k h 0 = Ok (Z.of_nat j).
Proof.
  intros Hdist Hj Heq.
  pose proof (tok_cap _ _ _ T) as Hc. fold cap in Hc.
  pose proof (cap_ok_range _ Hc) as Hr.
  pose proof (tok_len _ _ _ T) as Hlen. fold cap in Hlen.
  pose proof (tok_small _ _ _ T) as Hsmall. rewrite length_fmap in Hsmall.
  assert (Hh : 0 <= h < cap) by (apply Z.mod_pos_bound; lia).
  assert (Hjk : es.*1 !! j = Some kj).
  { rewrite list_lookup_fmap, Hj. reflexivity. }
  destruct (tok_chain _ _ _ T j kj Hjk) as (dj & Hdj & Hat & Hbefore).
  fold cap in Hdj, Hat, Hbefore.
  replace (blob_hash kj mod cap) with h in Hat, Hbefore
    by (unfold h; f_equal; apply KH_BlobEqual_hash; exact Heq).
  assert (Hjlt : 0 <= Z.of_nat j < Z.of_nat (length es)).
  { apply lookup_lt_Some in Hj. lia. }
  assert (Hjf : slot_free (Z.of_nat j) = false) by (apply slot_free_index; lia).
  assert (Hloop : forall (m n : nat) (i : Z),
    0 <= i -> i + Z.of_nat m = dj -> (m < n)%nat ->
    KH_DictLookupIndex_loop n d k h i = Ok (Z.of_nat j)).
  { induction m as [|m IH]; intros n i Hi Him Hmn;
      (destruct n as [|n]; [lia|]); simpl; fold cap;
      rewrite probe_at by (auto; lia).
    - replace i with dj by lia. rewrite Hat. simpl.
      apply slot_free_false in Hjf as [Hne Hnd].
      destruct (Z.eqb_spec (Z.of_nat j) KH_HASH_EMPTY); [contradiction|].
      destruct (Z.eqb_spec (Z.of_nat j) KH_HASH_DELETED); [contradiction|].
      assert (Hp : rd (pairs d) (Z.of_nat j)
                   = Ok {| key := Some kj; value := Some vj |}).
      { apply rd_Ok. split; [lia|]. rewrite Nat2Z.id. exact (PH _ _ Hj). }
      rewrite Hp. simpl. rewrite Heq. reflexivity.
    - destruct (rd_in_range (slots d) ((h + i) mod cap)) as [s Hs].
      { pose proof (Z.mod_pos_bound (h + i) cap). lia. }
      rewrite Hs. simpl.
      destruct (Z.eqb_spec s KH_HASH_EMPTY) as [He|He].
      { exfalso. apply (Hbefore i); [lia|]. rewrite Hs. congruence. }
      assert (Hnext : usize (i + 1) = i + 1) by (apply usize_id; lia).
      destruct (Z.eqb_spec s KH_HASH_DELETED) as [Hd|Hd].
      + rewrite Hnext. apply IH; lia.
      + assert (F : slot_free s = false) by (apply slot_free_false; auto).
        pose proof (tok_val _ _ _ T _ _ Hs F) as Hsr.
        rewrite length_fmap in Hsr.
        destruct (lookup_read_pair s Hsr) as (ks & vs & He' & Hp).
        rewrite Hp. simpl.
        destruct (KH_BlobEqual k ks) eqn:Eks.
        * exfalso.
          assert (Hsj : Z.to_nat s = j).
          { apply (Hdist (Z.to_nat s) j ks kj).
            - rewrite list_lookup_fmap, He'. reflexivity.
            - exact Hjk.
            - eapply KH_BlobEqual_trans; [|exact Heq].
              apply KH_BlobEqual_sym. exact Eks. }
          assert (Hs' : rd (slots d) ((h + i) mod cap) = Ok (Z.of_nat j)).
          { rewrite Hs. f_equal. lia. }
          pose proof (tok_inj _ _ _ T _ _ _ Hs' Hat Hjf) as Hpos.
          apply probe_inj in Hpos; lia.
        * rewrite Hnext. apply IH; lia. }
  apply (Hloop (Z.to_nat dj)); lia.
Qed.
End Lookup.

Lemma Rep_lookup_absent (d : KH_Dict) (es : list (KH_Blob * KH_Blob)) (k : KH_Blob) :
  Rep d es ->
  (forall (j : nat) e, es !! j = Some e -> KH_BlobEqual k e.1 = false) ->
  KH_DictLookupIndex d k = Ok KH_NOT_FOUND.
Proof.
  intros R Habs. unfold KH_DictLookupIndex.
  destruct (rep_shape _ _ R) as [(H0 & _ & _)|(T & _ & _)].
  - rewrite H0. reflexivity.
  - pose proof (cap_ok_range _ (tok_cap _ _ _ T)) as Hr.
    rewrite home_mod by exact (tok_cap _ _ _ T).
    apply (lookup_loop_absent d es k T (rep_pairs _ _ R) Habs); lia.
Qed.

Lemma Rep_lookup_found (d : KH_Dict) (es : list (KH_Blob * KH_Blob))
    (k : KH_Blob) (j : nat) (kj vj : KH_Blob) :
  Rep d es -> es !! j = Some (kj, vj) -> KH_BlobEqual k kj = true ->
  KH_DictLookupIndex d k = Ok (Z.of_nat j).
Proof.
  intros R Hj Heq. unfold KH_DictLookupIndex.
  destruct (rep_shape _ _ R) as [(_ & _ & ->)|(T & _ & _)]; [discriminate|].
  rewrite home_mod by exact (tok_cap _ _ _ T).
  exact (lookup_loop_found d es k T (rep_pairs _ _ R) j kj vj
           (rep_distinct _ _ R) Hj Heq).
Qed.

(** The entries of a dictionary stay below the two slot markers. *)
Lemma Rep_small (d : KH_Dict) (es : list (KH_Blob * KH_Blob)) :
  Rep d es -> Z.of_nat (length es) <= KH_HASH_DELETED.
Proof.
  intros R. destruct (rep_shape _ _ R) as [(_ & _ & ->)|(T & _ & _)].
  - simpl. unfold KH_HASH_DELETED. lia.
  - pose proof (tok_small _ _ _ T) as H. rewrite length_fmap in H. exact H.
Qed.

Lemma index_not_NOT_FOUND (d : KH_Dict) (es : list (KH_Blob * KH_Blob)) (j : nat) :
  Rep d es -> (j < length es)%nat -> (Z.of_nat j =? KH_NOT_FOUND) = false.
Proof.
  intros R Hj. pose proof (Rep_small _ _ R) as Hs.
  apply Z.eqb_neq. rewrite KH_NOT_FOUND_val. unfold KH_HASH_DELETED in Hs. lia.
Qed.

(** ** Resizing *)

Section Resize.
Variables (self : KH_Dict) (es : list (KH_Blob * KH_Blob)) (new_size : Z).
Hypothesis PH : pairs_hold (pairs self) es.
Hypothesis Hend : rd (pairs self) (Z.of_nat (length es)) = Ok null_pair.
Hypothesis Hnew : cap_ok new_size.
Hypothesis Hroom : Z.of_nat (length es) < new_size.
Hypothesis Hsmall : Z.of_nat (length es) < KH_HASH_DELETED.

(** The copy loop re-indexes the live pairs one by one and stops at the
    first NULL pair. *)
Lemma KH_ResizeDict_copy_spec :
  forall (m n i : nat) (sl : list Z) (np : list KH_DictPair),
    (i + m = length es)%nat -> (m < n)%nat ->
    table_ok new_size sl (take i (es.*1)) ->
    (m = 0%nat -> last_probed new_size sl (es.*1)) ->
    Z.of_nat (length np) = new_size ->
    pairs_hold np (take i es) ->
    (forall j : nat, (i <= j)%nat -> Z.of_nat j < new_size ->
       np !! j = Some null_pair) ->
    exists sl' np',
      KH_ResizeDict_copy n self new_size (Z.of_nat i) (Z.of_nat i) sl np
      = Ok (sl', np', Z.of_nat (length es))
      /\ table_ok new_size sl' (es.*1)
      /\ last_probed new_size sl' (es.*1)
      /\ Z.of_nat (length np') = new_size
      /\ pairs_hold np' es
      /\ (forall j : nat, (length es <= j)%nat -> Z.of_nat j < new_size ->
            np' !! j = Some null_pair).
Proof.
  pose proof (cap_ok_range _ Hnew) as Hr.
  induction m as [|m IH]; intros n i sl np Him Hmn T Hlast Hlen Hnp Hnull;
    (destruct n as [|n]; [lia|]); simpl.
  - assert (i = length es) as -> by lia.
    rewrite Hend. simpl. exists sl, np.
    rewrite !firstn_all2 in * by (rewrite ?length_fmap; lia).
    auto 10.
  - destruct (lookup_lt_is_Some_2 es i) as [[ki vi] Hi]; [lia|].
    assert (Hp : rd (pairs self) (Z.of_nat i)
                 = Ok {| key := Some ki; value := Some vi |}).
    { apply rd_Ok. split; [lia|]. rewrite Nat2Z.id. exact (PH _ _ Hi). }
    rewrite Hp. simpl.
    rewrite wr_in_range by lia. simpl. rewrite Nat2Z.id.
    assert (Hlt : length (take i (es.*1)) = i).
    { rewrite length_take, length_fmap. lia. }
    assert (Hki : es.*1 !! i = Some ki).
    { rewrite list_lookup_fmap, Hi. reflexivity. }
    destruct (table_insert new_size sl (take i (es.*1)) ki T)
      as (sl' & dk & Hins & T' & Hff & Hsl').
    { rewrite Hlt. lia. }
    { rewrite Hlt. lia. }
    rewrite Hlt in Hins. rewrite Hins. simpl.
    assert (Hnext : usize (Z.of_nat i + 1) = Z.of_nat (S i)).
    { rewrite usize_id; lia. }
    rewrite Hnext.
    apply IH.
    + lia.
    + lia.
    + erewrite take_S_r; [exact T' | exact Hki].
    + intros ->. rewrite Hsl'.
      assert (Hall : es.*1 = take i (es.*1) ++ [ki]).
      { rewrite <- (take_S_r _ _ _ Hki).
        rewrite firstn_all2; [reflexivity|]. rewrite length_fmap. lia. }
      pose proof (table_insert_last new_size sl (take i (es.*1)) ki dk
                    (tok_len _ _ _ T) Hff) as HL.
      rewrite <- Hall in HL. exact HL.
    + rewrite length_insert. exact Hlen.
    + intros j e Hj.
      erewrite take_S_r in Hj by exact Hi.
      apply lookup_app_Some in Hj as [Hj|[Hge Hj]].
      * pose proof (lookup_lt_Some _ _ _ Hj) as Hjl.
        rewrite length_take in Hjl.
        rewrite list_lookup_insert_ne by lia. exact (Hnp _ _ Hj).
      * rewrite length_take in Hge, Hj.
        replace (i `min` length es)%nat with i in Hge, Hj by lia.
        destruct (j - i)%nat as [|x] eqn:Ej; [|destruct x; discriminate].
        simpl in Hj. injection Hj as <-.
        assert (j = i) as -> by lia.
        apply list_lookup_insert_eq. lia.
    + intros j Hj Hjn. rewrite list_lookup_insert_ne by lia.
      apply Hnull; lia.
Qed.
End Resize.

Lemma KH_ResizeDict_spec (d : KH_Dict) (es : list (KH_Blob * KH_Blob)) :
  Rep d es -> at_threshold d -> Z.of_nat (length es) < KH_MAX_COUNT ->
  exists d',
    KH_ResizeDict true true d = Ok (Resized d')
    /\ Rep d' es
    /\ last_probed (data_alloced d') (slots d') (es.*1)
    /\ cap_ok (data_alloced d')
    /\ data_alloced d' = (if data_alloced d =? 0 then 8 else 2 * data_alloced d)
    /\ Z.of_nat (length es) < KH_threshold (data_alloced d').
Proof.
  intros R Hthr Hmax. unfold at_threshold in Hthr.
  rewrite (rep_count _ _ R) in Hthr.
  unfold KH_ResizeDict. simpl.
  destruct (rep_shape _ _ R) as [(H0 & Hsl & ->)|(T & Hload & Hnull)].
  - rewrite H0. simpl.
    eexists. split; [reflexivity|]. simpl.
    split; [|split; [intros k Hk; discriminate|
             split; [exact cap_ok_8|split; [reflexivity|reflexivity]]]].
    split; simpl.
    + reflexivity.
    + reflexivity.
    + intros j e Hj. discriminate.
    + intros i j ki kj Hi. discriminate.
    + right. split; [exact (table_ok_empty 8 cap_ok_8)|].
      change (KH_threshold 8) with 5. split; [lia | reflexivity].
  - pose proof (tok_cap _ _ _ T) as Hc.
    pose proof (cap_ok_range _ Hc) as Hr.
    destruct (cap_ok_eighth _ Hc) as (c & Hcr & Hc8).
    assert (Hthr8 : KH_threshold (data_alloced d) = 5 * c).
    { rewrite Hc8. apply KH_threshold_eighth. lia. }
    rewrite Hthr8 in *.
    assert (Hlen : Z.of_nat (length es) = 5 * c) by lia.
    unfold KH_MAX_COUNT in Hmax.
    assert (Hc29 : c < 2 ^ 29) by lia.
    destruct (Z.eqb_spec (data_alloced d) 0) as [E0|_]; [lia|].
    rewrite usize_id by lia.
    assert (Hnew : cap_ok (2 * data_alloced d)) by (apply cap_ok_double; [auto | lia]).
    assert (Hthr' : KH_threshold (2 * data_alloced d) = 10 * c).
    { replace (2 * data_alloced d) with (8 * (2 * c)) by lia.
      rewrite KH_threshold_eighth; lia. }
    set (new_size := 2 * data_alloced d) in *.
    destruct (KH_ResizeDict_copy_spec d es new_size (rep_pairs _ _ R))
      with (m := length es) (n := Z.to_nat (data_alloced d)) (i := 0%nat)
           (sl := replicate (Z.to_nat new_size) KH_HASH_EMPTY)
           (np := replicate (Z.to_nat new_size) null_pair)
      as (sl' & np' & Hcopy & T' & Hlast' & Hlen' & PH' & Hnull').
    + rewrite Hlen. exact Hnull.
    + exact Hnew.
    + lia.
    + unfold KH_HASH_DELETED. lia.
    + lia.
    + lia.
    + apply table_ok_empty. exact Hnew.
    + intros E k Hk. apply length_zero_iff_nil in E. rewrite E in Hk. discriminate.
    + rewrite length_replicate. lia.
    + intros j e Hj. discriminate.
    + intros j _ Hj. apply lookup_replicate. split; [reflexivity | lia].
    + change (Z.of_nat 0) with 0 in Hcopy. rewrite Hcopy. simpl.
      eexists. split; [reflexivity|]. simpl.
      split; [|split; [exact Hlast'|split; [exact Hnew|split; [reflexivity|lia]]]].
      split; simpl.
      * reflexivity.
      * exact Hlen'.
      * exact PH'.
      * exact (rep_distinct _ _ R).
      * right. split; [exact T'|]. rewrite Hthr'. split; [lia|].
        apply rd_Ok. split; [lia|]. apply Hnull'; lia.
Qed.

(** ** Insertion *)

Lemma keys_distinct_snoc (es : list (KH_Blob * KH_Blob)) (k v : KH_Blob) :
  keys_distinct (es.*1) -> absent k es -> keys_distinct ((es ++ [(k, v)]).*1).
Proof.
  intros Hd Ha i j ki kj Hi Hj Heq.
  rewrite fmap_app in Hi, Hj. simpl in Hi, Hj.
  assert (Hlast : forall (x : nat) kx,
    (es.*1 ++ [k]) !! x = Some kx ->
    es.*1 !! x = Some kx \/ (x = length es /\ kx = k)).
  { intros x kx Hx. apply lookup_app_Some in Hx as [Hx|[Hge Hx]]; [auto|].
    rewrite length_fmap in Hge, Hx. right.
    destruct (x - length es)%nat as [|y] eqn:E; [|destruct y; discriminate].
    simpl in Hx. injection Hx as <-. split; [lia | reflexivity]. }
  assert (Hno : forall (x : nat) kx,
    es.*1 !! x = Some kx -> KH_BlobEqual k kx = false).
  { intros x kx Hx. rewrite list_lookup_fmap in Hx.
    destruct (es !! x) as [e|] eqn:E; [|discriminate].
    injection Hx as <-. exact (Ha _ _ E). }
  apply Hlast in Hi as [Hi|[-> ->]]; apply Hlast in Hj as [Hj|[-> ->]].
  - exact (Hd _ _ _ _ Hi Hj Heq).
  - apply KH_BlobEqual_sym in Heq. rewrite (Hno _ _ Hi) in Heq. discriminate.
  - rewrite (Hno _ _ Hj) in Heq. discriminate.
  - reflexivity.
Qed.

(** The part of [KH_DictInsert] after the resize test. *)
Lemma KH_DictInsert_place (d : KH_Dict) (es : list (KH_Blob * KH_Blob)) (k v : KH_Blob) :
  Rep d es -> cap_ok (data_alloced d) ->
  Z.of_nat (length es) < KH_threshold (data_alloced d) ->
  absent k es ->
  exists pairs' slots',
    wr (pairs d) (data_count d) {| key := Some k; value := Some v |} = Ok pairs'
    /\ KH_InsertSlot (slots d) (data_alloced d) (blob_hash k) (u32 (data_count d))
       = Ok slots'
    /\ Rep {| slots := slots'; pairs := pairs';
              data_count := usize (data_count d + 1);
              data_alloced := data_alloced d |} (es ++ [(k, v)])
    /\ placed d {| slots := slots'; pairs := pairs';
                   data_count := usize (data_count d + 1);
                   data_alloced := data_alloced d |} k.
Proof.
  intros R Hc Hroom Habs.
  pose proof (cap_ok_range _ Hc) as Hr.
  destruct (cap_ok_eighth _ Hc) as (c & Hcr & Hc8).
  assert (Hthr : KH_threshold (data_alloced d) = 5 * c).
  { rewrite Hc8. apply KH_threshold_eighth. lia. }
  rewrite Hthr in Hroom.
  destruct (rep_shape _ _ R) as [(H0 & _ & _)|(T & Hload & Hnull)]; [lia|].
  rewrite Hthr in Hnull.
  pose proof (rep_count _ _ R) as Hcount.
  pose proof (rep_pairs_len _ _ R) as Hplen.
  destruct (table_insert _ _ _ k T) as (sl' & dk & Hins & T' & Hff & Hsl').
  { rewrite length_fmap. lia. }
  { rewrite length_fmap. unfold KH_HASH_DELETED. lia. }
  rewrite length_fmap in Hins, Hsl'.
  exists (<[Z.to_nat (data_count d) := {| key := Some k; value := Some v |}]> (pairs d)), sl'.
  split; [apply wr_in_range; lia|].
  split; [rewrite Hcount; exact Hins|].
  split; [|split; [reflexivity|]].
  - split; simpl.
    + rewrite length_app. simpl. rewrite usize_id; lia.
    + rewrite length_insert. exact Hplen.
    + rewrite Hcount, Nat2Z.id. intros j e Hj.
      apply lookup_app_Some in Hj as [Hj|[Hge Hj]].
      * pose proof (lookup_lt_Some _ _ _ Hj).
        rewrite list_lookup_insert_ne by lia. exact (rep_pairs _ _ R _ _ Hj).
      * destruct (j - length es)%nat as [|x] eqn:E; [|destruct x; discriminate].
        simpl in Hj. injection Hj as <-.
        assert (j = length es) as -> by lia.
        apply list_lookup_insert_eq. lia.
    + apply keys_distinct_snoc; [exact (rep_distinct _ _ R) | exact Habs].
    + right. rewrite fmap_app. simpl. split; [exact T'|].
      rewrite Hthr, length_app. simpl. split; [lia|].
      rewrite rd_insert_ne; [exact Hnull | lia | lia | lia].
  - exists dk. simpl. split; [exact Hff|]. rewrite Hcount. exact Hsl'.
Qed.

(** Below the threshold the allocator is not consulted. *)
Lemma KH_DictInsert_room (a b : bool) (d : KH_Dict)
    (es : list (KH_Blob * KH_Blob)) (k v : KH_Blob) :
  Rep d es -> ~ at_threshold d -> absent k es ->
  exists d',
    KH_DictInsert a b d k v = Ok (d', true)
    /\ Rep d' (es ++ [(k, v)])
    /\ placed d d' k.
Proof.
  intros R Hthr Habs. unfold at_threshold in Hthr.
  assert (Hlt : data_count d < KH_threshold (data_alloced d)) by lia.
  assert (Hc : cap_ok (data_alloced d)).
  { destruct (rep_shape _ _ R) as [(H0 & _ & ->)|(T & _ & _)].
    - rewrite H0, (rep_count _ _ R) in Hlt. simpl in Hlt.
      change (KH_threshold 0) with 0 in Hlt. lia.
    - exact (tok_cap _ _ _ T). }
  rewrite (rep_count _ _ R) in Hlt.
  destruct (KH_DictInsert_place d es k v R Hc Hlt Habs)
    as (ps & sl & Hw & Hi & R' & Hpl).
  unfold KH_DictInsert.
  destruct (Z.geb_spec (data_count d) (KH_threshold (data_alloced d))) as [Hge|_].
  { rewrite (rep_count _ _ R) in Hge. lia. }
  simpl. rewrite Hw. simpl. rewrite Hi. simpl.
  eexists. split; [reflexivity|]. split; [exact R' | exact Hpl].
Qed.

(** At the threshold the table is resized first, into [d1]. *)
Lemma KH_DictInsert_resize (d : KH_Dict) (es : list (KH_Blob * KH_Blob)) (k v : KH_Blob) :
  Rep d es -> at_threshold d -> absent k es ->
  Z.of_nat (length es) < KH_MAX_COUNT ->
  exists d1 d',
    KH_ResizeDict true true d = Ok (Resized d1)
    /\ Rep d1 es
    /\ last_probed (data_alloced d1) (slots d1) (es.*1)
    /\ KH_DictInsert true true d k v = Ok (d', true)
    /\ Rep d' (es ++ [(k, v)])
    /\ placed d1 d' k.
Proof.
  intros R Hthr Habs Hmax.
  destruct (KH_ResizeDict_spec d es R Hthr Hmax)
    as (d1 & Hres & R1 & Hlast & Hc1 & Hsz & Hroom).
  destruct (KH_DictInsert_place d1 es k v R1 Hc1 Hroom Habs)
    as (ps & sl & Hw & Hi & R' & Hpl).
  exists d1. eexists. split; [exact Hres|]. split; [exact R1|]. split; [exact Hlast|].
  unfold KH_DictInsert. unfold at_threshold in Hthr.
  destruct (Z.geb_spec (data_count d) (KH_threshold (data_alloced d))) as [_|Hlt]; [|lia].
  rewrite Hres. simpl. rewrite Hw. simpl. rewrite Hi. simpl.
  split; [reflexivity|]. split; [exact R' | exact Hpl].
Qed.

(** A failed allocation leaves everything as it was. *)
Lemma KH_DictInsert_nomem (a b : bool) (d : KH_Dict) (k v : KH_Blob) :
  at_threshold d -> a && b = false ->
  KH_DictInsert a b d k v = Ok (d, false).
Proof.
  intros Hthr Hab. unfold KH_DictInsert, at_threshold in *.
  destruct (Z.geb_spec (data_count d) (KH_threshold (data_alloced d))) as [_|Hlt]; [|lia].
  unfold KH_ResizeDict.
  destruct a, b; try discriminate; reflexivity.
Qed.

(** ** Overwriting a value *)

Lemma KH_DictChange_spec (d : KH_Dict) (es : list (KH_Blob * KH_Blob))
    (j : nat) (kj vj v : KH_Blob) :
  Rep d es -> es !! j = Some (kj, vj) ->
  exists d',
    KH_DictChange d (Z.of_nat j) v = Ok d'
    /\ Rep d' (<[j := (kj, v)]> es)
    /\ data_alloced d' = data_alloced d.
Proof.
  intros R Hj.
  pose proof (lookup_lt_Some _ _ _ Hj) as Hjl.
  pose proof (rep_pairs_len _ _ R) as Hplen.
  assert (Hp : pairs d !! j = Some {| key := Some kj; value := Some vj |})
    by exact (rep_pairs _ _ R _ _ Hj).
  pose proof (lookup_lt_Some _ _ _ Hp) as Hpl.
  unfold KH_DictChange.
  assert (Hrd : rd (pairs d) (Z.of_nat j) = Ok {| key := Some kj; value := Some vj |}).
  { apply rd_Ok. split; [lia|]. rewrite Nat2Z.id. exact Hp. }
  rewrite Hrd. simpl. rewrite wr_in_range by lia. simpl. rewrite Nat2Z.id.
  eexists. split; [reflexivity|]. split; [|reflexivity].
  assert (Hkeys : (<[j := (kj, v)]> es).*1 = es.*1).
  { rewrite list_fmap_insert. simpl. apply list_insert_id.
    rewrite list_lookup_fmap, Hj. reflexivity. }
  split; simpl.
  - rewrite length_insert. exact (rep_count _ _ R).
  - rewrite length_insert. exact Hplen.
  - intros i e Hi. destruct (decide (i = j)) as [->|Hne].
    + rewrite list_lookup_insert_eq in Hi by lia. injection Hi as <-.
      apply list_lookup_insert_eq. lia.
    + rewrite list_lookup_insert_ne in Hi by lia.
      rewrite list_lookup_insert_ne by lia. exact (rep_pairs _ _ R _ _ Hi).
  - rewrite Hkeys. exact (rep_distinct _ _ R).
  - destruct (rep_shape _ _ R) as [(_ & _ & ->)|(T & Hload & Hnull)]; [discriminate|].
    right. rewrite Hkeys, length_insert. split; [exact T|]. split; [exact Hload|].
    rewrite rd_insert_ne_nat; [exact Hnull | lia | lia].
Qed.

(** ** Removal *)

(** The first loop of [KH_DictRemove] moves the pairs after position [i0]
    one place down; the last of them stays behind as a stale copy. *)
Lemma KH_DictRemove_shift_spec :
  forall (n i0 : nat) (ps : list KH_DictPair),
    (S i0 + n <= length ps)%nat -> Z.of_nat (length ps) <= 2 ^ 32 ->
    exists ps',
      KH_DictRemove_shift n ps (Z.of_nat (S i0)) = Ok ps'
      /\ length ps' = length ps
      /\ forall j : nat,
           ps' !! j = if decide (i0 <= j < i0 + n)%nat then ps !! S j else ps !! j.
Proof.
  induction n as [|n IH]; intros i0 ps Hn Hlen; simpl.
  - exists ps. split; [reflexivity|]. split; [reflexivity|].
    intros j. destruct (decide _); [lia | reflexivity].
  - destruct (lookup_lt_is_Some_2 ps (S i0)) as [p Hp]; [lia|].
    assert (Hrd : rd ps (Z.of_nat (S i0)) = Ok p).
    { apply rd_Ok. split; [lia|]. rewrite Nat2Z.id. exact Hp. }
    rewrite Hrd. simpl.
    assert (Hprev : usize (Z.of_nat (S i0) - 1) = Z.of_nat i0) by (rewrite usize_id; lia).
    assert (Hnext : usize (Z.of_nat (S i0) + 1) = Z.of_nat (S (S i0))) by (rewrite usize_id; lia).
    rewrite Hprev, Hnext, wr_in_range by lia. simpl. rewrite Nat2Z.id.
    destruct (IH (S i0) (<[i0 := p]> ps)) as (ps' & Hrun & Hl & Hget).
    { rewrite length_insert. lia. }
    { rewrite length_insert. exact Hlen. }
    exists ps'. split; [exact Hrun|]. split.
    { rewrite Hl. apply length_insert. }
    intros j. rewrite Hget.
    destruct (decide (S i0 <= j < S i0 + n)%nat) as [Hin|Hout].
    + destruct (decide (i0 <= j < i0 + S n)%nat); [|lia].
      apply list_lookup_insert_ne. lia.
    + destruct (decide (j = i0)) as [->|Hne].
      * destruct (decide (i0 <= i0 < i0 + S n)%nat); [|lia].
        rewrite list_lookup_insert_eq by lia. symmetry. exact Hp.
      * destruct (decide (i0 <= j < i0 + S n)%nat); [lia|].
        apply list_lookup_insert_ne. lia.
Qed.

Lemma KH_DictRemove_fixup_spec (index : Z) :
  forall (n i : nat) (sl : list Z),
    (i + n = length sl)%nat -> Z.of_nat (length sl) <= 2 ^ 32 ->
    exists sl',
      KH_DictRemove_fixup n sl index (Z.of_nat i) = Ok sl'
      /\ length sl' = length sl
      /\ forall p : nat,
           sl' !! p = if decide (i <= p)%nat then fix_slot index <$> sl !! p
                      else sl !! p.
Proof.
  induction n as [|n IH]; intros i sl Hn Hlen; simpl.
  - exists sl. split; [reflexivity|]. split; [reflexivity|].
    intros p. destruct (decide _); [|reflexivity].
    rewrite lookup_ge_None_2 by lia. reflexivity.
  - destruct (lookup_lt_is_Some_2 sl i) as [s Hs]; [lia|].
    assert (Hrd : rd sl (Z.of_nat i) = Ok s).
    { apply rd_Ok. split; [lia|]. rewrite Nat2Z.id. exact Hs. }
    rewrite Hrd. simpl.
    assert (Hstep :
      (if (s =? KH_HASH_DELETED) || (s =? KH_HASH_EMPTY) then Ok sl
       else if s >? index then wr sl (Z.of_nat i) (u32 (s - 1))
       else if s =? index then wr sl (Z.of_nat i) KH_HASH_DELETED
       else Ok sl) = Ok (<[i := fix_slot index s]> sl)).
    { unfold fix_slot.
      destruct ((s =? KH_HASH_DELETED) || (s =? KH_HASH_EMPTY)).
      - rewrite list_insert_id by exact Hs. reflexivity.
      - destruct (s >? index).
        + rewrite wr_in_range by lia. rewrite Nat2Z.id. reflexivity.
        + destruct (s =? index).
          * rewrite wr_in_range by lia. rewrite Nat2Z.id. reflexivity.
          * rewrite list_insert_id by exact Hs. reflexivity. }
    rewrite Hstep. simpl.
    assert (Hnext : usize (Z.of_nat i + 1) = Z.of_nat (S i)) by (rewrite usize_id; lia).
    rewrite Hnext.
    destruct (IH (S i) (<[i := fix_slot index s]> sl)) as (sl' & Hrun & Hl & Hget).
    { rewrite length_insert. lia. }
    { rewrite length_insert. exact Hlen. }
    exists sl'. split; [exact Hrun|]. split.
    { rewrite Hl. apply length_insert. }
    intros p. rewrite Hget.
    destruct (decide (S i <= p)%nat) as [Hin|Hout].
    + destruct (decide (i <= p)%nat); [|lia].
      rewrite list_lookup_insert_ne by lia. reflexivity.
    + destruct (decide (p = i)) as [->|Hne].
      * destruct (decide (i <= i)%nat); [|lia].
        rewrite list_lookup_insert_eq by lia. rewrite Hs. reflexivity.
      * destruct (decide (i <= p)%nat); [lia|].
        apply list_lookup_insert_ne. lia.
Qed.

Lemma fix_slot_free (index s : Z) : slot_free s = true -> fix_slot index s = s.
Proof.
  intros F. apply slot_free_true in F. unfold fix_slot.
  destruct F as [->| ->]; reflexivity.
Qed.

Lemma fix_slot_index (index s : Z) :
  0 <= index -> slot_free s = false -> 0 <= s < KH_HASH_DELETED ->
  fix_slot index s =
    if s >? index then s - 1 else if s =? index then KH_HASH_DELETED else s.
Proof.
  intros Hi F Hs. apply slot_free_false in F as [He Hd]. unfold fix_slot.
  destruct (Z.eqb_spec s KH_HASH_DELETED); [contradiction|].
  destruct (Z.eqb_spec s KH_HASH_EMPTY); [contradiction|]. simpl.
  destruct (Z.gtb_spec s index); [|reflexivity].
  apply u32_id. unfold KH_HASH_DELETED in Hs. lia.
Qed.

Lemma lookup_delete_Some {A : Type} (l : list A) (x j : nat) (a : A) :
  delete x l !! j = Some a ->
  l !! (if decide (j < x)%nat then j else S j) = Some a.
Proof.
  intros H. destruct (decide (j < x)%nat).
  - rewrite list_lookup_delete_lt in H by lia. exact H.
  - rewrite list_lookup_delete_ge in H by lia. exact H.
Qed.

Lemma keys_distinct_delete (ks : list KH_Blob) (x : nat) :
  keys_distinct ks -> keys_distinct (delete x ks).
Proof.
  intros Hd i j ki kj Hi Hj Heq.
  apply lookup_delete_Some in Hi, Hj.
  pose proof (Hd _ _ _ _ Hi Hj Heq) as E.
  destruct (decide (i < x)%nat); destruct (decide (j < x)%nat); lia.
Qed.

(** The fix-up pass turns a table for [ks] into one for [ks] without its
    key at position [x]. *)
Lemma table_remove (cap : Z) (sl sl' : list Z) (ks : list KH_Blob) (x : nat) :
  table_ok cap sl ks -> (x < length ks)%nat ->
  length sl' = length sl ->
  (forall p : nat, sl' !! p = fix_slot (Z.of_nat x) <$> sl !! p) ->
  table_ok cap sl' (delete x ks).
Proof.
  intros T Hx Hlen Hget.
  pose proof (tok_small _ _ _ T) as Hsmall.
  assert (Hdl : length (delete x ks) = (length ks - 1)%nat).
  { apply length_delete. apply lookup_lt_is_Some_2. exact Hx. }
  assert (Hrd : forall p s', rd sl' p = Ok s' ->
    exists s, rd sl p = Ok s /\ s' = fix_slot (Z.of_nat x) s).
  { intros p s' [Hp H]%rd_Ok. rewrite Hget in H.
    apply fmap_Some in H as (s & Hs & ->).
    exists s. split; [|reflexivity]. apply rd_Ok. auto. }
  assert (Hrd' : forall p s, rd sl p = Ok s ->
    rd sl' p = Ok (fix_slot (Z.of_nat x) s)).
  { intros p s [Hp H]%rd_Ok. apply rd_Ok. split; [exact Hp|].
    rewrite Hget, H. reflexivity. }
  assert (Hfix : forall p s, rd sl p = Ok s -> slot_free s = false ->
    0 <= s < Z.of_nat (length ks)
    /\ fix_slot (Z.of_nat x) s =
         if s >? Z.of_nat x then s - 1
         else if s =? Z.of_nat x then KH_HASH_DELETED else s).
  { intros p s Hs F. pose proof (tok_val _ _ _ T _ _ Hs F) as Hr.
    split; [exact Hr|]. apply fix_slot_index; [lia | exact F | lia]. }
  assert (Hnf : forall p s, rd sl p = Ok s ->
    slot_free (fix_slot (Z.of_nat x) s) = false ->
    slot_free s = false /\ s <> Z.of_nat x).
  { intros p s Hs F. destruct (slot_free s) eqn:Fs.
    - rewrite fix_slot_free in F by exact Fs. congruence.
    - split; [reflexivity|]. intros ->.
      destruct (Hfix _ _ Hs Fs) as [_ E]. rewrite E in F.
      destruct (Z.gtb_spec (Z.of_nat x) (Z.of_nat x)); [lia|].
      rewrite Z.eqb_refl in F. discriminate. }
  split.
  - exact (tok_cap _ _ _ T).
  - rewrite Hlen. exact (tok_len _ _ _ T).
  - rewrite Hdl. lia.
  - intros p s' Hp F. destruct (Hrd _ _ Hp) as (s & Hs & ->).
    destruct (Hnf _ _ Hs F) as [Fs Hne].
    destruct (Hfix _ _ Hs Fs) as [Hr E]. rewrite E, Hdl.
    destruct (Z.gtb_spec s (Z.of_nat x)); [lia|].
    destruct (Z.eqb_spec s (Z.of_nat x)); [contradiction | lia].
  - intros p q s' Hp Hq F.
    destruct (Hrd _ _ Hp) as (sp & Hsp & Ep).
    destruct (Hrd _ _ Hq) as (sq & Hsq & Eq).
    assert (Fp := F). assert (Fq := F). rewrite Ep in Fp. rewrite Eq in Fq.
    destruct (Hnf _ _ Hsp Fp) as [Fsp Hnp].
    destruct (Hnf _ _ Hsq Fq) as [Fsq Hnq].
    destruct (Hfix _ _ Hsp Fsp) as [Hrp E1].
    destruct (Hfix _ _ Hsq Fsq) as [Hrq E2].
    assert (sp = sq).
    { rewrite E1 in Ep. rewrite E2 in Eq.
      destruct (Z.gtb_spec sp (Z.of_nat x)); destruct (Z.gtb_spec sq (Z.of_nat x));
        destruct (Z.eqb_spec sp (Z.of_nat x)); destruct (Z.eqb_spec sq (Z.of_nat x));
        try contradiction; lia. }
    subst sq. exact (tok_inj _ _ _ T _ _ _ Hsp Hsq Fsp).
  - intros j' kj Hj'. apply lookup_delete_Some in Hj'.
    set (j := if decide (j' < x)%nat then j' else S j') in *.
    destruct (tok_chain _ _ _ T j kj Hj') as (dj & Hdj & Hat & Hbefore).
    pose proof (lookup_lt_Some _ _ _ Hj') as Hjl.
    assert (Fj : slot_free (Z.of_nat j) = false) by (apply slot_free_index; lia).
    exists dj. split; [exact Hdj|]. split.
    + rewrite (Hrd' _ _ Hat). f_equal.
      destruct (Hfix _ _ Hat Fj) as [_ E]. rewrite E. unfold j.
      destruct (decide (j' < x)%nat).
      * destruct (Z.gtb_spec (Z.of_nat j') (Z.of_nat x)); [lia|].
        destruct (Z.eqb_spec (Z.of_nat j') (Z.of_nat x)); [lia | reflexivity].
      * destruct (Z.gtb_spec (Z.of_nat (S j')) (Z.of_nat x)); lia.
    + intros i Hi H. destruct (Hrd _ _ H) as (s & Hs & E).
      destruct (slot_free s) eqn:Fs.
      * rewrite fix_slot_free in E by exact Fs. subst s.
        exact (Hbefore i Hi Hs).
      * destruct (Hfix _ _ Hs Fs) as [Hr E']. rewrite E' in E.
        unfold KH_HASH_EMPTY, KH_HASH_DELETED in *.
        destruct (Z.gtb_spec s (Z.of_nat x)); [lia|].
        destruct (Z.eqb_spec s (Z.of_nat x)); lia.
Qed.

Lemma pairs_hold_length (ps : list KH_DictPair) (es : list (KH_Blob * KH_Blob)) :
  pairs_hold ps es -> (length es <= length ps)%nat.
Proof.
  intros PH. destruct (le_lt_dec (length es) (length ps)) as [H|H]; [exact H|].
  destruct (lookup_lt_is_Some_2 es (length ps)) as [e He]; [lia|].
  apply PH in He. apply lookup_lt_Some in He. lia.
Qed.

Lemma KH_DictRemove_spec (d : KH_Dict) (es : list (KH_Blob * KH_Blob)) (x : nat) :
  Rep d es -> (x < length es)%nat ->
  exists d',
    KH_DictRemove d (Z.of_nat x) = Ok d'
    /\ Rep d' (delete x es)
    /\ data_alloced d' = data_alloced d
    /\ forall p : nat, slots d' !! p = fix_slot (Z.of_nat x) <$> slots d !! p.
Proof.
  intros R Hx.
  pose proof (rep_count _ _ R) as Hcount.
  pose proof (rep_pairs_len _ _ R) as Hplen.
  pose proof (pairs_hold_length _ _ (rep_pairs _ _ R)) as Hle.
  destruct (rep_shape _ _ R) as [(_ & _ & ->)|(T & Hload & Hnull)];
    [simpl in Hx; lia|].
  pose proof (cap_ok_range _ (tok_cap _ _ _ T)) as Hr.
  pose proof (tok_len _ _ _ T) as Hslen.
  pose proof (rd_bound _ _ _ Hnull) as Hthr.
  assert (Hdl : length (delete x es) = (length es - 1)%nat).
  { apply length_delete. apply lookup_lt_is_Some_2. exact Hx. }
  unfold KH_DictRemove.
  destruct (rd_in_range (pairs d) (Z.of_nat x)) as [px Hpx]; [lia|].
  rewrite Hpx. simpl.
  assert (Hx1 : usize (Z.of_nat x + 1) = Z.of_nat (S x)) by (rewrite usize_id; lia).
  rewrite Hx1, Hcount.
  replace (Z.to_nat (Z.of_nat (length es) - Z.of_nat (S x)))
    with (length es - S x)%nat by lia.
  destruct (KH_DictRemove_shift_spec (length es - S x) x (pairs d))
    as (ps' & Hshift & Hpl & Hpget); [lia | lia |].
  rewrite Hshift. simpl.
  destruct (KH_DictRemove_fixup_spec (Z.of_nat x) (Z.to_nat (data_alloced d)) 0 (slots d))
    as (sl' & Hfix & Hsl & Hsget); [lia | lia |].
  change (Z.of_nat 0) with 0 in Hfix. rewrite Hfix. simpl.
  assert (Hsget' : forall p : nat, sl' !! p = fix_slot (Z.of_nat x) <$> slots d !! p).
  { intros p. rewrite Hsget. destruct (decide (0 <= p)%nat); [reflexivity | lia]. }
  eexists. split; [reflexivity|]. split; [|split; [reflexivity | exact Hsget']].
  split; simpl.
  - rewrite Hdl. rewrite usize_id; lia.
  - rewrite Hpl. exact Hplen.
  - intros j e Hj. pose proof (lookup_lt_Some _ _ _ Hj) as Hjl.
    rewrite Hdl in Hjl.
    apply lookup_delete_Some in Hj. rewrite Hpget.
    destruct (decide (j < x)%nat).
    + destruct (decide (x <= j < x + (length es - S x))%nat); [lia|].
      exact (rep_pairs _ _ R _ _ Hj).
    + destruct (decide (x <= j < x + (length es - S x))%nat); [|lia].
      exact (rep_pairs _ _ R _ _ Hj).
  - rewrite list_fmap_delete. apply keys_distinct_delete. exact (rep_distinct _ _ R).
  - right. split.
    + rewrite list_fmap_delete.
      apply (table_remove _ (slots d)); [exact T | | exact Hsl |].
      * rewrite length_fmap. exact Hx.
      * exact Hsget'.
    + rewrite Hdl. split; [lia|].
      apply rd_Ok in Hnull as [H0 Hnull]. apply rd_Ok. split; [exact H0|].
      rewrite Hpget.
      destruct (decide (x <= Z.to_nat (KH_threshold (data_alloced d))
                        < x + (length es - S x))%nat); [lia | exact Hnull].
Qed.

(** ** The public operations on the association list *)

Lemma assoc_index_Some (k : KH_Blob) (es : list (KH_Blob * KH_Blob)) (j : nat) :
  assoc_index k es = Some j ->
  exists kj vj, es !! j = Some (kj, vj) /\ KH_BlobEqual k kj = true.
Proof.
  revert j. induction es as [|[k' v'] es IH]; intros j H; simpl in H; [discriminate|].
  destruct (KH_BlobEqual k k') eqn:E.
  - injection H as <-. exists k', v'. auto.
  - apply fmap_Some in H as (j' & Hj' & ->).
    destruct (IH _ Hj') as (kj & vj & H1 & H2). exists kj, vj. auto.
Qed.

Lemma assoc_index_None (k : KH_Blob) (es : list (KH_Blob * KH_Blob)) :
  assoc_index k es = None -> absent k es.
Proof.
  induction es as [|[k' v'] es IH]; intros H j e Hj; simpl in H; [discriminate|].
  destruct (KH_BlobEqual k k') eqn:E; [discriminate|].
  apply fmap_None in H.
  destruct j as [|j]; simpl in Hj.
  - injection Hj as <-. exact E.
  - exact (IH H _ _ Hj).
Qed.

Lemma present_or_absent (k : KH_Blob) (es : list (KH_Blob * KH_Blob)) :
  (exists (j : nat) kj vj, es !! j = Some (kj, vj) /\ KH_BlobEqual k kj = true)
  \/ absent k es.
Proof.
  destruct (assoc_index k es) as [j|] eqn:E.
  - left. exists j. apply assoc_index_Some. exact E.
  - right. apply assoc_index_None. exact E.
Qed.

Section Public.
Variables (d : KH_Dict) (es : list (KH_Blob * KH_Blob)).
Hypothesis R : Rep d es.

Lemma Rep_Len : KH_DictLen d = Z.of_nat (length es).
Proof. exact (rep_count _ _ R). Qed.

Lemma Rep_rd_pair (j : nat) (kj vj : KH_Blob) :
  es !! j = Some (kj, vj) ->
  rd (pairs d) (Z.of_nat j) = Ok {| key := Some kj; value := Some vj |}.
Proof.
  intros Hj. apply rd_Ok. split; [lia|]. rewrite Nat2Z.id.
  exact (rep_pairs _ _ R _ _ Hj).
Qed.

Lemma Rep_KeyIter (j : nat) :
  KH_DictKeyIter d (Z.of_nat j) = Ok (fst <$> es !! j).
Proof.
  unfold KH_DictKeyIter. rewrite (rep_count _ _ R).
  destruct (Z.ltb_spec (Z.of_nat j) (Z.of_nat (length es))) as [H|H].
  - destruct (lookup_lt_is_Some_2 es j) as [[kj vj] Hj]; [lia|].
    rewrite (Rep_rd_pair _ _ _ Hj), Hj. reflexivity.
  - rewrite lookup_ge_None_2 by lia. reflexivity.
Qed.

Lemma Rep_ValueIter (j : nat) :
  KH_DictValueIter d (Z.of_nat j) = Ok (snd <$> es !! j).
Proof.
  unfold KH_DictValueIter. rewrite (rep_count _ _ R).
  destruct (Z.ltb_spec (Z.of_nat j) (Z.of_nat (length es))) as [H|H].
  - destruct (lookup_lt_is_Some_2 es j) as [[kj vj] Hj]; [lia|].
    rewrite (Rep_rd_pair _ _ _ Hj), Hj. reflexivity.
  - rewrite lookup_ge_None_2 by lia. reflexivity.
Qed.

Lemma Rep_Get_found (k : KH_Blob) (j : nat) (kj vj : KH_Blob) :
  es !! j = Some (kj, vj) -> KH_BlobEqual k kj = true ->
  KH_DictGet d k = Ok (Some vj).
Proof.
  intros Hj Heq. unfold KH_DictGet.
  rewrite (Rep_lookup_found _ _ _ _ _ _ R Hj Heq). simpl.
  rewrite (index_not_NOT_FOUND _ _ _ R (lookup_lt_Some _ _ _ Hj)).
  rewrite (Rep_rd_pair _ _ _ Hj). reflexivity.
Qed.

Lemma Rep_Get_absent (k : KH_Blob) : absent k es -> KH_DictGet d k = Ok None.
Proof.
  intros Ha. unfold KH_DictGet.
  rewrite (Rep_lookup_absent _ _ _ R Ha). reflexivity.
Qed.

Lemma Rep_Has_found (k : KH_Blob) (j : nat) (kj vj : KH_Blob) :
  es !! j = Some (kj, vj) -> KH_BlobEqual k kj = true ->
  KH_DictHas d k = Ok true.
Proof.
  intros Hj Heq. unfold KH_DictHas.
  rewrite (Rep_lookup_found _ _ _ _ _ _ R Hj Heq). simpl.
  rewrite (index_not_NOT_FOUND _ _ _ R (lookup_lt_Some _ _ _ Hj)).
  reflexivity.
Qed.

Lemma Rep_Has_absent (k : KH_Blob) : absent k es -> KH_DictHas d k = Ok false.
Proof.
  intros Ha. unfold KH_DictHas.
  rewrite (Rep_lookup_absent _ _ _ R Ha). reflexivity.
Qed.

Lemma Rep_Has_true (k : KH_Blob) :
  KH_DictHas d k = Ok true ->
  exists (j : nat) kj vj, es !! j = Some (kj, vj) /\ KH_BlobEqual k kj = true.
Proof.
  intros H. destruct (present_or_absent k es) as [Hp|Ha]; [exact Hp|].
  rewrite (Rep_Has_absent _ Ha) in H. discriminate.
Qed.

Lemma Rep_Has_false (k : KH_Blob) : KH_DictHas d k = Ok false -> absent k es.
Proof.
  intros H. destruct (present_or_absent k es) as [(j & kj & vj & Hj & Heq)|Ha];
    [|exact Ha].
  rewrite (Rep_Has_found _ _ _ _ Hj Heq) in H. discriminate.
Qed.

(** [KH_DictSet] of a key that is not there appends an entry; [d1] is the
    state in which the new slot is chosen: [d] itself, or [d] resized. *)
Lemma Rep_Set_new_placed (k v : KH_Blob) :
  absent k es -> Z.of_nat (length es) < KH_MAX_COUNT ->
  exists d1 d',
    KH_DictSet true true d k v = Ok (d', true)
    /\ Rep d' (es ++ [(k, v)])
    /\ Rep d1 es
    /\ (last_probed (data_alloced d) (slots d) (es.*1) ->
        last_probed (data_alloced d1) (slots d1) (es.*1))
    /\ placed d1 d' k.
Proof.
  intros Ha Hmax. unfold KH_DictSet.
  rewrite (Rep_lookup_absent _ _ _ R Ha). simpl.
  destruct (Z_ge_dec (data_count d) (KH_threshold (data_alloced d))) as [Hthr|Hthr].
  - destruct (KH_DictInsert_resize d es k v R Hthr Ha Hmax)
      as (d1 & d' & _ & R1 & Hlast & H1 & H2 & Hpl).
    exists d1, d'. auto 10.
  - destruct (KH_DictInsert_room true true d es k v R Hthr Ha) as (d' & H1 & H2 & Hpl).
    exists d, d'. auto 10.
Qed.

(** [KH_DictSet] of a key that is there replaces its value in place. *)
Lemma Rep_Set_old (a b : bool) (k v : KH_Blob) (j : nat) (kj vj : KH_Blob) :
  es !! j = Some (kj, vj) -> KH_BlobEqual k kj = true ->
  exists d', KH_DictSet a b d k v = Ok (d', true)
    /\ Rep d' (<[j := (kj, v)]> es).
Proof.
  intros Hj Heq. unfold KH_DictSet.
  rewrite (Rep_lookup_found _ _ _ _ _ _ R Hj Heq). simpl.
  rewrite (index_not_NOT_FOUND _ _ _ R (lookup_lt_Some _ _ _ Hj)).
  destruct (KH_DictChange_spec d es j kj vj v R Hj) as (d' & H1 & H2 & _).
  rewrite H1. simpl. eauto.
Qed.

Lemma Rep_Delete_found (k : KH_Blob) (j : nat) (kj vj : KH_Blob) :
  es !! j = Some (kj, vj) -> KH_BlobEqual k kj = true ->
  exists d', KH_DictDelete d k = Ok (d', true) /\ Rep d' (delete j es)
    /\ data_alloced d' = data_alloced d
    /\ forall p : nat, slots d' !! p = fix_slot (Z.of_nat j) <$> slots d !! p.
Proof.
  intros Hj Heq. unfold KH_DictDelete.
  rewrite (Rep_lookup_found _ _ _ _ _ _ R Hj Heq). simpl.
  rewrite (index_not_NOT_FOUND _ _ _ R (lookup_lt_Some _ _ _ Hj)).
  destruct (KH_DictRemove_spec d es j R (lookup_lt_Some _ _ _ Hj))
    as (d' & H1 & H2 & H3 & H4).
  rewrite H1. simpl. eauto.
Qed.

Lemma Rep_Delete_absent (k : KH_Blob) :
  absent k es -> KH_DictDelete d k = Ok (d, false).
Proof.
  intros Ha. unfold KH_DictDelete.
  rewrite (Rep_lookup_absent _ _ _ R Ha). reflexivity.
Qed.
End Public.

Lemma placed_last (d1 d' : KH_Dict) (es : list (KH_Blob * KH_Blob)) (k v : KH_Blob) :
  Rep d1 es -> placed d1 d' k ->
  last_probed (data_alloced d') (slots d') ((es ++ [(k, v)]).*1).
Proof.
  intros R1 (Hcap & dk & Hff & Hsl).
  rewrite Hcap, Hsl, fmap_app, (rep_count _ _ R1). simpl.
  rewrite <- (length_fmap fst es).
  apply table_insert_last; [|exact Hff].
  destruct (rep_shape _ _ R1) as [(H0 & _ & _)|(T & _ & _)].
  - destruct Hff as (Hdk & _). lia.
  - exact (tok_len _ _ _ T).
Qed.

(** ** Reachable dictionaries *)

Lemma Rep_zero : Rep KH_Dict_zero [].
Proof.
  split; simpl.
  - reflexivity.
  - reflexivity.
  - intros j e H. discriminate.
  - intros i j ki kj H. discriminate.
  - left. auto.
Qed.

Lemma step_Rep (d d' : KH_Dict) (es : list (KH_Blob * KH_Blob)) :
  Rep d es -> step d d' -> exists es', Rep d' es'.
Proof.
  intros R [a b k v d1 r Hmax Hset | k d1 r Hdel].
  - rewrite (rep_count _ _ R) in Hmax.
    destruct (present_or_absent k es) as [(j & kj & vj & Hj & Heq)|Ha].
    + destruct (Rep_Set_old d es R a b k v j kj vj Hj Heq) as (d2 & H1 & H2).
      rewrite H1 in Hset. injection Hset as <- <-. eauto.
    + unfold KH_DictSet in Hset.
      rewrite (Rep_lookup_absent _ _ _ R Ha) in Hset. simpl in Hset.
      destruct (Z_ge_dec (data_count d) (KH_threshold (data_alloced d))) as [Hthr|Hthr].
      * destruct (a && b) eqn:Eab.
        -- apply andb_true_iff in Eab as [-> ->].
           destruct (KH_DictInsert_resize d es k v R Hthr Ha Hmax)
             as (d1' & d2 & _ & _ & _ & H1 & H2 & _).
           rewrite H1 in Hset. injection Hset as <- <-. eauto.
        -- rewrite (KH_DictInsert_nomem a b d k v Hthr Eab) in Hset.
           injection Hset as <- <-. eauto.
      * destruct (KH_DictInsert_room a b d es k v R Hthr Ha) as (d2 & H1 & H2 & _).
        rewrite H1 in Hset. injection Hset as <- <-. eauto.
  - destruct (present_or_absent k es) as [(j & kj & vj & Hj & Heq)|Ha].
    + destruct (Rep_Delete_found d es R k j kj vj Hj Heq) as (d2 & H1 & H2 & _).
      rewrite H1 in Hdel. injection Hdel as <- <-. eauto.
    + rewrite (Rep_Delete_absent d es R k Ha) in Hdel.
      injection Hdel as <- <-. eauto.
Qed.

(** Every reachable dictionary represents an association list. *)
Lemma reachable_Rep (d : KH_Dict) : reachable d -> exists es, Rep d es.
Proof.
  induction 1 as [d Hc | d d' Hr [es R] Hs].
  - injection Hc as <-. exists []. exact Rep_zero.
  - exact (step_Rep d d' es R Hs).
Qed.

(** ** Sequences of sets *)

Lemma distinct_keys_spec (ks : list KH_Blob) :
  distinct_keys ks = true -> keys_distinct ks.
Proof.
  induction ks as [|k ks IH]; intros H i j ki kj Hi Hj Heq; [discriminate|].
  simpl in H. apply andb_true_iff in H as [Hk Hks].
  rewrite forallb_forall in Hk.
  assert (Hhead : forall (x : nat) kx, ks !! x = Some kx -> KH_BlobEqual k kx = false).
  { intros x kx Hx. apply negb_true_iff, Hk.
    apply list_elem_of_In, list_elem_of_lookup. eauto. }
  destruct i as [|i], j as [|j]; simpl in Hi, Hj.
  - reflexivity.
  - injection Hi as <-. rewrite (Hhead _ _ Hj) in Heq. discriminate.
  - injection Hj as <-. apply KH_BlobEqual_sym in Heq.
    rewrite (Hhead _ _ Hi) in Heq. discriminate.
  - f_equal. exact (IH Hks _ _ _ _ Hi Hj Heq).
Qed.

Lemma lookup_probe_mod (self : KH_Dict) (k : KH_Blob) (i : Z) :
  cap_ok (data_alloced self) -> 0 <= i < data_alloced self ->
  lookup_probe self k i = (blob_hash k mod data_alloced self + i) mod data_alloced self.
Proof.
  intros Hc Hi. unfold lookup_probe. rewrite home_mod by exact Hc.
  apply probe_at; [exact Hc | | exact Hi].
  apply Z.mod_pos_bound. pose proof (cap_ok_range _ Hc). lia.
Qed.

Lemma KH_BlobEqual_false_sym (k1 k2 : KH_Blob) :
  KH_BlobEqual k1 k2 = false -> KH_BlobEqual k2 k1 = false.
Proof.
  intros H. destruct (KH_BlobEqual k2 k1) eqn:E; [|reflexivity].
  apply KH_BlobEqual_sym in E. congruence.
Qed.

Lemma absent_snoc (k k' v' : KH_Blob) (es : list (KH_Blob * KH_Blob)) :
  absent k es -> KH_BlobEqual k k' = false -> absent k (es ++ [(k', v')]).
Proof.
  intros Ha Hne j e Hj. apply lookup_app_Some in Hj as [Hj|[_ Hj]].
  - exact (Ha _ _ Hj).
  - destruct (j - length es)%nat as [|x]; [|destruct x; discriminate].
    simpl in Hj. injection Hj as <-. exact Hne.
Qed.

Lemma lookup_snoc_last {A : Type} (l : list A) (x : A) :
  (l ++ [x]) !! length l = Some x.
Proof. rewrite lookup_app_r by lia. rewrite Nat.sub_diag. reflexivity. Qed.

Lemma keys_distinct_ne (ks : list KH_Blob) (i j : nat) (ki kj : KH_Blob) :
  keys_distinct ks -> ks !! i = Some ki -> ks !! j = Some kj -> i <> j ->
  KH_BlobEqual ki kj = false.
Proof.
  intros Hd Hi Hj Hne. destruct (KH_BlobEqual ki kj) eqn:E; [|reflexivity].
  exfalso. exact (Hne (Hd _ _ _ _ Hi Hj E)).
Qed.

(** A set of a key that is not there appends an entry, unless it has to
    resize and is refused the memory; then it changes nothing. *)
Lemma Rep_Set_absent (a b : bool) (d : KH_Dict) (es : list (KH_Blob * KH_Blob))
    (k v : KH_Blob) :
  Rep d es -> absent k es -> Z.of_nat (length es) < KH_MAX_COUNT ->
  (a && b = false /\ at_threshold d /\ KH_DictSet a b d k v = Ok (d, false))
  \/ ((a && b = true \/ ~ at_threshold d)
      /\ exists d', KH_DictSet a b d k v = Ok (d', true) /\ Rep d' (es ++ [(k, v)])).
Proof.
  intros R Ha Hmax. unfold KH_DictSet.
  rewrite (Rep_lookup_absent _ _ _ R Ha). simpl.
  destruct (Z_ge_dec (data_count d) (KH_threshold (data_alloced d))) as [Hthr|Hthr].
  - destruct (a && b) eqn:Eab.
    + right. split; [auto|]. apply andb_true_iff in Eab as [-> ->].
      destruct (KH_DictInsert_resize d es k v R Hthr Ha Hmax)
        as (d1 & d' & _ & _ & _ & H1 & H2 & _). eauto.
    + left. split; [reflexivity|]. split; [exact Hthr|].
      exact (KH_DictInsert_nomem a b d k v Hthr Eab).
  - right. split; [auto|].
    destruct (KH_DictInsert_room a b d es k v R Hthr Ha) as (d' & H1 & H2 & _). eauto.
Qed.

Lemma set_each_spec (cs : list set_call) :
  forall (d : KH_Dict) (es : list (KH_Blob * KH_Blob)),
    Rep d es ->
    (forall (i : nat) c, cs !! i = Some c -> absent (sc_key c) es) ->
    keys_distinct (sc_key <$> cs) ->
    Z.of_nat (length es) + Z.of_nat (length cs) <= KH_MAX_COUNT ->
    exists d' rs es',
      set_each d cs = Ok (d', rs)
      /\ Rep d' (es ++ es')
      /\ (forall e, e ∈ es' ->
            exists (i : nat) c, cs !! i = Some c /\ rs !! i = Some true
              /\ e = (sc_key c, sc_value c))
      /\ (forall (i : nat) c, cs !! i = Some c ->
            exists r, rs !! i = Some r
              /\ (sc_slots_ok c && sc_pairs_ok c = true -> r = true)
              /\ (r = true -> (sc_key c, sc_value c) ∈ es')).
Proof.
  induction cs as [|c rest IH]; intros d es R Hnew Hdist Hmax; simpl.
  - exists d, [], []. rewrite app_nil_r.
    split; [reflexivity|]. split; [exact R|]. split.
    + intros e He. apply elem_of_nil in He. contradiction.
    + intros i c Hi. discriminate.
  - simpl in Hmax.
    assert (Hrest_d : keys_distinct (sc_key <$> rest)).
    { intros i j ki kj Hi Hj Heq.
      assert (S i = S j); [|lia].
      exact (Hdist (S i) (S j) ki kj Hi Hj Heq). }
    assert (Hrest_k : forall (i : nat) c', rest !! i = Some c' ->
      KH_BlobEqual (sc_key c') (sc_key c) = false).
    { intros i c' Hi.
      apply (keys_distinct_ne (sc_key <$> c :: rest) (S i) 0%nat); auto.
      simpl. rewrite list_lookup_fmap, Hi. reflexivity. }
    assert (Hrest_a : forall (i : nat) c', rest !! i = Some c' -> absent (sc_key c') es).
    { intros i c' Hi. exact (Hnew (S i) c' Hi). }
    destruct (Rep_Set_absent (sc_slots_ok c) (sc_pairs_ok c) d es (sc_key c) (sc_value c) R)
      as [(Hmem & _ & Hset)|(Hmem & d1 & Hset & R1)];
      [exact (Hnew 0%nat c eq_refl) | lia | |]; rewrite Hset; simpl.
    + destruct (IH d es R Hrest_a Hrest_d) as (d' & rs & es' & Hrun & R' & Hfrom & Hres);
        [lia|].
      rewrite Hrun. simpl. exists d', (false :: rs), es'.
      split; [reflexivity|]. split; [exact R'|]. split.
      * intros e He. destruct (Hfrom e He) as (i & c' & Hi & Hr & ->).
        exists (S i), c'. auto.
      * intros [|i] c' Hi; simpl in Hi.
        -- injection Hi as <-. exists false.
           split; [reflexivity|]. split; [congruence | discriminate].
        -- exact (Hres i c' Hi).
    + destruct (IH d1 (es ++ [(sc_key c, sc_value c)]) R1)
        as (d' & rs & es' & Hrun & R' & Hfrom & Hres).
      * intros i c' Hi. apply absent_snoc; [exact (Hrest_a i c' Hi)|].
        exact (Hrest_k i c' Hi).
      * exact Hrest_d.
      * rewrite length_app. simpl. lia.
      * rewrite Hrun. simpl.
        exists d', (true :: rs), ((sc_key c, sc_value c) :: es').
        split; [reflexivity|].
        split; [rewrite <- app_assoc in R'; exact R'|]. split.
        -- intros e He. apply elem_of_cons in He as [->|He].
           ++ exists 0%nat, c. auto.
           ++ destruct (Hfrom e He) as (i & c' & Hi & Hr & ->).
              exists (S i), c'. auto.
        -- intros [|i] c' Hi; simpl in Hi.
           ++ injection Hi as <-. exists true.
              split; [reflexivity|]. split; [reflexivity|].
              intros _. apply elem_of_cons. auto.
           ++ destruct (Hres i c' Hi) as (r & Hr & Hok & Hin).
              exists r. split; [exact Hr|]. split; [exact Hok|].
              intros Hrt. apply elem_of_cons. right. exact (Hin Hrt).
Qed.

(** * The claims *)

(** C1. A sequence of [KH_DictSet] calls with pairwise distinct keys on a
    freshly created dictionary, of any length up to [KH_MAX_COUNT] and so
    through any number of resizes, runs to its end.  Each call returns
    true unless it had to resize and was refused the memory.  In the
    dictionary left by the sequence, [KH_DictGet] returns for every key
    whose call returned true the value set for it and [KH_DictHas] returns
    true; a key whose call returned false is not in the dictionary. *)
Theorem set_distinct_keys_retrievable (d0 : KH_Dict) (cs : list set_call) :
  KH_CreateDict true = Ok (Some d0) ->
  distinct_keys (sc_key <$> cs) = true ->
  Z.of_nat (length cs) <= KH_MAX_COUNT ->
  exists d rs,
    set_each d0 cs = Ok (d, rs)
    /\ forall (i : nat) c,
         cs !! i = Some c ->
         exists r, rs !! i = Some r
           /\ (sc_slots_ok c && sc_pairs_ok c = true -> r = true)
           /\ (r = true ->
               KH_DictGet d (sc_key c) = Ok (Some (sc_value c))
               /\ KH_DictHas d (sc_key c) = Ok true)
           /\ (r = false ->
               KH_DictGet d (sc_key c) = Ok None
               /\ KH_DictHas d (sc_key c) = Ok false).
Proof.
  intros Hc Hdist Hmax. injection Hc as <-.
  apply distinct_keys_spec in Hdist.
  destruct (set_each_spec cs KH_Dict_zero [] Rep_zero)
    as (d & rs & es' & Hrun & R & Hfrom & Hres).
  - intros i c _ j e Hj. discriminate.
  - exact Hdist.
  - simpl. lia.
  - simpl in R. exists d, rs. split; [exact Hrun|].
    intros i c Hi. destruct (Hres i c Hi) as (r & Hr & Hok & Hin).
    exists r. split; [exact Hr|]. split; [exact Hok|]. split.
    + intros Hrt. apply Hin, list_elem_of_lookup in Hrt as [j Hj].
      split.
      * exact (Rep_Get_found d es' R _ j _ _ Hj (KH_BlobEqual_refl _)).
      * exact (Rep_Has_found d es' R _ j _ _ Hj (KH_BlobEqual_refl _)).
    + intros Hrf. subst r.
      assert (Ha : absent (sc_key c) es').
      { intros j e Hj.
        destruct (Hfrom e) as (i' & c' & Hi' & Hr' & ->).
        { apply list_elem_of_lookup. eauto. }
        simpl. apply (keys_distinct_ne (sc_key <$> cs) i i').
        - exact Hdist.
        - rewrite list_lookup_fmap, Hi. reflexivity.
        - rewrite list_lookup_fmap, Hi'. reflexivity.
        - intros ->. congruence. }
      split.
      * exact (Rep_Get_absent d es' R _ Ha).
      * exact (Rep_Has_absent d es' R _ Ha).
Qed.

(** C2. Two new, different keys are set one after the other and the first is
    deleted again: [KH_DictGet] still finds the second.  When both keys
    have the same home bucket under the capacity at that moment, the lookup
    of the second key gets there past a TOMBSTONE: its probe sequence reads
    [KH_HASH_DELETED] in some iteration [i] and the slot of the second key
    in a later iteration [j]. *)
Theorem colliding_key_found_past_tombstone
    (d : KH_Dict) (k1 v1 k2 v2 : KH_Blob) :
  reachable d ->
  KH_DictHas d k1 = Ok false ->
  KH_DictHas d k2 = Ok false ->
  KH_BlobEqual k1 k2 = false ->
  data_count d + 1 < KH_MAX_COUNT ->
  exists d1 d2 d3,
    KH_DictSet true true d k1 v1 = Ok (d1, true)
    /\ KH_DictSet true true d1 k2 v2 = Ok (d2, true)
    /\ KH_DictDelete d2 k1 = Ok (d3, true)
    /\ KH_DictGet d3 k2 = Ok (Some v2)
    /\ (KH_BlobStartingIndexForSize (blob_hash k1) (data_alloced d2)
        = KH_BlobStartingIndexForSize (blob_hash k2) (data_alloced d2) ->
        exists i j,
          0 <= i < j /\ j < data_alloced d3
          /\ rd (slots d3) (lookup_probe d3 k2 i) = Ok KH_HASH_DELETED
          /\ rd (slots d3) (lookup_probe d3 k2 j) = Ok (KH_DictLen d3 - 1)
          /\ KH_DictKeyIter d3 (KH_DictLen d3 - 1) = Ok (Some k2)).
Proof.
  intros Hreach Hno1 Hno2 Hne Hmax.
  destruct (reachable_Rep d Hreach) as [es R].
  pose proof (Rep_Has_false d es R k1 Hno1) as Ha1.
  pose proof (Rep_Has_false d es R k2 Hno2) as Ha2.
  rewrite (rep_count _ _ R) in Hmax.
  set (n := length es) in *.
  destruct (Rep_Set_new_placed d es R k1 v1 Ha1) as (dX & d1 & Hset1 & R1 & RX & _ & Hpl1);
    [lia|].
  pose proof (placed_last dX d1 es k1 v1 RX Hpl1) as Hl1.
  set (es1 := es ++ [(k1, v1)]) in *.
  assert (Hlen1 : length es1 = S n) by (unfold es1; rewrite length_app; simpl; lia).
  assert (Ha2' : absent k2 es1).
  { apply absent_snoc; [exact Ha2 | apply KH_BlobEqual_false_sym; exact Hne]. }
  destruct (Rep_Set_new_placed d1 es1 R1 k2 v2 Ha2')
    as (dY & d2 & Hset2 & R2 & RY & HlY & Hcap2 & dk2 & Hff2 & Hsl2); [lia|].
  specialize (HlY Hl1).
  set (es2 := es1 ++ [(k2, v2)]) in *.
  assert (Hk1 : es2 !! n = Some (k1, v1)).
  { unfold es2. rewrite lookup_app_l by lia. apply lookup_snoc_last. }
  destruct (Rep_Delete_found d2 es2 R2 k1 n k1 v1 Hk1 (KH_BlobEqual_refl k1))
    as (d3 & Hdel & R3 & Hcap3 & Hfix).
  assert (Hes3 : delete n es2 = es ++ [(k2, v2)]).
  { unfold es2, es1, n. rewrite <- app_assoc. simpl. apply delete_middle. }
  rewrite Hes3 in R3.
  assert (Hk2 : (es ++ [(k2, v2)]) !! n = Some (k2, v2)) by apply lookup_snoc_last.
  exists d1, d2, d3.
  split; [exact Hset1|]. split; [exact Hset2|]. split; [exact Hdel|].
  split; [exact (Rep_Get_found d3 _ R3 k2 n k2 v2 Hk2 (KH_BlobEqual_refl k2))|].
  intros Hhome.
  (* the table in which the slot of [k2] is chosen *)
  destruct (rep_shape _ _ RY) as [(_ & _ & E)|(TY & _ & _)].
  { apply (f_equal length) in E. rewrite Hlen1 in E. discriminate. }
  pose proof (tok_cap _ _ _ TY) as Hc.
  pose proof (cap_ok_range _ Hc) as Hr.
  pose proof (tok_len _ _ _ TY) as HlenY.
  pose proof (Rep_small _ _ R2) as Hsmall.
  assert (Hlen2 : length es2 = S (S n)).
  { unfold es2. rewrite length_app, Hlen1. simpl. lia. }
  rewrite Hlen2 in Hsmall.
  set (cap := data_alloced dY) in *.
  rewrite Hcap2 in Hhome. fold cap in Hhome.
  rewrite !home_mod in Hhome by exact Hc.
  (* where [k1] sits *)
  destruct (HlY k1) as (dk1 & Hdk1 & Hat1 & Hocc1).
  { rewrite length_fmap, Hlen1. simpl. rewrite Nat.sub_0_r.
    rewrite list_lookup_fmap. unfold es1, n. rewrite lookup_snoc_last. reflexivity. }
  rewrite length_fmap, Hlen1, Hhome in Hat1.
  replace (Z.of_nat (S n) - 1) with (Z.of_nat n) in Hat1 by lia.
  rewrite Hhome in Hocc1.
  destruct Hff2 as (Hdk2 & (s2 & Hs2 & Hfree2) & Hocc2).
  assert (Hn_idx : slot_free (Z.of_nat n) = false) by (apply slot_free_index; lia).
  assert (Hlt : dk1 < dk2).
  { destruct (Z.lt_trichotomy dk1 dk2) as [H|[H|H]]; [exact H| |].
    - subst dk2. rewrite Hat1 in Hs2. injection Hs2 as <-. congruence.
    - destruct (Hocc1 dk2) as (s & Hs & Hnf); [lia|].
      rewrite Hs2 in Hs. injection Hs as <-. congruence. }
  set (h := blob_hash k2 mod cap) in *.
  pose proof (rd_bound _ _ _ Hat1) as Hp1.
  pose proof (rd_bound _ _ _ Hs2) as Hp2.
  assert (Hcnt : data_count dY = Z.of_nat (S n)).
  { rewrite (rep_count _ _ RY), Hlen1. reflexivity. }
  assert (H2at1 : rd (slots d2) ((h + dk1) mod cap) = Ok (Z.of_nat n)).
  { rewrite Hsl2, rd_insert_ne; [exact Hat1 | lia | lia |].
    intros E. apply probe_inj in E; lia. }
  assert (H2at2 : rd (slots d2) ((h + dk2) mod cap) = Ok (Z.of_nat (S n))).
  { rewrite Hsl2, Hcnt. apply rd_insert_eq. lia. }
  assert (Hrd3 : forall p s, rd (slots d2) p = Ok s ->
    rd (slots d3) p = Ok (fix_slot (Z.of_nat n) s)).
  { intros p s [Hp H]%rd_Ok. apply rd_Ok. split; [exact Hp|].
    rewrite Hfix, H. reflexivity. }
  assert (Hc3 : cap_ok (data_alloced d3)) by (rewrite Hcap3, Hcap2; exact Hc).
  assert (Hcap3' : data_alloced d3 = cap) by (rewrite Hcap3, Hcap2; reflexivity).
  exists dk1, dk2. split; [lia|]. split; [lia|].
  rewrite !lookup_probe_mod by (auto; lia).
  rewrite Hcap3'. fold h.
  assert (HLen : KH_DictLen d3 - 1 = Z.of_nat n).
  { rewrite (Rep_Len d3 _ R3), length_app. simpl. lia. }
  rewrite HLen.
  split; [|split].
  - rewrite (Hrd3 _ _ H2at1). f_equal.
    rewrite fix_slot_index by (auto; lia).
    destruct (Z.gtb_spec (Z.of_nat n) (Z.of_nat n)); [lia|].
    rewrite Z.eqb_refl. reflexivity.
  - rewrite (Hrd3 _ _ H2at2). f_equal.
    rewrite fix_slot_index; [| lia | apply slot_free_index; lia | lia].
    destruct (Z.gtb_spec (Z.of_nat (S n)) (Z.of_nat n)); lia.
  - rewrite (Rep_KeyIter d3 _ R3), Hk2. reflexivity.
Qed.

Lemma absent_delete (k : KH_Blob) (es : list (KH_Blob * KH_Blob)) (x : nat) :
  absent k es -> absent k (delete x es).
Proof.
  intros Ha j e Hj. apply lookup_delete_Some in Hj. exact (Ha _ _ Hj).
Qed.

Lemma absent_insert (k kx v : KH_Blob) (es : list (KH_Blob * KH_Blob)) (x : nat) (vx : KH_Blob) :
  es !! x = Some (kx, vx) -> absent k es -> absent k (<[x := (kx, v)]> es).
Proof.
  intros Hx Ha j e Hj. destruct (decide (j = x)) as [->|Hne].
  - rewrite list_lookup_insert_eq in Hj by (eapply lookup_lt_Some; eauto).
    injection Hj as <-. exact (Ha _ _ Hx).
  - rewrite list_lookup_insert_ne in Hj by lia. exact (Ha _ _ Hj).
Qed.

Lemma Rep_KeyIter_Z (d : KH_Dict) (es : list (KH_Blob * KH_Blob)) (i : Z) :
  Rep d es -> 0 <= i -> KH_DictKeyIter d i = Ok (fst <$> es !! Z.to_nat i).
Proof.
  intros R Hi. rewrite <- (Z2Nat.id i) at 1 by exact Hi.
  exact (Rep_KeyIter d es R _).
Qed.

Lemma Rep_ValueIter_Z (d : KH_Dict) (es : list (KH_Blob * KH_Blob)) (i : Z) :
  Rep d es -> 0 <= i -> KH_DictValueIter d i = Ok (snd <$> es !! Z.to_nat i).
Proof.
  intros R Hi. rewrite <- (Z2Nat.id i) at 1 by exact Hi.
  exact (Rep_ValueIter d es R _).
Qed.

(** The entry of a stored key is the only one that equals it. *)
Lemma Rep_other_index (d : KH_Dict) (es : list (KH_Blob * KH_Blob))
    (k k' : KH_Blob) (x i : nat) (kx vx ki vi : KH_Blob) :
  Rep d es ->
  es !! x = Some (kx, vx) -> KH_BlobEqual k kx = true ->
  es !! i = Some (ki, vi) -> KH_BlobEqual k' ki = true ->
  KH_BlobEqual k' k = false -> i <> x.
Proof.
  intros R Hx Hkx Hi Hki Hne ->. rewrite Hx in Hi. injection Hi as <- <-.
  rewrite (KH_BlobEqual_trans k' kx k) in Hne; [discriminate | exact Hki |].
  apply KH_BlobEqual_sym. exact Hkx.
Qed.

(** Once its entry is gone, a key equals none of the entries left. *)
Lemma absent_after_delete (d : KH_Dict) (es : list (KH_Blob * KH_Blob))
    (k : KH_Blob) (x : nat) (kx vx : KH_Blob) :
  Rep d es -> es !! x = Some (kx, vx) -> KH_BlobEqual k kx = true ->
  absent k (delete x es).
Proof.
  intros R Hx Hkx j e Hj.
  destruct (KH_BlobEqual k e.1) eqn:E; [|reflexivity]. exfalso.
  destruct e as [ke ve]. simpl in E.
  pose proof (lookup_delete_Some _ _ _ _ Hj) as Hj'.
  assert (Hidx : (if decide (j < x)%nat then j else S j) = x).
  { apply (rep_distinct _ _ R _ _ ke kx).
    - rewrite list_lookup_fmap, Hj'. reflexivity.
    - rewrite list_lookup_fmap, Hx. reflexivity.
    - eapply KH_BlobEqual_trans; [|exact Hkx]. apply KH_BlobEqual_sym. exact E. }
  destruct (decide (j < x)%nat); lia.
Qed.

(** C3. Deleting a key that is present succeeds; afterwards [KH_DictHas] is
    false for it, [KH_DictLen] is one less, every other key gets the same
    answer from [KH_DictGet] and [KH_DictHas] as before, and the iterators
    show the former entries without the one at the deleted key's position
    [x]: positions below [x] are unchanged and every later entry has moved
    down by one, so the remaining entries keep their relative order. *)
Theorem delete_present_key (d : KH_Dict) (k : KH_Blob) :
  reachable d ->
  KH_DictHas d k = Ok true ->
  exists d' x,
    KH_DictDelete d k = Ok (d', true)
    /\ KH_DictHas d' k = Ok false
    /\ KH_DictLen d' = KH_DictLen d - 1
    /\ (forall k', KH_BlobEqual k' k = false ->
          KH_DictGet d' k' = KH_DictGet d k'
          /\ KH_DictHas d' k' = KH_DictHas d k')
    /\ 0 <= x < KH_DictLen d
    /\ (exists kx, KH_DictKeyIter d x = Ok (Some kx) /\ KH_BlobEqual k kx = true)
    /\ (forall i, 0 <= i < x ->
          KH_DictKeyIter d' i = KH_DictKeyIter d i
          /\ KH_DictValueIter d' i = KH_DictValueIter d i)
    /\ (forall i, x <= i ->
          KH_DictKeyIter d' i = KH_DictKeyIter d (i + 1)
          /\ KH_DictValueIter d' i = KH_DictValueIter d (i + 1)).
Proof.
  intros Hreach Hhas.
  destruct (reachable_Rep d Hreach) as [es R].
  destruct (Rep_Has_true d es R k Hhas) as (x & kx & vx & Hx & Hkx).
  pose proof (lookup_lt_Some _ _ _ Hx) as Hxl.
  destruct (Rep_Delete_found d es R k x kx vx Hx Hkx) as (d' & Hdel & R' & _).
  exists d', (Z.of_nat x).
  split; [exact Hdel|]. split; [|split; [|split; [|split; [|split; [|split]]]]].
  - apply (Rep_Has_absent d' _ R').
    exact (absent_after_delete d es k x kx vx R Hx Hkx).
  - rewrite (Rep_Len d' _ R'), (Rep_Len d es R).
    rewrite length_delete by eauto. lia.
  - intros k' Hne.
    destruct (present_or_absent k' es) as [(i & ki & vi & Hi & Hki)|Ha].
    + pose proof (Rep_other_index d es k k' x i kx vx ki vi R Hx Hkx Hi Hki Hne) as Hix.
      assert (Hi' : delete x es !! (if decide (i < x)%nat then i else pred i)
                    = Some (ki, vi)).
      { destruct (decide (i < x)%nat).
        - rewrite list_lookup_delete_lt by lia. exact Hi.
        - rewrite list_lookup_delete_ge by lia.
          replace (S (pred i)) with i by lia. exact Hi. }
      rewrite (Rep_Get_found d' _ R' k' _ ki vi Hi' Hki).
      rewrite (Rep_Get_found d es R k' _ ki vi Hi Hki).
      rewrite (Rep_Has_found d' _ R' k' _ ki vi Hi' Hki).
      rewrite (Rep_Has_found d es R k' _ ki vi Hi Hki). auto.
    + rewrite (Rep_Get_absent d' _ R' k' (absent_delete _ _ _ Ha)).
      rewrite (Rep_Get_absent d es R k' Ha).
      rewrite (Rep_Has_absent d' _ R' k' (absent_delete _ _ _ Ha)).
      rewrite (Rep_Has_absent d es R k' Ha). auto.
  - rewrite (Rep_Len d es R). lia.
  - exists kx. rewrite (Rep_KeyIter d es R), Hx. auto.
  - intros i Hi.
    rewrite !(Rep_KeyIter_Z d' _ i R'), !(Rep_KeyIter_Z d es i R) by lia.
    rewrite !(Rep_ValueIter_Z d' _ i R'), !(Rep_ValueIter_Z d es i R) by lia.
    rewrite list_lookup_delete_lt by lia. auto.
  - intros i Hi.
    rewrite !(Rep_KeyIter_Z d' _ i R'), !(Rep_KeyIter_Z d es (i + 1) R) by lia.
    rewrite !(Rep_ValueIter_Z d' _ i R'), !(Rep_ValueIter_Z d es (i + 1) R) by lia.
    rewrite list_lookup_delete_ge by lia.
    replace (Z.to_nat (i + 1)) with (S (Z.to_nat i)) by lia. auto.
Qed.

(** C8. Deleting a key that is not in the dictionary reports failure and
    returns the dictionary as it was (so its length, its mappings and its
    iteration order are what they were); this is also what a second delete
    of the same key does. *)
Theorem delete_missing_key (d : KH_Dict) (k : KH_Blob) :
  reachable d ->
  (KH_DictHas d k = Ok false -> KH_DictDelete d k = Ok (d, false))
  /\ (forall d', KH_DictDelete d k = Ok (d', true) ->
        KH_DictDelete d' k = Ok (d', false)).
Proof.
  intros Hreach. split.
  - intros Hhas. destruct (reachable_Rep d Hreach) as [es R].
    exact (Rep_Delete_absent d es R k (Rep_Has_false d es R k Hhas)).
  - intros d' Hdel.
    destruct (reachable_Rep d Hreach) as [es R].
    destruct (present_or_absent k es) as [(x & kx & vx & Hx & Hkx)|Ha].
    + destruct (Rep_Delete_found d es R k x kx vx Hx Hkx) as (d2 & Hdel2 & R2 & _).
      rewrite Hdel in Hdel2. injection Hdel2 as ->.
      apply (Rep_Delete_absent d2 _ R2).
      exact (absent_after_delete d es k x kx vx R Hx Hkx).
    + rewrite (Rep_Delete_absent d es R k Ha) in Hdel. discriminate.
Qed.

(** C9. Setting a key that is present succeeds whatever the allocator
    would answer, and replaces that key's value only: [KH_DictLen] is
    unchanged, the key iterator shows the same keys at the same positions
    (the key at its position [x] as before), the value iterator differs at
    [x] alone, where it now shows the new value, and every other key gets
    the same answer from [KH_DictGet] as before. *)
Theorem set_present_key (slots_ok pairs_ok : bool) (d : KH_Dict) (k v : KH_Blob) :
  reachable d ->
  KH_DictHas d k = Ok true ->
  exists d' x,
    KH_DictSet slots_ok pairs_ok d k v = Ok (d', true)
    /\ KH_DictLen d' = KH_DictLen d
    /\ 0 <= x < KH_DictLen d
    /\ (exists kx, KH_DictKeyIter d x = Ok (Some kx) /\ KH_BlobEqual k kx = true)
    /\ KH_DictValueIter d' x = Ok (Some v)
    /\ KH_DictGet d' k = Ok (Some v)
    /\ (forall i, 0 <= i -> KH_DictKeyIter d' i = KH_DictKeyIter d i)
    /\ (forall i, 0 <= i -> i <> x ->
          KH_DictValueIter d' i = KH_DictValueIter d i)
    /\ (forall k', KH_BlobEqual k' k = false ->
          KH_DictGet d' k' = KH_DictGet d k').
Proof.
  intros Hreach Hhas.
  destruct (reachable_Rep d Hreach) as [es R].
  destruct (Rep_Has_true d es R k Hhas) as (x & kx & vx & Hx & Hkx).
  pose proof (lookup_lt_Some _ _ _ Hx) as Hxl.
  destruct (Rep_Set_old d es R slots_ok pairs_ok k v x kx vx Hx Hkx) as (d' & Hset & R').
  assert (Hx' : <[x := (kx, v)]> es !! x = Some (kx, v))
    by (apply list_lookup_insert_eq; lia).
  exists d', (Z.of_nat x).
  split; [exact Hset|].
  split; [|split; [|split; [|split; [|split; [|split; [|split]]]]]].
  - rewrite (Rep_Len d' _ R'), (Rep_Len d es R), length_insert. reflexivity.
  - rewrite (Rep_Len d es R). lia.
  - exists kx. rewrite (Rep_KeyIter d es R), Hx. auto.
  - rewrite (Rep_ValueIter d' _ R'), Hx'. reflexivity.
  - exact (Rep_Get_found d' _ R' k x kx v Hx' Hkx).
  - intros i Hi.
    rewrite (Rep_KeyIter_Z d' _ i R'), (Rep_KeyIter_Z d es i R) by lia.
    f_equal. destruct (decide (Z.to_nat i = x)) as [E|E].
    + rewrite E, Hx', Hx. reflexivity.
    + rewrite list_lookup_insert_ne by lia. reflexivity.
  - intros i Hi Hne.
    rewrite (Rep_ValueIter_Z d' _ i R'), (Rep_ValueIter_Z d es i R) by lia.
    rewrite list_lookup_insert_ne by lia. reflexivity.
  - intros k' Hne.
    destruct (present_or_absent k' es) as [(i & ki & vi & Hi & Hki)|Ha].
    + pose proof (Rep_other_index d es k k' x i kx vx ki vi R Hx Hkx Hi Hki Hne) as Hix.
      assert (Hi' : <[x := (kx, v)]> es !! i = Some (ki, vi)).
      { rewrite list_lookup_insert_ne by lia. exact Hi. }
      rewrite (Rep_Get_found d' _ R' k' _ ki vi Hi' Hki).
      rewrite (Rep_Get_found d es R k' _ ki vi Hi Hki). reflexivity.
    + rewrite (Rep_Get_absent d' _ R' k' (absent_insert _ _ _ _ _ _ Hx Ha)).
      rewrite (Rep_Get_absent d es R k' Ha). reflexivity.
Qed.

(** ** Occupancy *)

Lemma Rep_load (d : KH_Dict) (es : list (KH_Blob * KH_Blob)) :
  Rep d es ->
  data_count d <= KH_threshold (data_alloced d)
  /\ 8 * data_count d <= 5 * data_alloced d
  /\ (data_alloced d <> 0 -> data_count d < data_alloced d).
Proof.
  intros R. rewrite (rep_count _ _ R).
  destruct (rep_shape _ _ R) as [(H0 & _ & ->)|(T & Hload & _)].
  - rewrite H0. simpl. change (KH_threshold 0) with 0. lia.
  - destruct (cap_ok_eighth _ (tok_cap _ _ _ T)) as (c & Hcr & Hc8).
    split; [exact Hload|].
    rewrite Hc8, KH_threshold_eighth in Hload by lia. lia.
Qed.

(** C4, as the code has it.  In every reachable dictionary the count is at
    most the capacity, and at most the resize threshold
    [(data_alloced >> 1) + (data_alloced >> 3)]: occupancy never exceeds
    5/8, and the count is strictly below a nonzero capacity. *)
Theorem occupancy_at_most_five_eighths (d : KH_Dict) :
  reachable d ->
  data_count d <= data_alloced d
  /\ data_count d <= KH_threshold (data_alloced d)
  /\ 8 * data_count d <= 5 * data_alloced d
  /\ (data_alloced d <> 0 -> data_count d < data_alloced d).
Proof.
  intros Hreach. destruct (reachable_Rep d Hreach) as [es R].
  destruct (Rep_load d es R) as (H1 & H2 & H3).
  pose proof (rep_count _ _ R). repeat split; auto; lia.
Qed.

(** C5. With memory, [KH_CreateDict] returns the empty dictionary: no
    entries, no capacity, no arrays.  Without, it does not return NULL: the
    NULL pointer goes to [memset]. *)
Theorem KH_CreateDict_malloc_unchecked :
  KH_CreateDict true = Ok (Some KH_Dict_zero)
  /\ data_count KH_Dict_zero = 0
  /\ data_alloced KH_Dict_zero = 0
  /\ slots KH_Dict_zero = []
  /\ pairs KH_Dict_zero = []
  /\ KH_CreateDict false = Fault NullDeref
  /\ KH_CreateDict false <> Ok None.
Proof. repeat split; try reflexivity. discriminate. Qed.

(** C6. When either allocation of a needed resize fails, [KH_ResizeDict]
    calls [free] on both new buffers and returns NULL, [KH_DictInsert]
    returns false with the dictionary as it was, and so does [KH_DictSet]
    of a key that is not present. *)
Theorem failed_resize_changes_nothing
    (slots_ok pairs_ok : bool) (d : KH_Dict) (k v : KH_Blob) :
  reachable d ->
  slots_ok && pairs_ok = false ->
  data_count d >= KH_threshold (data_alloced d) ->
  KH_DictHas d k = Ok false ->
  KH_ResizeDict slots_ok pairs_ok d = Ok (ResizeNull true true)
  /\ KH_DictInsert slots_ok pairs_ok d k v = Ok (d, false)
  /\ KH_DictSet slots_ok pairs_ok d k v = Ok (d, false).
Proof.
  intros Hreach Hmem Hthr Hhas.
  destruct (reachable_Rep d Hreach) as [es R].
  split; [|split].
  - unfold KH_ResizeDict. destruct slots_ok, pairs_ok; try discriminate; reflexivity.
  - exact (KH_DictInsert_nomem _ _ d k v Hthr Hmem).
  - unfold KH_DictSet.
    rewrite (Rep_lookup_absent d es k R (Rep_Has_false d es R k Hhas)). simpl.
    exact (KH_DictInsert_nomem _ _ d k v Hthr Hmem).
Qed.

(** ** Termination of the placement *)

Lemma Rep_InsertSlot_terminates (d : KH_Dict) (es : list (KH_Blob * KH_Blob))
    (hash index : Z) :
  Rep d es -> data_alloced d <> 0 ->
  exists p s,
    rd (slots d) p = Ok s /\ slot_free s = true
    /\ KH_InsertSlot (slots d) (data_alloced d) hash index
       = Ok (<[Z.to_nat p := index]> (slots d)).
Proof.
  intros R Hcap.
  destruct (rep_shape _ _ R) as [(H0 & _ & _)|(T & Hload & _)]; [contradiction|].
  pose proof (tok_cap _ _ _ T) as Hc. pose proof (cap_ok_range _ Hc) as Hr.
  destruct (Rep_load d es R) as (_ & _ & Hlt). specialize (Hlt Hcap).
  rewrite (rep_count _ _ R) in Hlt.
  destruct (table_first_free _ _ _ (hash mod data_alloced d) T) as (dk & Hff).
  - rewrite length_fmap. exact Hlt.
  - apply Z.mod_pos_bound. lia.
  - rewrite (KH_InsertSlot_first_free _ _ hash index dk Hc (tok_len _ _ _ T) Hff).
    destruct Hff as (_ & (s & Hs & Hfree) & _). eauto.
Qed.

(** C7. In a reachable dictionary that has a table, the probe loop of
    [KH_InsertSlot] stops, for whatever hash it is started with, at a slot
    [p] of the table that is EMPTY or TOMBSTONE, and writes the index
    there.  So [KH_DictInsert] of a new key cannot fail below the
    threshold, whatever the allocator would answer, nor at the threshold
    once the resize has got its memory. *)
Theorem insert_placement_terminates (d : KH_Dict) :
  reachable d ->
  (data_alloced d <> 0 ->
   forall hash index, exists p s,
     rd (slots d) p = Ok s /\ slot_free s = true
     /\ KH_InsertSlot (slots d) (data_alloced d) hash index
        = Ok (<[Z.to_nat p := index]> (slots d)))
  /\ (forall slots_ok pairs_ok k v,
        KH_DictHas d k = Ok false ->
        data_count d < KH_threshold (data_alloced d) ->
        exists d', KH_DictInsert slots_ok pairs_ok d k v = Ok (d', true))
  /\ (forall k v,
        KH_DictHas d k = Ok false ->
        data_count d < KH_MAX_COUNT ->
        exists d', KH_DictInsert true true d k v = Ok (d', true)).
Proof.
  intros Hreach. destruct (reachable_Rep d Hreach) as [es R].
  split; [|split].
  - intros Hcap hash index. exact (Rep_InsertSlot_terminates d es hash index R Hcap).
  - intros a b k v Hhas Hroom.
    pose proof (Rep_Has_false d es R k Hhas) as Ha.
    destruct (KH_DictInsert_room a b d es k v R) as (d' & H & _); [|exact Ha|eauto].
    unfold at_threshold. lia.
  - intros k v Hhas Hmax.
    pose proof (Rep_Has_false d es R k Hhas) as Ha.
    rewrite (rep_count _ _ R) in Hmax.
    destruct (Z_ge_dec (data_count d) (KH_threshold (data_alloced d))) as [Hthr|Hthr].
    + destruct (KH_DictInsert_resize d es k v R Hthr Ha Hmax)
        as (d1 & d' & _ & _ & _ & H & _). eauto.
    + destruct (KH_DictInsert_room true true d es k v R Hthr Ha) as (d' & H & _). eauto.
Qed.

(** ** The slot-table invariant *)

Lemma Rep_slot_invariant (d : KH_Dict) (es : list (KH_Blob * KH_Blob)) :
  Rep d es -> slot_invariant d.
Proof.
  intros R. pose proof (rep_count _ _ R) as Hcount.
  pose proof (Rep_small _ _ R) as Hsmall.
  unfold slot_invariant. rewrite Hcount.
  split; [|split].
  - intros p s Hs. destruct (rep_shape _ _ R) as [(_ & E & _)|(T & _ & _)].
    + rewrite E in Hs. apply rd_bound in Hs. simpl in Hs. lia.
    + destruct (slot_free s) eqn:F.
      * apply slot_free_true in F. tauto.
      * pose proof (tok_val _ _ _ T _ _ Hs F) as H.
        rewrite length_fmap in H. auto.
  - intros j Hj. destruct (rep_shape _ _ R) as [(_ & _ & ->)|(T & _ & _)];
      [simpl in Hj; lia|].
    destruct (lookup_lt_is_Some_2 (es.*1) (Z.to_nat j)) as [kj Hkj].
    { rewrite length_fmap. lia. }
    destruct (tok_chain _ _ _ T _ _ Hkj) as (dj & _ & Hat & _).
    rewrite Z2Nat.id in Hat by lia.
    eexists. split; [exact Hat|].
    intros q Hq. apply (tok_inj _ _ _ T _ _ _ Hq Hat).
    apply slot_free_index. lia.
  - intros j Hj.
    destruct (lookup_lt_is_Some_2 es (Z.to_nat j)) as [[kj vj] Hjj]; [lia|].
    exists kj, vj. rewrite <- (Z2Nat.id j) by lia.
    exact (Rep_rd_pair d es R _ _ _ Hjj).
Qed.

(** C10. The slot-table invariant holds in every reachable dictionary.
    When [KH_DictInsert] calls for a resize (the count has reached the
    threshold), the pair-array entry at position count, if there is a pair
    array, is the NULL pair, and a resize that gets its memory copies the
    pairs below the count and no more: the count and those pairs are
    unchanged, and the invariant holds for the resized dictionary. *)
Theorem slot_table_invariant (d : KH_Dict) :
  reachable d ->
  slot_invariant d
  /\ (data_count d >= KH_threshold (data_alloced d) ->
      data_count d < KH_MAX_COUNT ->
      (data_alloced d <> 0 -> rd (pairs d) (data_count d) = Ok null_pair)
      /\ exists d',
           KH_ResizeDict true true d = Ok (Resized d')
           /\ data_count d' = data_count d
           /\ (forall j, 0 <= j < data_count d ->
                 rd (pairs d') j = rd (pairs d) j)
           /\ slot_invariant d').
Proof.
  intros Hreach. destruct (reachable_Rep d Hreach) as [es R].
  split; [exact (Rep_slot_invariant d es R)|].
  intros Hthr Hmax. split.
  - intros Hcap.
    destruct (rep_shape _ _ R) as [(H0 & _ & _)|(T & Hload & Hnull)]; [contradiction|].
    rewrite (rep_count _ _ R) in Hthr |- *.
    replace (Z.of_nat (length es)) with (KH_threshold (data_alloced d)) by lia.
    exact Hnull.
  - rewrite (rep_count _ _ R) in Hmax.
    destruct (KH_ResizeDict_spec d es R Hthr Hmax) as (d' & Hres & R' & _).
    exists d'. split; [exact Hres|].
    split; [rewrite (rep_count _ _ R'), (rep_count _ _ R); reflexivity|].
    split; [|exact (Rep_slot_invariant d' es R')].
    intros j Hj. rewrite (rep_count _ _ R) in Hj.
    destruct (lookup_lt_is_Some_2 es (Z.to_nat j)) as [[kj vj] Hjj]; [lia|].
    rewrite <- (Z2Nat.id j) by lia.
    rewrite (Rep_rd_pair d' es R' _ _ _ Hjj), (Rep_rd_pair d es R _ _ _ Hjj).
    reflexivity.
Qed.

(** * Concrete runs *)

Lemma run_reachable (cs : list call) :
  forall d d', reachable d -> run d cs = Some d' -> reachable d'.
Proof.
  induction cs as [|[a b k v|k] cs IH]; intros d d' Hd Hrun; simpl in Hrun.
  - injection Hrun as <-. exact Hd.
  - destruct (Z.ltb_spec (data_count d) KH_MAX_COUNT) as [Hmax|]; [|discriminate].
    destruct (KH_DictSet a b d k v) as [[d1 r]|] eqn:E; [|discriminate].
    apply (IH d1 d'); [|exact Hrun].
    eapply reachable_step; [exact Hd|]. eapply step_set; eauto.
  - destruct (KH_DictDelete d k) as [[d1 r]|] eqn:E; [|discriminate].
    apply (IH d1 d'); [|exact Hrun].
    eapply reachable_step; [exact Hd|]. eapply step_delete; eauto.
Defined.

Lemma state_after_reachable (cs : list call) : reachable (state_after cs).
Proof.
  unfold state_after.
  destruct (run KH_Dict_zero cs) as [d|] eqn:E; simpl.
  - apply (run_reachable cs KH_Dict_zero d); [|exact E].
    apply reachable_create. reflexivity.
  - apply reachable_create. reflexivity.
Defined.

(** The run of the demonstration program: ten sets and a delete leave nine
    entries in their order of insertion, in a table of 16 slots. *)
Example demonstration_program :
  let d := state_after (ten_sets ++ [DeleteCall (text_blob "skibidi")]) in
  KH_DictLen d = 9
  /\ data_alloced d = 16
  /\ KH_DictGet d (text_blob ":3") = Ok (Some (text_blob "UwU"))
  /\ KH_DictHas d (text_blob "skibidi") = Ok false
  /\ map (KH_DictKeyIter d) [0; 1; 2; 3; 4; 5; 6; 7; 8; 9]
     = map (fun s => Ok (Some (text_blob s)))
         ["hello"; "balls"; "iscute"; "urmom"; "coffee"; "shitstain"; "knot";
          ":3"; "poop"]%string ++ [Ok None].
Proof. vm_compute. repeat split; reflexivity. Qed.

(** Three sets and a delete of the middle key: the iteration order is the
    first key, then the third. *)
Example delete_middle_of_three :
  let d := state_after (three_sets ++ [DeleteCall (text_blob "k2")]) in
  map (KH_DictKeyIter d) [0; 1; 2]
  = [Ok (Some (text_blob "k1")); Ok (Some (text_blob "k3")); Ok None]
  /\ map (KH_DictValueIter d) [0; 1; 2]
     = [Ok (Some (text_blob "v1")); Ok (Some (text_blob "v3")); Ok None].
Proof. vm_compute. split; reflexivity. Qed.

(** Two keys with home bucket 5 in the seed table: after both are set and
    the first is deleted, slot 5 is a TOMBSTONE, the second key is behind it
    in slot 6, and [KH_DictGet] finds it. *)
Example collision_scenario :
  let d := state_after [set_text "balls" "v1"; set_text "poop" "v2";
                        DeleteCall (text_blob "balls")] in
  KH_BlobStartingIndexForSize (blob_hash (text_blob "balls")) 8 = 5
  /\ KH_BlobStartingIndexForSize (blob_hash (text_blob "poop")) 8 = 5
  /\ slots d = [KH_HASH_EMPTY; KH_HASH_EMPTY; KH_HASH_EMPTY; KH_HASH_EMPTY;
                KH_HASH_EMPTY; KH_HASH_DELETED; 0; KH_HASH_EMPTY]
  /\ KH_DictGet d (text_blob "poop") = Ok (Some (text_blob "v2"))
  /\ KH_DictHas d (text_blob "balls") = Ok false.
Proof. vm_compute. repeat split; reflexivity. Qed.

(** Twelve sets, one of them refused, take the table through two
    resizes. *)
Example twelve_sets_resize_twice :
  (do r <- set_each KH_Dict_zero (take 5 twelve_calls);
   Ok (data_alloced r.1, KH_DictLen r.1)) = Ok (8, 5)
  /\ (do r <- set_each KH_Dict_zero (take 6 twelve_calls);
      Ok (data_alloced r.1, KH_DictLen r.1)) = Ok (8, 5)
  /\ (do r <- set_each KH_Dict_zero (take 7 twelve_calls);
      Ok (data_alloced r.1, KH_DictLen r.1)) = Ok (16, 6)
  /\ (do r <- set_each KH_Dict_zero (take 11 twelve_calls);
      Ok (data_alloced r.1, KH_DictLen r.1)) = Ok (16, 10)
  /\ (do r <- set_each KH_Dict_zero twelve_calls;
      Ok (data_alloced r.1, KH_DictLen r.1, r.2))
     = Ok (32, 11, [true; true; true; true; true; false;
                    true; true; true; true; true; true]).
Proof. vm_compute. repeat split; reflexivity. Qed.

(** C4 as stated fails: after the first five sets the count is 5 in a
    table of 8 slots, which is 5/8 and not below it. *)
Lemma occupancy_reaches_five_eighths :
  reachable (state_after five_sets)
  /\ data_alloced (state_after five_sets) <> 0
  /\ data_count (state_after five_sets) = 5
  /\ data_alloced (state_after five_sets) = 8
  /\ ~ (8 * data_count (state_after five_sets)
        < 5 * data_alloced (state_after five_sets)).
Proof.
  split; [apply state_after_reachable|].
  vm_compute. repeat split; intros H; discriminate H.
Qed.

(** ** The theorems at work *)

Lemma set_distinct_keys_retrievable_witness :
  KH_CreateDict true = Ok (Some KH_Dict_zero)
  /\ distinct_keys (sc_key <$> twelve_calls) = true
  /\ Z.of_nat (length twelve_calls) <= KH_MAX_COUNT
  /\ exists d rs,
       set_each KH_Dict_zero twelve_calls = Ok (d, rs)
       /\ forall (i : nat) c,
            twelve_calls !! i = Some c ->
            exists r, rs !! i = Some r
              /\ (sc_slots_ok c && sc_pairs_ok c = true -> r = true)
              /\ (r = true ->
                  KH_DictGet d (sc_key c) = Ok (Some (sc_value c))
                  /\ KH_DictHas d (sc_key c) = Ok true)
              /\ (r = false ->
                  KH_DictGet d (sc_key c) = Ok None
                  /\ KH_DictHas d (sc_key c) = Ok false).
Proof.
  split; [reflexivity|]. split; [reflexivity|].
  split; [vm_compute; discriminate|].
  apply (set_distinct_keys_retrievable KH_Dict_zero twelve_calls).
  - reflexivity.
  - reflexivity.
  - vm_compute. discriminate.
Defined.

Lemma colliding_key_found_past_tombstone_witness :
  reachable (state_after [])
  /\ KH_DictHas (state_after []) (text_blob "balls") = Ok false
  /\ KH_DictHas (state_after []) (text_blob "poop") = Ok false
  /\ KH_BlobEqual (text_blob "balls") (text_blob "poop") = false
  /\ data_count (state_after []) + 1 < KH_MAX_COUNT
  /\ KH_BlobStartingIndexForSize (blob_hash (text_blob "balls")) 8
     = KH_BlobStartingIndexForSize (blob_hash (text_blob "poop")) 8
  /\ exists d3 i j,
       KH_DictDelete (state_after [set_text "balls" "v1"; set_text "poop" "v2"])
         (text_blob "balls") = Ok (d3, true)
       /\ KH_DictGet d3 (text_blob "poop") = Ok (Some (text_blob "v2"))
       /\ 0 <= i < j /\ j < data_alloced d3
       /\ rd (slots d3) (lookup_probe d3 (text_blob "poop") i) = Ok KH_HASH_DELETED
       /\ rd (slots d3) (lookup_probe d3 (text_blob "poop") j)
          = Ok (KH_DictLen d3 - 1)
       /\ KH_DictKeyIter d3 (KH_DictLen d3 - 1) = Ok (Some (text_blob "poop")).
Proof.
  split; [apply state_after_reachable|].
  split; [reflexivity|]. split; [reflexivity|]. split; [reflexivity|].
  split; [vm_compute; reflexivity|]. split; [reflexivity|].
  destruct (colliding_key_found_past_tombstone (state_after [])
              (text_blob "balls") (text_blob "v1") (text_blob "poop") (text_blob "v2"))
    as (d1 & d2 & d3 & H1 & H2 & H3 & H4 & H5).
  - apply state_after_reachable.
  - reflexivity.
  - reflexivity.
  - reflexivity.
  - vm_compute. reflexivity.
  - vm_compute in H1. injection H1 as <-.
    vm_compute in H2. injection H2 as <-.
    destruct H5 as (i & j & Hij & Hj & Hi' & Hj' & Hk); [reflexivity|].
    exists d3, i, j.
    split; [exact H3|]. split; [exact H4|]. split; [exact Hij|].
    split; [exact Hj|]. split; [exact Hi'|]. split; [exact Hj' | exact Hk].
Defined.

Lemma delete_present_key_witness :
  reachable (state_after three_sets)
  /\ KH_DictHas (state_after three_sets) (text_blob "k2") = Ok true
  /\ exists d' x,
       KH_DictDelete (state_after three_sets) (text_blob "k2") = Ok (d', true)
       /\ KH_DictHas d' (text_blob "k2") = Ok false
       /\ KH_DictLen d' = KH_DictLen (state_after three_sets) - 1
       /\ (forall k', KH_BlobEqual k' (text_blob "k2") = false ->
             KH_DictGet d' k' = KH_DictGet (state_after three_sets) k'
             /\ KH_DictHas d' k' = KH_DictHas (state_after three_sets) k')
       /\ 0 <= x < KH_DictLen (state_after three_sets)
       /\ (exists kx, KH_DictKeyIter (state_after three_sets) x = Ok (Some kx)
                      /\ KH_BlobEqual (text_blob "k2") kx = true)
       /\ (forall i, 0 <= i < x ->
             KH_DictKeyIter d' i = KH_DictKeyIter (state_after three_sets) i
             /\ KH_DictValueIter d' i = KH_DictValueIter (state_after three_sets) i)
       /\ (forall i, x <= i ->
             KH_DictKeyIter d' i = KH_DictKeyIter (state_after three_sets) (i + 1)
             /\ KH_DictValueIter d' i
                = KH_DictValueIter (state_after three_sets) (i + 1)).
Proof.
  split; [apply state_after_reachable|]. split; [reflexivity|].
  apply (delete_present_key (state_after three_sets) (text_blob "k2")).
  - apply state_after_reachable.
  - reflexivity.
Defined.

Lemma occupancy_at_most_five_eighths_witness :
  reachable (state_after five_sets)
  /\ data_count (state_after five_sets) <= data_alloced (state_after five_sets)
  /\ data_count (state_after five_sets)
     <= KH_threshold (data_alloced (state_after five_sets))
  /\ 8 * data_count (state_after five_sets)
     <= 5 * data_alloced (state_after five_sets)
  /\ (data_alloced (state_after five_sets) <> 0 ->
      data_count (state_after five_sets) < data_alloced (state_after five_sets)).
Proof.
  split; [apply state_after_reachable|].
  apply (occupancy_at_most_five_eighths (state_after five_sets)).
  apply state_after_reachable.
Defined.

Lemma failed_resize_changes_nothing_witness :
  reachable (state_after five_sets)
  /\ false && true = false
  /\ data_count (state_after five_sets)
     >= KH_threshold (data_alloced (state_after five_sets))
  /\ KH_DictHas (state_after five_sets) (text_blob "shitstain") = Ok false
  /\ KH_ResizeDict false true (state_after five_sets) = Ok (ResizeNull true true)
  /\ KH_DictInsert false true (state_after five_sets)
       (text_blob "shitstain") (text_blob "coffeestain")
     = Ok (state_after five_sets, false)
  /\ KH_DictSet false true (state_after five_sets)
       (text_blob "shitstain") (text_blob "coffeestain")
     = Ok (state_after five_sets, false).
Proof.
  split; [apply state_after_reachable|]. split; [reflexivity|].
  split; [vm_compute; discriminate|]. split; [reflexivity|].
  apply (failed_resize_changes_nothing false true (state_after five_sets)
           (text_blob "shitstain") (text_blob "coffeestain")).
  - apply state_after_reachable.
  - reflexivity.
  - vm_compute. discriminate.
  - reflexivity.
Defined.

Lemma insert_placement_terminates_witness :
  reachable (state_after three_sets)
  /\ data_alloced (state_after three_sets) <> 0
  /\ KH_DictHas (state_after three_sets) (text_blob "k4") = Ok false
  /\ data_count (state_after three_sets)
     < KH_threshold (data_alloced (state_after three_sets))
  /\ data_count (state_after three_sets) < KH_MAX_COUNT
  /\ (forall hash index, exists p s,
        rd (slots (state_after three_sets)) p = Ok s /\ slot_free s = true
        /\ KH_InsertSlot (slots (state_after three_sets))
             (data_alloced (state_after three_sets)) hash index
           = Ok (<[Z.to_nat p := index]> (slots (state_after three_sets))))
  /\ (exists d',
        KH_DictInsert false false (state_after three_sets)
          (text_blob "k4") (text_blob "v4") = Ok (d', true))
  /\ (exists d',
        KH_DictInsert true true (state_after three_sets)
          (text_blob "k4") (text_blob "v4") = Ok (d', true)).
Proof.
  split; [apply state_after_reachable|].
  split; [vm_compute; discriminate|]. split; [reflexivity|].
  split; [vm_compute; reflexivity|]. split; [vm_compute; reflexivity|].
  destruct (insert_placement_terminates (state_after three_sets))
    as (HA & HB & HC).
  - apply state_after_reachable.
  - split; [|split].
    + apply HA. vm_compute. discriminate.
    + apply HB; [reflexivity | vm_compute; reflexivity].
    + apply HC; [reflexivity | vm_compute; reflexivity].
Defined.

Lemma delete_missing_key_witness :
  reachable (state_after three_sets)
  /\ KH_DictHas (state_after three_sets) (text_blob "k4") = Ok false
  /\ KH_DictDelete (state_after three_sets) (text_blob "k4")
     = Ok (state_after three_sets, false)
  /\ exists d',
       KH_DictDelete (state_after three_sets) (text_blob "k2") = Ok (d', true)
       /\ KH_DictDelete d' (text_blob "k2") = Ok (d', false).
Proof.
  split; [apply state_after_reachable|]. split; [reflexivity|]. split.
  - apply (proj1 (delete_missing_key (state_after three_sets) (text_blob "k4")
                     (state_after_reachable three_sets))).
    reflexivity.
  - eexists. split; [vm_compute; reflexivity|].
    apply (proj2 (delete_missing_key (state_after three_sets) (text_blob "k2")
                     (state_after_reachable three_sets))).
    vm_compute. reflexivity.
Defined.

Lemma set_present_key_witness :
  reachable (state_after three_sets)
  /\ KH_DictHas (state_after three_sets) (text_blob "k2") = Ok true
  /\ exists d' x,
       KH_DictSet false false (state_after three_sets) (text_blob "k2") (text_blob "w")
       = Ok (d', true)
       /\ KH_DictLen d' = KH_DictLen (state_after three_sets)
       /\ 0 <= x < KH_DictLen (state_after three_sets)
       /\ (exists kx, KH_DictKeyIter (state_after three_sets) x = Ok (Some kx)
                      /\ KH_BlobEqual (text_blob "k2") kx = true)
       /\ KH_DictValueIter d' x = Ok (Some (text_blob "w"))
       /\ KH_DictGet d' (text_blob "k2") = Ok (Some (text_blob "w"))
       /\ (forall i, 0 <= i ->
             KH_DictKeyIter d' i = KH_DictKeyIter (state_after three_sets) i)
       /\ (forall i, 0 <= i -> i <> x ->
             KH_DictValueIter d' i = KH_DictValueIter (state_after three_sets) i)
       /\ (forall k', KH_BlobEqual k' (text_blob "k2") = false ->
             KH_DictGet d' k' = KH_DictGet (state_after three_sets) k').
Proof.
  split; [apply state_after_reachable|]. split; [reflexivity|].
  apply (set_present_key false false (state_after three_sets)
           (text_blob "k2") (text_blob "w")).
  - apply state_after_reachable.
  - reflexivity.
Defined.

Lemma slot_table_invariant_witness :
  reachable (state_after five_sets)
  /\ data_count (state_after five_sets)
     >= KH_threshold (data_alloced (state_after five_sets))
  /\ data_count (state_after five_sets) < KH_MAX_COUNT
  /\ data_alloced (state_after five_sets) <> 0
  /\ slot_invariant (state_after five_sets)
  /\ rd (pairs (state_after five_sets)) (data_count (state_after five_sets))
     = Ok null_pair
  /\ exists d',
       KH_ResizeDict true true (state_after five_sets) = Ok (Resized d')
       /\ data_count d' = data_count (state_after five_sets)
       /\ (forall j, 0 <= j < data_count (state_after five_sets) ->
             rd (pairs d') j = rd (pairs (state_after five_sets)) j)
       /\ slot_invariant d'.
Proof.
  split; [apply state_after_reachable|].
  split; [vm_compute; discriminate|]. split; [vm_compute; reflexivity|].
  split; [vm_compute; discriminate|].
  destruct (slot_table_invariant (state_after five_sets)) as (Hinv & Hres).
  - apply state_after_reachable.
  - split; [exact Hinv|].
    destruct Hres as (Hnull & Hcopy).
    + vm_compute. discriminate.
    + vm_compute. reflexivity.
    + split; [|exact Hcopy]. apply Hnull. vm_compute. discriminate.
Defined.

(** * Further properties *)

(** ** Blobs *)

Example marker_hashes :
  blob_hash key_hashed_EMPTY = KH_HASH_EMPTY
  /\ blob_hash key_hashed_DELETED = KH_HASH_DELETED.
Proof. vm_compute. split; reflexivity. Qed.

Lemma KH_BlobEqual_comm (b1 b2 : KH_Blob) :
  KH_BlobEqual b1 b2 = KH_BlobEqual b2 b1.
Proof.
  destruct (KH_BlobEqual b1 b2) eqn:E; symmetry.
  - apply KH_BlobEqual_sym. exact E.
  - apply KH_BlobEqual_false_sym. exact E.
Qed.

(** X1. [KH_BlobEqual] is an equivalence on blobs: every blob equals
    itself, the answer does not depend on the order of the two arguments
    (although [memcmp] is given the length of the first one only), and
    equality is transitive.  The dictionary's lookup relies on it. *)
Theorem KH_BlobEqual_equivalence :
  (forall b, KH_BlobEqual b b = true)
  /\ (forall b1 b2, KH_BlobEqual b1 b2 = KH_BlobEqual b2 b1)
  /\ (forall b1 b2 b3,
        KH_BlobEqual b1 b2 = true -> KH_BlobEqual b2 b3 = true ->
        KH_BlobEqual b1 b3 = true).
Proof.
  split; [exact KH_BlobEqual_refl|]. split; [exact KH_BlobEqual_comm|].
  exact KH_BlobEqual_trans.
Qed.

Lemma KH_BlobEqual_equivalence_witness :
  KH_BlobEqual (text_blob "k1") (text_blob "k1") = true
  /\ KH_BlobEqual (text_blob "k1") (text_blob "k2")
     = KH_BlobEqual (text_blob "k2") (text_blob "k1")
  /\ KH_BlobEqual key_hashed_EMPTY (text_blob "xzxci3y") = true
  /\ KH_BlobEqual (text_blob "xzxci3y") key_hashed_EMPTY = true
  /\ KH_BlobEqual key_hashed_EMPTY key_hashed_EMPTY = true.
Proof.
  destruct KH_BlobEqual_equivalence as (Hrefl & Hcomm & Htrans).
  split; [apply Hrefl|]. split; [apply Hcomm|].
  split; [reflexivity|]. split; [reflexivity|].
  apply (Htrans key_hashed_EMPTY (text_blob "xzxci3y") key_hashed_EMPTY);
    reflexivity.
Defined.

(** X2. [KH_CreateBlob] on a buffer of at least [length] bytes: with memory
    it returns a blob of that length holding the first [length] bytes and
    their hash; without, NULL.  Two blobs made this way are equal exactly
    when they have the same length and the same bytes, so the cached hash
    never separates equal contents. *)
Theorem KH_CreateBlob_equal_iff_same_bytes
    (buf1 buf2 : list byte) (len1 len2 : Z) :
  0 <= len1 <= Z.of_nat (length buf1) ->
  0 <= len2 <= Z.of_nat (length buf2) ->
  KH_CreateBlob false buf1 len1 = None
  /\ exists b1 b2,
       KH_CreateBlob true buf1 len1 = Some b1
       /\ KH_CreateBlob true buf2 len2 = Some b2
       /\ blob_length b1 = len1
       /\ Z.of_nat (length (blob_data b1)) = len1
       /\ (forall i : nat, Z.of_nat i < len1 -> blob_data b1 !! i = buf1 !! i)
       /\ blob_hash b1 = KH_Hash (blob_data b1) (blob_length b1)
       /\ (KH_BlobEqual b1 b2 = true
           <-> len1 = len2
               /\ take (Z.to_nat len1) buf1 = take (Z.to_nat len2) buf2).
Proof.
  intros H1 H2. split; [reflexivity|].
  eexists. eexists. split; [reflexivity|]. split; [reflexivity|]. simpl.
  split; [reflexivity|].
  split; [rewrite length_take; lia|].
  split; [intros i Hi; apply lookup_take_lt; lia|].
  split.
  - unfold KH_Hash. rewrite take_take, Nat.min_id. reflexivity.
  - exact (KH_BlobEqual_created buf1 buf2 len1 len2 _ _ eq_refl eq_refl).
Qed.

Lemma KH_CreateBlob_equal_iff_same_bytes_witness :
  0 <= 2 <= Z.of_nat (length [x61; x62; x63])
  /\ 0 <= 2 <= Z.of_nat (length [x61; x62; x64; x65])
  /\ exists b1 b2,
       KH_CreateBlob true [x61; x62; x63] 2 = Some b1
       /\ KH_CreateBlob true [x61; x62; x64; x65] 2 = Some b2
       /\ KH_BlobEqual b1 b2 = true.
Proof.
  split; [simpl; lia|]. split; [simpl; lia|].
  destruct (KH_CreateBlob_equal_iff_same_bytes
              [x61; x62; x63] [x61; x62; x64; x65] 2 2)
    as (_ & b1 & b2 & Hb1 & Hb2 & _ & _ & _ & _ & Heq).
  - simpl. lia.
  - simpl. lia.
  - exists b1, b2. split; [exact Hb1|]. split; [exact Hb2|].
    apply Heq. split; reflexivity.
Defined.

(** *** Strings *)

Lemma bytes_of_string_app (s t : string) :
  bytes_of_string (s ++ t) = (bytes_of_string s ++ bytes_of_string t)%list.
Proof.
  unfold bytes_of_string. induction s as [|c s IH]; simpl; [reflexivity|].
  f_equal. exact IH.
Qed.

Lemma bytes_of_string_length (s : string) :
  length (bytes_of_string s) = String.length s.
Proof.
  unfold bytes_of_string. induction s as [|c s IH]; simpl; [reflexivity|].
  f_equal. exact IH.
Qed.

Lemma bytes_of_string_inj (s t : string) :
  bytes_of_string s = bytes_of_string t -> s = t.
Proof.
  unfold bytes_of_string. revert t.
  induction s as [|c s IH]; intros [|c' t] H; simpl in H;
    try discriminate; [reflexivity|].
  injection H as Hc Hs. f_equal; [|exact (IH _ Hs)].
  rewrite <- (ascii_of_byte_of_ascii c), <- (ascii_of_byte_of_ascii c'), Hc.
  reflexivity.
Qed.

Lemma strlen_text (bs rest : list byte) :
  forallb (fun b => negb (Byte.eqb b x00)) bs = true ->
  Z.of_nat (length bs) < 2 ^ 64 ->
  strlen (bs ++ x00 :: rest) = Z.of_nat (length bs).
Proof.
  induction bs as [|b bs IH]; intros Hnul Hlen; simpl in *.
  - reflexivity.
  - apply andb_true_iff in Hnul as [Hb Hbs].
    apply negb_true_iff in Hb. rewrite Hb.
    rewrite IH by (auto; lia). rewrite usize_id by lia. lia.
Qed.

Lemma c_string_text (bs rest : list byte) :
  forallb (fun b => negb (Byte.eqb b x00)) bs = true ->
  c_string (bs ++ x00 :: rest) = Ok bs.
Proof.
  induction bs as [|b bs IH]; intros Hnul; simpl in *.
  - reflexivity.
  - apply andb_true_iff in Hnul as [Hb Hbs].
    apply negb_true_iff in Hb. rewrite Hb, (IH Hbs). reflexivity.
Qed.

(** The blob of a text: its bytes and the terminating NUL, whatever follows
    the NUL in memory. *)
Lemma KH_BlobForString_buffer (bs rest : list byte) :
  forallb (fun b => negb (Byte.eqb b x00)) bs = true ->
  Z.of_nat (length bs) < 2 ^ 64 - 1 ->
  KH_CreateBlob true (bs ++ x00 :: rest) (usize (strlen (bs ++ x00 :: rest) + 1))
  = Some {| blob_length := Z.of_nat (length bs) + 1;
            blob_hash := KH_Hash (bs ++ [x00]) (Z.of_nat (length bs) + 1);
            blob_data := bs ++ [x00] |}.
Proof.
  intros Hnul Hlen. rewrite strlen_text by (auto; lia).
  rewrite usize_id by lia. unfold KH_CreateBlob, KH_Hash.
  assert (Ht : forall tl, take (Z.to_nat (Z.of_nat (length bs) + 1)) (bs ++ x00 :: tl)
               = bs ++ [x00]).
  { intros tl. replace (Z.to_nat (Z.of_nat (length bs) + 1)) with (length bs + 1)%nat by lia.
    change (x00 :: tl) with ([x00] ++ tl). rewrite app_assoc.
    rewrite take_app_length'; [reflexivity|]. rewrite length_app. simpl. lia. }
  rewrite (Ht rest), (Ht []). reflexivity.
Qed.

(** X3. [KH_BlobForString] on a text without NUL characters: the blob
    holds the characters and the terminating NUL, its length is the text's
    length plus one, [printf]'s [%s] reads the text back from its data, and
    characters after a NUL in the buffer are not part of it.  Two texts
    give equal blobs exactly when they are the same text. *)
Theorem KH_BlobForString_text (str : string) :
  nul_free str = true ->
  Z.of_nat (String.length str) < 2 ^ 64 - 1 ->
  KH_BlobForString false str = None
  /\ exists b,
       KH_BlobForString true str = Some b
       /\ blob_data b = (bytes_of_string str ++ [x00])%list
       /\ blob_length b = Z.of_nat (String.length str) + 1
       /\ c_string (blob_data b) = Ok (bytes_of_string str)
       /\ (forall rest,
             KH_BlobForString true (str ++ String zero rest) = Some b)
       /\ (forall str' b',
             nul_free str' = true ->
             Z.of_nat (String.length str') < 2 ^ 64 - 1 ->
             KH_BlobForString true str' = Some b' ->
             (KH_BlobEqual b b' = true <-> str = str')).
Proof.
  intros Hnul Hlen. split; [reflexivity|].
  unfold nul_free in Hnul.
  pose proof (bytes_of_string_length str) as Hl.
  eexists. split.
  { unfold KH_BlobForString. apply KH_BlobForString_buffer; [exact Hnul | lia]. }
  simpl. split; [reflexivity|]. split; [lia|].
  split; [apply c_string_text; exact Hnul|]. split.
  - intros rest. unfold KH_BlobForString.
    rewrite bytes_of_string_app, <- app_assoc.
    change (bytes_of_string (String zero rest))
      with (x00 :: bytes_of_string rest).
    rewrite <- app_comm_cons.
    apply KH_BlobForString_buffer; [exact Hnul | lia].
  - intros str' b' Hnul' Hlen' Hb'. unfold nul_free in Hnul'.
    pose proof (bytes_of_string_length str') as Hl'.
    pose proof (KH_BlobForString_buffer (bytes_of_string str') [] Hnul') as Hb2.
    assert (E : Some b' = Some {| blob_length := Z.of_nat (length (bytes_of_string str')) + 1;
                                  blob_hash := KH_Hash (bytes_of_string str' ++ [x00])
                                                 (Z.of_nat (length (bytes_of_string str')) + 1);
                                  blob_data := bytes_of_string str' ++ [x00] |}).
    { rewrite <- Hb2 by lia. symmetry. exact Hb'. }
    injection E as ->. clear Hb2 Hb'. split.
    + intros (_ & Hlen2 & Hd)%KH_BlobEqual_true. simpl in Hlen2, Hd.
      apply bytes_of_string_inj.
      rewrite !take_ge in Hd by (rewrite length_app; simpl; lia).
      apply app_inj_tail in Hd. tauto.
    + intros <-. apply KH_BlobEqual_refl.
Qed.

Lemma KH_BlobForString_text_witness :
  nul_free "hello" = true
  /\ Z.of_nat (String.length "hello") < 2 ^ 64 - 1
  /\ exists b,
       KH_BlobForString true "hello" = Some b
       /\ blob_length b = 6
       /\ c_string (blob_data b) = Ok (bytes_of_string "hello")
       /\ KH_BlobForString true ("hello" ++ String zero "world") = Some b
       /\ (KH_BlobEqual b (text_blob "hello") = true <-> "hello" = "hello")%string.
Proof.
  split; [reflexivity|]. split; [vm_compute; reflexivity|].
  destruct (KH_BlobForString_text "hello")
    as (_ & b & Hb & _ & Hlen & Htext & Hrest & Heq).
  - reflexivity.
  - vm_compute. reflexivity.
  - exists b. split; [exact Hb|]. split; [exact Hlen|]. split; [exact Htext|].
    split; [apply Hrest|].
    apply (Heq "hello"%string (text_blob "hello")).
    + reflexivity.
    + vm_compute. reflexivity.
    + reflexivity.
Defined.

(** *** The hash *)

Lemma byte_val_bound (b : byte) : 0 <= byte_val b < 2 ^ 8.
Proof.
  unfold byte_val. pose proof (Byte.to_N_bounded b) as H.
  change (2 ^ 8) with 256. lia.
Qed.

Lemma lxor_32_bit (a b : Z) :
  0 <= a < 2 ^ 32 -> 0 <= b < 2 ^ 32 -> 0 <= Z.lxor a b < 2 ^ 32.
Proof.
  intros Ha Hb.
  assert (Hnn : 0 <= Z.lxor a b) by (apply Z.lxor_nonneg; lia).
  split; [exact Hnn|].
  destruct (Z.eq_dec (Z.lxor a b) 0) as [E|E]; [rewrite E; reflexivity|].
  apply Z.log2_lt_pow2; [lia|].
  pose proof (Z.log2_lxor a b ltac:(lia) ltac:(lia)) as Hl.
  assert (Hla : Z.log2 a < 32).
  { destruct (Z.eq_dec a 0) as [->|]; [reflexivity|].
    apply Z.log2_lt_pow2; lia. }
  assert (Hlb : Z.log2 b < 32).
  { destruct (Z.eq_dec b 0) as [->|]; [reflexivity|].
    apply Z.log2_lt_pow2; lia. }
  lia.
Qed.

(** One round is [hash * 33 ^ byte] on 32 bits. *)
Lemma KH_Hash_round_33 (hash : Z) (b : byte) :
  KH_Hash_round hash b = Z.lxor (33 * hash mod 2 ^ 32) (byte_val b)
  /\ 0 <= KH_Hash_round hash b < 2 ^ 32.
Proof.
  unfold KH_Hash_round, u32.
  rewrite Z.shiftl_mul_pow2 by lia.
  rewrite Zplus_mod_idemp_l.
  replace (hash * 2 ^ 5 + hash) with (33 * hash) by lia.
  pose proof (byte_val_bound b) as Hb.
  assert (Hb' : 0 <= byte_val b < 2 ^ 32) by lia.
  pose proof (lxor_32_bit (33 * hash mod 2 ^ 32) (byte_val b)
                (Z.mod_pos_bound (33 * hash) (2 ^ 32) eq_refl) Hb') as Hx.
  rewrite Z.mod_small by exact Hx. auto.
Qed.

(** X4. [KH_Hash] is the xor variant of the hash of D. J. Bernstein: from
    5381, each of the first [length] bytes turns the hash [h] into
    [(33 * h mod 2 ^ 32) xor byte].  The result fits 32 bits, and the hash
    of no bytes is 5381. *)
Theorem KH_Hash_djb2_xor (buffer : list byte) (len : Z) :
  0 <= KH_Hash buffer len < 2 ^ 32
  /\ KH_Hash buffer len
     = fold_left (fun h b => Z.lxor (33 * h mod 2 ^ 32) (byte_val b))
         (take (Z.to_nat len) buffer) 5381
  /\ KH_Hash buffer 0 = 5381.
Proof.
  unfold KH_Hash.
  assert (H : forall l h, 0 <= h < 2 ^ 32 ->
    0 <= fold_left KH_Hash_round l h < 2 ^ 32
    /\ fold_left KH_Hash_round l h
       = fold_left (fun h b => Z.lxor (33 * h mod 2 ^ 32) (byte_val b)) l h).
  { induction l as [|b l IH]; intros h Hh; simpl; [auto|].
    destruct (KH_Hash_round_33 h b) as [E Hr].
    destruct (IH _ Hr) as [H1 H2]. split; [exact H1|].
    rewrite H2, E. reflexivity. }
  destruct (H (take (Z.to_nat len) buffer) 5381) as [H1 H2]; [lia|].
  split; [exact H1|]. split; [exact H2 | reflexivity].
Qed.

(** X5. For a table size that is a power of two up to [2 ^ 32],
    [KH_BlobStartingIndexForSize] is the hash modulo the size, a position
    inside the table. *)
Theorem home_bucket_of_power_of_two (hash n : Z) :
  0 <= n <= 32 ->
  KH_BlobStartingIndexForSize hash (2 ^ n) = hash mod 2 ^ n
  /\ 0 <= KH_BlobStartingIndexForSize hash (2 ^ n) < 2 ^ n.
Proof.
  intros Hn. unfold KH_BlobStartingIndexForSize.
  assert (Hp : 0 < 2 ^ n <= 2 ^ 32).
  { split; [apply Z.pow_pos_nonneg; lia | apply Z.pow_le_mono_r; lia]. }
  rewrite usize_id by lia. rewrite mask_mod by lia.
  pose proof (Z.mod_pos_bound hash (2 ^ n) ltac:(lia)) as Hm.
  rewrite u32_id by lia. auto.
Qed.

Lemma home_bucket_of_power_of_two_witness :
  0 <= 4 <= 32
  /\ KH_BlobStartingIndexForSize (blob_hash (text_blob "skibidi")) (2 ^ 4)
     = blob_hash (text_blob "skibidi") mod 2 ^ 4
  /\ 0 <= KH_BlobStartingIndexForSize (blob_hash (text_blob "skibidi")) (2 ^ 4)
       < 2 ^ 4.
Proof.
  split; [lia|].
  apply (home_bucket_of_power_of_two (blob_hash (text_blob "skibidi")) 4). lia.
Defined.

(** ** A new key *)

(** X6. Setting a key that is not in a reachable dictionary, with memory
    for a resize or below the threshold, appends it: the call returns
    true, the length grows by one, the iterators show the new key and value
    at the former length and the former entries where they were, and every
    other key gets the same answers as before.  Nothing here depends on the
    key's hash: it may be one of the two slot markers. *)
Theorem set_absent_key_appends
    (slots_ok pairs_ok : bool) (d : KH_Dict) (k v : KH_Blob) :
  reachable d ->
  KH_DictHas d k = Ok false ->
  data_count d < KH_MAX_COUNT ->
  slots_ok && pairs_ok = true \/ data_count d < KH_threshold (data_alloced d) ->
  exists d',
    KH_DictSet slots_ok pairs_ok d k v = Ok (d', true)
    /\ KH_DictLen d' = KH_DictLen d + 1
    /\ KH_DictKeyIter d' (KH_DictLen d) = Ok (Some k)
    /\ KH_DictValueIter d' (KH_DictLen d) = Ok (Some v)
    /\ (forall i, 0 <= i < KH_DictLen d ->
          KH_DictKeyIter d' i = KH_DictKeyIter d i
          /\ KH_DictValueIter d' i = KH_DictValueIter d i)
    /\ KH_DictGet d' k = Ok (Some v)
    /\ KH_DictHas d' k = Ok true
    /\ (forall k', KH_BlobEqual k' k = false ->
          KH_DictGet d' k' = KH_DictGet d k'
          /\ KH_DictHas d' k' = KH_DictHas d k').
Proof.
  intros Hreach Hhas Hmax Hmem.
  destruct (reachable_Rep d Hreach) as [es R].
  pose proof (Rep_Has_false d es R k Hhas) as Ha.
  pose proof (rep_count _ _ R) as Hc.
  destruct (Rep_Set_absent slots_ok pairs_ok d es k v R Ha)
    as [(Hno & Hthr & _)|(_ & d' & Hset & R')]; [lia| |].
  { exfalso. unfold at_threshold in Hthr.
    destruct Hmem as [Hm|Hm]; [congruence | lia]. }
  assert (Hlast : (es ++ [(k, v)]) !! length es = Some (k, v))
    by apply lookup_snoc_last.
  exists d'. split; [exact Hset|].
  rewrite !(Rep_Len d es R).
  split; [rewrite (Rep_Len d' _ R'), length_app; simpl; lia|].
  split; [rewrite (Rep_KeyIter d' _ R'), Hlast; reflexivity|].
  split; [rewrite (Rep_ValueIter d' _ R'), Hlast; reflexivity|].
  split.
  { intros i Hi.
    rewrite (Rep_KeyIter_Z d' _ i R'), (Rep_KeyIter_Z d es i R) by lia.
    rewrite (Rep_ValueIter_Z d' _ i R'), (Rep_ValueIter_Z d es i R) by lia.
    rewrite lookup_app_l by lia. auto. }
  split; [exact (Rep_Get_found d' _ R' k _ k v Hlast (KH_BlobEqual_refl k))|].
  split; [exact (Rep_Has_found d' _ R' k _ k v Hlast (KH_BlobEqual_refl k))|].
  intros k' Hne.
  destruct (present_or_absent k' es) as [(i & ki & vi & Hi & Hki)|Ha'].
  - assert (Hi' : (es ++ [(k, v)]) !! i = Some (ki, vi)).
    { rewrite lookup_app_l; [exact Hi | eapply lookup_lt_Some; eauto]. }
    rewrite (Rep_Get_found d' _ R' k' _ ki vi Hi' Hki).
    rewrite (Rep_Get_found d es R k' _ ki vi Hi Hki).
    rewrite (Rep_Has_found d' _ R' k' _ ki vi Hi' Hki).
    rewrite (Rep_Has_found d es R k' _ ki vi Hi Hki). auto.
  - pose proof (absent_snoc k' k v es Ha' Hne) as Ha2.
    rewrite (Rep_Get_absent d' _ R' k' Ha2), (Rep_Get_absent d es R k' Ha').
    rewrite (Rep_Has_absent d' _ R' k' Ha2), (Rep_Has_absent d es R k' Ha').
    auto.
Qed.

Lemma set_absent_key_appends_witness :
  reachable (state_after five_sets)
  /\ blob_hash key_hashed_EMPTY = KH_HASH_EMPTY
  /\ KH_DictHas (state_after five_sets) key_hashed_EMPTY = Ok false
  /\ data_count (state_after five_sets) < KH_MAX_COUNT
  /\ exists d',
       KH_DictSet true true (state_after five_sets) key_hashed_EMPTY
         (text_blob "v") = Ok (d', true)
       /\ KH_DictLen d' = KH_DictLen (state_after five_sets) + 1
       /\ KH_DictKeyIter d' (KH_DictLen (state_after five_sets))
          = Ok (Some key_hashed_EMPTY)
       /\ KH_DictGet d' key_hashed_EMPTY = Ok (Some (text_blob "v")).
Proof.
  split; [apply state_after_reachable|]. split; [reflexivity|].
  split; [reflexivity|]. split; [vm_compute; reflexivity|].
  destruct (set_absent_key_appends true true (state_after five_sets)
              key_hashed_EMPTY (text_blob "v"))
    as (d' & H1 & H2 & H3 & _ & _ & H4 & _).
  - apply state_after_reachable.
  - reflexivity.
  - vm_compute. reflexivity.
  - left. reflexivity.
  - exists d'. auto.
Defined.

(** ** Lookups and iteration *)

Lemma Rep_KeyIter_Some (d : KH_Dict) (es : list (KH_Blob * KH_Blob))
    (i : Z) (k : KH_Blob) :
  Rep d es -> 0 <= i -> KH_DictKeyIter d i = Ok (Some k) ->
  exists v, es !! Z.to_nat i = Some (k, v).
Proof.
  intros R Hi H. rewrite (Rep_KeyIter_Z d es i R Hi) in H.
  destruct (es !! Z.to_nat i) as [[k' v']|]; [|discriminate].
  injection H as <-. eauto.
Qed.

Lemma Rep_ValueIter_Some (d : KH_Dict) (es : list (KH_Blob * KH_Blob))
    (i : Z) (v : KH_Blob) :
  Rep d es -> 0 <= i -> KH_DictValueIter d i = Ok (Some v) ->
  exists k, es !! Z.to_nat i = Some (k, v).
Proof.
  intros R Hi H. rewrite (Rep_ValueIter_Z d es i R Hi) in H.
  destruct (es !! Z.to_nat i) as [[k' v']|]; [|discriminate].
  injection H as <-. eauto.
Qed.

(** X7. In a reachable dictionary the lookups agree with the iteration:
    [KH_DictGet] returns a value exactly when some position of the
    iterators shows an equal key with that value, NULL exactly when no
    position shows an equal key, and [KH_DictHas] is true exactly when
    [KH_DictGet] returns a value. *)
Theorem get_agrees_with_iteration (d : KH_Dict) (k : KH_Blob) :
  reachable d ->
  (forall v,
     KH_DictGet d k = Ok (Some v) <->
     exists i k', 0 <= i < KH_DictLen d
       /\ KH_DictKeyIter d i = Ok (Some k')
       /\ KH_BlobEqual k k' = true
       /\ KH_DictValueIter d i = Ok (Some v))
  /\ (KH_DictGet d k = Ok None <->
      forall i k', 0 <= i -> KH_DictKeyIter d i = Ok (Some k') ->
        KH_BlobEqual k k' = false)
  /\ (KH_DictHas d k = Ok true <-> exists v, KH_DictGet d k = Ok (Some v))
  /\ (KH_DictHas d k = Ok false <-> KH_DictGet d k = Ok None).
Proof.
  intros Hreach. destruct (reachable_Rep d Hreach) as [es R].
  rewrite (Rep_Len d es R).
  destruct (present_or_absent k es) as [(j & kj & vj & Hj & Hkj)|Ha].
  - pose proof (Rep_Get_found d es R k j kj vj Hj Hkj) as Hget.
    pose proof (Rep_Has_found d es R k j kj vj Hj Hkj) as Hhas.
    pose proof (lookup_lt_Some _ _ _ Hj) as Hjl.
    rewrite Hget, Hhas. split; [|split; [|split]].
    + intros v. split.
      * intros E. injection E as <-. exists (Z.of_nat j), kj.
        split; [lia|].
        rewrite (Rep_KeyIter d es R), (Rep_ValueIter d es R), Hj. auto.
      * intros (i & k' & Hi & Hk & Heq & Hv).
        destruct (Rep_KeyIter_Some d es i k' R ltac:(lia) Hk) as [v' Hi'].
        destruct (Rep_ValueIter_Some d es i v R ltac:(lia) Hv) as [k2 Hi2].
        rewrite Hi' in Hi2. injection Hi2 as <- <-.
        rewrite <- Hget. exact (Rep_Get_found d es R k _ k' v' Hi' Heq).
    + split; [discriminate|]. intros H. exfalso.
      specialize (H (Z.of_nat j) kj ltac:(lia)).
      rewrite (Rep_KeyIter d es R), Hj in H.
      rewrite H in Hkj; [discriminate | reflexivity].
    + split; eauto.
    + split; discriminate.
  - rewrite (Rep_Get_absent d es R k Ha), (Rep_Has_absent d es R k Ha).
    split; [|split; [|split]].
    + intros v. split; [discriminate|].
      intros (i & k' & Hi & Hk & Heq & Hv). exfalso.
      destruct (Rep_KeyIter_Some d es i k' R ltac:(lia) Hk) as [v' Hi'].
      pose proof (Ha _ _ Hi') as Hne. simpl in Hne. congruence.
    + split; [|reflexivity]. intros _ i k' Hi Hk.
      destruct (Rep_KeyIter_Some d es i k' R Hi Hk) as [v' Hi'].
      exact (Ha _ _ Hi').
    + split; [discriminate|]. intros [v Hv]. discriminate.
    + split; reflexivity.
Qed.

Lemma get_agrees_with_iteration_witness :
  reachable (state_after three_sets)
  /\ (exists i k', 0 <= i < KH_DictLen (state_after three_sets)
        /\ KH_DictKeyIter (state_after three_sets) i = Ok (Some k')
        /\ KH_BlobEqual (text_blob "k2") k' = true
        /\ KH_DictValueIter (state_after three_sets) i = Ok (Some (text_blob "v2")))
  /\ KH_DictHas (state_after three_sets) (text_blob "k2") = Ok true.
Proof.
  split; [apply state_after_reachable|].
  destruct (get_agrees_with_iteration (state_after three_sets) (text_blob "k2"))
    as (Hget & _ & Hhas & _).
  - apply state_after_reachable.
  - split.
    + apply (proj1 (Hget (text_blob "v2"))). reflexivity.
    + apply (proj2 Hhas). exists (text_blob "v2"). reflexivity.
Defined.

(** X8. Every position below the length of a reachable dictionary holds an
    entry: both iterators return a blob there, [KH_DictGet] of the key
    returns the value, [KH_DictHas] is true and [KH_DictLookupIndex] is
    the position.  From the length on, both iterators return NULL. *)
Theorem iteration_lists_every_entry (d : KH_Dict) (i : Z) :
  reachable d -> 0 <= i ->
  (i < KH_DictLen d ->
   exists k v,
     KH_DictKeyIter d i = Ok (Some k)
     /\ KH_DictValueIter d i = Ok (Some v)
     /\ KH_DictGet d k = Ok (Some v)
     /\ KH_DictHas d k = Ok true
     /\ KH_DictLookupIndex d k = Ok i)
  /\ (KH_DictLen d <= i ->
      KH_DictKeyIter d i = Ok None /\ KH_DictValueIter d i = Ok None).
Proof.
  intros Hreach Hi. destruct (reachable_Rep d Hreach) as [es R].
  rewrite (Rep_Len d es R).
  rewrite (Rep_KeyIter_Z d es i R Hi), (Rep_ValueIter_Z d es i R Hi).
  split; intros Hlen.
  - destruct (lookup_lt_is_Some_2 es (Z.to_nat i)) as [[k v] Hkv]; [lia|].
    exists k, v. rewrite Hkv.
    split; [reflexivity|]. split; [reflexivity|].
    split; [exact (Rep_Get_found d es R k _ k v Hkv (KH_BlobEqual_refl k))|].
    split; [exact (Rep_Has_found d es R k _ k v Hkv (KH_BlobEqual_refl k))|].
    rewrite (Rep_lookup_found d es k _ k v R Hkv (KH_BlobEqual_refl k)).
    f_equal. lia.
  - rewrite lookup_ge_None_2 by lia. auto.
Qed.

Lemma iteration_lists_every_entry_witness :
  reachable (state_after ten_sets)
  /\ 0 <= 7
  /\ 7 < KH_DictLen (state_after ten_sets)
  /\ (exists k v,
        KH_DictKeyIter (state_after ten_sets) 7 = Ok (Some k)
        /\ KH_DictValueIter (state_after ten_sets) 7 = Ok (Some v)
        /\ KH_DictGet (state_after ten_sets) k = Ok (Some v)
        /\ KH_DictHas (state_after ten_sets) k = Ok true
        /\ KH_DictLookupIndex (state_after ten_sets) k = Ok 7)
  /\ KH_DictLen (state_after ten_sets) <= 10
  /\ KH_DictKeyIter (state_after ten_sets) 10 = Ok None
  /\ KH_DictValueIter (state_after ten_sets) 10 = Ok None.
Proof.
  split; [apply state_after_reachable|]. split; [lia|].
  split; [vm_compute; reflexivity|]. split.
  - apply (proj1 (iteration_lists_every_entry (state_after ten_sets) 7
                    (state_after_reachable ten_sets) ltac:(lia))).
    vm_compute. reflexivity.
  - split; [vm_compute; discriminate|].
    apply (proj2 (iteration_lists_every_entry (state_after ten_sets) 10
                    (state_after_reachable ten_sets) ltac:(lia))).
    vm_compute. discriminate.
Defined.

(** X9. The key iterator of a reachable dictionary never shows the same
    key twice: the keys at two different positions are different blobs. *)
Theorem iterated_keys_differ (d : KH_Dict) (i j : Z) (ki kj : KH_Blob) :
  reachable d -> 0 <= i -> 0 <= j -> i <> j ->
  KH_DictKeyIter d i = Ok (Some ki) ->
  KH_DictKeyIter d j = Ok (Some kj) ->
  KH_BlobEqual ki kj = false.
Proof.
  intros Hreach Hi Hj Hne Hki Hkj.
  destruct (reachable_Rep d Hreach) as [es R].
  destruct (Rep_KeyIter_Some d es i ki R Hi Hki) as [vi Hi'].
  destruct (Rep_KeyIter_Some d es j kj R Hj Hkj) as [vj Hj'].
  apply (keys_distinct_ne (es.*1) (Z.to_nat i) (Z.to_nat j)).
  - exact (rep_distinct _ _ R).
  - rewrite list_lookup_fmap, Hi'. reflexivity.
  - rewrite list_lookup_fmap, Hj'. reflexivity.
  - lia.
Qed.

Lemma iterated_keys_differ_witness :
  reachable (state_after ten_sets)
  /\ 0 <= 1 /\ 0 <= 8 /\ 1 <> 8
  /\ KH_DictKeyIter (state_after ten_sets) 1 = Ok (Some (text_blob "balls"))
  /\ KH_DictKeyIter (state_after ten_sets) 8 = Ok (Some (text_blob "poop"))
  /\ KH_BlobEqual (text_blob "balls") (text_blob "poop") = false.
Proof.
  split; [apply state_after_reachable|].
  split; [lia|]. split; [lia|]. split; [lia|].
  split; [reflexivity|]. split; [reflexivity|].
  apply (iterated_keys_differ (state_after ten_sets) 1 8).
  - apply state_after_reachable.
  - lia.
  - lia.
  - lia.
  - reflexivity.
  - reflexivity.
Defined.

(** ** Safety *)

(** X10. No public operation on a reachable dictionary reads or writes
    outside the two arrays, dereferences NULL or loops for ever: each one
    returns, for every key and every position, and leaves a reachable
    dictionary.  [KH_DictLookupIndex] returns [KH_NOT_FOUND] or a position
    below the length.  For [KH_DictSet] this holds whatever the allocator
    answers. *)
Theorem public_operations_return (d : KH_Dict) (k v : KH_Blob) (i : Z) :
  reachable d -> 0 <= i ->
  (exists idx, KH_DictLookupIndex d k = Ok idx
     /\ (idx = KH_NOT_FOUND \/ 0 <= idx < KH_DictLen d))
  /\ (exists r, KH_DictGet d k = Ok r)
  /\ (exists r, KH_DictHas d k = Ok r)
  /\ (exists r, KH_DictKeyIter d i = Ok r)
  /\ (exists r, KH_DictValueIter d i = Ok r)
  /\ (exists d' r, KH_DictDelete d k = Ok (d', r) /\ reachable d')
  /\ (data_count d < KH_MAX_COUNT ->
      forall slots_ok pairs_ok,
        exists d' r, KH_DictSet slots_ok pairs_ok d k v = Ok (d', r)
          /\ reachable d').
Proof.
  intros Hreach Hi. destruct (reachable_Rep d Hreach) as [es R].
  rewrite (Rep_Len d es R).
  rewrite (Rep_KeyIter_Z d es i R Hi), (Rep_ValueIter_Z d es i R Hi).
  assert (Hdel : exists d' r, KH_DictDelete d k = Ok (d', r)).
  { destruct (present_or_absent k es) as [(j & kj & vj & Hj & Hkj)|Ha].
    - destruct (Rep_Delete_found d es R k j kj vj Hj Hkj) as (d' & H & _). eauto.
    - rewrite (Rep_Delete_absent d es R k Ha). eauto. }
  assert (Hset : data_count d < KH_MAX_COUNT -> forall a b,
            exists d' r, KH_DictSet a b d k v = Ok (d', r)).
  { intros Hmax a b. rewrite (rep_count _ _ R) in Hmax.
    destruct (present_or_absent k es) as [(j & kj & vj & Hj & Hkj)|Ha].
    - destruct (Rep_Set_old d es R a b k v j kj vj Hj Hkj) as (d' & H & _). eauto.
    - destruct (Rep_Set_absent a b d es k v R Ha Hmax)
        as [(_ & _ & H)|(_ & d' & H & _)]; eauto. }
  split; [|split; [|split; [|split; [|split; [|split]]]]]; eauto.
  - destruct (present_or_absent k es) as [(j & kj & vj & Hj & Hkj)|Ha].
    + rewrite (Rep_lookup_found d es k j kj vj R Hj Hkj).
      eexists. split; [reflexivity|]. right.
      apply lookup_lt_Some in Hj. lia.
    + rewrite (Rep_lookup_absent d es k R Ha). eauto.
  - destruct (present_or_absent k es) as [(j & kj & vj & Hj & Hkj)|Ha].
    + rewrite (Rep_Get_found d es R k j kj vj Hj Hkj). eauto.
    + rewrite (Rep_Get_absent d es R k Ha). eauto.
  - destruct (present_or_absent k es) as [(j & kj & vj & Hj & Hkj)|Ha].
    + rewrite (Rep_Has_found d es R k j kj vj Hj Hkj). eauto.
    + rewrite (Rep_Has_absent d es R k Ha). eauto.
  - destruct Hdel as (d' & r & H). exists d', r. split; [exact H|].
    eapply reachable_step; [exact Hreach|]. eapply step_delete. exact H.
  - intros Hmax a b. destruct (Hset Hmax a b) as (d' & r & H).
    exists d', r. split; [exact H|].
    eapply reachable_step; [exact Hreach|]. eapply step_set; eauto.
Qed.

Lemma public_operations_return_witness :
  reachable (state_after ten_sets)
  /\ 0 <= 3
  /\ data_count (state_after ten_sets) < KH_MAX_COUNT
  /\ (exists idx,
        KH_DictLookupIndex (state_after ten_sets) key_hashed_DELETED = Ok idx
        /\ (idx = KH_NOT_FOUND \/ 0 <= idx < KH_DictLen (state_after ten_sets)))
  /\ (exists d' r,
        KH_DictSet false false (state_after ten_sets) key_hashed_DELETED
          (text_blob "v") = Ok (d', r)
        /\ reachable d').
Proof.
  split; [apply state_after_reachable|]. split; [lia|].
  split; [vm_compute; reflexivity|].
  destruct (public_operations_return (state_after ten_sets) key_hashed_DELETED
              (text_blob "v") 3 (state_after_reachable ten_sets) ltac:(lia))
    as (Hidx & _ & _ & _ & _ & _ & Hset).
  split; [exact Hidx|]. apply Hset. vm_compute. reflexivity.
Defined.

(** ** The capacity *)

(** X11. The capacity of a reachable dictionary is the length of both its
    arrays, and it is zero, in a dictionary without entries, or a power of
    two between 8 and [2 ^ 32]: the requirement written beside
    [data_alloced] in the header holds once something has been stored. *)
Theorem capacity_is_zero_or_power_of_two (d : KH_Dict) :
  reachable d ->
  Z.of_nat (length (slots d)) = data_alloced d
  /\ Z.of_nat (length (pairs d)) = data_alloced d
  /\ ((data_alloced d = 0 /\ KH_DictLen d = 0)
      \/ exists n, 3 <= n <= 32 /\ data_alloced d = 2 ^ n).
Proof.
  intros Hreach. destruct (reachable_Rep d Hreach) as [es R].
  split; [|split; [exact (rep_pairs_len _ _ R)|]].
  - destruct (rep_shape _ _ R) as [(H0 & -> & _)|(T & _ & _)].
    + rewrite H0. reflexivity.
    + exact (tok_len _ _ _ T).
  - destruct (rep_shape _ _ R) as [(H0 & _ & E)|(T & _ & _)].
    + left. split; [exact H0|]. rewrite (Rep_Len d es R), E. reflexivity.
    + right. exact (tok_cap _ _ _ T).
Qed.

Lemma capacity_is_zero_or_power_of_two_witness :
  reachable (state_after ten_sets)
  /\ Z.of_nat (length (slots (state_after ten_sets))) = 16
  /\ Z.of_nat (length (pairs (state_after ten_sets))) = 16
  /\ data_alloced (state_after ten_sets) = 2 ^ 4.
Proof.
  split; [apply state_after_reachable|].
  destruct (capacity_is_zero_or_power_of_two (state_after ten_sets)
              (state_after_reachable ten_sets)) as (H1 & H2 & _).
  split; [exact H1|]. split; [exact H2 | reflexivity].
Defined.

Lemma Rep_grown (d : KH_Dict) (es : list (KH_Blob * KH_Blob)) :
  Rep d es -> data_alloced d < grown (data_alloced d).
Proof.
  intros R. unfold grown.
  destruct (rep_shape _ _ R) as [(H0 & _ & _)|(T & _ & _)].
  - rewrite H0. reflexivity.
  - pose proof (cap_ok_range _ (tok_cap _ _ _ T)) as Hr.
    destruct (Z.eqb_spec (data_alloced d) 0); lia.
Qed.

(** What [KH_DictSet] of a key that is not there does to the capacity. *)
Lemma Rep_Set_absent_capacity (a b : bool) (d : KH_Dict)
    (es : list (KH_Blob * KH_Blob)) (k v : KH_Blob) :
  Rep d es -> absent k es -> Z.of_nat (length es) < KH_MAX_COUNT ->
  exists d' r,
    KH_DictSet a b d k v = Ok (d', r)
    /\ data_alloced d'
       = (if (data_count d >=? KH_threshold (data_alloced d)) && (a && b)
          then grown (data_alloced d) else data_alloced d).
Proof.
  intros R Ha Hmax. unfold KH_DictSet.
  rewrite (Rep_lookup_absent _ _ _ R Ha). simpl.
  destruct (Z.geb_spec (data_count d) (KH_threshold (data_alloced d))) as [Hthr|Hthr];
    simpl.
  - destruct (a && b) eqn:Eab.
    + apply andb_true_iff in Eab as [-> ->].
      destruct (KH_DictInsert_resize d es k v R ltac:(unfold at_threshold; lia) Ha Hmax)
        as (d1 & d' & Hres & _ & _ & Hins & _ & (Hcap & _)).
      destruct (KH_ResizeDict_spec d es R ltac:(unfold at_threshold; lia) Hmax)
        as (d2 & Hres2 & _ & _ & _ & Hcap2 & _).
      rewrite Hres in Hres2. injection Hres2 as <-.
      exists d', true. split; [exact Hins|]. rewrite Hcap. exact Hcap2.
    + rewrite (KH_DictInsert_nomem a b d k v ltac:(unfold at_threshold; lia) Eab).
      eauto.
  - destruct (KH_DictInsert_room a b d es k v R ltac:(unfold at_threshold; lia) Ha)
      as (d' & Hins & _ & (Hcap & _)).
    exists d', true. split; [exact Hins | exact Hcap].
Qed.

(** X12. The capacity of a reachable dictionary never shrinks.
    [KH_DictDelete] keeps it.  [KH_DictSet] grows it, to 8 from zero and
    to twice its size otherwise, exactly when the key is new, the count has
    reached the threshold and both allocations succeed; in every other
    case it keeps it. *)
Theorem capacity_grows_by_doubling (d : KH_Dict) (k v : KH_Blob) :
  reachable d ->
  (forall d' r, KH_DictDelete d k = Ok (d', r) ->
     data_alloced d' = data_alloced d)
  /\ (forall slots_ok pairs_ok d' r,
        data_count d < KH_MAX_COUNT ->
        KH_DictSet slots_ok pairs_ok d k v = Ok (d', r) ->
        (data_alloced d' = data_alloced d
         \/ data_alloced d' = grown (data_alloced d))
        /\ data_alloced d <= data_alloced d'
        /\ (data_alloced d < data_alloced d' <->
            KH_DictHas d k = Ok false
            /\ data_count d = KH_threshold (data_alloced d)
            /\ slots_ok && pairs_ok = true)).
Proof.
  intros Hreach. destruct (reachable_Rep d Hreach) as [es R].
  pose proof (Rep_grown d es R) as Hg.
  destruct (Rep_load d es R) as (Hload & _).
  split.
  - intros d' r Hdel.
    destruct (present_or_absent k es) as [(j & kj & vj & Hj & Hkj)|Ha].
    + destruct (Rep_Delete_found d es R k j kj vj Hj Hkj) as (d2 & H & _ & Hcap & _).
      rewrite H in Hdel. injection Hdel as <- <-. exact Hcap.
    + rewrite (Rep_Delete_absent d es R k Ha) in Hdel.
      injection Hdel as <- <-. reflexivity.
  - intros a b d' r Hmax Hset. rewrite (rep_count _ _ R) in Hmax.
    destruct (present_or_absent k es) as [(j & kj & vj & Hj & Hkj)|Ha].
    + rewrite (Rep_Has_found d es R k j kj vj Hj Hkj).
      assert (Hcap : data_alloced d' = data_alloced d).
      { unfold KH_DictSet in Hset.
        rewrite (Rep_lookup_found _ _ _ _ _ _ R Hj Hkj) in Hset. simpl in Hset.
        rewrite (index_not_NOT_FOUND _ _ _ R (lookup_lt_Some _ _ _ Hj)) in Hset.
        destruct (KH_DictChange_spec d es j kj vj v R Hj) as (d2 & H & _ & Hc).
        rewrite H in Hset. injection Hset as <- <-. exact Hc. }
      rewrite Hcap. split; [auto|]. split; [lia|].
      split; [lia | intros (? & _); discriminate].
    + rewrite (Rep_Has_absent d es R k Ha).
      destruct (Rep_Set_absent_capacity a b d es k v R Ha Hmax) as (d2 & r2 & H & Hcap).
      rewrite H in Hset. injection Hset as <- <-. rewrite Hcap.
      destruct (Z.geb_spec (data_count d) (KH_threshold (data_alloced d))) as [Hthr|Hthr];
        destruct (a && b); simpl;
        (split; [auto|]); (split; [lia|]); split; try lia;
        try (intros (_ & ? & ?); (discriminate || lia)).
      intros _. split; [reflexivity|]. split; [lia | reflexivity].
Qed.

Lemma capacity_grows_by_doubling_witness :
  reachable (state_after five_sets)
  /\ data_count (state_after five_sets) < KH_MAX_COUNT
  /\ KH_DictSet true true (state_after five_sets)
       (text_blob "shitstain") (text_blob "coffeestain")
     = Ok (state_after (five_sets ++ [set_text "shitstain" "coffeestain"]), true)
  /\ data_alloced (state_after five_sets) = 8
  /\ data_alloced (state_after (five_sets ++ [set_text "shitstain" "coffeestain"]))
     = 16
  /\ data_alloced (state_after five_sets)
     < data_alloced (state_after (five_sets ++ [set_text "shitstain" "coffeestain"])).
Proof.
  split; [apply state_after_reachable|]. split; [vm_compute; reflexivity|].
  split; [vm_compute; reflexivity|]. split; [reflexivity|].
  split; [reflexivity|].
  destruct (capacity_grows_by_doubling (state_after five_sets)
              (text_blob "shitstain") (text_blob "coffeestain")
              (state_after_reachable five_sets)) as (_ & Hset).
  destruct (Hset true true
              (state_after (five_sets ++ [set_text "shitstain" "coffeestain"])) true)
    as (_ & _ & Hiff).
  - vm_compute. reflexivity.
  - vm_compute. reflexivity.
  - apply (proj2 Hiff). split; [reflexivity|]. split; reflexivity.
Defined.

(** ** Resizing and tombstones *)

Lemma wr_Ok_insert {A : Type} (a a' : list A) (i : Z) (x : A) :
  wr a i x = Ok a' -> a' = <[Z.to_nat i := x]> a.
Proof.
  unfold wr. destruct ((0 <=? i) && (i <? Z.of_nat (length a))); [|discriminate].
  intros H. injection H as <-. reflexivity.
Qed.

(** [KH_InsertSlot] changes one slot, to the index it is given. *)
Lemma KH_InsertSlot_loop_writes (fuel : nat) :
  forall (sl : list Z) (n start index : Z) (sl' : list Z),
    KH_InsertSlot_loop fuel sl n start index = Ok sl' ->
    exists p : nat, sl' = <[p := index]> sl.
Proof.
  induction fuel as [|fuel IH]; intros sl n start index sl' H; simpl in H;
    [discriminate|].
  destruct (rd sl start) as [s|f]; simpl in H; [|discriminate].
  destruct (slot_free s).
  - apply wr_Ok_insert in H. eauto.
  - exact (IH _ _ _ _ _ H).
Qed.

(** The copy loop of [KH_ResizeDict] writes positions of pairs only. *)
Lemma KH_ResizeDict_copy_no_tombstone (self : KH_Dict) (new_size : Z) (n : nat) :
  forall (i j : Z) (sl : list Z) (np : list KH_DictPair)
         (sl' : list Z) (np' : list KH_DictPair) (j' : Z),
    KH_ResizeDict_copy n self new_size i j sl np = Ok (sl', np', j') ->
    0 <= j -> j + Z.of_nat n <= KH_HASH_DELETED ->
    no_tombstone sl -> no_tombstone sl'.
Proof.
  induction n as [|n IH]; intros i j sl np sl' np' j' H Hj Hn Hall; simpl in H.
  - injection H as <- _ _. exact Hall.
  - destruct (rd (pairs self) i) as [p|f]; simpl in H; [|discriminate].
    destruct (key p) as [k|]; [destruct (value p) as [v|]|];
      try (injection H as <- _ _; exact Hall).
    destruct (wr np j _) as [np1|f]; simpl in H; [|discriminate].
    destruct (KH_InsertSlot sl new_size (blob_hash k) (u32 j)) as [sl1|f] eqn:Es;
      simpl in H; [|discriminate].
    apply KH_InsertSlot_loop_writes in Es as [q ->].
    assert (HD : KH_HASH_DELETED = 2 ^ 32 - 2) by reflexivity.
    apply (IH _ _ _ _ _ _ _ H).
    + rewrite usize_id by lia. lia.
    + rewrite usize_id by lia. lia.
    + apply Forall_insert; [exact Hall|]. rewrite u32_id by lia. lia.
Qed.

(** X13. A resize leaves no TOMBSTONE behind.  When a reachable
    dictionary has to resize for a new key and gets the memory, no slot of
    the table built by [KH_ResizeDict] is [KH_HASH_DELETED], nor any slot
    of the dictionary that [KH_DictSet] returns: the slots that deletes had
    marked are given back. *)
Theorem resize_leaves_no_tombstone (d : KH_Dict) (k v : KH_Blob) :
  reachable d ->
  KH_DictHas d k = Ok false ->
  data_count d >= KH_threshold (data_alloced d) ->
  data_count d < KH_MAX_COUNT ->
  exists d1 d',
    KH_ResizeDict true true d = Ok (Resized d1)
    /\ no_tombstone (slots d1)
    /\ KH_DictSet true true d k v = Ok (d', true)
    /\ no_tombstone (slots d').
Proof.
  intros Hreach Hhas Hthr Hmax.
  destruct (reachable_Rep d Hreach) as [es R].
  pose proof (Rep_Has_false d es R k Hhas) as Ha.
  pose proof (rep_count _ _ R) as Hc. rewrite Hc in Hmax.
  destruct (KH_DictInsert_resize d es k v R Hthr Ha Hmax)
    as (d1 & d' & Hres & R1 & _ & Hins & _ & (_ & dk & _ & Hsl)).
  assert (HD : KH_HASH_DELETED = 2 ^ 32 - 2) by reflexivity.
  assert (HM : KH_MAX_COUNT = 5 * 2 ^ 29) by reflexivity.
  assert (H1 : no_tombstone (slots d1)).
  { assert (Hcap : data_alloced d <= KH_HASH_DELETED).
    { destruct (rep_shape _ _ R) as [(H0 & _ & _)|(T & _ & _)]; [lia|].
      destruct (cap_ok_eighth _ (tok_cap _ _ _ T)) as (c & Hcr & Hc8).
      rewrite Hc, Hc8, KH_threshold_eighth in Hthr by lia. lia. }
    unfold KH_ResizeDict in Hres. simpl in Hres.
    destruct (KH_ResizeDict_copy _ _ _ _ _ _ _) as [[[sl' np'] j']|f] eqn:Ecopy;
      simpl in Hres; [|discriminate].
    injection Hres as <-. simpl.
    apply (KH_ResizeDict_copy_no_tombstone _ _ _ _ _ _ _ _ _ _ Ecopy).
    - lia.
    - pose proof (rep_pairs_len _ _ R). lia.
    - apply Forall_replicate. discriminate. }
  exists d1, d'. split; [exact Hres|]. split; [exact H1|]. split.
  - unfold KH_DictSet. rewrite (Rep_lookup_absent _ _ _ R Ha). exact Hins.
  - rewrite Hsl. apply Forall_insert; [exact H1|].
    rewrite (rep_count _ _ R1). lia.
Qed.

Lemma resize_leaves_no_tombstone_witness :
  reachable (state_after sets_with_tombstone)
  /\ KH_DictHas (state_after sets_with_tombstone) (text_blob ":3") = Ok false
  /\ data_count (state_after sets_with_tombstone)
     >= KH_threshold (data_alloced (state_after sets_with_tombstone))
  /\ data_count (state_after sets_with_tombstone) < KH_MAX_COUNT
  /\ rd (slots (state_after sets_with_tombstone)) 7 = Ok KH_HASH_DELETED
  /\ exists d1 d',
       KH_ResizeDict true true (state_after sets_with_tombstone) = Ok (Resized d1)
       /\ no_tombstone (slots d1)
       /\ KH_DictSet true true (state_after sets_with_tombstone)
            (text_blob ":3") (text_blob "UwU") = Ok (d', true)
       /\ no_tombstone (slots d').
Proof.
  split; [apply state_after_reachable|]. split; [reflexivity|].
  split; [vm_compute; discriminate|]. split; [vm_compute; reflexivity|].
  split; [reflexivity|].
  apply (resize_leaves_no_tombstone (state_after sets_with_tombstone)
           (text_blob ":3") (text_blob "UwU")).
  - apply state_after_reachable.
  - reflexivity.
  - vm_compute. discriminate.
  - vm_compute. reflexivity.
Defined.

(** ** When a set fails *)

(** X14. [KH_DictSet] on a reachable dictionary returns false in one case
    only: the key is new, the count has reached the threshold, and one of
    the two allocations of the resize fails.  Then the dictionary is as it
    was.  Whenever it returns true, the key is in the dictionary with the
    value given. *)
Theorem set_fails_only_without_memory
    (slots_ok pairs_ok : bool) (d : KH_Dict) (k v : KH_Blob) :
  reachable d ->
  data_count d < KH_MAX_COUNT ->
  exists d' r,
    KH_DictSet slots_ok pairs_ok d k v = Ok (d', r)
    /\ (r = false <->
        KH_DictHas d k = Ok false
        /\ data_count d = KH_threshold (data_alloced d)
        /\ slots_ok && pairs_ok = false)
    /\ (r = false -> d' = d)
    /\ (r = true ->
        KH_DictGet d' k = Ok (Some v) /\ KH_DictHas d' k = Ok true).
Proof.
  intros Hreach Hmax. destruct (reachable_Rep d Hreach) as [es R].
  rewrite (rep_count _ _ R) in Hmax.
  destruct (Rep_load d es R) as (Hload & _).
  destruct (present_or_absent k es) as [(j & kj & vj & Hj & Hkj)|Ha].
  - destruct (Rep_Set_old d es R slots_ok pairs_ok k v j kj vj Hj Hkj)
      as (d' & Hset & R').
    pose proof (lookup_lt_Some _ _ _ Hj) as Hjl.
    assert (Hj' : <[j := (kj, v)]> es !! j = Some (kj, v))
      by (apply list_lookup_insert_eq; lia).
    exists d', true. split; [exact Hset|].
    rewrite (Rep_Has_found d es R k j kj vj Hj Hkj).
    split; [split; [discriminate | intros (? & _); discriminate]|].
    split; [discriminate|]. intros _. split.
    + exact (Rep_Get_found d' _ R' k j kj v Hj' Hkj).
    + exact (Rep_Has_found d' _ R' k j kj v Hj' Hkj).
  - rewrite (Rep_Has_absent d es R k Ha).
    destruct (Rep_Set_absent slots_ok pairs_ok d es k v R Ha Hmax)
      as [(Hno & Hthr & Hset)|(Hmem & d' & Hset & R')].
    + exists d, false. split; [exact Hset|]. unfold at_threshold in Hthr.
      split; [split; [intros _; repeat split; [lia | exact Hno] | reflexivity]|].
      split; [reflexivity | discriminate].
    + assert (Hlast : (es ++ [(k, v)]) !! length es = Some (k, v))
        by apply lookup_snoc_last.
      exists d', true. split; [exact Hset|].
      split; [split; [discriminate|]|].
      { intros (_ & Hthr & Hno). exfalso. unfold at_threshold in Hmem.
        destruct Hmem as [Hm|Hm]; [congruence | lia]. }
      split; [discriminate|]. intros _. split.
      * exact (Rep_Get_found d' _ R' k _ k v Hlast (KH_BlobEqual_refl k)).
      * exact (Rep_Has_found d' _ R' k _ k v Hlast (KH_BlobEqual_refl k)).
Qed.

Lemma set_fails_only_without_memory_witness :
  reachable (state_after five_sets)
  /\ data_count (state_after five_sets) < KH_MAX_COUNT
  /\ exists d' r,
       KH_DictSet true false (state_after five_sets)
         (text_blob "knot") (text_blob "one two six") = Ok (d', r)
       /\ r = false
       /\ d' = state_after five_sets.
Proof.
  split; [apply state_after_reachable|]. split; [vm_compute; reflexivity|].
  destruct (set_fails_only_without_memory true false (state_after five_sets)
              (text_blob "knot") (text_blob "one two six"))
    as (d' & r & Hset & Hiff & Hsame & _).
  - apply state_after_reachable.
  - vm_compute. reflexivity.
  - assert (Hr : r = false).
    { apply (proj2 Hiff). split; [reflexivity|].
      split; [vm_compute; reflexivity | reflexivity]. }
    exists d', r. split; [exact Hset|]. split; [exact Hr | exact (Hsame Hr)].
Defined.

(** ** Delete, then set *)

(** X15. Deleting a present key and setting it again moves its entry to
    the end of the iteration order, and never needs memory: the second call
    returns true whatever the allocator would answer and the capacity is
    unchanged, since the delete has made room.  The length is what it was,
    the entries before the key's former position [x] stay where they were
    and the ones after it move down by one. *)
Theorem delete_then_set_moves_to_end
    (slots_ok pairs_ok : bool) (d : KH_Dict) (k v : KH_Blob) :
  reachable d ->
  KH_DictHas d k = Ok true ->
  exists d1 d2 x,
    KH_DictDelete d k = Ok (d1, true)
    /\ KH_DictSet slots_ok pairs_ok d1 k v = Ok (d2, true)
    /\ KH_DictLen d2 = KH_DictLen d
    /\ data_alloced d2 = data_alloced d
    /\ KH_DictKeyIter d2 (KH_DictLen d - 1) = Ok (Some k)
    /\ KH_DictValueIter d2 (KH_DictLen d - 1) = Ok (Some v)
    /\ KH_DictGet d2 k = Ok (Some v)
    /\ 0 <= x < KH_DictLen d
    /\ (exists kx, KH_DictKeyIter d x = Ok (Some kx) /\ KH_BlobEqual k kx = true)
    /\ (forall i, 0 <= i < x ->
          KH_DictKeyIter d2 i = KH_DictKeyIter d i
          /\ KH_DictValueIter d2 i = KH_DictValueIter d i)
    /\ (forall i, x <= i < KH_DictLen d - 1 ->
          KH_DictKeyIter d2 i = KH_DictKeyIter d (i + 1)
          /\ KH_DictValueIter d2 i = KH_DictValueIter d (i + 1)).
Proof.
  intros Hreach Hhas. destruct (reachable_Rep d Hreach) as [es R].
  destruct (Rep_Has_true d es R k Hhas) as (x & kx & vx & Hx & Hkx).
  pose proof (lookup_lt_Some _ _ _ Hx) as Hxl.
  destruct (Rep_load d es R) as (Hload & _).
  pose proof (rep_count _ _ R) as Hc.
  destruct (Rep_Delete_found d es R k x kx vx Hx Hkx) as (d1 & Hdel & R1 & Hcap1 & _).
  pose proof (absent_after_delete d es k x kx vx R Hx Hkx) as Ha.
  pose proof (rep_count _ _ R1) as Hc1.
  assert (Hlen1 : length (delete x es) = (length es - 1)%nat)
    by (rewrite length_delete by eauto; lia).
  destruct (KH_DictInsert_room slots_ok pairs_ok d1 (delete x es) k v R1)
    as (d2 & Hins & R2 & (Hcap2 & _)); [|exact Ha|].
  { unfold at_threshold. rewrite Hcap1, Hc1, Hlen1. lia. }
  assert (Hlast : (delete x es ++ [(k, v)]) !! (length es - 1)%nat = Some (k, v)).
  { rewrite <- Hlen1. apply lookup_snoc_last. }
  exists d1, d2, (Z.of_nat x). rewrite !(Rep_Len d es R).
  split; [exact Hdel|]. split.
  { unfold KH_DictSet. rewrite (Rep_lookup_absent _ _ _ R1 Ha). exact Hins. }
  split; [rewrite (Rep_Len d2 _ R2), length_app, Hlen1; simpl; lia|].
  split; [rewrite Hcap2; exact Hcap1|].
  replace (Z.of_nat (length es) - 1) with (Z.of_nat (length es - 1)) by lia.
  split; [rewrite (Rep_KeyIter d2 _ R2), Hlast; reflexivity|].
  split; [rewrite (Rep_ValueIter d2 _ R2), Hlast; reflexivity|].
  split; [exact (Rep_Get_found d2 _ R2 k _ k v Hlast (KH_BlobEqual_refl k))|].
  split; [lia|].
  split; [exists kx; rewrite (Rep_KeyIter d es R), Hx; auto|].
  split.
  - intros i Hi.
    rewrite (Rep_KeyIter_Z d2 _ i R2), (Rep_KeyIter_Z d es i R) by lia.
    rewrite (Rep_ValueIter_Z d2 _ i R2), (Rep_ValueIter_Z d es i R) by lia.
    rewrite lookup_app_l by lia.
    rewrite list_lookup_delete_lt by lia. auto.
  - intros i Hi.
    rewrite (Rep_KeyIter_Z d2 _ i R2), (Rep_KeyIter_Z d es (i + 1) R) by lia.
    rewrite (Rep_ValueIter_Z d2 _ i R2), (Rep_ValueIter_Z d es (i + 1) R) by lia.
    rewrite lookup_app_l by lia.
    rewrite list_lookup_delete_ge by lia.
    replace (Z.to_nat (i + 1)) with (S (Z.to_nat i)) by lia. auto.
Qed.

Lemma delete_then_set_moves_to_end_witness :
  reachable (state_after five_sets)
  /\ KH_DictHas (state_after five_sets) (text_blob "balls") = Ok true
  /\ exists d1 d2,
       KH_DictDelete (state_after five_sets) (text_blob "balls") = Ok (d1, true)
       /\ KH_DictSet false false d1 (text_blob "balls") (text_blob "again")
          = Ok (d2, true)
       /\ KH_DictLen d2 = KH_DictLen (state_after five_sets)
       /\ data_alloced d2 = data_alloced (state_after five_sets)
       /\ KH_DictKeyIter d2 (KH_DictLen (state_after five_sets) - 1)
          = Ok (Some (text_blob "balls")).
Proof.
  split; [apply state_after_reachable|]. split; [reflexivity|].
  destruct (delete_then_set_moves_to_end false false (state_after five_sets)
              (text_blob "balls") (text_blob "again"))
    as (d1 & d2 & x & H1 & H2 & H3 & H4 & H5 & _).
  - apply state_after_reachable.
  - reflexivity.
  - exists d1, d2. auto.
Defined.

(** ** The empty dictionary *)

Lemma KH_InsertSlot_empty_table (hash index : Z) :
  KH_InsertSlot (replicate 8 KH_HASH_EMPTY) 8 hash index
  = Ok (<[Z.to_nat (hash mod 8) := index]> (replicate 8 KH_HASH_EMPTY)).
Proof.
  pose proof (Z.mod_pos_bound hash 8 ltac:(lia)) as Hh.
  rewrite (KH_InsertSlot_first_free 8 (replicate 8 KH_HASH_EMPTY) hash index 0
             cap_ok_8 eq_refl).
  - rewrite Z.add_0_r, Z.mod_mod by lia. reflexivity.
  - split; [lia|]. split; [|intros i Hi; lia].
    exists KH_HASH_EMPTY. split; [|reflexivity].
    rewrite Z.add_0_r, Z.mod_mod by lia.
    apply rd_Ok. split; [lia|]. apply lookup_replicate_2. simpl. lia.
Qed.

(** X16. The dictionary that [KH_CreateDict] returns has no arrays, and
    every operation copes with that: reads find nothing, a delete reports
    failure, and the first [KH_DictSet] allocates.  Refused the memory, it
    returns false and leaves the dictionary empty; given it, it builds a
    table of 8 slots with the pair at position 0 and index 0 in the key's
    home slot, its hash modulo 8. *)
Theorem first_set_allocates_eight_slots (d0 : KH_Dict) (k v : KH_Blob) :
  KH_CreateDict true = Ok (Some d0) ->
  KH_DictLen d0 = 0
  /\ KH_DictGet d0 k = Ok None
  /\ KH_DictHas d0 k = Ok false
  /\ KH_DictDelete d0 k = Ok (d0, false)
  /\ (forall i, 0 <= i ->
        KH_DictKeyIter d0 i = Ok None /\ KH_DictValueIter d0 i = Ok None)
  /\ (forall slots_ok pairs_ok, slots_ok && pairs_ok = false ->
        KH_DictSet slots_ok pairs_ok d0 k v = Ok (d0, false))
  /\ exists d1,
       KH_DictSet true true d0 k v = Ok (d1, true)
       /\ KH_DictLen d1 = 1
       /\ data_alloced d1 = 8
       /\ slots d1
          = <[Z.to_nat (blob_hash k mod 8) := 0]> (replicate 8 KH_HASH_EMPTY)
       /\ pairs d1
          = {| key := Some k; value := Some v |} :: replicate 7 null_pair.
Proof.
  intros Hc. injection Hc as <-.
  split; [reflexivity|]. split; [reflexivity|]. split; [reflexivity|].
  split; [reflexivity|]. split.
  { intros i Hi. unfold KH_DictKeyIter, KH_DictValueIter. simpl.
    destruct (Z.ltb_spec i 0); [lia | auto]. }
  split.
  { intros a b Hab. destruct a, b; try discriminate; reflexivity. }
  assert (Hins : KH_DictInsert true true KH_Dict_zero k v
    = (do slots' <- KH_InsertSlot (replicate 8 KH_HASH_EMPTY) 8 (blob_hash k) 0;
       Ok ({| slots := slots';
              pairs := {| key := Some k; value := Some v |} :: replicate 7 null_pair;
              data_count := 1; data_alloced := 8 |}, true))) by reflexivity.
  rewrite KH_InsertSlot_empty_table in Hins.
  eexists. split; [exact Hins|]. simpl. auto.
Qed.

Lemma first_set_allocates_eight_slots_witness :
  KH_CreateDict true = Ok (Some KH_Dict_zero)
  /\ KH_DictSet false true KH_Dict_zero (text_blob "hello") (text_blob "world!")
     = Ok (KH_Dict_zero, false)
  /\ exists d1,
       KH_DictSet true true KH_Dict_zero (text_blob "hello") (text_blob "world!")
       = Ok (d1, true)
       /\ slots d1
          = [KH_HASH_EMPTY; KH_HASH_EMPTY; KH_HASH_EMPTY; KH_HASH_EMPTY;
             KH_HASH_EMPTY; KH_HASH_EMPTY; KH_HASH_EMPTY; 0].
Proof.
  split; [reflexivity|].
  destruct (first_set_allocates_eight_slots KH_Dict_zero
              (text_blob "hello") (text_blob "world!") eq_refl)
    as (_ & _ & _ & _ & _ & Hno & d1 & Hset & _ & _ & Hsl & _).
  split; [apply Hno; reflexivity|].
  exists d1. split; [exact Hset|]. rewrite Hsl. reflexivity.
Defined.

(** ** The dictionary as an ordered association list *)

Lemma keys_distinct_tail (k : KH_Blob) (ks : list KH_Blob) :
  keys_distinct (k :: ks) -> keys_distinct ks.
Proof.
  intros H i j ki kj Hi Hj Heq.
  assert (S i = S j) by exact (H (S i) (S j) ki kj Hi Hj Heq). lia.
Qed.

Lemma absent_tail (k : KH_Blob) (e : KH_Blob * KH_Blob)
    (es : list (KH_Blob * KH_Blob)) :
  absent k (e :: es) -> absent k es.
Proof. intros Ha j e' Hj. exact (Ha (S j) e' Hj). Qed.

Lemma model_set_absent (k v : KH_Blob) (es : list (KH_Blob * KH_Blob)) :
  absent k es -> model_set k v es = es ++ [(k, v)].
Proof.
  induction es as [|e es IH]; intros Ha; simpl; [reflexivity|].
  rewrite (Ha 0%nat e eq_refl). f_equal. exact (IH (absent_tail _ _ _ Ha)).
Qed.

Lemma model_delete_absent (k : KH_Blob) (es : list (KH_Blob * KH_Blob)) :
  absent k es -> model_delete k es = es.
Proof.
  induction es as [|e es IH]; intros Ha; simpl; [reflexivity|].
  rewrite (Ha 0%nat e eq_refl). f_equal. exact (IH (absent_tail _ _ _ Ha)).
Qed.

(** With distinct keys, the first entry with an equal key is the only one. *)
Lemma first_match (k : KH_Blob) (e : KH_Blob * KH_Blob)
    (es : list (KH_Blob * KH_Blob)) (j : nat) (kj vj : KH_Blob) :
  keys_distinct ((e :: es).*1) ->
  (e :: es) !! j = Some (kj, vj) -> KH_BlobEqual k kj = true ->
  if KH_BlobEqual k e.1 then j = 0%nat /\ e = (kj, vj)
  else exists j', j = S j' /\ es !! j' = Some (kj, vj).
Proof.
  intros Hd Hj Hk. destruct (KH_BlobEqual k e.1) eqn:E.
  - assert (j = 0%nat) as ->.
    { apply (Hd j 0%nat kj e.1).
      - rewrite list_lookup_fmap, Hj. reflexivity.
      - reflexivity.
      - eapply KH_BlobEqual_trans; [apply KH_BlobEqual_sym; exact Hk | exact E]. }
    simpl in Hj. injection Hj as ->. auto.
  - destruct j as [|j]; simpl in Hj.
    + injection Hj as ->. simpl in E. congruence.
    + eauto.
Qed.

Lemma model_set_present (k v : KH_Blob) (es : list (KH_Blob * KH_Blob))
    (j : nat) (kj vj : KH_Blob) :
  keys_distinct (es.*1) -> es !! j = Some (kj, vj) -> KH_BlobEqual k kj = true ->
  model_set k v es = <[j := (kj, v)]> es.
Proof.
  revert j. induction es as [|e es IH]; intros j Hd Hj Hk; [discriminate|].
  pose proof (first_match k e es j kj vj Hd Hj Hk) as Hf. simpl.
  destruct (KH_BlobEqual k e.1).
  - destruct Hf as [-> ->]. reflexivity.
  - destruct Hf as (j' & -> & Hj'). simpl. f_equal.
    exact (IH j' (keys_distinct_tail _ _ Hd) Hj' Hk).
Qed.

Lemma model_delete_present (k : KH_Blob) (es : list (KH_Blob * KH_Blob))
    (j : nat) (kj vj : KH_Blob) :
  keys_distinct (es.*1) -> es !! j = Some (kj, vj) -> KH_BlobEqual k kj = true ->
  model_delete k es = delete j es.
Proof.
  revert j. induction es as [|e es IH]; intros j Hd Hj Hk; [discriminate|].
  pose proof (first_match k e es j kj vj Hd Hj Hk) as Hf. simpl.
  destruct (KH_BlobEqual k e.1).
  - destruct Hf as [-> ->]. reflexivity.
  - destruct Hf as (j' & -> & Hj'). simpl. f_equal.
    exact (IH j' (keys_distinct_tail _ _ Hd) Hj' Hk).
Qed.

Lemma model_get_Some (k v : KH_Blob) (es : list (KH_Blob * KH_Blob)) :
  model_get k es = Some v ->
  exists (j : nat) kj, es !! j = Some (kj, v) /\ KH_BlobEqual k kj = true.
Proof.
  induction es as [|[k' v'] es IH]; intros H; simpl in H; [discriminate|].
  destruct (KH_BlobEqual k k') eqn:E.
  - injection H as <-. exists 0%nat, k'. auto.
  - destruct (IH H) as (j & kj & Hj & Hk). exists (S j), kj. auto.
Qed.

Lemma model_get_None (k : KH_Blob) (es : list (KH_Blob * KH_Blob)) :
  model_get k es = None -> absent k es.
Proof.
  induction es as [|[k' v'] es IH]; intros H j e Hj; simpl in H; [discriminate|].
  destruct (KH_BlobEqual k k') eqn:E; [discriminate|].
  destruct j as [|j]; simpl in Hj.
  - injection Hj as <-. exact E.
  - exact (IH H _ _ Hj).
Qed.

Lemma Rep_model_get (d : KH_Dict) (es : list (KH_Blob * KH_Blob)) (k : KH_Blob) :
  Rep d es ->
  KH_DictGet d k = Ok (model_get k es)
  /\ KH_DictHas d k
     = Ok (match model_get k es with Some _ => true | None => false end).
Proof.
  intros R. destruct (model_get k es) as [v|] eqn:E.
  - destruct (model_get_Some _ _ _ E) as (j & kj & Hj & Hk).
    rewrite (Rep_Get_found d es R k j kj v Hj Hk).
    rewrite (Rep_Has_found d es R k j kj v Hj Hk). auto.
  - pose proof (model_get_None _ _ E) as Ha.
    rewrite (Rep_Get_absent d es R k Ha), (Rep_Has_absent d es R k Ha). auto.
Qed.

(** One call of a run, on the dictionary and on the list. *)
Lemma run_model (cs : list call) :
  forall (d : KH_Dict) (es : list (KH_Blob * KH_Blob)),
    Rep d es -> with_memory cs = true ->
    Z.of_nat (length es) + Z.of_nat (length cs) <= KH_MAX_COUNT ->
    exists d', run d cs = Some d' /\ Rep d' (fold_left model_call cs es).
Proof.
  induction cs as [|[a b k v|k] cs IH]; intros d es R Hmem Hlen; simpl in *.
  - eauto.
  - apply andb_true_iff in Hmem as [Hab Hmem].
    rewrite (rep_count _ _ R).
    destruct (Z.ltb_spec (Z.of_nat (length es)) KH_MAX_COUNT) as [Hmax|]; [|lia].
    destruct (present_or_absent k es) as [(j & kj & vj & Hj & Hkj)|Ha].
    + destruct (Rep_Set_old d es R a b k v j kj vj Hj Hkj) as (d1 & Hset & R1).
      rewrite Hset.
      rewrite (model_set_present k v es j kj vj (rep_distinct _ _ R) Hj Hkj).
      apply (IH d1 _ R1 Hmem). rewrite length_insert. lia.
    + destruct (Rep_Set_absent a b d es k v R Ha Hmax)
        as [(Hno & _)|(_ & d1 & Hset & R1)]; [congruence|].
      rewrite Hset, (model_set_absent k v es Ha).
      apply (IH d1 _ R1 Hmem). rewrite length_app. simpl. lia.
  - destruct (present_or_absent k es) as [(j & kj & vj & Hj & Hkj)|Ha].
    + destruct (Rep_Delete_found d es R k j kj vj Hj Hkj) as (d1 & Hdel & R1 & _).
      rewrite Hdel.
      rewrite (model_delete_present k es j kj vj (rep_distinct _ _ R) Hj Hkj).
      apply (IH d1 _ R1 Hmem).
      pose proof (length_delete es j ltac:(eauto)). lia.
    + rewrite (Rep_Delete_absent d es R k Ha), (model_delete_absent k es Ha).
      apply (IH d _ R Hmem). lia.
Qed.

(** X17. The dictionary is an ordered association list.  Take any run of
    [KH_DictSet] and [KH_DictDelete] calls on a fresh dictionary, as long
    as the sets get their memory, and the list made by the same calls
    where a set replaces the value of the entry with an equal key or adds
    the pair at the end, and a delete takes the entry out.  The run
    completes, and the dictionary it leaves has the length of the list,
    iterates its keys and values in the list's order, and answers
    [KH_DictGet] and [KH_DictHas] as the list does. *)
Theorem run_refines_association_list (cs : list call) :
  with_memory cs = true ->
  Z.of_nat (length cs) <= KH_MAX_COUNT ->
  exists d,
    run KH_Dict_zero cs = Some d
    /\ KH_DictLen d = Z.of_nat (length (model_run cs))
    /\ (forall i : nat,
          KH_DictKeyIter d (Z.of_nat i) = Ok (fst <$> model_run cs !! i)
          /\ KH_DictValueIter d (Z.of_nat i) = Ok (snd <$> model_run cs !! i))
    /\ (forall k,
          KH_DictGet d k = Ok (model_get k (model_run cs))
          /\ KH_DictHas d k
             = Ok (match model_get k (model_run cs) with
                   | Some _ => true
                   | None => false
                   end)).
Proof.
  intros Hmem Hlen.
  destruct (run_model cs KH_Dict_zero [] Rep_zero Hmem) as (d & Hrun & R);
    [simpl; lia|].
  exists d. split; [exact Hrun|]. split; [exact (Rep_Len d _ R)|]. split.
  - intros i. split; [apply (Rep_KeyIter d _ R) | apply (Rep_ValueIter d _ R)].
  - intros k. exact (Rep_model_get d _ k R).
Qed.

Lemma run_refines_association_list_witness :
  with_memory (ten_sets ++ [DeleteCall (text_blob "skibidi")]) = true
  /\ Z.of_nat (length (ten_sets ++ [DeleteCall (text_blob "skibidi")]))
     <= KH_MAX_COUNT
  /\ model_run (ten_sets ++ [DeleteCall (text_blob "skibidi")])
     = map (fun e => (text_blob e.1, text_blob e.2))
         [("hello", "world!"); ("balls", "I have 69 balls!"); ("iscute", "no :<");
          ("urmom", "hehehe"); ("coffee", "stain"); ("shitstain", "coffeestain");
          ("knot", "one two six"); (":3", "UwU"); ("poop", "name of my cat!")]%string
  /\ exists d,
       run KH_Dict_zero (ten_sets ++ [DeleteCall (text_blob "skibidi")]) = Some d
       /\ KH_DictLen d = 9
       /\ KH_DictKeyIter d 7 = Ok (Some (text_blob ":3"))
       /\ KH_DictGet d (text_blob ":3") = Ok (Some (text_blob "UwU")).
Proof.
  split; [reflexivity|]. split; [vm_compute; discriminate|].
  split; [vm_compute; reflexivity|].
  destruct (run_refines_association_list
              (ten_sets ++ [DeleteCall (text_blob "skibidi")]))
    as (d & Hrun & Hlen & Hiter & Hget).
  - reflexivity.
  - vm_compute. discriminate.
  - exists d. split; [exact Hrun|]. split; [exact Hlen|].
    split; [exact (proj1 (Hiter 7%nat)) | exact (proj1 (Hget (text_blob ":3")))].
Defined.

(** ** Printing a dictionary *)

Lemma has_text_Some (b : KH_Blob) :
  has_text (Ok (Some b)) = true <-> exists s, c_string (blob_data b) = Ok s.
Proof.
  simpl. destruct (c_string (blob_data b)) as [s|f]; split; eauto.
  - discriminate.
  - intros [s H]. discriminate.
Qed.

(** [all_text] on the entries of the dictionary. *)
Lemma Rep_all_text (d : KH_Dict) (es : list (KH_Blob * KH_Blob)) :
  Rep d es ->
  all_text d = true <->
  forall (j : nat) k v, es !! j = Some (k, v) ->
    exists ks vs, c_string (blob_data k) = Ok ks /\ c_string (blob_data v) = Ok vs.
Proof.
  intros R. unfold all_text. rewrite forallb_forall, (Rep_Len d es R). split.
  - intros H j k v Hj.
    assert (Hin : In (Z.of_nat j) (seqZ 0 (Z.of_nat (length es)))).
    { apply list_elem_of_In, elem_of_seqZ. apply lookup_lt_Some in Hj. lia. }
    specialize (H _ Hin).
    rewrite (Rep_KeyIter d es R), (Rep_ValueIter d es R), Hj in H. simpl fmap in H.
    apply andb_true_iff in H as [Hk Hv].
    apply has_text_Some in Hk as [ks Hk]. apply has_text_Some in Hv as [vs Hv].
    eauto.
  - intros H i Hi. apply list_elem_of_In, elem_of_seqZ in Hi.
    destruct (lookup_lt_is_Some_2 es (Z.to_nat i)) as [[k v] Hkv]; [lia|].
    rewrite (Rep_KeyIter_Z d es i R), (Rep_ValueIter_Z d es i R), Hkv by lia.
    destruct (H _ _ _ Hkv) as (ks & vs & Hk & Hv).
    apply andb_true_iff. split; apply has_text_Some; eauto.
Qed.

(** The loop of [print_dict] from position [i], with the [n] entries that
    are left. *)
Lemma print_dict_loop_spec (d : KH_Dict) (es : list (KH_Blob * KH_Blob)) :
  Rep d es ->
  forall (n i : nat), (i + n)%nat = length es ->
    (forall lines, print_dict_loop n d (Z.of_nat i) = Ok lines ->
       length lines = n
       /\ forall (j : nat) k v, es !! (i + j)%nat = Some (k, v) ->
            exists ks vs,
              c_string (blob_data k) = Ok ks /\ c_string (blob_data v) = Ok vs
              /\ lines !! j = Some (PrintedPair ks vs))
    /\ ((forall (j : nat) k v, es !! (i + j)%nat = Some (k, v) ->
           exists ks vs,
             c_string (blob_data k) = Ok ks /\ c_string (blob_data v) = Ok vs) ->
        exists lines, print_dict_loop n d (Z.of_nat i) = Ok lines).
Proof.
  intros R. pose proof (Rep_small _ _ R) as Hsmall.
  assert (HD : KH_HASH_DELETED = 2 ^ 32 - 2) by reflexivity.
  induction n as [|n IH]; intros i Hn.
  - split.
    + intros lines H. injection H as <-. split; [reflexivity|].
      intros j k v Hj. apply lookup_lt_Some in Hj. lia.
    + intros _. exists []. reflexivity.
  - destruct (lookup_lt_is_Some_2 es i) as [[k v] Hkv]; [lia|].
    assert (Hstep : print_dict_loop (S n) d (Z.of_nat i)
      = (do ks <- c_string (blob_data k);
         do vs <- c_string (blob_data v);
         do rest <- print_dict_loop n d (Z.of_nat (S i));
         Ok (PrintedPair ks vs :: rest))).
    { simpl print_dict_loop.
      rewrite (Rep_KeyIter d es R), (Rep_ValueIter d es R), Hkv. simpl.
      replace (usize (Z.of_nat i + 1)) with (Z.of_nat (S i));
        [reflexivity | rewrite usize_id; lia]. }
    rewrite Hstep. destruct (IH (S i) ltac:(lia)) as [IH1 IH2]. split.
    + intros lines H.
      destruct (c_string (blob_data k)) as [ks|f] eqn:Ek; simpl in H; [|discriminate].
      destruct (c_string (blob_data v)) as [vs|f] eqn:Ev; simpl in H; [|discriminate].
      destruct (print_dict_loop n d (Z.of_nat (S i))) as [rest|f]; simpl in H;
        [|discriminate].
      injection H as <-. destruct (IH1 rest eq_refl) as [Hlen Hrest].
      split; [simpl; lia|].
      intros [|j] k' v' Hj.
      * rewrite Nat.add_0_r, Hkv in Hj. injection Hj as <- <-.
        exists ks, vs. auto.
      * apply Hrest. rewrite <- Hj. f_equal. lia.
    + intros Hall.
      destruct (Hall 0%nat k v) as (ks & vs & Hk & Hv);
        [rewrite Nat.add_0_r; exact Hkv|].
      destruct IH2 as [rest Hrest].
      { intros j k' v' Hj. apply (Hall (S j)). rewrite <- Hj. f_equal. lia. }
      rewrite Hk, Hv, Hrest. simpl. eauto.
Qed.

(** X18. [print_dict] of the demonstration program, on a reachable
    dictionary: it prints the header with the length and then one line for
    each position, in iteration order, with the texts of the key and the
    value there, provided every stored blob holds a C string; and it
    completes only then, since [%s] reads a blob without a NUL past its
    end. *)
Theorem print_dict_prints_every_entry (d : KH_Dict) :
  reachable d ->
  (all_text d = true <-> exists out, print_dict d = Ok out)
  /\ (forall out, print_dict d = Ok out ->
        exists lines,
          out = PrintedHeader (KH_DictLen d) :: lines
          /\ Z.of_nat (length lines) = KH_DictLen d
          /\ forall i k v,
               0 <= i ->
               KH_DictKeyIter d i = Ok (Some k) ->
               KH_DictValueIter d i = Ok (Some v) ->
               exists ks vs,
                 c_string (blob_data k) = Ok ks
                 /\ c_string (blob_data v) = Ok vs
                 /\ lines !! Z.to_nat i = Some (PrintedPair ks vs)).
Proof.
  intros Hreach. destruct (reachable_Rep d Hreach) as [es R].
  destruct (print_dict_loop_spec d es R (length es) 0%nat eq_refl) as [H1 H2].
  unfold print_dict. rewrite (Rep_Len d es R), Nat2Z.id.
  change (Z.of_nat 0) with 0 in H1, H2.
  split; [split|].
  - intros Hall. destruct H2 as [lines Hl].
    + intros j k v Hj. exact (proj1 (Rep_all_text d es R) Hall j k v Hj).
    + rewrite Hl. simpl. eauto.
  - intros [out Hout]. apply (Rep_all_text d es R). intros j k v Hj.
    destruct (print_dict_loop (length es) d 0) as [lines|f]; [|discriminate].
    destruct (H1 lines eq_refl) as [_ Hl].
    destruct (Hl j k v Hj) as (ks & vs & Hk & Hv & _). eauto.
  - intros out Hout.
    destruct (print_dict_loop (length es) d 0) as [lines|f]; [|discriminate].
    simpl in Hout. injection Hout as <-.
    destruct (H1 lines eq_refl) as [Hlen Hl].
    exists lines. split; [reflexivity|]. split; [lia|].
    intros i k v Hi Hk Hv.
    destruct (Rep_KeyIter_Some d es i k R Hi Hk) as [v' Hi'].
    destruct (Rep_ValueIter_Some d es i v R Hi Hv) as [k' Hi2].
    rewrite Hi' in Hi2. injection Hi2 as <- <-.
    exact (Hl (Z.to_nat i) k v' Hi').
Qed.

Lemma print_dict_prints_every_entry_witness :
  reachable (state_after three_sets)
  /\ all_text (state_after three_sets) = true
  /\ print_dict (state_after three_sets)
     = Ok [PrintedHeader 3;
           PrintedPair (bytes_of_string "k1") (bytes_of_string "v1");
           PrintedPair (bytes_of_string "k2") (bytes_of_string "v2");
           PrintedPair (bytes_of_string "k3") (bytes_of_string "v3")]
  /\ exists lines,
       print_dict (state_after three_sets)
       = Ok (PrintedHeader (KH_DictLen (state_after three_sets)) :: lines)
       /\ Z.of_nat (length lines) = KH_DictLen (state_after three_sets)
       /\ lines !! Z.to_nat 1
          = Some (PrintedPair (bytes_of_string "k2") (bytes_of_string "v2")).
Proof.
  split; [apply state_after_reachable|]. split; [reflexivity|].
  split; [reflexivity|].
  destruct (print_dict_prints_every_entry (state_after three_sets)
              (state_after_reachable three_sets)) as (Hiff & Hout).
  destruct (proj1 Hiff eq_refl) as [out Hp].
  destruct (Hout out Hp) as (lines & -> & Hlen & Hl).
  exists lines. split; [exact Hp|]. split; [exact Hlen|].
  destruct (Hl 1 (text_blob "k2") (text_blob "v2")) as (ks & vs & Hk & Hv & Hline).
  - lia.
  - reflexivity.
  - reflexivity.
  - vm_compute in Hk. injection Hk as <-.
    vm_compute in Hv. injection Hv as <-.
    rewrite Hline. reflexivity.
Defined.

(** ** Table sizes that are not powers of two *)

Lemma zero_bit_below (m : Z) (n : nat) :
  (forall j, 0 <= j < Z.of_nat n -> Z.testbit m j = true)
  \/ exists j, 0 <= j < Z.of_nat n /\ Z.testbit m j = false.
Proof.
  induction n as [|n [IH|(j & Hj & Hb)]].
  - left. intros j Hj. lia.
  - destruct (Z.testbit m (Z.of_nat n)) eqn:E.
    + left. intros j Hj.
      destruct (Z.eq_dec j (Z.of_nat n)) as [->|]; [exact E|]. apply IH. lia.
    + right. exists (Z.of_nat n). split; [lia | exact E].
  - right. exists j. split; [lia | exact Hb].
Qed.

(** A positive number whose bits are all set up to its highest one is a
    power of two less one. *)
Lemma all_bits_set (m : Z) :
  0 < m -> (forall j, 0 <= j < Z.log2 m -> Z.testbit m j = true) ->
  m = Z.ones (Z.log2 m + 1).
Proof.
  intros Hm Hall. pose proof (Z.log2_nonneg m) as Hk.
  apply Z.bits_inj'. intros n Hn.
  destruct (Z.lt_ge_cases n (Z.log2 m + 1)).
  - rewrite Z.ones_spec_low by lia.
    destruct (Z.eq_dec n (Z.log2 m)) as [->|]; [apply Z.bit_log2; lia|].
    apply Hall. lia.
  - rewrite Z.ones_spec_high by lia. apply Z.bits_above_log2; lia.
Qed.

(** X19. The warning at [KH_BlobStartingIndexForSize]: for a table size
    that is not a power of two, that is, with [size & (size - 1)] other
    than zero, some position of the table is the home slot of no hash at
    all. *)
Theorem home_bucket_needs_power_of_two (size : Z) :
  0 < size <= 2 ^ 32 ->
  Z.land size (size - 1) <> 0 ->
  exists p, 0 <= p < size
    /\ forall hash, KH_BlobStartingIndexForSize hash size <> p.
Proof.
  intros Hsize Hnp.
  assert (Hm : 0 < size - 1).
  { destruct (Z.eq_dec size 1) as [->|]; [|lia]. exfalso. apply Hnp. reflexivity. }
  remember (size - 1) as m eqn:Em.
  pose proof (Z.log2_nonneg m) as Hk.
  destruct (Z.log2_spec m Hm) as [Hlo Hhi].
  assert (Hk32 : Z.log2 m < 32) by (apply Z.log2_lt_pow2; lia).
  destruct (zero_bit_below m (Z.to_nat (Z.log2 m))) as [Hall|(j & Hj & Hb)].
  - exfalso. apply Hnp.
    assert (E : m = Z.ones (Z.log2 m + 1)).
    { apply all_bits_set; [exact Hm|]. intros j Hj. apply Hall. lia. }
    assert (Hs : size = 2 ^ (Z.log2 m + 1)) by (rewrite Z.ones_equiv in E; lia).
    rewrite E, Z.land_ones, Hs by lia. apply Z_mod_same_full.
  - exists (2 ^ j). split.
    + split; [apply Z.pow_nonneg; lia|].
      assert (2 ^ j < 2 ^ Z.log2 m) by (apply Z.pow_lt_mono_r; lia). lia.
    + intros hash Heq.
      apply (f_equal (fun x => Z.testbit x j)) in Heq.
      rewrite Z.pow2_bits_true in Heq by lia.
      unfold KH_BlobStartingIndexForSize, u32 in Heq. rewrite <- Em in Heq.
      rewrite usize_id in Heq by lia.
      rewrite Z.mod_pow2_bits_low in Heq by lia.
      rewrite Z.land_spec, Hb, andb_false_r in Heq. discriminate.
Qed.

Lemma home_bucket_needs_power_of_two_witness :
  0 < 12 <= 2 ^ 32
  /\ Z.land 12 (12 - 1) <> 0
  /\ exists p, 0 <= p < 12
       /\ forall hash, KH_BlobStartingIndexForSize hash 12 <> p.
Proof.
  split; [split; [lia | vm_compute; discriminate]|].
  split; [vm_compute; discriminate|].
  apply (home_bucket_needs_power_of_two 12).
  - split; [lia | vm_compute; discriminate].
  - vm_compute. discriminate.
Defined.

(** ** Placement in any table *)

(** X20. [KH_InsertSlot] on any table of a size in use, reachable or not.
    If some slot is EMPTY or TOMBSTONE, the loop stops at the first such
    slot on the probe path from the hash's home slot and writes the index
    there.  If no slot is, the [while (1)] loop never stops: however many
    iterations it is given, it is still running. *)
Theorem KH_InsertSlot_returns_iff_free_slot
    (cap : Z) (sl : list Z) (hash index : Z) :
  cap_ok cap ->
  Z.of_nat (length sl) = cap ->
  ((exists p s, rd sl p = Ok s /\ slot_free s = true) ->
   exists dk,
     first_free cap sl (hash mod cap) dk
     /\ KH_InsertSlot sl cap hash index
        = Ok (<[Z.to_nat ((hash mod cap + dk) mod cap) := index]> sl))
  /\ ((forall p s, rd sl p = Ok s -> slot_free s = false) ->
      forall fuel : nat,
        KH_InsertSlot_loop fuel sl cap
          (KH_BlobStartingIndexForSize hash cap) index = Fault Diverges).
Proof.
  intros Hc Hlen. pose proof (cap_ok_range _ Hc) as Hr.
  assert (Hh : 0 <= hash mod cap < cap) by (apply Z.mod_pos_bound; lia).
  split.
  - intros Hfree.
    destruct (first_free_exists cap sl (hash mod cap)) as (dk & Hff);
      [lia | exact Hlen | exact Hh | exact Hfree |].
    exists dk. split; [exact Hff|].
    exact (KH_InsertSlot_first_free cap sl hash index dk Hc Hlen Hff).
  - intros Hfull fuel. rewrite home_mod by exact Hc.
    exact (KH_InsertSlot_loop_full cap sl index Hc Hlen Hfull fuel _ Hh).
Qed.

Lemma KH_InsertSlot_returns_iff_free_slot_witness :
  cap_ok 8
  /\ Z.of_nat (length [0; 1; 2; 3; 4; 5; 6; 7]) = 8
  /\ (forall p s, rd [0; 1; 2; 3; 4; 5; 6; 7] p = Ok s -> slot_free s = false)
  /\ (forall fuel : nat,
        KH_InsertSlot_loop fuel [0; 1; 2; 3; 4; 5; 6; 7] 8
          (KH_BlobStartingIndexForSize 3 8) 8 = Fault Diverges)
  /\ exists dk,
       first_free 8 [0; 1; 2; KH_HASH_DELETED; 4; KH_HASH_EMPTY; 6; 7] (2 mod 8) dk
       /\ KH_InsertSlot [0; 1; 2; KH_HASH_DELETED; 4; KH_HASH_EMPTY; 6; 7] 8 2 3
          = Ok [0; 1; 2; 3; 4; KH_HASH_EMPTY; 6; 7].
Proof.
  assert (Hc : cap_ok 8) by (exists 3; split; [lia | reflexivity]).
  assert (Hfull : forall p s,
            rd [0; 1; 2; 3; 4; 5; 6; 7] p = Ok s -> slot_free s = false).
  { intros p s [Hp Hs]%rd_Ok.
    destruct (Z.to_nat p) as [|[|[|[|[|[|[|[|n]]]]]]]]; simpl in Hs;
      try discriminate; injection Hs as <-; reflexivity. }
  split; [exact Hc|]. split; [reflexivity|]. split; [exact Hfull|]. split.
  - apply (proj2 (KH_InsertSlot_returns_iff_free_slot 8 [0; 1; 2; 3; 4; 5; 6; 7]
                    3 8 Hc eq_refl)).
    exact Hfull.
  - destruct (proj1 (KH_InsertSlot_returns_iff_free_slot 8
                       [0; 1; 2; KH_HASH_DELETED; 4; KH_HASH_EMPTY; 6; 7]
                       2 3 Hc eq_refl)) as (dk & Hff & Hins).
    + exists 3, KH_HASH_DELETED. split; reflexivity.
    + exists dk. split; [exact Hff|]. reflexivity.
Defined.

(** * Blobs as heap allocations *)

(** ** The heap *)

Lemma contents_live (h : Mem.heap) (p : Z) (b : KH_Blob) :
  p <> 0 -> h p = Mem.Live b -> contents h p = Some b.
Proof.
  intros Hp H. unfold contents. destruct (Z.eqb_spec p 0); [contradiction|].
  rewrite H. reflexivity.
Qed.

Lemma live_contents (h : Mem.heap) (p : Z) (b : KH_Blob) :
  live h p -> contents h p = Some b -> h p = Mem.Live b.
Proof.
  intros [Hp [b' Hb]] Hc. rewrite (contents_live h p b' Hp Hb) in Hc.
  injection Hc as ->. exact Hb.
Qed.

Lemma contents_freed (h : Mem.heap) (p : Z) (b : KH_Blob) (q : Z) :
  h p = Mem.Live b -> contents (Mem.set_cell p (Mem.Freed b) h) q = contents h q.
Proof.
  intros H. unfold contents, Mem.set_cell.
  destruct (Z.eqb_spec q 0); [reflexivity|].
  destruct (Z.eqb_spec q p) as [->|]; [rewrite H|]; reflexivity.
Qed.

Lemma view_ext (h h' : Mem.heap) (pd : Mem.KH_Dict) :
  (forall pp, pp ∈ Mem.pairs pd ->
     contents h' (Mem.key pp) = contents h (Mem.key pp)
     /\ contents h' (Mem.value pp) = contents h (Mem.value pp)) ->
  view h' pd = view h pd.
Proof.
  intros H. unfold view. f_equal. apply list_fmap_ext. intros i pp Hi.
  destruct (H pp) as [Hk Hv]; [apply list_elem_of_lookup; eauto|].
  unfold view_pair. rewrite Hk, Hv. reflexivity.
Qed.

Lemma view_freed (h : Mem.heap) (pd : Mem.KH_Dict) (p : Z) (b : KH_Blob) :
  h p = Mem.Live b -> view (Mem.set_cell p (Mem.Freed b) h) pd = view h pd.
Proof.
  intros H. apply view_ext. intros pp _.
  split; apply contents_freed; exact H.
Qed.

Lemma deref_live (h : Mem.heap) (p : Z) (b : KH_Blob) :
  p <> 0 -> h p = Mem.Live b -> Mem.deref p h = Mem.Done b h.
Proof.
  intros Hp H. unfold Mem.deref. destruct (Z.eqb_spec p 0); [contradiction|].
  rewrite H. reflexivity.
Qed.

Lemma free_live (h : Mem.heap) (p : Z) (b : KH_Blob) :
  p <> 0 -> h p = Mem.Live b ->
  Mem.free p h = Mem.Done tt (Mem.set_cell p (Mem.Freed b) h).
Proof.
  intros Hp H. unfold Mem.free. destruct (Z.eqb_spec p 0); [contradiction|].
  rewrite H. reflexivity.
Qed.

Lemma live_freed_other (h : Mem.heap) (p q : Z) (c : Mem.cell) :
  live h q -> q <> p -> live (Mem.set_cell p c h) q.
Proof.
  intros [Hq [b Hb]] Hne. split; [exact Hq|]. exists b.
  unfold Mem.set_cell. destruct (Z.eqb_spec q p); [contradiction | exact Hb].
Qed.

Lemma rd_fmap {A B : Type} (f : A -> B) (l : list A) (i : Z) :
  rd (f <$> l) i = match rd l i with Ok x => Ok (f x) | Fault e => Fault e end.
Proof.
  unfold rd. destruct (0 <=? i); [|reflexivity].
  rewrite list_lookup_fmap. destruct (l !! Z.to_nat i); reflexivity.
Qed.

Lemma wr_fmap {A B : Type} (f : A -> B) (l : list A) (i : Z) (x : A) :
  wr (f <$> l) i (f x)
  = match wr l i x with Ok l' => Ok (f <$> l') | Fault e => Fault e end.
Proof.
  unfold wr. rewrite length_fmap.
  destruct ((0 <=? i) && (i <? Z.of_nat (length l))); [|reflexivity].
  rewrite list_fmap_insert. reflexivity.
Qed.

(** ** What the dictionary owns *)

Lemma owned_elem (pd : Mem.KH_Dict) (i : nat) (pp : Mem.KH_DictPair) :
  Mem.pairs pd !! i = Some pp -> Z.of_nat i < Mem.data_count pd ->
  Mem.key pp ∈ owned pd /\ Mem.value pp ∈ owned pd.
Proof.
  intros Hi Hc.
  assert (Hin : In pp (take (Z.to_nat (Mem.data_count pd)) (Mem.pairs pd))).
  { apply list_elem_of_In, list_elem_of_lookup. exists i.
    rewrite lookup_take_lt by lia. exact Hi. }
  unfold owned, pointers_of. split; apply list_elem_of_In, in_flat_map; exists pp;
    (split; [exact Hin|]); simpl; auto.
Qed.

Lemma Owns_pair (h : Mem.heap) (pd : Mem.KH_Dict) (es : list (KH_Blob * KH_Blob))
    (j : nat) (k v : KH_Blob) :
  Owns h pd es -> es !! j = Some (k, v) ->
  exists pp, Mem.pairs pd !! j = Some pp
    /\ Mem.key pp <> 0 /\ h (Mem.key pp) = Mem.Live k
    /\ Mem.value pp <> 0 /\ h (Mem.value pp) = Mem.Live v
    /\ Mem.key pp ∈ owned pd /\ Mem.value pp ∈ owned pd.
Proof.
  intros O Hj. pose proof (owns_rep _ _ _ O) as R.
  pose proof (rep_pairs _ _ R _ _ Hj) as Hp. simpl in Hp.
  rewrite list_lookup_fmap in Hp.
  destruct (Mem.pairs pd !! j) as [pp|] eqn:Epp; [|discriminate].
  simpl in Hp. injection Hp as Hk Hv.
  pose proof (rep_count _ _ R) as Hc. simpl in Hc.
  destruct (owned_elem pd j pp Epp) as [Hko Hvo].
  { apply lookup_lt_Some in Hj. lia. }
  pose proof (owns_live _ _ _ O _ Hko) as Hkl.
  pose proof (owns_live _ _ _ O _ Hvo) as Hvl.
  exists pp. split; [reflexivity|].
  split; [exact (proj1 Hkl)|]. split; [exact (live_contents _ _ _ Hkl Hk)|].
  split; [exact (proj1 Hvl)|]. split; [exact (live_contents _ _ _ Hvl Hv)|].
  auto.
Qed.

(** Freeing a blob that the dictionary does not own leaves it as it is. *)
Lemma Owns_freed (h : Mem.heap) (pd : Mem.KH_Dict) (es : list (KH_Blob * KH_Blob))
    (p : Z) (b : KH_Blob) :
  Owns h pd es -> h p = Mem.Live b -> p ∉ owned pd ->
  Owns (Mem.set_cell p (Mem.Freed b) h) pd es.
Proof.
  intros O Hp Hno. split.
  - rewrite (view_freed h pd p b Hp). exact (owns_rep _ _ _ O).
  - intros q Hq. apply live_freed_other; [exact (owns_live _ _ _ O _ Hq)|].
    intros ->. contradiction.
  - exact (owns_distinct _ _ _ O).
  - eapply Forall_impl; [|exact (owns_stored _ _ _ O)].
    intros pp [Hk Hv]. unfold stored_ok. rewrite !(contents_freed h p b) by exact Hp.
    auto.
Qed.

(** ** Lookups *)

Lemma Mem_KH_BlobEqual (h : Mem.heap) (p1 p2 : Z) (b1 b2 : KH_Blob) :
  p1 <> 0 -> h p1 = Mem.Live b1 -> p2 <> 0 -> h p2 = Mem.Live b2 ->
  Mem.KH_BlobEqual p1 p2 h = Mem.Done (KH_BlobEqual b1 b2) h.
Proof.
  intros H1 Hb1 H2 Hb2. unfold Mem.KH_BlobEqual.
  destruct (Z.eqb_spec p1 p2) as [->|Hne].
  - rewrite Hb1 in Hb2. injection Hb2 as <-.
    rewrite KH_BlobEqual_refl. reflexivity.
  - unfold Mem.bind. rewrite (deref_live h p1 b1 H1 Hb1), (deref_live h p2 b2 H2 Hb2).
    reflexivity.
Qed.

Section MemLookup.
Variables (h : Mem.heap) (pd : Mem.KH_Dict) (es : list (KH_Blob * KH_Blob)).
Hypothesis O : Owns h pd es.
Variables (kp : Z) (k : KH_Blob).
Hypothesis Hkp : kp <> 0.
Hypothesis Hk : h kp = Mem.Live k.

Lemma Mem_lookup_loop (n : nat) :
  forall (start i r : Z),
    KH_DictLookupIndex_loop n (view h pd) k start i = Ok r ->
    Mem.KH_DictLookupIndex_loop n pd kp start i h = Mem.Done r h.
Proof.
  pose proof (owns_rep _ _ _ O) as R.
  destruct (Rep_slot_invariant _ _ R) as (Hsl & _ & _).
  induction n as [|n' IH]; intros start i r H; simpl in H |- *.
  - injection H as <-. reflexivity.
  - unfold Mem.bind, Mem.lift.
    destruct (rd (Mem.slots pd) _) as [slot|f] eqn:Eslot; simpl in H; [|discriminate].
    destruct (slot =? KH_HASH_EMPTY) eqn:Ee.
    { injection H as <-. reflexivity. }
    destruct (slot =? KH_HASH_DELETED) eqn:Ed.
    { exact (IH _ _ _ H). }
    rewrite rd_fmap in H.
    destruct (rd (Mem.pairs pd) slot) as [pp|f] eqn:Epp; simpl in H; [|discriminate].
    destruct (contents h (Mem.key pp)) as [k'|] eqn:Ek'; [|discriminate].
    assert (Hlive : live h (Mem.key pp)).
    { apply rd_Ok in Epp as [Hs0 Epp].
      apply (owns_live _ _ _ O).
      apply (owned_elem pd _ pp Epp).
      destruct (Hsl _ _ Eslot) as [->|[->|Hs]]; [discriminate | discriminate|].
      simpl in Hs. lia. }
    rewrite (Mem_KH_BlobEqual h kp (Mem.key pp) k k' Hkp Hk (proj1 Hlive)
               (live_contents _ _ _ Hlive Ek')).
    destruct (KH_BlobEqual k k').
    + injection H as <-. reflexivity.
    + exact (IH _ _ _ H).
Qed.

Lemma Mem_lookup (r : Z) :
  KH_DictLookupIndex (view h pd) k = Ok r ->
  Mem.KH_DictLookupIndex pd kp h = Mem.Done r h.
Proof.
  intros H. unfold Mem.KH_DictLookupIndex, Mem.bind.
  rewrite (deref_live h kp k Hkp Hk). exact (Mem_lookup_loop _ _ _ _ H).
Qed.

Lemma Mem_lookup_found (j : nat) (kj vj : KH_Blob) :
  es !! j = Some (kj, vj) -> KH_BlobEqual k kj = true ->
  Mem.KH_DictLookupIndex pd kp h = Mem.Done (Z.of_nat j) h.
Proof.
  intros Hj Heq. apply Mem_lookup.
  exact (Rep_lookup_found _ _ _ _ _ _ (owns_rep _ _ _ O) Hj Heq).
Qed.

Lemma Mem_lookup_absent :
  absent k es -> Mem.KH_DictLookupIndex pd kp h = Mem.Done KH_NOT_FOUND h.
Proof.
  intros Ha. apply Mem_lookup.
  exact (Rep_lookup_absent _ _ _ (owns_rep _ _ _ O) Ha).
Qed.
End MemLookup.

Lemma contents_NULL (h : Mem.heap) : contents h 0 = None.
Proof. reflexivity. Qed.

(** [KH_DictGet] and [KH_DictHas] on blob pointers. *)
Lemma Owns_Get (h : Mem.heap) (pd : Mem.KH_Dict) (es : list (KH_Blob * KH_Blob))
    (kp : Z) (k : KH_Blob) :
  Owns h pd es -> kp <> 0 -> h kp = Mem.Live k ->
  exists vp,
    Mem.KH_DictGet pd kp h = Mem.Done vp (Mem.set_cell kp (Mem.Freed k) h)
    /\ Mem.KH_DictHas pd kp h
       = Mem.Done (negb (vp =? 0)) (Mem.set_cell kp (Mem.Freed k) h)
    /\ KH_DictGet (view h pd) k = Ok (contents h vp)
    /\ KH_DictHas (view h pd) k = Ok (negb (vp =? 0))
    /\ (vp = 0 \/ vp ∈ owned pd).
Proof.
  intros O Hkp Hk. pose proof (owns_rep _ _ _ O) as R.
  unfold Mem.KH_DictGet, Mem.KH_DictHas, Mem.bind.
  destruct (present_or_absent k es) as [(j & kj & vj & Hj & Hkj)|Ha].
  - rewrite (Mem_lookup_found h pd es O kp k Hkp Hk j kj vj Hj Hkj).
    rewrite (free_live h kp k Hkp Hk).
    rewrite (index_not_NOT_FOUND _ _ _ R (lookup_lt_Some _ _ _ Hj)).
    destruct (Owns_pair h pd es j kj vj O Hj)
      as (pp & Hpp & _ & _ & Hv0 & Hv & _ & Hvo).
    assert (Hrd : rd (Mem.pairs pd) (Z.of_nat j) = Ok pp).
    { apply rd_Ok. split; [lia|]. rewrite Nat2Z.id. exact Hpp. }
    unfold Mem.lift. rewrite Hrd. exists (Mem.value pp).
    destruct (Z.eqb_spec (Mem.value pp) 0); [contradiction|]. simpl.
    split; [reflexivity|]. split; [reflexivity|].
    rewrite (contents_live h _ vj Hv0 Hv).
    split; [exact (Rep_Get_found _ _ R k j kj vj Hj Hkj)|].
    split; [exact (Rep_Has_found _ _ R k j kj vj Hj Hkj) | auto].
  - rewrite (Mem_lookup_absent h pd es O kp k Hkp Hk Ha).
    rewrite (free_live h kp k Hkp Hk). simpl. exists 0.
    split; [reflexivity|]. split; [reflexivity|].
    split; [exact (Rep_Get_absent _ _ R k Ha)|].
    split; [exact (Rep_Has_absent _ _ R k Ha) | auto].
Qed.

(** ** Insertion *)

Lemma owned_snoc (pd : Mem.KH_Dict) (pp : Mem.KH_DictPair) (sl : list Z) (cap : Z) :
  0 <= Mem.data_count pd < Z.of_nat (length (Mem.pairs pd)) ->
  Mem.data_count pd + 1 < 2 ^ 64 ->
  owned {| Mem.slots := sl;
           Mem.pairs := <[Z.to_nat (Mem.data_count pd) := pp]> (Mem.pairs pd);
           Mem.data_count := usize (Mem.data_count pd + 1);
           Mem.data_alloced := cap |}
  = owned pd ++ [Mem.key pp; Mem.value pp].
Proof.
  intros Hc Hmax. unfold owned, pointers_of. simpl. rewrite usize_id by lia.
  replace (Z.to_nat (Mem.data_count pd + 1)) with (S (Z.to_nat (Mem.data_count pd)))
    by lia.
  rewrite (take_S_r _ _ pp) by (apply list_lookup_insert_eq; lia).
  rewrite take_insert_ge by lia. rewrite flat_map_app. simpl. reflexivity.
Qed.

(** The part of [KH_DictInsert] after the resize. *)
Lemma Mem_insert_place (h : Mem.heap) (pd : Mem.KH_Dict)
    (es : list (KH_Blob * KH_Blob)) (kp vp : Z) (k v : KH_Blob) (d' : KH_Dict) :
  Owns h pd es ->
  kp <> 0 -> h kp = Mem.Live k -> vp <> 0 -> h vp = Mem.Live v ->
  kp <> vp -> kp ∉ owned pd -> vp ∉ owned pd ->
  (do pairs' <- wr (pairs (view h pd)) (data_count (view h pd))
                   {| key := Some k; value := Some v |};
   do slots' <- KH_InsertSlot (slots (view h pd)) (data_alloced (view h pd))
                   (blob_hash k) (u32 (data_count (view h pd)));
   Ok ({| slots := slots'; pairs := pairs';
          data_count := usize (data_count (view h pd) + 1);
          data_alloced := data_alloced (view h pd) |}, true)) = Ok (d', true) ->
  Rep d' (es ++ [(k, v)]) ->
  exists pd',
    (Mem.bind (Mem.lift (wr (Mem.pairs pd) (Mem.data_count pd)
                           {| Mem.key := kp; Mem.value := vp |}))
       (fun pairs' =>
        Mem.bind (Mem.deref kp) (fun kb =>
        Mem.bind (Mem.lift (KH_InsertSlot (Mem.slots pd) (Mem.data_alloced pd)
                              (blob_hash kb) (u32 (Mem.data_count pd))))
          (fun slots' =>
           Mem.ret ({| Mem.slots := slots'; Mem.pairs := pairs';
                       Mem.data_count := usize (Mem.data_count pd + 1);
                       Mem.data_alloced := Mem.data_alloced pd |}, true))))) h
    = Mem.Done (pd', true) h
    /\ d' = view h pd'
    /\ Owns h pd' (es ++ [(k, v)])
    /\ owned pd' = owned pd ++ [kp; vp].
Proof.
  intros O Hkp Hk Hvp Hv Hne Hkno Hvno Hval R'.
  pose proof (owns_rep _ _ _ O) as R.
  pose proof (rep_count _ _ R) as Hc. simpl in Hc.
  pose proof (Rep_small _ _ R) as Hsmall.
  assert (HD : KH_HASH_DELETED = 2 ^ 32 - 2) by reflexivity.
  simpl in Hval.
  replace {| key := Some k; value := Some v |}
    with (view_pair h {| Mem.key := kp; Mem.value := vp |}) in Hval
    by (unfold view_pair; simpl;
        rewrite (contents_live h kp k Hkp Hk), (contents_live h vp v Hvp Hv);
        reflexivity).
  rewrite wr_fmap in Hval.
  unfold Mem.bind, Mem.lift.
  destruct (wr (Mem.pairs pd) (Mem.data_count pd) _) as [pairs'|f] eqn:Ewr;
    simpl in Hval; [|discriminate].
  rewrite (deref_live h kp k Hkp Hk).
  destruct (KH_InsertSlot (Mem.slots pd) (Mem.data_alloced pd) (blob_hash k)
              (u32 (Mem.data_count pd))) as [slots'|f] eqn:Eslot;
    simpl in Hval; [|discriminate].
  injection Hval as <-.
  assert (Hrange : 0 <= Mem.data_count pd < Z.of_nat (length (Mem.pairs pd))).
  { unfold wr in Ewr.
    destruct (Z.leb_spec 0 (Mem.data_count pd)); [|discriminate].
    destruct (Z.ltb_spec (Mem.data_count pd) (Z.of_nat (length (Mem.pairs pd))));
      [lia | discriminate]. }
  apply wr_Ok_insert in Ewr. subst pairs'.
  eexists. split; [reflexivity|]. split; [reflexivity|].
  assert (Hown : owned {| Mem.slots := slots';
                          Mem.pairs := <[Z.to_nat (Mem.data_count pd) :=
                                          {| Mem.key := kp; Mem.value := vp |}]>
                                         (Mem.pairs pd);
                          Mem.data_count := usize (Mem.data_count pd + 1);
                          Mem.data_alloced := Mem.data_alloced pd |}
                 = owned pd ++ [kp; vp]).
  { apply (owned_snoc pd {| Mem.key := kp; Mem.value := vp |}); lia. }
  split; [|exact Hown]. split.
  - exact R'.
  - intros q Hq. rewrite Hown in Hq. apply elem_of_app in Hq as [Hq|Hq].
    + exact (owns_live _ _ _ O _ Hq).
    + apply elem_of_cons in Hq as [->|Hq]; [split; eauto|].
      apply elem_of_cons in Hq as [->|Hq]; [split; eauto|].
      apply elem_of_nil in Hq. contradiction.
  - rewrite Hown. apply list.NoDup_app. split; [exact (owns_distinct _ _ _ O)|]. split.
    + intros q Hq Hq'. apply elem_of_cons in Hq' as [->|Hq']; [contradiction|].
      apply elem_of_cons in Hq' as [->|Hq']; [contradiction|].
      apply elem_of_nil in Hq'. contradiction.
    + apply list.NoDup_cons. split.
      * intros Hin. apply elem_of_cons in Hin as [->|Hin]; [contradiction|].
        apply elem_of_nil in Hin. contradiction.
      * apply NoDup_singleton.
  - simpl. apply Forall_insert; [exact (owns_stored _ _ _ O)|].
    split; right; simpl.
    + rewrite (contents_live h kp k Hkp Hk). discriminate.
    + rewrite (contents_live h vp v Hvp Hv). discriminate.
Qed.

(** ** Resizing *)

Lemma stored_null (h : Mem.heap) (pp : Mem.KH_DictPair) :
  stored_ok h pp ->
  (contents h (Mem.key pp) = None -> Mem.key pp = 0)
  /\ (contents h (Mem.value pp) = None -> Mem.value pp = 0).
Proof. intros [[?|?] [?|?]]; split; intros; auto; contradiction. Qed.

Lemma pair_eta (pp : Mem.KH_DictPair) :
  {| Mem.key := Mem.key pp; Mem.value := Mem.value pp |} = pp.
Proof. destruct pp. reflexivity. Qed.

Section MemResize.
Variables (h : Mem.heap) (pd : Mem.KH_Dict) (es : list (KH_Blob * KH_Blob)).
Hypothesis O : Owns h pd es.
Variable new_size : Z.

(** The copy loop on blob pointers goes the way of the copy loop on
    blobs: it reads through the key pointers of entries only. *)
Lemma Mem_copy (n : nat) :
  forall (i : nat) (sl : list Z) (np : list Mem.KH_DictPair)
         (sl' : list Z) (npv' : list KH_DictPair) (j' : Z),
    (i <= length es)%nat ->
    (i + n <= length es)%nat
    \/ rd (pairs (view h pd)) (Z.of_nat (length es)) = Ok null_pair ->
    KH_ResizeDict_copy n (view h pd) new_size (Z.of_nat i) (Z.of_nat i) sl
      (view_pair h <$> np) = Ok (sl', npv', j') ->
    exists (np' : list Mem.KH_DictPair) (c : nat),
      Mem.KH_ResizeDict_copy n pd new_size (Z.of_nat i) (Z.of_nat i) sl np h
      = Mem.Done (sl', np', j') h
      /\ npv' = view_pair h <$> np'
      /\ j' = Z.of_nat c /\ (i <= c <= length es)%nat
      /\ length np' = length np
      /\ forall x : nat,
           np' !! x = if decide (i <= x < c)%nat then Mem.pairs pd !! x else np !! x.
Proof.
  pose proof (owns_rep _ _ _ O) as R.
  pose proof (rep_count _ _ R) as Hc. simpl in Hc.
  pose proof (Rep_small _ _ R) as Hsmall.
  assert (HD : KH_HASH_DELETED = 2 ^ 32 - 2) by reflexivity.
  induction n as [|n' IH]; intros i sl np sl' npv' j' Hi Hstop H; simpl in H |- *.
  - injection H as <- <- <-. exists np, i. unfold Mem.ret.
    split; [reflexivity|]. split; [reflexivity|]. split; [reflexivity|].
    split; [lia|]. split; [reflexivity|].
    intros x. destruct (decide _); [lia | reflexivity].
  - rewrite rd_fmap in H. unfold Mem.bind, Mem.lift.
    destruct (rd (Mem.pairs pd) (Z.of_nat i)) as [pp|f] eqn:Epp; simpl in H;
      [|discriminate].
    apply rd_Ok in Epp as [_ Epp]. rewrite Nat2Z.id in Epp.
    pose proof (Forall_lookup_1 _ _ _ _ (owns_stored _ _ _ O) Epp) as Hst.
    destruct (stored_null h pp Hst) as [Hk0 Hv0].
    assert (Hbreak : forall r, (Mem.key pp =? 0) || (Mem.value pp =? 0) = true ->
      Ok (sl, view_pair h <$> np, Z.of_nat i) = Ok (sl', npv', j') ->
      exists (np' : list Mem.KH_DictPair) (c : nat),
        (if (Mem.key pp =? 0) || (Mem.value pp =? 0)
         then Mem.ret (sl, np, Z.of_nat i) else r) h = Mem.Done (sl', np', j') h
        /\ npv' = view_pair h <$> np'
        /\ j' = Z.of_nat c /\ (i <= c <= length es)%nat
        /\ length np' = length np
        /\ forall x : nat,
             np' !! x = if decide (i <= x < c)%nat then Mem.pairs pd !! x else np !! x).
    { intros r Hnull Hret. rewrite Hnull. injection Hret as <- <- <-.
      exists np, i. unfold Mem.ret.
      split; [reflexivity|]. split; [reflexivity|]. split; [reflexivity|].
      split; [lia|]. split; [reflexivity|].
      intros x. destruct (decide _); [lia | reflexivity]. }
    destruct (contents h (Mem.key pp)) as [k0|] eqn:Ek0.
    2: { apply Hbreak; [|exact H]. rewrite (Hk0 eq_refl). reflexivity. }
    destruct (contents h (Mem.value pp)) as [v0|] eqn:Ev0.
    2: { apply Hbreak; [|exact H]. rewrite (Hv0 eq_refl). apply orb_true_r. }
    clear Hbreak.
    assert (Hlt : (i < length es)%nat).
    { destruct (decide (i < length es)%nat) as [|Hge]; [assumption|]. exfalso.
      assert (i = length es) as -> by lia.
      destruct Hstop as [Hstop|Hstop]; [lia|].
      change (pairs (view h pd)) with (view_pair h <$> Mem.pairs pd) in Hstop.
      rewrite rd_fmap in Hstop.
      destruct (rd (Mem.pairs pd) (Z.of_nat (length es))) as [pp'|f] eqn:E;
        [|discriminate].
      apply rd_Ok in E as [_ E]. rewrite Nat2Z.id, Epp in E. injection E as <-.
      injection Hstop as Hkn _. congruence. }
    destruct (owned_elem pd i pp Epp ltac:(lia)) as [Hko _].
    pose proof (owns_live _ _ _ O _ Hko) as Hkl.
    destruct (Z.eqb_spec (Mem.key pp) 0) as [E|_].
    { rewrite E in Ek0. discriminate. }
    destruct (Z.eqb_spec (Mem.value pp) 0) as [E|_].
    { rewrite E in Ev0. discriminate. }
    simpl.
    replace {| key := Some k0; value := Some v0 |}
      with (view_pair h {| Mem.key := Mem.key pp; Mem.value := Mem.value pp |}) in H
      by (unfold view_pair; simpl; rewrite Ek0, Ev0; reflexivity).
    rewrite wr_fmap in H.
    destruct (wr np (Z.of_nat i) _) as [np1|f] eqn:Ewr; simpl in H; [|discriminate].
    rewrite (deref_live h _ k0 (proj1 Hkl) (live_contents _ _ _ Hkl Ek0)).
    destruct (KH_InsertSlot sl new_size (blob_hash k0) (u32 (Z.of_nat i)))
      as [sl1|f] eqn:Eins; simpl in H; [|discriminate].
    assert (Hnext : usize (Z.of_nat i + 1) = Z.of_nat (S i)) by (rewrite usize_id; lia).
    rewrite Hnext in H |- *.
    assert (Hrange : (i < length np)%nat).
    { unfold wr in Ewr.
      destruct (Z.leb_spec 0 (Z.of_nat i)); [|discriminate].
      destruct (Z.ltb_spec (Z.of_nat i) (Z.of_nat (length np)));
        [lia | discriminate]. }
    apply wr_Ok_insert in Ewr. rewrite Nat2Z.id, pair_eta in Ewr. subst np1.
    destruct (IH (S i) sl1 (<[i := pp]> np) sl' npv' j') as (np' & c & H1 & H2 & H3 & H4 & H5 & H6).
    + lia.
    + destruct Hstop as [Hstop|Hstop]; [left; lia | right; exact Hstop].
    + exact H.
    + exists np', c. split; [exact H1|]. split; [exact H2|]. split; [exact H3|].
      split; [lia|]. split; [rewrite H5; apply length_insert|].
      intros x. rewrite H6.
      destruct (decide (S i <= x < c)%nat).
      * destruct (decide (i <= x < c)%nat); [reflexivity | lia].
      * destruct (decide (x = i)) as [->|Hne].
        -- destruct (decide (i <= i < c)%nat); [|lia].
           rewrite list_lookup_insert_eq by lia. symmetry. exact Epp.
        -- destruct (decide (i <= x < c)%nat); [lia|].
           apply list_lookup_insert_ne. lia.
Qed.
End MemResize.

Lemma Owns_Resize (h : Mem.heap) (pd : Mem.KH_Dict) (es : list (KH_Blob * KH_Blob)) :
  Owns h pd es -> at_threshold (view h pd) -> Z.of_nat (length es) < KH_MAX_COUNT ->
  exists pd1,
    Mem.KH_ResizeDict true true pd h = Mem.Done (Mem.Resized pd1) h
    /\ KH_ResizeDict true true (view h pd) = Ok (Resized (view h pd1))
    /\ Owns h pd1 es
    /\ owned pd1 = owned pd.
Proof.
  intros O Hthr Hmax. pose proof (owns_rep _ _ _ O) as R.
  pose proof (rep_count _ _ R) as Hc. simpl in Hc.
  destruct (KH_ResizeDict_spec _ es R Hthr Hmax) as (d' & Hres & R' & _).
  assert (Hstop : (0 + Z.to_nat (Mem.data_alloced pd) <= length es)%nat
                  \/ rd (pairs (view h pd)) (Z.of_nat (length es)) = Ok null_pair).
  { destruct (rep_shape _ _ R) as [(H0 & _ & _)|(T & Hload & Hnull)].
    - left. simpl in H0. rewrite H0. simpl. lia.
    - right. unfold at_threshold in Hthr. rewrite (rep_count _ _ R) in Hthr.
      replace (Z.of_nat (length es)) with (KH_threshold (data_alloced (view h pd)))
        by lia.
      exact Hnull. }
  pose proof Hres as Hres0.
  unfold KH_ResizeDict in Hres. simpl in Hres.
  unfold Mem.KH_ResizeDict, Mem.bind. simpl.
  set (ns := if Mem.data_alloced pd =? 0 then 8 else usize (2 * Mem.data_alloced pd))
    in *.
  replace (replicate (Z.to_nat ns) null_pair)
    with (view_pair h <$> replicate (Z.to_nat ns) Mem.null_pair) in Hres
    by (rewrite fmap_replicate; reflexivity).
  destruct (KH_ResizeDict_copy _ _ _ _ _ _ _) as [[[sl' npv'] j']|f] eqn:Ecopy;
    simpl in Hres; [|discriminate].
  injection Hres as <-.
  destruct (Mem_copy h pd es O ns _ 0%nat _ _ _ _ _ ltac:(lia) Hstop Ecopy)
    as (np' & c & Hrun & -> & -> & Hcr & Hlen & Hnp).
  change (Z.of_nat 0) with 0 in Hrun. rewrite Hrun.
  assert (Hcc : c = length es).
  { pose proof (rep_count _ _ R') as Hc'. simpl in Hc'. lia. }
  subst c.
  eexists. split; [reflexivity|]. split; [exact Hres0|].
  assert (Hown : owned {| Mem.slots := sl'; Mem.pairs := np';
                          Mem.data_count := Z.of_nat (length es);
                          Mem.data_alloced := ns |} = owned pd).
  { unfold owned. simpl. rewrite Hc, !Nat2Z.id. f_equal.
    apply list_eq. intros x.
    destruct (decide (x < length es)%nat).
    - rewrite !lookup_take_lt by lia. rewrite Hnp.
      destruct (decide (0 <= x < length es)%nat); [reflexivity | lia].
    - rewrite !lookup_take_ge by lia. reflexivity. }
  split; [|exact Hown]. split.
  - exact R'.
  - intros q Hq. rewrite Hown in Hq. exact (owns_live _ _ _ O _ Hq).
  - rewrite Hown. exact (owns_distinct _ _ _ O).
  - simpl. apply Forall_lookup_2. intros x pp Hx. rewrite Hnp in Hx.
    destruct (decide (0 <= x < length es)%nat).
    + exact (Forall_lookup_1 _ _ _ _ (owns_stored _ _ _ O) Hx).
    + apply lookup_replicate in Hx as [-> _]. split; left; reflexivity.
Qed.

(** [KH_DictInsert] on blob pointers, for a key that is not there. *)
Lemma Owns_Insert (a b : bool) (h : Mem.heap) (pd : Mem.KH_Dict)
    (es : list (KH_Blob * KH_Blob)) (kp vp : Z) (k v : KH_Blob) :
  Owns h pd es ->
  kp <> 0 -> h kp = Mem.Live k -> vp <> 0 -> h vp = Mem.Live v ->
  kp <> vp -> kp ∉ owned pd -> vp ∉ owned pd ->
  absent k es -> Z.of_nat (length es) < KH_MAX_COUNT ->
  (a && b = false /\ at_threshold (view h pd)
   /\ Mem.KH_DictInsert a b pd kp vp h = Mem.Done (pd, false) h
   /\ KH_DictInsert a b (view h pd) k v = Ok (view h pd, false))
  \/ ((a && b = true \/ ~ at_threshold (view h pd))
      /\ exists pd',
           Mem.KH_DictInsert a b pd kp vp h = Mem.Done (pd', true) h
           /\ KH_DictInsert a b (view h pd) k v = Ok (view h pd', true)
           /\ Owns h pd' (es ++ [(k, v)])
           /\ owned pd' = owned pd ++ [kp; vp]).
Proof.
  intros O Hkp Hk Hvp Hv Hne Hkno Hvno Ha Hmax.
  pose proof (owns_rep _ _ _ O) as R.
  destruct (Z_ge_dec (data_count (view h pd)) (KH_threshold (data_alloced (view h pd))))
    as [Hthr|Hthr].
  - destruct (a && b) eqn:Eab.
    + right. split; [auto|]. apply andb_true_iff in Eab as [-> ->].
      destruct (Owns_Resize h pd es O Hthr Hmax) as (pd1 & Hres & Hresv & O1 & Hown1).
      destruct (KH_DictInsert_resize _ es k v R Hthr Ha Hmax)
        as (d1 & d' & _ & _ & _ & Hins & R' & _).
      pose proof Hins as Hins'.
      unfold KH_DictInsert in Hins'. simpl in Hins'.
      destruct (Z.geb_spec (Mem.data_count pd) (KH_threshold (Mem.data_alloced pd)))
        as [_|Hlt]; [|simpl in Hthr; lia].
      rewrite Hresv in Hins'. simpl in Hins'.
      destruct (Mem_insert_place h pd1 es kp vp k v d' O1 Hkp Hk Hvp Hv Hne)
        as (pd' & Hrun & -> & O' & Hown'); [rewrite Hown1; exact Hkno
                                           | rewrite Hown1; exact Hvno
                                           | exact Hins' | exact R' |].
      exists pd'. split; [|split; [exact Hins|split; [exact O'|]]].
      * unfold Mem.KH_DictInsert, Mem.bind at 1.
        destruct (Z.geb_spec (Mem.data_count pd) (KH_threshold (Mem.data_alloced pd)))
          as [_|Hlt]; [|simpl in Hthr; lia].
        unfold Mem.bind at 1. rewrite Hres. simpl. exact Hrun.
      * rewrite Hown', Hown1. reflexivity.
    + left. split; [reflexivity|]. split; [exact Hthr|]. split.
      * unfold Mem.KH_DictInsert, Mem.bind, Mem.KH_ResizeDict.
        destruct (Z.geb_spec (Mem.data_count pd) (KH_threshold (Mem.data_alloced pd)))
          as [_|Hlt]; [|simpl in Hthr; lia].
        destruct a, b; try discriminate; reflexivity.
      * exact (KH_DictInsert_nomem a b _ k v Hthr Eab).
  - right. split; [auto|].
    destruct (KH_DictInsert_room a b _ es k v R Hthr Ha) as (d' & Hins & R' & _).
    pose proof Hins as Hins'.
    unfold KH_DictInsert in Hins'. simpl in Hins'.
    destruct (Z.geb_spec (Mem.data_count pd) (KH_threshold (Mem.data_alloced pd)))
      as [Hge|_]; [simpl in Hthr; unfold at_threshold in Hthr; simpl in Hthr; lia|].
    simpl in Hins'.
    destruct (Mem_insert_place h pd es kp vp k v d' O Hkp Hk Hvp Hv Hne Hkno Hvno
                Hins' R') as (pd' & Hrun & -> & O' & Hown').
    exists pd'. split; [|split; [exact Hins|split; [exact O' | exact Hown']]].
    unfold Mem.KH_DictInsert, Mem.bind at 1.
    destruct (Z.geb_spec (Mem.data_count pd) (KH_threshold (Mem.data_alloced pd)))
      as [Hge|_]; [simpl in Hthr; unfold at_threshold in Hthr; simpl in Hthr; lia|].
    simpl. exact Hrun.
Qed.

(** ** Overwriting and removing *)

Lemma pointers_of_app (l1 l2 : list Mem.KH_DictPair) :
  pointers_of (l1 ++ l2) = pointers_of l1 ++ pointers_of l2.
Proof. apply flat_map_app. Qed.

Lemma pointers_of_cons (pp : Mem.KH_DictPair) (l : list Mem.KH_DictPair) :
  pointers_of (pp :: l) = Mem.key pp :: Mem.value pp :: pointers_of l.
Proof. reflexivity. Qed.

(** The pointers of the entries, around the entry at position [x]. *)
Lemma owned_split (pd : Mem.KH_Dict) (x : nat) (pp : Mem.KH_DictPair) :
  Mem.pairs pd !! x = Some pp -> Z.of_nat x < Mem.data_count pd ->
  take (Z.to_nat (Mem.data_count pd)) (Mem.pairs pd)
  = take x (Mem.pairs pd)
    ++ pp :: drop (S x) (take (Z.to_nat (Mem.data_count pd)) (Mem.pairs pd)).
Proof.
  intros Hx Hc.
  assert (H : take (Z.to_nat (Mem.data_count pd)) (Mem.pairs pd) !! x = Some pp)
    by (rewrite lookup_take_lt by lia; exact Hx).
  rewrite <- (take_drop_middle _ _ _ H) at 1.
  rewrite take_take. f_equal. f_equal. lia.
Qed.

Lemma NoDup_replace (A B : list Z) (x y z : Z) :
  NoDup (A ++ x :: y :: B) -> z ∉ A ++ x :: y :: B -> NoDup (A ++ x :: z :: B).
Proof.
  intros Hnd Hz.
  apply list.NoDup_app in Hnd as (HA & Hdis & Hnd).
  apply list.NoDup_cons in Hnd as (Hx & Hnd).
  apply list.NoDup_cons in Hnd as (Hy & HB).
  rewrite elem_of_app, !elem_of_cons in Hz.
  rewrite elem_of_cons in Hx.
  apply list.NoDup_app. split; [exact HA|]. split.
  - intros q Hq Hq'. rewrite !elem_of_cons in Hq'.
    destruct Hq' as [->|[->|Hq']].
    + apply (Hdis x Hq). rewrite elem_of_cons. auto.
    + apply Hz. auto.
    + apply (Hdis q Hq). rewrite !elem_of_cons. auto.
  - apply list.NoDup_cons. split.
    + rewrite elem_of_cons. intros [->|Hin]; [apply Hz; auto | apply Hx; auto].
    + apply list.NoDup_cons. split; [|exact HB]. intros Hin. apply Hz. auto.
Qed.

Lemma NoDup_remove_pair (A B : list Z) (x y : Z) :
  NoDup (A ++ x :: y :: B) ->
  NoDup (A ++ B) /\ x <> y /\ (x ∉ A) /\ (y ∉ A) /\ (x ∉ B) /\ (y ∉ B).
Proof.
  intros Hnd.
  apply list.NoDup_app in Hnd as (HA & Hdis & Hnd).
  apply list.NoDup_cons in Hnd as (Hx & Hnd).
  apply list.NoDup_cons in Hnd as (Hy & HB).
  rewrite elem_of_cons in Hx.
  split; [|split; [|split; [|split; [|split]]]].
  - apply list.NoDup_app. split; [exact HA|]. split; [|exact HB].
    intros q Hq Hq'. apply (Hdis q Hq). rewrite !elem_of_cons. auto.
  - intros ->. apply Hx. auto.
  - intros Hin. apply (Hdis x Hin). rewrite elem_of_cons. auto.
  - intros Hin. apply (Hdis y Hin). rewrite !elem_of_cons. auto.
  - intros Hin. apply Hx. auto.
  - exact Hy.
Qed.

(** [KH_DictChange] on blob pointers: the old value is freed, the new one
    is stored. *)
Lemma Owns_Change (h : Mem.heap) (pd : Mem.KH_Dict) (es : list (KH_Blob * KH_Blob))
    (j : nat) (kj vj : KH_Blob) (vp : Z) (v : KH_Blob) :
  Owns h pd es -> es !! j = Some (kj, vj) ->
  vp <> 0 -> h vp = Mem.Live v -> vp ∉ owned pd ->
  exists pp pd',
    Mem.pairs pd !! j = Some pp
    /\ h (Mem.value pp) = Mem.Live vj
    /\ Mem.value pp ∈ owned pd
    /\ Mem.KH_DictChange pd (Z.of_nat j) vp h
       = Mem.Done pd' (Mem.set_cell (Mem.value pp) (Mem.Freed vj) h)
    /\ KH_DictChange (view h pd) (Z.of_nat j) v
       = Ok (view (Mem.set_cell (Mem.value pp) (Mem.Freed vj) h) pd')
    /\ Owns (Mem.set_cell (Mem.value pp) (Mem.Freed vj) h) pd' (<[j := (kj, v)]> es)
    /\ (forall q, q ∈ owned pd' <-> (q ∈ owned pd /\ q <> Mem.value pp) \/ q = vp).
Proof.
  intros O Hj Hvp Hv Hvno. pose proof (owns_rep _ _ _ O) as R.
  pose proof (rep_count _ _ R) as Hc. simpl in Hc.
  pose proof (lookup_lt_Some _ _ _ Hj) as Hjl.
  destruct (Owns_pair h pd es j kj vj O Hj)
    as (pp & Hpp & Hk0 & Hkl & Hv0 & Hvl & Hko & Hvo).
  pose proof (lookup_lt_Some _ _ _ Hpp) as Hppl.
  destruct (KH_DictChange_spec _ es j kj vj v R Hj) as (d' & Hch & R' & _).
  set (h' := Mem.set_cell (Mem.value pp) (Mem.Freed vj) h).
  set (pd' := {| Mem.slots := Mem.slots pd;
                 Mem.pairs := <[j := {| Mem.key := Mem.key pp; Mem.value := vp |}]>
                                (Mem.pairs pd);
                 Mem.data_count := Mem.data_count pd;
                 Mem.data_alloced := Mem.data_alloced pd |}).
  assert (Hrd : rd (Mem.pairs pd) (Z.of_nat j) = Ok pp).
  { apply rd_Ok. split; [lia|]. rewrite Nat2Z.id. exact Hpp. }
  assert (Hview : d' = view h' pd').
  { unfold KH_DictChange in Hch. simpl in Hch.
    rewrite rd_fmap, Hrd in Hch. simpl in Hch.
    rewrite wr_in_range in Hch by (rewrite length_fmap; lia).
    simpl in Hch. injection Hch as <-.
    unfold h'. rewrite (view_freed h pd' _ vj Hvl).
    unfold view, pd'. simpl. f_equal.
    rewrite list_fmap_insert, Nat2Z.id. f_equal.
    unfold view_pair. simpl. rewrite (contents_live h vp v Hvp Hv). reflexivity. }
  subst d'.
  (* the pointers of the entries, before and after *)
  pose proof (owned_split pd j pp Hpp ltac:(lia)) as Hsplit.
  set (A := pointers_of (take j (Mem.pairs pd))).
  set (B := pointers_of (drop (S j) (take (Z.to_nat (Mem.data_count pd)) (Mem.pairs pd)))).
  assert (Hold : owned pd = A ++ Mem.key pp :: Mem.value pp :: B).
  { unfold owned. rewrite Hsplit, pointers_of_app, pointers_of_cons. reflexivity. }
  assert (Hnew : owned pd' = A ++ Mem.key pp :: vp :: B).
  { unfold owned, pd'. simpl.
    rewrite take_insert_lt by lia. rewrite Hsplit.
    rewrite insert_app_r_alt by (rewrite length_take; lia).
    rewrite length_take, Nat.min_l, Nat.sub_diag by lia. simpl.
    rewrite pointers_of_app, pointers_of_cons. reflexivity. }
  assert (Hmem : forall q, q ∈ owned pd' <-> (q ∈ owned pd /\ q <> Mem.value pp) \/ q = vp).
  { pose proof (owns_distinct _ _ _ O) as Hnd. rewrite Hold in Hnd.
    destruct (NoDup_remove_pair A B (Mem.key pp) (Mem.value pp) Hnd)
      as (_ & Hkv & _ & HvA & _ & HvB).
    intros q. rewrite Hnew, Hold, !elem_of_app, !elem_of_cons. split.
    - intros [Hq|[->|[->|Hq]]]; auto.
      + left. split; [auto|]. intros ->. contradiction.
      + left. split; [auto|]. intros ->. contradiction.
    - intros [(Hq & Hne)| ->]; auto.
      destruct Hq as [Hq|[->|[->|Hq]]]; auto. contradiction. }
  exists pp, pd'. split; [exact Hpp|]. split; [exact Hvl|]. split; [exact Hvo|].
  split.
  { unfold Mem.KH_DictChange, Mem.bind, Mem.lift. rewrite Hrd.
    rewrite (free_live h _ vj Hv0 Hvl).
    rewrite wr_in_range by lia. rewrite Nat2Z.id. reflexivity. }
  split; [exact Hch|].
  split; [|exact Hmem]. split.
  - exact R'.
  - intros q Hq. apply Hmem in Hq as [[Hq Hne]| ->].
    + apply live_freed_other; [exact (owns_live _ _ _ O _ Hq) | exact Hne].
    + apply live_freed_other; [split; eauto|]. intros ->. contradiction.
  - rewrite Hnew. apply (NoDup_replace A B (Mem.key pp) (Mem.value pp) vp).
    + rewrite <- Hold. exact (owns_distinct _ _ _ O).
    + rewrite <- Hold. exact Hvno.
  - unfold pd'. simpl.
    pose proof (Forall_lookup_1 _ _ _ _ (owns_stored _ _ _ O) Hpp) as [Hsk _].
    apply Forall_insert.
    + eapply Forall_impl; [|exact (owns_stored _ _ _ O)].
      intros p [H1 H2]. unfold stored_ok, h'.
      rewrite !(contents_freed h _ vj) by exact Hvl. auto.
    + unfold stored_ok, h'. simpl.
      rewrite !(contents_freed h _ vj) by exact Hvl.
      split; [exact Hsk|]. right. rewrite (contents_live h vp v Hvp Hv). discriminate.
Qed.

Lemma Mem_shift_fmap (f : Mem.KH_DictPair -> KH_DictPair) (n : nat) :
  forall (l : list Mem.KH_DictPair) (i : Z),
    KH_DictRemove_shift n (f <$> l) i
    = match Mem.KH_DictRemove_shift n l i with
      | Ok l' => Ok (f <$> l')
      | Fault e => Fault e
      end.
Proof.
  induction n as [|n IH]; intros l i; simpl; [reflexivity|].
  rewrite rd_fmap. destruct (rd l i) as [p|e]; simpl; [|reflexivity].
  rewrite wr_fmap. destruct (wr l (usize (i - 1)) p) as [l'|e]; simpl;
    [apply IH | reflexivity].
Qed.

Lemma Mem_shift_spec :
  forall (n i0 : nat) (ps : list Mem.KH_DictPair),
    (S i0 + n <= length ps)%nat -> Z.of_nat (length ps) <= 2 ^ 32 ->
    exists ps',
      Mem.KH_DictRemove_shift n ps (Z.of_nat (S i0)) = Ok ps'
      /\ length ps' = length ps
      /\ forall j : nat,
           ps' !! j = if decide (i0 <= j < i0 + n)%nat then ps !! S j else ps !! j.
Proof.
  induction n as [|n IH]; intros i0 ps Hn Hlen; simpl.
  - exists ps. split; [reflexivity|]. split; [reflexivity|].
    intros j. destruct (decide _); [lia | reflexivity].
  - destruct (lookup_lt_is_Some_2 ps (S i0)) as [p Hp]; [lia|].
    assert (Hrd : rd ps (Z.of_nat (S i0)) = Ok p).
    { apply rd_Ok. split; [lia|]. rewrite Nat2Z.id. exact Hp. }
    rewrite Hrd. simpl.
    assert (Hprev : usize (Z.of_nat (S i0) - 1) = Z.of_nat i0) by (rewrite usize_id; lia).
    assert (Hnext : usize (Z.of_nat (S i0) + 1) = Z.of_nat (S (S i0)))
      by (rewrite usize_id; lia).
    rewrite Hprev, Hnext, wr_in_range by lia. simpl. rewrite Nat2Z.id.
    destruct (IH (S i0) (<[i0 := p]> ps)) as (ps' & Hrun & Hl & Hget).
    { rewrite length_insert. lia. }
    { rewrite length_insert. exact Hlen. }
    exists ps'. split; [exact Hrun|]. split.
    { rewrite Hl. apply length_insert. }
    intros j. rewrite Hget.
    destruct (decide (S i0 <= j < S i0 + n)%nat) as [Hin|Hout].
    + destruct (decide (i0 <= j < i0 + S n)%nat); [|lia].
      apply list_lookup_insert_ne. lia.
    + destruct (decide (j = i0)) as [->|Hne].
      * destruct (decide (i0 <= i0 < i0 + S n)%nat); [|lia].
        rewrite list_lookup_insert_eq by lia. symmetry. exact Hp.
      * destruct (decide (i0 <= j < i0 + S n)%nat); [lia|].
        apply list_lookup_insert_ne. lia.
Qed.

(** [KH_DictRemove] on blob pointers: the key and the value of the entry
    are freed, the other entries stay. *)
Lemma Owns_Remove (h : Mem.heap) (pd : Mem.KH_Dict) (es : list (KH_Blob * KH_Blob))
    (x : nat) (kx vx : KH_Blob) :
  Owns h pd es -> es !! x = Some (kx, vx) ->
  exists pp pd',
    Mem.pairs pd !! x = Some pp
    /\ h (Mem.key pp) = Mem.Live kx /\ h (Mem.value pp) = Mem.Live vx
    /\ Mem.key pp ∈ owned pd /\ Mem.value pp ∈ owned pd
    /\ Mem.KH_DictRemove pd (Z.of_nat x) h
       = Mem.Done pd' (Mem.set_cell (Mem.value pp) (Mem.Freed vx)
                         (Mem.set_cell (Mem.key pp) (Mem.Freed kx) h))
    /\ KH_DictRemove (view h pd) (Z.of_nat x)
       = Ok (view (Mem.set_cell (Mem.value pp) (Mem.Freed vx)
                     (Mem.set_cell (Mem.key pp) (Mem.Freed kx) h)) pd')
    /\ Owns (Mem.set_cell (Mem.value pp) (Mem.Freed vx)
               (Mem.set_cell (Mem.key pp) (Mem.Freed kx) h)) pd' (delete x es)
    /\ (forall q, q ∈ owned pd' <->
                  q ∈ owned pd /\ q <> Mem.key pp /\ q <> Mem.value pp).
Proof.
  intros O Hx. pose proof (owns_rep _ _ _ O) as R.
  pose proof (rep_count _ _ R) as Hc. simpl in Hc.
  pose proof (rep_pairs_len _ _ R) as Hplen. simpl in Hplen.
  rewrite length_fmap in Hplen.
  pose proof (lookup_lt_Some _ _ _ Hx) as Hxl.
  destruct (Owns_pair h pd es x kx vx O Hx)
    as (pp & Hpp & Hk0 & Hkl & Hv0 & Hvl & Hko & Hvo).
  pose proof (lookup_lt_Some _ _ _ Hpp) as Hppl.
  destruct (rep_shape _ _ R) as [(_ & _ & ->)|(T & Hload & Hnull)];
    [discriminate|].
  pose proof (cap_ok_range _ (tok_cap _ _ _ T)) as Hr. simpl in Hr.
  pose proof (rd_bound _ _ _ Hnull) as Hthr. simpl in Hthr, Hload.
  rewrite length_fmap in Hthr.
  (* the pointers of the entries *)
  pose proof (owned_split pd x pp Hpp ltac:(lia)) as Hsplit.
  set (A := pointers_of (take x (Mem.pairs pd))).
  set (B := pointers_of (drop (S x) (take (Z.to_nat (Mem.data_count pd)) (Mem.pairs pd)))).
  assert (Hold : owned pd = A ++ Mem.key pp :: Mem.value pp :: B).
  { unfold owned. rewrite Hsplit, pointers_of_app, pointers_of_cons. reflexivity. }
  pose proof (owns_distinct _ _ _ O) as Hnd. rewrite Hold in Hnd.
  destruct (NoDup_remove_pair A B _ _ Hnd) as (HndAB & Hkv & HkA & HvA & HkB & HvB).
  set (h1 := Mem.set_cell (Mem.key pp) (Mem.Freed kx) h).
  set (h' := Mem.set_cell (Mem.value pp) (Mem.Freed vx) h1).
  assert (Hvl1 : h1 (Mem.value pp) = Mem.Live vx).
  { unfold h1, Mem.set_cell.
    destruct (Z.eqb_spec (Mem.value pp) (Mem.key pp)); [congruence | exact Hvl]. }
  assert (Hcont : forall q, contents h' q = contents h q).
  { intros q. unfold h'. rewrite (contents_freed h1 _ vx q Hvl1).
    unfold h1. apply contents_freed. exact Hkl. }
  (* the two loops *)
  destruct (KH_DictRemove_spec _ es x R Hxl) as (d' & Hrem & R' & _).
  assert (Hrd : rd (Mem.pairs pd) (Z.of_nat x) = Ok pp).
  { apply rd_Ok. split; [lia|]. rewrite Nat2Z.id. exact Hpp. }
  assert (Hx1 : usize (Z.of_nat x + 1) = Z.of_nat (S x)) by (rewrite usize_id; lia).
  destruct (Mem_shift_spec (length es - S x) x (Mem.pairs pd))
    as (ps' & Hshift & Hpl & Hpget); [lia | lia |].
  pose proof Hrem as Hrem'.
  unfold KH_DictRemove in Hrem'. simpl in Hrem'.
  rewrite rd_fmap, Hrd in Hrem'. simpl in Hrem'.
  rewrite Hx1, Hc, Mem_shift_fmap in Hrem'.
  replace (Z.to_nat (Z.of_nat (length es) - Z.of_nat (S x)))
    with (length es - S x)%nat in Hrem' by lia.
  rewrite Hshift in Hrem'. simpl in Hrem'.
  destruct (KH_DictRemove_fixup (Z.to_nat (Mem.data_alloced pd)) (Mem.slots pd)
              (Z.of_nat x) 0) as [sl'|f] eqn:Efix; simpl in Hrem'; [|discriminate].
  injection Hrem' as <-.
  set (pd' := {| Mem.slots := sl'; Mem.pairs := ps';
                 Mem.data_count := usize (Z.of_nat (length es) - 1);
                 Mem.data_alloced := Mem.data_alloced pd |}).
  assert (Hview : view h' pd' = view h pd').
  { apply view_ext. intros p _. split; apply Hcont. }
  assert (Hcount' : usize (Z.of_nat (length es) - 1) = Z.of_nat (length es - 1))
    by (rewrite usize_id; lia).
  assert (Hnew : owned pd' = A ++ B).
  { unfold owned, pd'. simpl. rewrite Hcount', Nat2Z.id.
    unfold A, B. rewrite <- pointers_of_app. f_equal.
    rewrite Hc, Nat2Z.id.
    apply list_eq. intros j.
    destruct (decide (j < length es - 1)%nat) as [Hj|Hj].
    - rewrite lookup_take_lt by lia. rewrite Hpget.
      destruct (decide (j < x)%nat).
      + rewrite lookup_app_l by (rewrite length_take; lia).
        rewrite lookup_take_lt by lia.
        destruct (decide (x <= j < x + (length es - S x))%nat); [lia | reflexivity].
      + rewrite lookup_app_r by (rewrite length_take; lia).
        rewrite length_take, Nat.min_l by lia.
        rewrite lookup_drop, lookup_take_lt by lia.
        destruct (decide (x <= j < x + (length es - S x))%nat); [|lia].
        f_equal. lia.
    - rewrite lookup_take_ge by lia. symmetry. apply lookup_ge_None_2.
      rewrite length_app, length_take, length_drop, length_take. lia. }
  assert (Hmem : forall q, q ∈ owned pd' <->
                           q ∈ owned pd /\ q <> Mem.key pp /\ q <> Mem.value pp).
  { intros q. rewrite Hnew, Hold, !elem_of_app, !elem_of_cons. split.
    - intros [Hq|Hq]; (split; [auto|]); split; intros ->; contradiction.
    - intros ([Hq|[->|[->|Hq]]] & H1 & H2); auto; contradiction. }
  exists pp, pd'. split; [exact Hpp|]. split; [exact Hkl|]. split; [exact Hvl|].
  split; [exact Hko|]. split; [exact Hvo|]. split.
  { unfold Mem.KH_DictRemove, Mem.bind, Mem.lift. rewrite Hrd.
    rewrite (free_live h _ kx Hk0 Hkl).
    fold h1. rewrite (free_live h1 _ vx Hv0 Hvl1). fold h'.
    rewrite Hx1, Hc.
    replace (Z.to_nat (Z.of_nat (length es) - Z.of_nat (S x)))
      with (length es - S x)%nat by lia.
    rewrite Hshift, Efix. reflexivity. }
  split; [rewrite Hrem; f_equal; symmetry; exact Hview|].
  split; [|exact Hmem]. split.
  - fold h1 h'. rewrite Hview. exact R'.
  - intros q Hq. apply Hmem in Hq as (Hq & Hqk & Hqv).
    apply live_freed_other; [|exact Hqv].
    apply live_freed_other; [exact (owns_live _ _ _ O _ Hq) | exact Hqk].
  - rewrite Hnew. exact HndAB.
  - unfold pd'. simpl. apply Forall_lookup_2. intros j p Hj.
    assert (Hin : exists j', Mem.pairs pd !! j' = Some p).
    { rewrite Hpget in Hj. destruct (decide _); eauto. }
    destruct Hin as [j' Hj'].
    pose proof (Forall_lookup_1 _ _ _ _ (owns_stored _ _ _ O) Hj') as [H1 H2].
    unfold stored_ok. fold h1 h'. rewrite !Hcont. auto.
Qed.

(** ** Set and delete *)

Lemma live_Live (h : Mem.heap) (p : Z) (b : KH_Blob) :
  p <> 0 -> h p = Mem.Live b -> live h p.
Proof. intros Hp H. split; [exact Hp | eauto]. Qed.

Lemma set_cell_other (h : Mem.heap) (p q : Z) (c : Mem.cell) :
  q <> p -> Mem.set_cell p c h q = h q.
Proof.
  intros Hne. unfold Mem.set_cell. destruct (Z.eqb_spec q p); [contradiction|].
  reflexivity.
Qed.

Lemma set_cell_same (h : Mem.heap) (p : Z) (c : Mem.cell) :
  Mem.set_cell p c h p = c.
Proof. unfold Mem.set_cell. rewrite Z.eqb_refl. reflexivity. Qed.

(** [KH_DictSet] on blob pointers, for a key that is there: the old value
    and the key blob given are freed, the value given is stored. *)
Lemma Owns_Set_old (a b : bool) (h : Mem.heap) (pd : Mem.KH_Dict)
    (es : list (KH_Blob * KH_Blob)) (kp vp : Z) (k v : KH_Blob)
    (j : nat) (kj vj : KH_Blob) :
  Owns h pd es ->
  kp <> 0 -> h kp = Mem.Live k -> vp <> 0 -> h vp = Mem.Live v ->
  kp <> vp -> kp ∉ owned pd -> vp ∉ owned pd ->
  es !! j = Some (kj, vj) -> KH_BlobEqual k kj = true ->
  exists pp pd',
    Mem.pairs pd !! j = Some pp
    /\ h (Mem.value pp) = Mem.Live vj
    /\ Mem.value pp ∈ owned pd
    /\ Mem.KH_DictSet a b pd kp vp h
       = Mem.Done (pd', true)
           (Mem.set_cell kp (Mem.Freed k)
              (Mem.set_cell (Mem.value pp) (Mem.Freed vj) h))
    /\ KH_DictSet a b (view h pd) k v
       = Ok (view (Mem.set_cell kp (Mem.Freed k)
                     (Mem.set_cell (Mem.value pp) (Mem.Freed vj) h)) pd', true)
    /\ Owns (Mem.set_cell kp (Mem.Freed k)
               (Mem.set_cell (Mem.value pp) (Mem.Freed vj) h)) pd'
            (<[j := (kj, v)]> es)
    /\ (forall q, q ∈ owned pd' <-> (q ∈ owned pd /\ q <> Mem.value pp) \/ q = vp).
Proof.
  intros O Hkp Hk Hvp Hv Hne Hkno Hvno Hj Hkj.
  pose proof (owns_rep _ _ _ O) as R.
  destruct (Owns_Change h pd es j kj vj vp v O Hj Hvp Hv Hvno)
    as (pp & pd' & Hpp & Hvl & Hvo & Hch & Hchv & O' & Hmem).
  set (h1 := Mem.set_cell (Mem.value pp) (Mem.Freed vj) h) in *.
  assert (Hk1 : h1 kp = Mem.Live k).
  { unfold h1. rewrite set_cell_other; [exact Hk|]. intros ->. contradiction. }
  assert (Hkno' : kp ∉ owned pd').
  { intros Hin. apply Hmem in Hin as [[Hin _]| ->]; contradiction. }
  exists pp, pd'. split; [exact Hpp|]. split; [exact Hvl|]. split; [exact Hvo|].
  split; [|split; [|split; [|exact Hmem]]].
  - unfold Mem.KH_DictSet, Mem.bind.
    rewrite (Mem_lookup_found h pd es O kp k Hkp Hk j kj vj Hj Hkj).
    rewrite (index_not_NOT_FOUND _ _ _ R (lookup_lt_Some _ _ _ Hj)).
    rewrite Hch. fold h1. rewrite (free_live h1 kp k Hkp Hk1). reflexivity.
  - unfold KH_DictSet.
    rewrite (Rep_lookup_found _ _ _ _ _ _ R Hj Hkj). simpl.
    rewrite (index_not_NOT_FOUND _ _ _ R (lookup_lt_Some _ _ _ Hj)).
    rewrite Hchv. fold h1. rewrite (view_freed h1 pd' kp k Hk1). reflexivity.
  - exact (Owns_freed h1 pd' _ kp k O' Hk1 Hkno').
Qed.

(** [KH_DictSet] on blob pointers, for a key that is not there: both blobs
    are stored and nothing is freed, or the resize fails and nothing
    happens. *)
Lemma Owns_Set_new (a b : bool) (h : Mem.heap) (pd : Mem.KH_Dict)
    (es : list (KH_Blob * KH_Blob)) (kp vp : Z) (k v : KH_Blob) :
  Owns h pd es ->
  kp <> 0 -> h kp = Mem.Live k -> vp <> 0 -> h vp = Mem.Live v ->
  kp <> vp -> kp ∉ owned pd -> vp ∉ owned pd ->
  absent k es -> Z.of_nat (length es) < KH_MAX_COUNT ->
  (a && b = false /\ at_threshold (view h pd)
   /\ Mem.KH_DictSet a b pd kp vp h = Mem.Done (pd, false) h
   /\ KH_DictSet a b (view h pd) k v = Ok (view h pd, false))
  \/ ((a && b = true \/ ~ at_threshold (view h pd))
      /\ exists pd',
           Mem.KH_DictSet a b pd kp vp h = Mem.Done (pd', true) h
           /\ KH_DictSet a b (view h pd) k v = Ok (view h pd', true)
           /\ Owns h pd' (es ++ [(k, v)])
           /\ owned pd' = owned pd ++ [kp; vp]).
Proof.
  intros O Hkp Hk Hvp Hv Hne Hkno Hvno Ha Hmax.
  pose proof (owns_rep _ _ _ O) as R.
  assert (Hm : forall r, Mem.KH_DictInsert a b pd kp vp h = r ->
                         Mem.KH_DictSet a b pd kp vp h = r).
  { intros r <-. unfold Mem.KH_DictSet, Mem.bind.
    rewrite (Mem_lookup_absent h pd es O kp k Hkp Hk Ha). reflexivity. }
  assert (Hvl : forall r, KH_DictInsert a b (view h pd) k v = r ->
                          KH_DictSet a b (view h pd) k v = r).
  { intros r <-. unfold KH_DictSet.
    rewrite (Rep_lookup_absent _ _ _ R Ha). reflexivity. }
  destruct (Owns_Insert a b h pd es kp vp k v O Hkp Hk Hvp Hv Hne Hkno Hvno Ha Hmax)
    as [(H1 & H2 & H3 & H4)|(H1 & pd' & H2 & H3 & H4 & H5)].
  - left. auto.
  - right. split; [exact H1|]. exists pd'. auto.
Qed.

(** [KH_DictDelete] on blob pointers: the key blob given is freed, and
    with it the key and the value of the entry, if there is one. *)
Lemma Owns_Delete_found (h : Mem.heap) (pd : Mem.KH_Dict)
    (es : list (KH_Blob * KH_Blob)) (kp : Z) (k : KH_Blob)
    (x : nat) (kx vx : KH_Blob) :
  Owns h pd es -> kp <> 0 -> h kp = Mem.Live k -> kp ∉ owned pd ->
  es !! x = Some (kx, vx) -> KH_BlobEqual k kx = true ->
  exists pp pd',
    Mem.pairs pd !! x = Some pp
    /\ h (Mem.key pp) = Mem.Live kx /\ h (Mem.value pp) = Mem.Live vx
    /\ Mem.key pp ∈ owned pd /\ Mem.value pp ∈ owned pd
    /\ Mem.KH_DictDelete pd kp h
       = Mem.Done (pd', true)
           (Mem.set_cell kp (Mem.Freed k)
              (Mem.set_cell (Mem.value pp) (Mem.Freed vx)
                 (Mem.set_cell (Mem.key pp) (Mem.Freed kx) h)))
    /\ KH_DictDelete (view h pd) k
       = Ok (view (Mem.set_cell kp (Mem.Freed k)
                     (Mem.set_cell (Mem.value pp) (Mem.Freed vx)
                        (Mem.set_cell (Mem.key pp) (Mem.Freed kx) h))) pd', true)
    /\ Owns (Mem.set_cell kp (Mem.Freed k)
               (Mem.set_cell (Mem.value pp) (Mem.Freed vx)
                  (Mem.set_cell (Mem.key pp) (Mem.Freed kx) h))) pd' (delete x es)
    /\ (forall q, q ∈ owned pd' <->
                  q ∈ owned pd /\ q <> Mem.key pp /\ q <> Mem.value pp).
Proof.
  intros O Hkp Hk Hkno Hx Hkx. pose proof (owns_rep _ _ _ O) as R.
  destruct (Owns_Remove h pd es x kx vx O Hx)
    as (pp & pd' & Hpp & Hkl & Hvl & Hko & Hvo & Hrem & Hremv & O' & Hmem).
  set (h2 := Mem.set_cell (Mem.value pp) (Mem.Freed vx)
               (Mem.set_cell (Mem.key pp) (Mem.Freed kx) h)) in *.
  assert (Hk2 : h2 kp = Mem.Live k).
  { unfold h2. rewrite !set_cell_other; [exact Hk | |]; intros ->; contradiction. }
  assert (Hkno' : kp ∉ owned pd').
  { intros Hin. apply Hmem in Hin as (Hin & _). contradiction. }
  exists pp, pd'. split; [exact Hpp|]. split; [exact Hkl|]. split; [exact Hvl|].
  split; [exact Hko|]. split; [exact Hvo|].
  split; [|split; [|split; [|exact Hmem]]].
  - unfold Mem.KH_DictDelete, Mem.bind.
    rewrite (Mem_lookup_found h pd es O kp k Hkp Hk x kx vx Hx Hkx).
    rewrite (index_not_NOT_FOUND _ _ _ R (lookup_lt_Some _ _ _ Hx)).
    rewrite Hrem. fold h2. rewrite (free_live h2 kp k Hkp Hk2). reflexivity.
  - unfold KH_DictDelete.
    rewrite (Rep_lookup_found _ _ _ _ _ _ R Hx Hkx). simpl.
    rewrite (index_not_NOT_FOUND _ _ _ R (lookup_lt_Some _ _ _ Hx)).
    rewrite Hremv. fold h2. rewrite (view_freed h2 pd' kp k Hk2). reflexivity.
  - exact (Owns_freed h2 pd' _ kp k O' Hk2 Hkno').
Qed.

Lemma Owns_Delete_absent (h : Mem.heap) (pd : Mem.KH_Dict)
    (es : list (KH_Blob * KH_Blob)) (kp : Z) (k : KH_Blob) :
  Owns h pd es -> kp <> 0 -> h kp = Mem.Live k -> absent k es ->
  Mem.KH_DictDelete pd kp h = Mem.Done (pd, false) (Mem.set_cell kp (Mem.Freed k) h)
  /\ KH_DictDelete (view h pd) k
     = Ok (view (Mem.set_cell kp (Mem.Freed k) h) pd, false).
Proof.
  intros O Hkp Hk Ha. pose proof (owns_rep _ _ _ O) as R. split.
  - unfold Mem.KH_DictDelete, Mem.bind.
    rewrite (Mem_lookup_absent h pd es O kp k Hkp Hk Ha). simpl.
    rewrite (free_live h kp k Hkp Hk). reflexivity.
  - rewrite (Rep_Delete_absent _ _ R k Ha), (view_freed h pd kp k Hk). reflexivity.
Qed.

(** ** Releasing the dictionary *)

(** The loop of [KH_ReleaseDict] from position [i]: it frees the blobs of
    the entries from there on, and nothing else. *)
Lemma Mem_release_loop (pd : Mem.KH_Dict) (c : nat) :
  Z.of_nat c < 2 ^ 64 ->
  forall (n i : nat) (h : Mem.heap),
    (i + n)%nat = c ->
    (c <= length (Mem.pairs pd))%nat ->
    NoDup (pointers_of (drop i (take c (Mem.pairs pd)))) ->
    (forall q, q ∈ pointers_of (drop i (take c (Mem.pairs pd))) -> live h q) ->
    exists h',
      Mem.KH_ReleaseDict_loop n pd (Z.of_nat i) h = Mem.Done tt h'
      /\ (forall q, q ∈ pointers_of (drop i (take c (Mem.pairs pd))) ->
            exists b, h q = Mem.Live b /\ h' q = Mem.Freed b)
      /\ (forall q, q ∉ pointers_of (drop i (take c (Mem.pairs pd))) -> h' q = h q).
Proof.
  intros Hc64.
  induction n as [|n IH]; intros i h Hn Hlen Hnd Hlive; simpl.
  - exists h. split; [reflexivity|].
    rewrite drop_ge by (rewrite length_take; lia).
    split; [|auto]. intros q Hq. apply elem_of_nil in Hq. contradiction.
  - destruct (lookup_lt_is_Some_2 (Mem.pairs pd) i) as [pp Hpp]; [lia|].
    assert (Hdrop : drop i (take c (Mem.pairs pd))
                    = pp :: drop (S i) (take c (Mem.pairs pd))).
    { apply drop_S. rewrite lookup_take_lt by lia. exact Hpp. }
    rewrite Hdrop, pointers_of_cons in Hnd, Hlive |- *.
    set (T := pointers_of (drop (S i) (take c (Mem.pairs pd)))) in *.
    apply list.NoDup_cons in Hnd as (Hk & Hnd).
    apply list.NoDup_cons in Hnd as (Hv & Hnd).
    rewrite elem_of_cons in Hk.
    destruct (Hlive (Mem.key pp)) as [Hk0 [kb Hkb]]; [rewrite elem_of_cons; auto|].
    destruct (Hlive (Mem.value pp)) as [Hv0 [vb Hvb]]; [rewrite !elem_of_cons; auto|].
    assert (Hrd : rd (Mem.pairs pd) (Z.of_nat i) = Ok pp).
    { apply rd_Ok. split; [lia|]. rewrite Nat2Z.id. exact Hpp. }
    unfold Mem.bind, Mem.lift. rewrite Hrd.
    rewrite (free_live h _ kb Hk0 Hkb).
    set (h1 := Mem.set_cell (Mem.key pp) (Mem.Freed kb) h).
    assert (Hvb1 : h1 (Mem.value pp) = Mem.Live vb).
    { unfold h1. rewrite set_cell_other; [exact Hvb|]. intros E. apply Hk. auto. }
    rewrite (free_live h1 _ vb Hv0 Hvb1).
    set (h2 := Mem.set_cell (Mem.value pp) (Mem.Freed vb) h1).
    replace (usize (Z.of_nat i + 1)) with (Z.of_nat (S i)) by (rewrite usize_id; lia).
    destruct (IH (S i) h2) as (h' & Hrun & Hfreed & Hrest); [lia | exact Hlen | exact Hnd | |].
    { intros q Hq. unfold h2, h1.
      apply live_freed_other; [apply live_freed_other|].
      - apply Hlive. rewrite !elem_of_cons. auto.
      - intros ->. apply Hk. auto.
      - intros ->. contradiction. }
    exists h'. split; [exact Hrun|]. split.
    + intros q Hq. rewrite !elem_of_cons in Hq. destruct Hq as [->|[->|Hq]].
      * exists kb. split; [exact Hkb|]. rewrite Hrest.
        -- unfold h2. rewrite set_cell_other by (intros E; apply Hk; auto).
           unfold h1. apply set_cell_same.
        -- intros Hin. apply Hk. auto.
      * exists vb. split; [exact Hvb|]. rewrite Hrest by exact Hv.
        unfold h2. apply set_cell_same.
      * destruct (Hfreed q Hq) as (bq & Hq2 & Hq').
        exists bq. split; [|exact Hq'].
        unfold h2, h1 in Hq2. rewrite !set_cell_other in Hq2; [exact Hq2 | |].
        -- intros ->. apply Hk. auto.
        -- intros ->. contradiction.
    + intros q Hq. rewrite !elem_of_cons in Hq.
      rewrite Hrest by (intros Hin; apply Hq; auto).
      unfold h2, h1. rewrite !set_cell_other; [reflexivity | |]; intros ->; apply Hq; auto.
Qed.

(** The loop of [KH_ReleaseDict] when one of the blobs has been freed
    already: it gets to that blob, and frees it again. *)
Lemma Mem_release_loop_stuck (pd : Mem.KH_Dict) (c : nat) (q : Z) (b : KH_Blob) :
  Z.of_nat c < 2 ^ 64 -> q <> 0 ->
  forall (n i : nat) (h : Mem.heap),
    (i + n)%nat = c ->
    (c <= length (Mem.pairs pd))%nat ->
    NoDup (pointers_of (drop i (take c (Mem.pairs pd)))) ->
    q ∈ pointers_of (drop i (take c (Mem.pairs pd))) ->
    h q = Mem.Freed b ->
    (forall q', q' ∈ pointers_of (drop i (take c (Mem.pairs pd))) -> q' <> q ->
       live h q') ->
    Mem.KH_ReleaseDict_loop n pd (Z.of_nat i) h = Mem.Stuck Mem.DoubleFree.
Proof.
  intros Hc64 Hq0.
  induction n as [|n IH]; intros i h Hn Hlen Hnd Hq Hfreed Hlive; simpl.
  - rewrite drop_ge in Hq by (rewrite length_take; lia).
    apply elem_of_nil in Hq. contradiction.
  - destruct (lookup_lt_is_Some_2 (Mem.pairs pd) i) as [pp Hpp]; [lia|].
    assert (Hdrop : drop i (take c (Mem.pairs pd))
                    = pp :: drop (S i) (take c (Mem.pairs pd))).
    { apply drop_S. rewrite lookup_take_lt by lia. exact Hpp. }
    rewrite Hdrop, pointers_of_cons in Hnd, Hq, Hlive.
    set (T := pointers_of (drop (S i) (take c (Mem.pairs pd)))) in *.
    apply list.NoDup_cons in Hnd as (Hk & Hnd).
    apply list.NoDup_cons in Hnd as (Hv & Hnd).
    rewrite elem_of_cons in Hk.
    assert (Hrd : rd (Mem.pairs pd) (Z.of_nat i) = Ok pp).
    { apply rd_Ok. split; [lia|]. rewrite Nat2Z.id. exact Hpp. }
    unfold Mem.bind, Mem.lift. rewrite Hrd.
    destruct (Z.eq_dec (Mem.key pp) q) as [Ek|Ek].
    { unfold Mem.free. rewrite Ek.
      destruct (Z.eqb_spec q 0); [contradiction|]. rewrite Hfreed. reflexivity. }
    destruct (Hlive (Mem.key pp)) as [Hk0 [kb Hkb]];
      [rewrite elem_of_cons; auto | exact Ek |].
    rewrite (free_live h _ kb Hk0 Hkb).
    set (h1 := Mem.set_cell (Mem.key pp) (Mem.Freed kb) h).
    assert (Hq1 : h1 q = Mem.Freed b).
    { unfold h1. rewrite set_cell_other by auto. exact Hfreed. }
    destruct (Z.eq_dec (Mem.value pp) q) as [Ev|Ev].
    { unfold Mem.free. rewrite Ev.
      destruct (Z.eqb_spec q 0); [contradiction|]. rewrite Hq1. reflexivity. }
    destruct (Hlive (Mem.value pp)) as [Hv0 [vb Hvb]];
      [rewrite !elem_of_cons; auto | exact Ev |].
    assert (Hvb1 : h1 (Mem.value pp) = Mem.Live vb).
    { unfold h1. rewrite set_cell_other; [exact Hvb|]. intros E. apply Hk. auto. }
    rewrite (free_live h1 _ vb Hv0 Hvb1).
    set (h2 := Mem.set_cell (Mem.value pp) (Mem.Freed vb) h1).
    replace (usize (Z.of_nat i + 1)) with (Z.of_nat (S i)) by (rewrite usize_id; lia).
    apply (IH (S i) h2); [lia | exact Hlen | exact Hnd | | |].
    + rewrite !elem_of_cons in Hq. destruct Hq as [E|[E|Hq]]; [congruence.. | exact Hq].
    + unfold h2. rewrite set_cell_other by auto. exact Hq1.
    + intros q' Hq' Hne. unfold h2, h1.
      apply live_freed_other; [apply live_freed_other|].
      * apply Hlive; [rewrite !elem_of_cons; auto | exact Hne].
      * intros ->. apply Hk. auto.
      * intros ->. contradiction.
Qed.

(** ** Proper use *)

(** A new blob changes nothing for the dictionary. *)
Lemma Owns_alloc (h : Mem.heap) (pd : Mem.KH_Dict) (es : list (KH_Blob * KH_Blob))
    (p : Z) (b : KH_Blob) :
  Owns h pd es -> h p = Mem.Unused ->
  Owns (Mem.set_cell p (Mem.Live b) h) pd es
  /\ view (Mem.set_cell p (Mem.Live b) h) pd = view h pd
  /\ p ∉ owned pd.
Proof.
  intros O Hp.
  assert (Hno : p ∉ owned pd).
  { intros Hin. destruct (owns_live _ _ _ O _ Hin) as [_ [b' Hb']]. congruence. }
  assert (Hcont : forall q, q = 0 \/ contents h q <> None ->
                            contents (Mem.set_cell p (Mem.Live b) h) q = contents h q).
  { intros q Hq. unfold contents, Mem.set_cell.
    destruct (Z.eqb_spec q 0); [reflexivity|].
    destruct (Z.eqb_spec q p) as [->|]; [|reflexivity].
    exfalso. destruct Hq as [Hq|Hq]; [contradiction|]. apply Hq.
    unfold contents. destruct (Z.eqb_spec p 0); [reflexivity|]. rewrite Hp. reflexivity. }
  assert (Hview : view (Mem.set_cell p (Mem.Live b) h) pd = view h pd).
  { apply view_ext. intros pp Hin.
    apply list_elem_of_lookup in Hin as [i Hi].
    destruct (Forall_lookup_1 _ _ _ _ (owns_stored _ _ _ O) Hi) as [Hk Hv].
    split; apply Hcont; assumption. }
  split; [|split; [exact Hview | exact Hno]]. split.
  - rewrite Hview. exact (owns_rep _ _ _ O).
  - intros q Hq. apply live_freed_other; [exact (owns_live _ _ _ O _ Hq)|].
    intros ->. contradiction.
  - exact (owns_distinct _ _ _ O).
  - eapply Forall_impl; [|exact (owns_stored _ _ _ O)].
    intros pp [Hk Hv]. unfold stored_ok. rewrite !Hcont by assumption. auto.
Qed.

Lemma Owns_zero (h : Mem.heap) : Owns h Mem.KH_Dict_zero [].
Proof.
  split.
  - exact Rep_zero.
  - intros q Hq. apply elem_of_nil in Hq. contradiction.
  - apply NoDup_nil_2.
  - apply Forall_nil_2.
Qed.

(** One step of a caller keeps the dictionary in order, and is a step of
    the dictionary of blobs. *)
Lemma mem_step_Owns (h : Mem.heap) (pd : Mem.KH_Dict) (es : list (KH_Blob * KH_Blob))
    (h' : Mem.heap) (pd' : Mem.KH_Dict) :
  Owns h pd es -> mem_step h pd h' pd' ->
  (exists es', Owns h' pd' es')
  /\ (view h' pd' = view h pd \/ step (view h pd) (view h' pd')).
Proof.
  intros O Hs. pose proof (owns_rep _ _ _ O) as R.
  pose proof (rep_count _ _ R) as Hc. simpl in Hc.
  destruct Hs as [answer buffer len p h1 Hans Hrun
                 | p h1 Hno Hrun
                 | a b kp vp pd1 r h1 [Hkp [k Hk]] [Hvp [v Hv]] Hne Hkno Hvno Hmax Hrun
                 | kp pd1 r h1 [Hkp [k Hk]] Hkno Hrun
                 | kp vp h1 [Hkp [k Hk]] Hkno Hrun
                 | kp r h1 [Hkp [k Hk]] Hkno Hrun].
  - unfold Mem.KH_CreateBlob in Hrun.
    destruct (Z.eqb_spec answer 0) as [->|Hnz].
    + injection Hrun as <- <-. eauto.
    + destruct Hans as [?|Hans]; [contradiction|].
      injection Hrun as <- <-.
      destruct (Owns_alloc h pd es answer
                  {| blob_length := len; blob_hash := KH_Hash buffer len;
                     blob_data := take (Z.to_nat len) buffer |} O Hans)
        as (O' & Hview & _).
      eauto.
  - unfold Mem.KH_ReleaseBlob, Mem.free in Hrun.
    destruct (Z.eqb_spec p 0).
    + injection Hrun as <-. eauto.
    + destruct (h p) as [|bp|bp] eqn:Ep; try discriminate.
      injection Hrun as <-.
      split; [exists es; exact (Owns_freed h pd es p bp O Ep Hno)|].
      left. exact (view_freed h pd p bp Ep).
  - rewrite Hc in Hmax.
    destruct (present_or_absent k es) as [(j & kj & vj & Hj & Hkj)|Ha].
    + destruct (Owns_Set_old a b h pd es kp vp k v j kj vj O Hkp Hk Hvp Hv Hne
                  Hkno Hvno Hj Hkj)
        as (pp & pd2 & _ & _ & _ & Hset & Hsetv & O' & _).
      rewrite Hset in Hrun. injection Hrun as <- <- <-.
      split; [eauto|]. right. eapply step_set; [|exact Hsetv]. simpl. lia.
    + destruct (Owns_Set_new a b h pd es kp vp k v O Hkp Hk Hvp Hv Hne Hkno Hvno
                  Ha Hmax)
        as [(_ & _ & Hset & Hsetv)|(_ & pd2 & Hset & Hsetv & O' & _)];
        rewrite Hset in Hrun; injection Hrun as <- <- <-.
      * eauto.
      * split; [eauto|]. right. eapply step_set; [|exact Hsetv]. simpl. lia.
  - destruct (present_or_absent k es) as [(x & kx & vx & Hx & Hkx)|Ha].
    + destruct (Owns_Delete_found h pd es kp k x kx vx O Hkp Hk Hkno Hx Hkx)
        as (pp & pd2 & _ & _ & _ & _ & _ & Hdel & Hdelv & O' & _).
      rewrite Hdel in Hrun. injection Hrun as <- <- <-.
      split; [eauto|]. right. eapply step_delete. exact Hdelv.
    + destruct (Owns_Delete_absent h pd es kp k O Hkp Hk Ha) as [Hdel Hdelv].
      rewrite Hdel in Hrun. injection Hrun as <- <- <-.
      split; [exists es; exact (Owns_freed h pd es kp k O Hk Hkno)|].
      left. exact (view_freed h pd kp k Hk).
  - destruct (Owns_Get h pd es kp k O Hkp Hk) as (vp' & Hget & _).
    rewrite Hget in Hrun. injection Hrun as <- <-.
    split; [exists es; exact (Owns_freed h pd es kp k O Hk Hkno)|].
    left. exact (view_freed h pd kp k Hk).
  - destruct (Owns_Get h pd es kp k O Hkp Hk) as (vp' & _ & Hhas & _).
    rewrite Hhas in Hrun. injection Hrun as <- <-.
    split; [exists es; exact (Owns_freed h pd es kp k O Hk Hkno)|].
    left. exact (view_freed h pd kp k Hk).
Qed.

(** With a well-behaved caller the dictionary stays in order, and is a
    reachable dictionary of blobs. *)
Lemma well_used_Owns (h : Mem.heap) (pd : Mem.KH_Dict) :
  well_used h pd -> (exists es, Owns h pd es) /\ reachable (view h pd).
Proof.
  induction 1 as [h pd Hc | h pd h' pd' Hw [[es O] Hr] Hs].
  - injection Hc as <-. split; [exists []; apply Owns_zero|].
    apply reachable_create. reflexivity.
  - destruct (mem_step_Owns h pd es h' pd' O Hs) as [HO [Hv|Hv]].
    + split; [exact HO|]. rewrite Hv. exact Hr.
    + split; [exact HO|]. exact (reachable_step _ _ Hr Hv).
Qed.

(** ** Programs *)

Lemma Mem_KH_BlobForString (p : Z) (str : string) (h : Mem.heap) :
  p <> 0 ->
  Mem.KH_BlobForString p str h
  = Mem.Done p (Mem.set_cell p (Mem.Live (text_blob str)) h).
Proof.
  intros Hp. unfold Mem.KH_BlobForString, Mem.KH_CreateBlob.
  destruct (Z.eqb_spec p 0); [contradiction | reflexivity].
Qed.

Lemma mem_step_BlobForString (h : Mem.heap) (pd : Mem.KH_Dict) (p : Z) (str : string) :
  p <> 0 -> h p = Mem.Unused ->
  mem_step h pd (Mem.set_cell p (Mem.Live (text_blob str)) h) pd.
Proof.
  intros Hp Hu.
  apply (mem_step_create h pd p (bytes_of_string str ++ [x00])
           (usize (strlen (bytes_of_string str ++ [x00]) + 1)) p); [auto|].
  exact (Mem_KH_BlobForString p str h Hp).
Qed.

(** One call of a program: what it does to the dictionary, to its own
    blobs and to the rest of the heap. *)
Lemma use_step (u : use) (h : Mem.heap) (pd : Mem.KH_Dict)
    (es : list (KH_Blob * KH_Blob)) :
  Owns h pd es ->
  NoDup (use_addresses u) ->
  (forall p, p ∈ use_addresses u -> p <> 0 /\ h p = Mem.Unused) ->
  uses_with_memory [u] = true ->
  Z.of_nat (length es) < KH_MAX_COUNT ->
  exists pd' h' es',
    use_call u pd h = Mem.Done pd' h'
    /\ Owns h' pd' es'
    /\ (length es' <= S (length es))%nat
    /\ (well_used h pd -> well_used h' pd')
    /\ (forall p, p ∈ use_addresses u \/ p ∈ owned pd ->
          (exists b, h' p = Mem.Freed b) \/ p ∈ owned pd')
    /\ (forall p, p ∉ use_addresses u -> p ∉ owned pd -> h' p = h p)
    /\ (forall p, p ∈ owned pd' -> p ∈ use_addresses u \/ p ∈ owned pd).
Proof.
  intros O Hnd Hfresh Hmem Hmax.
  destruct u as [a b kp vp k v | kp k | kp k | kp k]; simpl in *.
  - (* set *)
    rewrite andb_true_r in Hmem.
    apply list.NoDup_cons in Hnd as (Hne & _).
    rewrite elem_of_cons, elem_of_nil in Hne.
    assert (Hne' : kp <> vp) by (intros ->; apply Hne; auto).
    destruct (Hfresh kp) as [Hkp Hku]; [rewrite elem_of_cons; auto|].
    destruct (Hfresh vp) as [Hvp Hvu]; [rewrite !elem_of_cons; auto|].
    set (ha := Mem.set_cell kp (Mem.Live (text_blob k)) h).
    set (hb := Mem.set_cell vp (Mem.Live (text_blob v)) ha).
    destruct (Owns_alloc h pd es kp (text_blob k) O Hku) as (Oa & _ & Hkno).
    fold ha in Oa.
    assert (Hvua : ha vp = Mem.Unused).
    { unfold ha. rewrite set_cell_other by auto. exact Hvu. }
    destruct (Owns_alloc ha pd es vp (text_blob v) Oa Hvua) as (Ob & _ & Hvno).
    fold hb in Ob.
    assert (Hkb : hb kp = Mem.Live (text_blob k)).
    { unfold hb. rewrite set_cell_other by auto. apply set_cell_same. }
    assert (Hvb : hb vp = Mem.Live (text_blob v)) by apply set_cell_same.
    assert (Hframe : forall p, p <> kp -> p <> vp -> hb p = h p).
    { intros p H1 H2. unfold hb, ha. rewrite !set_cell_other by auto. reflexivity. }
    assert (Hwb : well_used h pd -> well_used hb pd).
    { intros W. eapply well_used_step; [eapply well_used_step; [exact W|]|].
      - exact (mem_step_BlobForString h pd kp k Hkp Hku).
      - exact (mem_step_BlobForString ha pd vp v Hvp Hvua). }
    assert (Hcall : forall r, Mem.KH_DictSet a b pd kp vp hb = r ->
      Mem.bind (Mem.KH_BlobForString kp k) (fun key =>
      Mem.bind (Mem.KH_BlobForString vp v) (fun value =>
      Mem.bind (Mem.KH_DictSet a b pd key value) (fun r => Mem.ret r.1))) h
      = match r with
        | Mem.Done x h' => Mem.Done x.1 h'
        | Mem.Stuck f => Mem.Stuck f
        end).
    { intros r <-. unfold Mem.bind at 1.
      rewrite (Mem_KH_BlobForString kp k h Hkp). fold ha.
      unfold Mem.bind at 1. rewrite (Mem_KH_BlobForString vp v ha Hvp). fold hb.
      unfold Mem.bind, Mem.ret. destruct (Mem.KH_DictSet a b pd kp vp hb); reflexivity. }
    pose proof (rep_count _ _ (owns_rep _ _ _ O)) as Hc. simpl in Hc.
    destruct (present_or_absent (text_blob k) es) as [(j & kj & vj & Hj & Hkj)|Ha].
    + destruct (Owns_Set_old a b hb pd es kp vp _ _ j kj vj Ob Hkp Hkb Hvp Hvb Hne'
                  Hkno Hvno Hj Hkj)
        as (pp & pd' & Hpp & Hvl & Hvo & Hset & _ & O' & Hown).
      rewrite (Hcall _ Hset). simpl.
      assert (Hvold : Mem.value pp <> kp) by (intros E; rewrite E in Hvo; contradiction).
      eexists. eexists. exists (<[j := (kj, text_blob v)]> es).
      split; [reflexivity|]. split; [exact O'|].
      split; [rewrite length_insert; lia|]. split.
      { intros W. eapply well_used_step; [exact (Hwb W)|].
        eapply mem_step_set; [| | exact Hne' | exact Hkno | exact Hvno | | exact Hset].
        - exact (live_Live _ _ _ Hkp Hkb).
        - exact (live_Live _ _ _ Hvp Hvb).
        - lia. }
      split; [|split].
      * intros p Hp. rewrite !elem_of_cons, elem_of_nil in Hp.
        destruct Hp as [[->|[->|[]]]|Hp].
        -- left. exists (text_blob k). apply set_cell_same.
        -- right. apply Hown. auto.
        -- destruct (Z.eq_dec p (Mem.value pp)) as [->|Hnv].
           ++ left. exists vj. rewrite set_cell_other by exact Hvold.
              apply set_cell_same.
           ++ right. apply Hown. auto.
      * intros p Hp Hpo. rewrite !elem_of_cons, elem_of_nil in Hp.
        rewrite !set_cell_other; [apply Hframe; auto | | ]; intros ->;
          [contradiction | apply Hp; auto].
      * intros p Hp. apply Hown in Hp as [[Hp _]| ->]; [auto|].
        left. rewrite !elem_of_cons. auto.
    + destruct (Owns_Set_new a b hb pd es kp vp _ _ Ob Hkp Hkb Hvp Hvb Hne'
                  Hkno Hvno Ha Hmax)
        as [(Hno & _)|(_ & pd' & Hset & _ & O' & Hown)]; [congruence|].
      rewrite (Hcall _ Hset). simpl.
      eexists. eexists. exists (es ++ [(text_blob k, text_blob v)]).
      split; [reflexivity|]. split; [exact O'|].
      split; [rewrite length_app; simpl; lia|]. split.
      { intros W. eapply well_used_step; [exact (Hwb W)|].
        eapply mem_step_set; [| | exact Hne' | exact Hkno | exact Hvno | | exact Hset].
        - exact (live_Live _ _ _ Hkp Hkb).
        - exact (live_Live _ _ _ Hvp Hvb).
        - lia. }
      split; [|split].
      * intros p Hp. right. rewrite Hown, elem_of_app.
        destruct Hp as [Hp|Hp]; auto.
      * intros p Hp Hpo. rewrite !elem_of_cons, elem_of_nil in Hp.
        apply Hframe; intros ->; apply Hp; auto.
      * intros p Hp. rewrite Hown, elem_of_app in Hp. tauto.
  - (* delete *)
    destruct (Hfresh kp) as [Hkp Hku]; [rewrite elem_of_cons; auto|].
    set (ha := Mem.set_cell kp (Mem.Live (text_blob k)) h).
    destruct (Owns_alloc h pd es kp (text_blob k) O Hku) as (Oa & _ & Hkno).
    fold ha in Oa.
    assert (Hka : ha kp = Mem.Live (text_blob k)) by apply set_cell_same.
    assert (Hwa : well_used h pd -> well_used ha pd).
    { intros W. eapply well_used_step; [exact W|].
      exact (mem_step_BlobForString h pd kp k Hkp Hku). }
    assert (Hcall : forall r, Mem.KH_DictDelete pd kp ha = r ->
      Mem.bind (Mem.KH_BlobForString kp k) (fun key =>
      Mem.bind (Mem.KH_DictDelete pd key) (fun r => Mem.ret r.1)) h
      = match r with
        | Mem.Done x h' => Mem.Done x.1 h'
        | Mem.Stuck f => Mem.Stuck f
        end).
    { intros r <-. unfold Mem.bind at 1.
      rewrite (Mem_KH_BlobForString kp k h Hkp). fold ha.
      unfold Mem.bind, Mem.ret. destruct (Mem.KH_DictDelete pd kp ha); reflexivity. }
    destruct (present_or_absent (text_blob k) es) as [(x & kx & vx & Hx & Hkx)|Ha].
    + destruct (Owns_Delete_found ha pd es kp _ x kx vx Oa Hkp Hka Hkno Hx Hkx)
        as (pp & pd' & Hpp & Hkl & Hvl & Hko & Hvo & Hdel & _ & O' & Hown).
      rewrite (Hcall _ Hdel). simpl.
      assert (Hkk : Mem.key pp <> kp) by (intros E; rewrite E in Hko; contradiction).
      assert (Hvk : Mem.value pp <> kp) by (intros E; rewrite E in Hvo; contradiction).
      eexists. eexists. exists (delete x es).
      split; [reflexivity|]. split; [exact O'|].
      split; [pose proof (length_delete es x ltac:(eauto)); lia|]. split.
      { intros W. eapply well_used_step; [exact (Hwa W)|].
        eapply mem_step_delete; [| exact Hkno | exact Hdel].
        exact (live_Live _ _ _ Hkp Hka). }
      split; [|split].
      * intros p Hp. rewrite elem_of_cons, elem_of_nil in Hp.
        destruct Hp as [[->|[]]|Hp].
        -- left. exists (text_blob k). apply set_cell_same.
        -- destruct (Z.eq_dec p (Mem.value pp)) as [->|Hnv].
           { left. exists vx. rewrite set_cell_other by exact Hvk.
             apply set_cell_same. }
           destruct (Z.eq_dec p (Mem.key pp)) as [->|Hnk].
           { left. exists kx. rewrite set_cell_other by exact Hkk.
             rewrite set_cell_other by auto. apply set_cell_same. }
           right. apply Hown. auto.
      * intros p Hp Hpo. rewrite elem_of_cons, elem_of_nil in Hp.
        unfold ha.
        rewrite !set_cell_other by (intros ->; first [contradiction | apply Hp; auto]).
        reflexivity.
      * intros p Hp. apply Hown in Hp as (Hp & _). auto.
    + destruct (Owns_Delete_absent ha pd es kp _ Oa Hkp Hka Ha) as [Hdel _].
      rewrite (Hcall _ Hdel). simpl.
      eexists. eexists. exists es.
      split; [reflexivity|].
      split; [exact (Owns_freed ha pd es kp _ Oa Hka Hkno)|].
      split; [lia|]. split.
      { intros W. eapply well_used_step; [exact (Hwa W)|].
        eapply mem_step_delete; [| exact Hkno | exact Hdel].
        exact (live_Live _ _ _ Hkp Hka). }
      split; [|split].
      * intros p Hp. rewrite elem_of_cons, elem_of_nil in Hp.
        destruct Hp as [[->|[]]|Hp]; [|auto].
        left. exists (text_blob k). apply set_cell_same.
      * intros p Hp Hpo. rewrite elem_of_cons, elem_of_nil in Hp.
        unfold ha.
        rewrite !set_cell_other by (intros ->; first [contradiction | apply Hp; auto]).
        reflexivity.
      * auto.
  - (* get *)
    destruct (Hfresh kp) as [Hkp Hku]; [rewrite elem_of_cons; auto|].
    set (ha := Mem.set_cell kp (Mem.Live (text_blob k)) h).
    destruct (Owns_alloc h pd es kp (text_blob k) O Hku) as (Oa & _ & Hkno).
    fold ha in Oa.
    assert (Hka : ha kp = Mem.Live (text_blob k)) by apply set_cell_same.
    destruct (Owns_Get ha pd es kp _ Oa Hkp Hka) as (vp & Hget & _).
    unfold Mem.bind at 1. rewrite (Mem_KH_BlobForString kp k h Hkp). fold ha.
    unfold Mem.bind, Mem.ret. rewrite Hget.
    eexists. eexists. exists es.
    split; [reflexivity|].
    split; [exact (Owns_freed ha pd es kp _ Oa Hka Hkno)|].
    split; [lia|]. split.
    { intros W. eapply well_used_step; [eapply well_used_step; [exact W|]|].
      - exact (mem_step_BlobForString h pd kp k Hkp Hku).
      - eapply mem_step_get; [| exact Hkno | exact Hget].
        exact (live_Live _ _ _ Hkp Hka). }
    split; [|split].
    + intros p Hp. rewrite elem_of_cons, elem_of_nil in Hp.
      destruct Hp as [[->|[]]|Hp]; [|auto].
      left. exists (text_blob k). apply set_cell_same.
    + intros p Hp Hpo. rewrite elem_of_cons, elem_of_nil in Hp.
      unfold ha.
      rewrite !set_cell_other by (intros ->; first [contradiction | apply Hp; auto]).
      reflexivity.
    + auto.
  - (* has *)
    destruct (Hfresh kp) as [Hkp Hku]; [rewrite elem_of_cons; auto|].
    set (ha := Mem.set_cell kp (Mem.Live (text_blob k)) h).
    destruct (Owns_alloc h pd es kp (text_blob k) O Hku) as (Oa & _ & Hkno).
    fold ha in Oa.
    assert (Hka : ha kp = Mem.Live (text_blob k)) by apply set_cell_same.
    destruct (Owns_Get ha pd es kp _ Oa Hkp Hka) as (vp & _ & Hhas & _).
    unfold Mem.bind at 1. rewrite (Mem_KH_BlobForString kp k h Hkp). fold ha.
    unfold Mem.bind, Mem.ret. rewrite Hhas.
    eexists. eexists. exists es.
    split; [reflexivity|].
    split; [exact (Owns_freed ha pd es kp _ Oa Hka Hkno)|].
    split; [lia|]. split.
    { intros W. eapply well_used_step; [eapply well_used_step; [exact W|]|].
      - exact (mem_step_BlobForString h pd kp k Hkp Hku).
      - eapply mem_step_has; [| exact Hkno | exact Hhas].
        exact (live_Live _ _ _ Hkp Hka). }
    split; [|split].
    + intros p Hp. rewrite elem_of_cons, elem_of_nil in Hp.
      destruct Hp as [[->|[]]|Hp]; [|auto].
      left. exists (text_blob k). apply set_cell_same.
    + intros p Hp Hpo. rewrite elem_of_cons, elem_of_nil in Hp.
      unfold ha.
      rewrite !set_cell_other by (intros ->; first [contradiction | apply Hp; auto]).
      reflexivity.
    + auto.
Qed.

Lemma addresses_cons (u : use) (us : list use) :
  addresses (u :: us) = use_addresses u ++ addresses us.
Proof. reflexivity. Qed.

(** The calls of a program, one after the other. *)
Lemma play_spec (us : list use) :
  forall (h : Mem.heap) (pd : Mem.KH_Dict) (es : list (KH_Blob * KH_Blob)),
    Owns h pd es ->
    NoDup (addresses us) ->
    (forall p, p ∈ addresses us -> p <> 0 /\ h p = Mem.Unused) ->
    uses_with_memory us = true ->
    Z.of_nat (length es) + Z.of_nat (length us) <= KH_MAX_COUNT ->
    exists pd' h' es',
      play us pd h = Mem.Done pd' h'
      /\ Owns h' pd' es'
      /\ (well_used h pd -> well_used h' pd')
      /\ (forall p, p ∈ addresses us \/ p ∈ owned pd ->
            (exists b, h' p = Mem.Freed b) \/ p ∈ owned pd')
      /\ (forall p, p ∉ addresses us -> p ∉ owned pd -> h' p = h p)
      /\ (forall p, p ∈ owned pd' -> p ∈ addresses us \/ p ∈ owned pd).
Proof.
  induction us as [|u us IH]; intros h pd es O Hnd Hfresh Hmem Hmax.
  - exists pd, h, es. simpl. unfold Mem.ret.
    split; [reflexivity|]. split; [exact O|]. split; [auto|].
    split; [|split; [reflexivity | auto]].
    intros p [Hp|Hp]; [apply elem_of_nil in Hp; contradiction | auto].
  - rewrite addresses_cons in Hnd, Hfresh.
    apply list.NoDup_app in Hnd as (Hnd1 & Hdis & Hnd2).
    simpl in Hmem. apply andb_true_iff in Hmem as [Hm1 Hm2].
    simpl length in Hmax.
    destruct (use_step u h pd es O Hnd1) as (pd1 & h1 & es1 & Hrun1 & O1 & Hlen1 & W1 & A1 & B1 & C1).
    { intros p Hp. apply Hfresh. rewrite elem_of_app. auto. }
    { simpl. rewrite Hm1. reflexivity. }
    { lia. }
    assert (Hunused : forall p, p ∈ addresses us -> p ∉ owned pd).
    { intros p Hp Hin. destruct (owns_live _ _ _ O _ Hin) as [_ [b Hb]].
      destruct (Hfresh p) as [_ Hu]; [rewrite elem_of_app; auto|]. congruence. }
    destruct (IH h1 pd1 es1 O1 Hnd2) as (pd' & h' & es' & Hrun & O' & W' & A2 & B2 & C2).
    { intros p Hp. destruct (Hfresh p) as [Hp0 Hu]; [rewrite elem_of_app; auto|].
      split; [exact Hp0|]. rewrite B1; [exact Hu | | exact (Hunused p Hp)].
      intros Hin. exact (Hdis p Hin Hp). }
    { exact Hm2. }
    { lia. }
    exists pd', h', es'. rewrite addresses_cons. cbn [play]. unfold Mem.bind.
    rewrite Hrun1.
    split; [exact Hrun|]. split; [exact O'|]. split; [auto|].
    split; [|split].
    + intros p Hp. rewrite elem_of_app in Hp.
      assert (Hcase : p ∈ addresses us \/ p ∈ use_addresses u \/ p ∈ owned pd) by tauto.
      destruct Hcase as [Hp2|Hp1]; [apply A2; auto|].
      destruct (A1 p Hp1) as [[b Hb]|Hin1]; [|apply A2; auto].
      left. exists b. rewrite B2; [exact Hb | |].
      * intros Hin. destruct (Hfresh p) as [_ Hu]; [rewrite elem_of_app; auto|].
        destruct Hp1 as [Hp1|Hp1].
        -- exact (Hdis p Hp1 Hin).
        -- exact (Hunused p Hin Hp1).
      * intros Hin. destruct (owns_live _ _ _ O1 _ Hin) as [_ [b' Hb']]. congruence.
    + intros p Hp Hpo. rewrite elem_of_app in Hp.
      rewrite B2; [apply B1; tauto | tauto |].
      intros Hin. destruct (C1 p Hin); tauto.
    + intros p Hp. rewrite elem_of_app.
      destruct (C2 p Hp) as [?|Hin]; [auto|]. destruct (C1 p Hin); auto.
Qed.

Lemma fresh_addresses_spec (h : Mem.heap) (us : list use) :
  fresh_addresses h us = true ->
  NoDup (addresses us)
  /\ forall p, p ∈ addresses us -> p <> 0 /\ h p = Mem.Unused.
Proof.
  unfold fresh_addresses. intros [Hnd Hall]%andb_true_iff.
  apply bool_decide_eq_true in Hnd. split; [exact Hnd|].
  rewrite forallb_forall in Hall. intros p Hp.
  apply list_elem_of_In in Hp. specialize (Hall p Hp). unfold unused in Hall.
  apply andb_true_iff in Hall as [H0 Hu].
  split.
  - intros ->. discriminate.
  - destruct (h p); [reflexivity | discriminate | discriminate].
Qed.

(** The state that a program gets to is one of a well-behaved caller. *)
Lemma played_well_used (us : list use) :
  fresh_addresses empty_heap us = true ->
  uses_with_memory us = true ->
  Z.of_nat (length us) <= KH_MAX_COUNT ->
  well_used (played us).1 (played us).2.
Proof.
  intros Hfresh Hmem Hmax.
  destruct (fresh_addresses_spec _ _ Hfresh) as [Hnd Hun].
  destruct (play_spec us empty_heap Mem.KH_Dict_zero [] (Owns_zero _) Hnd Hun Hmem)
    as (pd' & h' & es' & Hrun & _ & W & _); [simpl; lia|].
  unfold played. rewrite Hrun. simpl. apply W.
  apply well_used_create. reflexivity.
Defined.

Lemma well_used_blob (h : Mem.heap) (pd : Mem.KH_Dict) (p : Z) (str : string) :
  well_used h pd -> p <> 0 -> h p = Mem.Unused ->
  well_used (Mem.set_cell p (Mem.Live (text_blob str)) h) pd.
Proof.
  intros W Hp Hu.
  exact (well_used_step _ _ _ _ W (mem_step_BlobForString h pd p str Hp Hu)).
Defined.

Lemma demo_well_used : well_used demo_heap demo_dict.
Proof.
  apply played_well_used.
  - vm_compute. reflexivity.
  - reflexivity.
  - vm_compute. discriminate.
Defined.

Lemma length_pointers_of (ps : list Mem.KH_DictPair) :
  length (pointers_of ps) = (2 * length ps)%nat.
Proof.
  induction ps as [|pp ps IH]; [reflexivity|].
  unfold pointers_of in *. simpl. rewrite IH. lia.
Qed.

Lemma Owns_count (h : Mem.heap) (pd : Mem.KH_Dict) (es : list (KH_Blob * KH_Blob)) :
  Owns h pd es ->
  Mem.data_count pd = Z.of_nat (length es)
  /\ (length es <= length (Mem.pairs pd))%nat
  /\ Z.of_nat (length es) < 2 ^ 64.
Proof.
  intros O. pose proof (owns_rep _ _ _ O) as R.
  split; [exact (rep_count _ _ R)|]. split.
  - pose proof (pairs_hold_length _ _ (rep_pairs _ _ R)) as H. simpl in H.
    rewrite length_fmap in H. exact H.
  - pose proof (Rep_small _ _ R) as H. unfold KH_HASH_DELETED in H. lia.
Qed.

(** The pointers at an index below the count. *)
Lemma Mem_iter_at (h : Mem.heap) (pd : Mem.KH_Dict) (es : list (KH_Blob * KH_Blob))
    (i : Z) :
  Owns h pd es -> 0 <= i < Mem.data_count pd ->
  exists pp k v,
    Mem.pairs pd !! Z.to_nat i = Some pp
    /\ es !! Z.to_nat i = Some (k, v)
    /\ Mem.KH_DictKeyIter pd i h = Mem.Done (Mem.key pp) h
    /\ Mem.KH_DictValueIter pd i h = Mem.Done (Mem.value pp) h
    /\ Mem.key pp <> 0 /\ h (Mem.key pp) = Mem.Live k
    /\ Mem.value pp <> 0 /\ h (Mem.value pp) = Mem.Live v
    /\ Mem.key pp ∈ owned pd /\ Mem.value pp ∈ owned pd.
Proof.
  intros O Hi. destruct (Owns_count h pd es O) as (Hc & _ & _).
  destruct (lookup_lt_is_Some_2 es (Z.to_nat i)) as [[k v] Hj]; [lia|].
  destruct (Owns_pair h pd es _ k v O Hj)
    as (pp & Hpp & Hk0 & Hk & Hv0 & Hv & Hko & Hvo).
  exists pp, k, v.
  assert (Hrd : rd (Mem.pairs pd) i = Ok pp) by (apply rd_Ok; split; [lia | exact Hpp]).
  unfold Mem.KH_DictKeyIter, Mem.KH_DictValueIter, Mem.lift.
  destruct (Z.ltb_spec i (Mem.data_count pd)); [|lia].
  rewrite Hrd. simpl. repeat (split; [first [assumption | reflexivity]|]). exact Hvo.
Qed.

(** [KH_DictGet] with a key that is present. *)
Lemma Owns_Get_found (h : Mem.heap) (pd : Mem.KH_Dict)
    (es : list (KH_Blob * KH_Blob)) (kp : Z) (k : KH_Blob)
    (j : nat) (kj vj : KH_Blob) (pp : Mem.KH_DictPair) :
  Owns h pd es -> kp <> 0 -> h kp = Mem.Live k ->
  es !! j = Some (kj, vj) -> KH_BlobEqual k kj = true ->
  Mem.pairs pd !! j = Some pp ->
  Mem.KH_DictGet pd kp h = Mem.Done (Mem.value pp) (Mem.set_cell kp (Mem.Freed k) h).
Proof.
  intros O Hkp Hk Hj Hkj Hpp. pose proof (owns_rep _ _ _ O) as R.
  unfold Mem.KH_DictGet, Mem.bind.
  rewrite (Mem_lookup_found h pd es O kp k Hkp Hk j kj vj Hj Hkj).
  rewrite (free_live h kp k Hkp Hk).
  rewrite (index_not_NOT_FOUND _ _ _ R (lookup_lt_Some _ _ _ Hj)).
  assert (Hrd : rd (Mem.pairs pd) (Z.of_nat j) = Ok pp).
  { apply rd_Ok. split; [lia|]. rewrite Nat2Z.id. exact Hpp. }
  unfold Mem.lift. rewrite Hrd. reflexivity.
Qed.

(** [KH_ReleaseDict] on a dictionary whose blobs are all allocated. *)
Lemma Owns_Release (h : Mem.heap) (pd : Mem.KH_Dict) (es : list (KH_Blob * KH_Blob)) :
  Owns h pd es ->
  exists h',
    Mem.KH_ReleaseDict pd h = Mem.Done tt h'
    /\ (forall q, q ∈ owned pd -> exists b, h q = Mem.Live b /\ h' q = Mem.Freed b)
    /\ (forall q, q ∉ owned pd -> h' q = h q).
Proof.
  intros O. destruct (Owns_count h pd es O) as (Hc & Hlen & H64).
  unfold Mem.KH_ReleaseDict.
  apply (Mem_release_loop pd (Z.to_nat (Mem.data_count pd)) ltac:(lia)
           (Z.to_nat (Mem.data_count pd)) 0%nat h).
  - reflexivity.
  - lia.
  - exact (owns_distinct _ _ _ O).
  - exact (owns_live _ _ _ O).
Qed.

(** [KH_ReleaseDict] after one blob of the dictionary was freed. *)
Lemma Owns_Release_stuck (h h1 : Mem.heap) (pd : Mem.KH_Dict)
    (es : list (KH_Blob * KH_Blob)) (q : Z) (b : KH_Blob) :
  Owns h pd es -> q ∈ owned pd -> h1 q = Mem.Freed b ->
  (forall q', q' ∈ owned pd -> q' <> q -> live h1 q') ->
  Mem.KH_ReleaseDict pd h1 = Mem.Stuck Mem.DoubleFree.
Proof.
  intros O Hq Hf Hl. destruct (Owns_count h pd es O) as (Hc & Hlen & H64).
  unfold Mem.KH_ReleaseDict.
  apply (Mem_release_loop_stuck pd (Z.to_nat (Mem.data_count pd)) q b ltac:(lia)
           (proj1 (owns_live _ _ _ O _ Hq))
           (Z.to_nat (Mem.data_count pd)) 0%nat h1).
  - reflexivity.
  - lia.
  - exact (owns_distinct _ _ _ O).
  - exact Hq.
  - exact Hf.
  - exact Hl.
Qed.

(** X21. A caller that follows the ownership rules (it gives the
    dictionary allocated blobs that the dictionary does not hold, and
    frees no blob of the dictionary) calls [KH_DictGet] or [KH_DictHas]
    with an allocated key blob: the call returns, it frees the key blob
    it was given and no other cell of the heap changes; the result of
    [KH_DictGet] is NULL or the value pointer of an entry, still
    allocated after the call and still owned by the dictionary; its blob
    is the value that the lookup by content gives; the dictionary is
    unchanged and the caller is still in a proper state. *)
Theorem get_frees_the_key_it_is_given (h : Mem.heap) (pd : Mem.KH_Dict)
    (kp : Z) (k : KH_Blob) :
  well_used h pd -> kp <> 0 -> h kp = Mem.Live k -> kp ∉ owned pd ->
  exists vp,
    Mem.KH_DictGet pd kp h = Mem.Done vp (Mem.set_cell kp (Mem.Freed k) h)
    /\ Mem.KH_DictHas pd kp h
       = Mem.Done (negb (vp =? 0)) (Mem.set_cell kp (Mem.Freed k) h)
    /\ KH_DictGet (view h pd) k = Ok (contents h vp)
    /\ (vp = 0 \/ (vp ∈ owned pd /\ live (Mem.set_cell kp (Mem.Freed k) h) vp))
    /\ view (Mem.set_cell kp (Mem.Freed k) h) pd = view h pd
    /\ well_used (Mem.set_cell kp (Mem.Freed k) h) pd.
Proof.
  intros W Hkp Hk Hno.
  destruct (well_used_Owns h pd W) as [[es O] _].
  destruct (Owns_Get h pd es kp k O Hkp Hk) as (vp & Hget & Hhas & Hv & _ & Hvp).
  exists vp. split; [exact Hget|]. split; [exact Hhas|]. split; [exact Hv|].
  split; [|split].
  - destruct Hvp as [->|Hin]; [left; reflexivity|]. right. split; [exact Hin|].
    apply live_freed_other; [exact (owns_live _ _ _ O _ Hin)|].
    intros ->. contradiction.
  - exact (view_freed h pd kp k Hk).
  - apply (well_used_step h pd); [exact W|].
    apply (mem_step_get h pd kp vp); [split; [exact Hkp | eauto] | exact Hno | exact Hget].
Qed.

Lemma get_frees_the_key_it_is_given_witness :
  well_used (Mem.set_cell 21 (Mem.Live (text_blob ":3")) demo_heap) demo_dict
  /\ (21 ∉ owned demo_dict)
  /\ exists vp,
       Mem.KH_DictGet demo_dict 21
         (Mem.set_cell 21 (Mem.Live (text_blob ":3")) demo_heap)
       = Mem.Done vp
           (Mem.set_cell 21 (Mem.Freed (text_blob ":3"))
              (Mem.set_cell 21 (Mem.Live (text_blob ":3")) demo_heap))
       /\ (vp = 0 \/ vp ∈ owned demo_dict).
Proof.
  assert (W : well_used (Mem.set_cell 21 (Mem.Live (text_blob ":3")) demo_heap)
                demo_dict).
  { apply well_used_blob; [exact demo_well_used | lia | reflexivity]. }
  assert (Hno : 21 ∉ owned demo_dict).
  { apply (bool_decide_eq_false_1 (21 ∈ owned demo_dict)). vm_compute. reflexivity. }
  split; [exact W|]. split; [exact Hno|].
  destruct (get_frees_the_key_it_is_given
              (Mem.set_cell 21 (Mem.Live (text_blob ":3")) demo_heap) demo_dict
              21 (text_blob ":3") W)
    as (vp & Hget & _ & _ & Hvp & _).
  - lia.
  - reflexivity.
  - exact Hno.
  - exists vp. split; [exact Hget|]. destruct Hvp as [->|[Hin _]]; auto.
Defined.

(** X22. [KH_DictSet] called by the rules, with two allocated blobs of
    the caller at different addresses and fewer than [KH_MAX_COUNT]
    entries, returns, and computes on the blobs what the set by content
    computes.  Who owns the blobs afterwards depends on the path: when it
    returns false (the table had to grow and an allocation failed) the
    dictionary and the heap are unchanged, so both blobs are still the
    caller's; when the key is new, both pointers are stored as the last
    entry and nothing is freed; when the key is present, the value blob
    that the entry had and the key blob given are freed, and the value
    pointer given takes the place of the old one. *)
Theorem set_stores_or_frees_the_blobs (a b : bool) (h : Mem.heap)
    (pd : Mem.KH_Dict) (kp vp : Z) (k v : KH_Blob) :
  well_used h pd -> Mem.KH_DictLen pd < KH_MAX_COUNT ->
  kp <> 0 -> h kp = Mem.Live k -> vp <> 0 -> h vp = Mem.Live v ->
  kp <> vp -> kp ∉ owned pd -> vp ∉ owned pd ->
  exists pd' r h',
    Mem.KH_DictSet a b pd kp vp h = Mem.Done (pd', r) h'
    /\ KH_DictSet a b (view h pd) k v = Ok (view h' pd', r)
    /\ well_used h' pd'
    /\ ((r = false /\ a && b = false /\ pd' = pd /\ h' = h)
        \/ (r = true /\ KH_DictHas (view h pd) k = Ok false
            /\ h' = h /\ owned pd' = owned pd ++ [kp; vp])
        \/ (r = true /\ exists old vold,
              KH_DictGet (view h pd) k = Ok (Some vold)
              /\ old ∈ owned pd /\ h old = Mem.Live vold
              /\ h' = Mem.set_cell kp (Mem.Freed k)
                        (Mem.set_cell old (Mem.Freed vold) h)
              /\ forall q, q ∈ owned pd' <-> (q ∈ owned pd /\ q <> old) \/ q = vp)).
Proof.
  intros W Hmax Hkp Hk Hvp Hv Hne Hkno Hvno. unfold Mem.KH_DictLen in Hmax.
  destruct (well_used_Owns h pd W) as [[es O] _].
  destruct (Owns_count h pd es O) as (Hc & _ & _).
  pose proof (owns_rep _ _ _ O) as R.
  assert (Hstep : forall pd' r h',
             Mem.KH_DictSet a b pd kp vp h = Mem.Done (pd', r) h' -> well_used h' pd').
  { intros pd' r h' Hs. apply (well_used_step h pd); [exact W|].
    apply (mem_step_set h pd a b kp vp pd' r h');
      [split; eauto | split; eauto | assumption..]. }
  destruct (present_or_absent k es) as [(j & kj & vj & Hj & Hkj)|Ha].
  - destruct (Owns_Set_old a b h pd es kp vp k v j kj vj
                O Hkp Hk Hvp Hv Hne Hkno Hvno Hj Hkj)
      as (pp & pd' & Hpp & Hold & Hoin & Hs & Hsv & O' & Hmem).
    exists pd', true,
      (Mem.set_cell kp (Mem.Freed k) (Mem.set_cell (Mem.value pp) (Mem.Freed vj) h)).
    split; [exact Hs|]. split; [exact Hsv|]. split; [exact (Hstep _ _ _ Hs)|].
    right. right. split; [reflexivity|]. exists (Mem.value pp), vj.
    split; [exact (Rep_Get_found _ _ R k j kj vj Hj Hkj)|].
    split; [exact Hoin|]. split; [exact Hold|]. split; [reflexivity | exact Hmem].
  - destruct (Owns_Set_new a b h pd es kp vp k v
                O Hkp Hk Hvp Hv Hne Hkno Hvno Ha ltac:(lia))
      as [(Hab & _ & Hs & Hsv)|(_ & pd' & Hs & Hsv & O' & How)].
    + exists pd, false, h.
      split; [exact Hs|]. split; [exact Hsv|]. split; [exact (Hstep _ _ _ Hs)|].
      left. auto.
    + exists pd', true, h.
      split; [exact Hs|]. split; [exact Hsv|]. split; [exact (Hstep _ _ _ Hs)|].
      right. left. split; [reflexivity|].
      split; [exact (Rep_Has_absent _ _ R k Ha) | auto].
Qed.

Lemma set_stores_or_frees_the_blobs_witness :
  well_used
    (Mem.set_cell 22 (Mem.Live (text_blob "again"))
       (Mem.set_cell 21 (Mem.Live (text_blob "hello")) demo_heap)) demo_dict
  /\ Mem.KH_DictLen demo_dict < KH_MAX_COUNT
  /\ exists pd' h',
       Mem.KH_DictSet true true demo_dict 21 22
         (Mem.set_cell 22 (Mem.Live (text_blob "again"))
            (Mem.set_cell 21 (Mem.Live (text_blob "hello")) demo_heap))
       = Mem.Done (pd', true) h'
       /\ well_used h' pd'.
Proof.
  assert (W : well_used
                (Mem.set_cell 22 (Mem.Live (text_blob "again"))
                   (Mem.set_cell 21 (Mem.Live (text_blob "hello")) demo_heap))
                demo_dict).
  { apply well_used_blob; [|lia | reflexivity].
    apply well_used_blob; [exact demo_well_used | lia | reflexivity]. }
  split; [exact W|]. split; [vm_compute; reflexivity|].
  destruct (set_stores_or_frees_the_blobs true true
              (Mem.set_cell 22 (Mem.Live (text_blob "again"))
                 (Mem.set_cell 21 (Mem.Live (text_blob "hello")) demo_heap))
              demo_dict 21 22 (text_blob "hello") (text_blob "again") W)
    as (pd' & r & h' & Hs & _ & W' & Hcase).
  - vm_compute. reflexivity.
  - lia.
  - reflexivity.
  - lia.
  - reflexivity.
  - lia.
  - apply (bool_decide_eq_false_1 (21 ∈ owned demo_dict)). vm_compute. reflexivity.
  - apply (bool_decide_eq_false_1 (22 ∈ owned demo_dict)). vm_compute. reflexivity.
  - exists pd', h'. split; [|exact W'].
    destruct Hcase as [(_ & Hab & _)|[(-> & _)|(-> & _)]];
      [discriminate | exact Hs | exact Hs].
Defined.

(** X23. [KH_DictDelete] called by the rules with an allocated key blob
    of the caller returns, and computes on the blobs what the delete by
    content computes.  It always frees the key blob given.  When no
    entry has the key it returns false and nothing else changes; when an
    entry has it, the key blob and the value blob of that entry are freed
    as well, the dictionary no longer owns these two pointers and owns
    all the others as before. *)
Theorem delete_frees_the_key_and_the_entry (h : Mem.heap) (pd : Mem.KH_Dict)
    (kp : Z) (k : KH_Blob) :
  well_used h pd -> kp <> 0 -> h kp = Mem.Live k -> kp ∉ owned pd ->
  exists pd' r h',
    Mem.KH_DictDelete pd kp h = Mem.Done (pd', r) h'
    /\ KH_DictDelete (view h pd) k = Ok (view h' pd', r)
    /\ well_used h' pd'
    /\ ((r = false /\ KH_DictHas (view h pd) k = Ok false
         /\ pd' = pd /\ h' = Mem.set_cell kp (Mem.Freed k) h)
        \/ (r = true /\ exists sk sv bk bv,
              KH_BlobEqual k bk = true
              /\ KH_DictGet (view h pd) k = Ok (Some bv)
              /\ sk ∈ owned pd /\ sv ∈ owned pd
              /\ h sk = Mem.Live bk /\ h sv = Mem.Live bv
              /\ h' = Mem.set_cell kp (Mem.Freed k)
                        (Mem.set_cell sv (Mem.Freed bv)
                           (Mem.set_cell sk (Mem.Freed bk) h))
              /\ forall q, q ∈ owned pd' <-> q ∈ owned pd /\ q <> sk /\ q <> sv)).
Proof.
  intros W Hkp Hk Hkno.
  destruct (well_used_Owns h pd W) as [[es O] _].
  pose proof (owns_rep _ _ _ O) as R.
  assert (Hstep : forall pd' r h',
             Mem.KH_DictDelete pd kp h = Mem.Done (pd', r) h' -> well_used h' pd').
  { intros pd' r h' Hs. apply (well_used_step h pd); [exact W|].
    apply (mem_step_delete h pd kp pd' r h'); [split; eauto | assumption..]. }
  destruct (present_or_absent k es) as [(j & kj & vj & Hj & Hkj)|Ha].
  - destruct (Owns_Delete_found h pd es kp k j kj vj O Hkp Hk Hkno Hj Hkj)
      as (pp & pd' & Hpp & Hkl & Hvl & Hko & Hvo & Hs & Hsv & O' & Hmem).
    exists pd', true,
      (Mem.set_cell kp (Mem.Freed k)
         (Mem.set_cell (Mem.value pp) (Mem.Freed vj)
            (Mem.set_cell (Mem.key pp) (Mem.Freed kj) h))).
    split; [exact Hs|]. split; [exact Hsv|]. split; [exact (Hstep _ _ _ Hs)|].
    right. split; [reflexivity|]. exists (Mem.key pp), (Mem.value pp), kj, vj.
    split; [exact Hkj|].
    split; [exact (Rep_Get_found _ _ R k j kj vj Hj Hkj)|].
    repeat (split; [assumption|]). split; [reflexivity | exact Hmem].
  - destruct (Owns_Delete_absent h pd es kp k O Hkp Hk Ha) as [Hs Hsv].
    exists pd, false, (Mem.set_cell kp (Mem.Freed k) h).
    split; [exact Hs|]. split; [exact Hsv|]. split; [exact (Hstep _ _ _ Hs)|].
    left. split; [reflexivity|].
    split; [exact (Rep_Has_absent _ _ R k Ha) | auto].
Qed.

Lemma delete_frees_the_key_and_the_entry_witness :
  well_used (Mem.set_cell 21 (Mem.Live (text_blob "skibidi")) demo_heap) demo_dict
  /\ (21 ∉ owned demo_dict)
  /\ exists pd' h',
       Mem.KH_DictDelete demo_dict 21
         (Mem.set_cell 21 (Mem.Live (text_blob "skibidi")) demo_heap)
       = Mem.Done (pd', true) h'
       /\ well_used h' pd'.
Proof.
  assert (W : well_used (Mem.set_cell 21 (Mem.Live (text_blob "skibidi")) demo_heap)
                demo_dict).
  { apply well_used_blob; [exact demo_well_used | lia | reflexivity]. }
  assert (Hno : 21 ∉ owned demo_dict).
  { apply (bool_decide_eq_false_1 (21 ∈ owned demo_dict)). vm_compute. reflexivity. }
  split; [exact W|]. split; [exact Hno|].
  destruct (delete_frees_the_key_and_the_entry
              (Mem.set_cell 21 (Mem.Live (text_blob "skibidi")) demo_heap) demo_dict
              21 (text_blob "skibidi") W)
    as (pd' & r & h' & Hs & _ & W' & Hcase).
  - lia.
  - reflexivity.
  - exact Hno.
  - exists pd', h'. split; [|exact W'].
    destruct Hcase as [(_ & Hhas & _)|(-> & _)]; [|exact Hs].
    vm_compute in Hhas. discriminate.
Defined.

(** X24. [KH_ReleaseDict] on a dictionary used by the rules returns; it
    frees the key blob and the value blob of every entry, each of which
    was allocated until then, and changes no other cell of the heap: not
    a blob of the caller, and not the two blobs of an entry deleted
    before, whose pointers may still be in the pair array above the
    count. *)
Theorem release_frees_the_blobs_of_the_entries (h : Mem.heap) (pd : Mem.KH_Dict) :
  well_used h pd ->
  exists h',
    Mem.KH_ReleaseDict pd h = Mem.Done tt h'
    /\ (forall q, q ∈ owned pd -> exists b, h q = Mem.Live b /\ h' q = Mem.Freed b)
    /\ (forall q, q ∉ owned pd -> h' q = h q).
Proof.
  intros W. destruct (well_used_Owns h pd W) as [[es O] _].
  exact (Owns_Release h pd es O).
Qed.

Lemma release_frees_the_blobs_of_the_entries_witness :
  exists h',
    Mem.KH_ReleaseDict demo_dict demo_heap = Mem.Done tt h'
    /\ h' 20 = Mem.Freed (text_blob "L rizz")
    /\ h' 21 = Mem.Unused.
Proof.
  destruct (release_frees_the_blobs_of_the_entries demo_heap demo_dict demo_well_used)
    as (h' & Hrel & Hfreed & Hkept).
  exists h'. split; [exact Hrel|]. split.
  - destruct (Hfreed 20) as (b & Hb & Hb').
    + apply (bool_decide_eq_true_1 (20 ∈ owned demo_dict)). vm_compute. reflexivity.
    + rewrite Hb'. vm_compute in Hb. injection Hb as <-. reflexivity.
  - rewrite Hkept; [reflexivity|].
    apply (bool_decide_eq_false_1 (21 ∈ owned demo_dict)). vm_compute. reflexivity.
Defined.

(** X25. The two ways to break the ownership rules that the signatures
    invite.  For every entry of a dictionary used by the rules so far:
    (1) [KH_DictGet] called with the key pointer that [KH_DictKeyIter]
    returned finds the entry and returns its value pointer, but frees the
    key blob of the entry itself; (2) the caller can release the value
    pointer that [KH_DictValueIter] (or [KH_DictGet]) returned.  After
    either, [KH_ReleaseDict] frees a blob a second time. *)
Theorem blob_of_an_entry_freed_by_the_caller_is_freed_twice
    (h : Mem.heap) (pd : Mem.KH_Dict) (i : Z) :
  well_used h pd -> 0 <= i < Mem.KH_DictLen pd ->
  exists kp vp k v,
    Mem.KH_DictKeyIter pd i h = Mem.Done kp h
    /\ Mem.KH_DictValueIter pd i h = Mem.Done vp h
    /\ h kp = Mem.Live k /\ h vp = Mem.Live v
    /\ Mem.KH_DictGet pd kp h = Mem.Done vp (Mem.set_cell kp (Mem.Freed k) h)
    /\ Mem.KH_ReleaseDict pd (Mem.set_cell kp (Mem.Freed k) h)
       = Mem.Stuck Mem.DoubleFree
    /\ Mem.KH_ReleaseBlob vp h = Mem.Done tt (Mem.set_cell vp (Mem.Freed v) h)
    /\ Mem.KH_ReleaseDict pd (Mem.set_cell vp (Mem.Freed v) h)
       = Mem.Stuck Mem.DoubleFree.
Proof.
  intros W Hi. unfold Mem.KH_DictLen in Hi.
  destruct (well_used_Owns h pd W) as [[es O] _].
  destruct (Mem_iter_at h pd es i O Hi)
    as (pp & k & v & Hpp & Hj & Hki & Hvi & Hk0 & Hk & Hv0 & Hv & Hko & Hvo).
  exists (Mem.key pp), (Mem.value pp), k, v.
  split; [exact Hki|]. split; [exact Hvi|]. split; [exact Hk|]. split; [exact Hv|].
  split; [|split; [|split]].
  - exact (Owns_Get_found h pd es (Mem.key pp) k (Z.to_nat i) k v pp
             O Hk0 Hk Hj (KH_BlobEqual_refl k) Hpp).
  - apply (Owns_Release_stuck h _ pd es (Mem.key pp) k O Hko).
    + apply set_cell_same.
    + intros q' Hq' Hne. apply live_freed_other; [exact (owns_live _ _ _ O _ Hq') | exact Hne].
  - unfold Mem.KH_ReleaseBlob. exact (free_live h _ v Hv0 Hv).
  - apply (Owns_Release_stuck h _ pd es (Mem.value pp) v O Hvo).
    + apply set_cell_same.
    + intros q' Hq' Hne. apply live_freed_other; [exact (owns_live _ _ _ O _ Hq') | exact Hne].
Qed.

Lemma blob_of_an_entry_freed_by_the_caller_is_freed_twice_witness :
  0 <= 7 < Mem.KH_DictLen demo_dict
  /\ exists kp k,
       Mem.KH_DictKeyIter demo_dict 7 demo_heap = Mem.Done kp demo_heap
       /\ demo_heap kp = Mem.Live k
       /\ Mem.KH_ReleaseDict demo_dict (Mem.set_cell kp (Mem.Freed k) demo_heap)
          = Mem.Stuck Mem.DoubleFree.
Proof.
  assert (Hi : 0 <= 7 < Mem.KH_DictLen demo_dict)
    by (vm_compute; split; [discriminate | reflexivity]).
  split; [exact Hi|].
  destruct (blob_of_an_entry_freed_by_the_caller_is_freed_twice
              demo_heap demo_dict 7 demo_well_used Hi)
    as (kp & vp & k & v & Hki & _ & Hk & _ & _ & Hrel & _).
  exists kp, k. split; [exact Hki|]. split; [exact Hk | exact Hrel].
Defined.

(** X26. A program in the style of [main.c]: [KH_CreateDict], then any
    number (up to [KH_MAX_COUNT]) of calls of [KH_DictSet],
    [KH_DictDelete], [KH_DictGet] and [KH_DictHas] whose blob arguments
    are made by [KH_BlobForString] in the argument list, then
    [KH_ReleaseDict].  When the allocator gives a new address for every
    blob and every set has the memory for its resize, the program runs to
    the end without a fault, without reading or freeing a freed blob;
    every blob that it made is freed at the end, exactly once (no leak),
    and no other cell of the heap is touched. *)
Theorem program_frees_every_blob_once (h0 : Mem.heap) (us : list use) :
  fresh_addresses h0 us = true ->
  uses_with_memory us = true ->
  Z.of_nat (length us) <= KH_MAX_COUNT ->
  exists h',
    program us h0 = Mem.Done tt h'
    /\ (forall p, p ∈ addresses us -> exists b, h' p = Mem.Freed b)
    /\ (forall p, p ∉ addresses us -> h' p = h0 p).
Proof.
  intros Hfresh Hmem Hmax.
  destruct (fresh_addresses_spec _ _ Hfresh) as [Hnd Hun].
  destruct (play_spec us h0 Mem.KH_Dict_zero [] (Owns_zero _) Hnd Hun Hmem)
    as (pd1 & h1 & es1 & Hrun & O1 & _ & A & B & C); [simpl; lia|].
  destruct (Owns_Release h1 pd1 es1 O1) as (h' & Hrel & Hfreed & Hkept).
  assert (Howned : forall p, p ∈ owned pd1 -> p ∈ addresses us).
  { intros p Hp. destruct (C p Hp) as [Hin|Hin]; [exact Hin|].
    apply elem_of_nil in Hin. contradiction. }
  exists h'. unfold program, Mem.bind. simpl. rewrite Hrun.
  split; [exact Hrel|]. split.
  - intros p Hp. destruct (A p (or_introl Hp)) as [[b Hb]|Hin].
    + exists b. rewrite Hkept; [exact Hb|].
      intros Hin. destruct (owns_live _ _ _ O1 _ Hin) as [_ [b' Hb']]. congruence.
    + destruct (Hfreed p Hin) as (b & _ & Hb). eauto.
  - intros p Hp. rewrite Hkept.
    + apply B; [exact Hp|]. intros Hin. apply elem_of_nil in Hin. contradiction.
    + intros Hin. exact (Hp (Howned p Hin)).
Qed.

Lemma program_frees_every_blob_once_witness :
  exists h',
    program main_uses empty_heap = Mem.Done tt h'
    /\ (exists b, h' 22 = Mem.Freed b)
    /\ h' 23 = Mem.Unused.
Proof.
  destruct (program_frees_every_blob_once empty_heap main_uses)
    as (h' & Hrun & Hfreed & Hkept).
  - vm_compute. reflexivity.
  - reflexivity.
  - vm_compute. discriminate.
  - exists h'. split; [exact Hrun|]. split.
    + apply Hfreed.
      apply (bool_decide_eq_true_1 (22 ∈ addresses main_uses)). vm_compute. reflexivity.
    + rewrite Hkept; [reflexivity|].
      apply (bool_decide_eq_false_1 (23 ∈ addresses main_uses)). vm_compute. reflexivity.
Defined.

Lemma pointers_of_lookup (ps : list Mem.KH_DictPair) :
  forall j : nat,
    pointers_of ps !! (2 * j)%nat = Mem.key <$> ps !! j
    /\ pointers_of ps !! (2 * j + 1)%nat = Mem.value <$> ps !! j.
Proof.
  induction ps as [|pp ps IH]; intros j.
  - split; reflexivity.
  - destruct j as [|j].
    + split; reflexivity.
    + replace (2 * S j)%nat with (S (S (2 * j))) by lia.
      replace (S (S (2 * j)) + 1)%nat with (S (S (2 * j + 1))) by lia.
      exact (IH j).
Qed.

(** X27. What the iterators return on a dictionary used by the rules.
    Below the length, [KH_DictKeyIter] and [KH_DictValueIter] return the
    stored pointers, not copies: two allocated blobs, which are the key
    and the value that the iterators by content give, at the places
    [2 i] and [2 i + 1] of the list of the pointers that the dictionary
    owns.  That list has two pointers for each entry and no pointer
    twice, so no blob is shared between two entries or between a key and
    a value.  From the length on, both iterators return NULL.  The heap
    is not changed. *)
Theorem iterators_return_the_stored_pointers (h : Mem.heap) (pd : Mem.KH_Dict) :
  well_used h pd ->
  NoDup (owned pd)
  /\ Z.of_nat (length (owned pd)) = 2 * Mem.KH_DictLen pd
  /\ (forall i, 0 <= i < Mem.KH_DictLen pd ->
        exists kp vp k v,
          Mem.KH_DictKeyIter pd i h = Mem.Done kp h
          /\ Mem.KH_DictValueIter pd i h = Mem.Done vp h
          /\ kp <> 0 /\ h kp = Mem.Live k
          /\ vp <> 0 /\ h vp = Mem.Live v
          /\ KH_DictKeyIter (view h pd) i = Ok (Some k)
          /\ KH_DictValueIter (view h pd) i = Ok (Some v)
          /\ owned pd !! Z.to_nat (2 * i) = Some kp
          /\ owned pd !! Z.to_nat (2 * i + 1) = Some vp)
  /\ (forall i, Mem.KH_DictLen pd <= i ->
        Mem.KH_DictKeyIter pd i h = Mem.Done 0 h
        /\ Mem.KH_DictValueIter pd i h = Mem.Done 0 h).
Proof.
  intros W. unfold Mem.KH_DictLen.
  destruct (well_used_Owns h pd W) as [[es O] _].
  destruct (Owns_count h pd es O) as (Hc & Hlen & _).
  pose proof (owns_rep _ _ _ O) as R.
  split; [exact (owns_distinct _ _ _ O)|]. split; [|split].
  - unfold owned. rewrite length_pointers_of, length_take. lia.
  - intros i Hi.
    destruct (Mem_iter_at h pd es i O Hi)
      as (pp & k & v & Hpp & Hj & Hki & Hvi & Hk0 & Hk & Hv0 & Hv & _).
    exists (Mem.key pp), (Mem.value pp), k, v.
    repeat (split; [assumption|]).
    split; [rewrite (Rep_KeyIter_Z _ _ i R) by lia; rewrite Hj; reflexivity|].
    split; [rewrite (Rep_ValueIter_Z _ _ i R) by lia; rewrite Hj; reflexivity|].
    destruct (pointers_of_lookup
                (take (Z.to_nat (Mem.data_count pd)) (Mem.pairs pd)) (Z.to_nat i))
      as [Hkey Hval].
    rewrite lookup_take_lt, Hpp in Hkey, Hval by lia. simpl in Hkey, Hval.
    unfold owned.
    replace (Z.to_nat (2 * i)) with (2 * Z.to_nat i)%nat by lia.
    replace (Z.to_nat (2 * i + 1)) with (2 * Z.to_nat i + 1)%nat by lia.
    split; assumption.
  - intros i Hi. unfold Mem.KH_DictKeyIter, Mem.KH_DictValueIter, Mem.lift.
    destruct (Z.ltb_spec i (Mem.data_count pd)); [lia|]. split; reflexivity.
Qed.

Lemma iterators_return_the_stored_pointers_witness :
  Z.of_nat (length (owned demo_dict)) = 2 * Mem.KH_DictLen demo_dict
  /\ exists kp vp,
       Mem.KH_DictKeyIter demo_dict 9 demo_heap = Mem.Done kp demo_heap
       /\ Mem.KH_DictValueIter demo_dict 9 demo_heap = Mem.Done vp demo_heap
       /\ demo_heap kp = Mem.Live (text_blob "skibidi")
       /\ demo_heap vp = Mem.Live (text_blob "L rizz").
Proof.
  destruct (iterators_return_the_stored_pointers demo_heap demo_dict demo_well_used)
    as (_ & Hlen & Hiter & _).
  split; [exact Hlen|].
  destruct (Hiter 9) as (kp & vp & k & v & Hki & Hvi & _ & Hk & _ & Hv & Hkv & Hvv & _).
  - vm_compute. split; [discriminate | reflexivity].
  - exists kp, vp. split; [exact Hki|]. split; [exact Hvi|].
    vm_compute in Hkv. injection Hkv as <-.
    vm_compute in Hvv. injection Hvv as <-.
    split; assumption.
Defined.
